(* ===== verification/_CoqProject ===== *)
-Q . S2P
Prelude.v
Prog.v
Buffer.v
Http.v
Request.v
RequestSpec.v
Db.v
Store.v
Threads.v
ThreadsThm.v
Array.v
Route.v
Heap.v
Clist.v
Rbtree.v
RbtreeSpec.v
RbtreeInv.v
RbtreeDel.v
RbtreeSearch.v
Timer.v
TimerSpec.v
RbtreeThm.v
Sentinel.v
World.v
Event.v
EventSpec.v
TimerThm.v
Connection.v
Worker.v
ReadSpec.v
SendSpec.v
ConnSpec.v
ConnThm.v
WorkerThm.v
FileMap.v
Ipc.v
Caskmon.v
Cask.v
CaskSpec.v
CaskThm.v
MainThm.v
Shared.v
Registry.v
Answer.v
Session.v
SessionTimers.v
SessionSpec.v
SessionRun.v
SessionThm.v
SessionStop.v
