(* ===== verification/Prelude.v ===== *)
(** * Cask, a paste server in C: a verification development

    Cask (src/src/cask.c and the files beside it) keeps pastes in a database file
    and serves them over HTTP.  main parses the options, opens the database, maps
    the index page, makes three routes and starts workers.  Each worker is a thread
    with a listening socket of its own, an epoll event loop, a red-black tree of
    timers and a list of connections; a connection reads a request into a growable
    buffer, has it parsed and routed, and sends the response from the same buffer.
    The main thread answers the monitor (caskmon) on a Unix socket.

    ** Files

    The library follows the C files, from the leaves up.  For each, the functions
    keep their names.

    - Prelude.v (this file): the result type [res] of a fragment of C (a value,
      undefined behaviour [Stuck], fuel that ran out [Timeout], a call that never
      returns [Blocked], the end of the process [Killed]), the state monad [cmd] and its
      weakest precondition [wp], fixed-width integers, little-endian bytes, lists of
      bytes.
    - Prog.v: programs of atomic steps, for threads that share a state.
    - Buffer.v: buffer.c, and the C library functions on bytes (module CMem).
    - Http.v: the enumerations and tables of http.c and http.h.
    - Request.v: request.c, the tokenisers, the parser as one definition per case of
      its switch, and the text of a response.  RequestSpec.v: rendering a request, the
      round trip, safety on any bytes, resumption, the response.
    - Db.v: db.c over the bytes of the file, a schedule of the outcomes of the system
      calls, and the lock.  The abstract store is the list of the values inserted.
    - Store.v: what the database promises to its clients, as a class [PasteStore] with
      two instances, db.c and the list itself, and sequences of calls.  The functions of
      the routes (CaskSpec.v) are proved against the class, the threads use the promise.
    - Threads.v: db_insert and db_get taken apart into steps, one for each system call
      or access to the mapping, and the threads that take them as a step relation.
      ThreadsThm.v: the theorems on them.
    - Array.v, Route.v: array.h and route.c; the abstract choice of a route.
    - Heap.v: the memory that lists, timers and events share, one cell per member of
      a structure, and a separation logic for it on Iris's proof mode ([hwp]).
    - Clist.v: list.h in that memory.
    - Rbtree.v: rbtree.c in that memory.  RbtreeSpec.v: trees and zippers, their
      representation, the rotations.  RbtreeInv.v: insertion as a function on trees,
      the red-black and order invariants.  RbtreeDel.v: the same for deletion.
      RbtreeSearch.v: the searches.  RbtreeThm.v: the theorems.  Sentinel.v: two trees in
      two threads, which share the sentinel.
    - Timer.v, TimerSpec.v, TimerThm.v: the timers of event.c and get_time of util.c.
    - World.v: the state of a running server: the memory, the other members of
      connections and workers, the globals of struct cask, the database, what the
      system calls to come will answer, and the calls made so far; fragments on the
      memory or on the database run in it ([on_heap], [on_db]); [wwp] extends [hwp].
    - Event.v, EventSpec.v: the event loop of event.c.
    - Connection.v: connection.c, with send_response of request.c.  ReadSpec.v: reading;
      SendSpec.v: sending; ConnSpec.v, ConnThm.v: the life of a connection.
    - Worker.v, WorkerThm.v: worker.c.
    - FileMap.v: file.c.
    - Ipc.v: shared.h and handle_ipc of cask.c.  Caskmon.v: caskmon.c, a process of its
      own.
    - Cask.v: the rest of cask.c: the functions of the routes, the options, the signal
      handler, main.  CaskSpec.v: the abstract server; CaskThm.v: the server refines it.
      MainThm.v: main from its start to its end.
    - Shared.v: what the threads share, and a main that waits for its workers or has
      closed their database.
    - Registry.v: the list of workers, step by step: handle_ipc in the main thread while
      workers take themselves out in theirs.
    - Answer.v: from the bytes of a request to the bytes of its answer.
    - Session.v: the abstract worker, a transition system over its connections, what is
      still to be sent on each, and the pastes.  SessionTimers.v: what its steps do to the
      tree of timers.  SessionSpec.v: the worlds that represent its states; SessionRun.v: a
      round of the event loop, one event after the other; SessionThm.v, SessionStop.v: the
      worker refines it, round after round and to its end.

    ** What the theorems show

    - A worker as a whole (SessionThm.v, SessionStop.v), within the rules of [fair]:
      clients send whole requests, without EAGAIN inside them, well-formed or rejected by
      the parser, and are there when they are sent to; a paste finds a free bucket; no call fails but a send or recv
      on a connection, which is then closed; the clock goes forward; and each timer that
      is taken out of the tree is at a node with at most one child.  What happens beyond
      these rules is the subject of the deviations below.  round_refines: a round of
      event_base_iter is a step of the abstract worker, so that the tree of timers, the
      list, the count, the registered events, the buffers and the database agree after
      every round.  worker_never_stuck: no such round meets undefined behaviour or runs
      for ever (two_connections_never_stuck: and with two connections there is no
      condition on the timers); answers_in_order: each client is sent the answers to its
      requests in their order, whole and once; thread_serves_and_ends: worker_proc from
      its start to its end.
    - A request.  [reply] of CaskSpec.v says, for the list of the pastes held, what each
      method, URI and body is answered and which pastes are held then.  In Answer.v,
      request_answered: read_data sends exactly the text of that answer, for any cut of a
      well-formed request by recv (with no EAGAIN between the pieces) and of the answer by
      send, when there is room and no call fails (an answer that send does not take at
      once is finished by later calls of send_data, which send_data_sends is about); in
      CaskThm.v, server_replies is the part up to the call of send_response, and
      paste_roundtrip: what is posted is read back, after any further calls on the
      database as long as it has room.
    - Workers at the same time (ThreadsThm.v).  calls_serialize: whatever the interleaving
      of their steps, calls of db_insert and db_get do what the same calls do one after
      the other; pastes_all_kept: with room and no failing call none is lost, and none is
      blocked for good.  Registry.v, status_while_workers_end: a monitor that reads what it
      is sent is told the workers of one moment while others end, and nobody reads a
      worker that has been freed.  Shared.v, worker_proc_globals: until it takes
      worker_lock at its end, a worker's thread is blind to what the lock guards.
    - The database as a list, while it has room and no call fails (Store.v):
      db_refines_list.
    - main (MainThm.v): what each failure at its start gives back, the end of its loop on
      the status socket when no client keeps it in a read, and what it releases at the
      end.
    - Connections and workers: read_data, send_data, begin_read, accept_connection,
      close_connection, the timeout of idle connections, start_worker and the end of
      a worker, with the failures of the system calls.
    - The status protocol: handle_ipc in each of its cases (Ipc.v), caskmon's main for any
      answers, and status_roundtrip from one to the other (Caskmon.v).
    - The parser: round trip, safety, resumption.  The database: round trip through
      close and reopen, every operation under every failure.  Trees, timers, lists,
      arrays, routes: refinement of functions on lists and trees, with the invariants,
      the termination of their loops and their bounds.  The safety of the parser asks for
      a NUL behind what has been received.
    - The options and the mapping of a file.
    - Deviations of the code from what it means to do are theorems as well: in Db.v
      db_insert_collision, db_insert_loses and bucket_clear_overruns; in RequestSpec.v
      parse_negative_length, parse_full_headers, parse_stale_end and parse_unterminated;
      in SendSpec.v gone_client_kills; in TimerThm.v del_timer_wrong_node,
      delete_two_then_spin and reset_middle_crashes; in WorkerThm.v
      middle_disconnect_use_after_free and start_worker_counts; in ReadSpec.v
      read_data_spins; in Shared.v shutdown_locks_destroyed and closed_database_used; in
      Sentinel.v sentinel_race; in CaskThm.v
      bucket_count_overflows and negative_length_overreads; in Ipc.v
      short_request_leaks; in Caskmon.v monitor_path_unchecked; in MainThm.v
      startup_failure_releases and silent_client_blocks; in EventSpec.v run_io_never_fails and
      event_base_lifecycle; in FileMap.v map_file_spec.

    ** Fuel and bounds

    A loop whose end depends on the data has fuel: [Timeout] is never a result that a
    theorem accepts silently.  Each theorem on such a loop states how much fuel is
    enough (for the trees the function [iterations], logarithmic in the number of
    nodes; for read_data and send_data one iteration per piece) and that the result
    is then a value, or that no fuel is enough (the endless loops above).  [Blocked] and
    [Killed] do not depend on fuel: the first is the result of a read or write on the
    status socket that its client does not answer, and of locking worker_lock twice; the
    second of a send or write to a client that has gone (EPIPE), since SIGPIPE is neither
    handled nor ignored.  Integers
    have their width where it matters ([u32], [u64], [i32], [i64]); the theorems state
    the sizes they need (requests below 2^31 bytes, files below 2^63).

    The worker may have any number of connections, up to a bound [cap] that the fuel has to
    exceed twice over.  Its theorems ask that each timer that is taken out of the tree is at
    a node with at most one child; [replay] of SessionTimers.v computes whether that is so,
    and with two connections it always is.  The condition cannot be dropped: with three, the
    deletion of the timer at the root leaves that timer in the tree
    (middle_disconnect_use_after_free), and from then on nothing can be promised.

    ** What is not modelled

    - Interleaving elsewhere.  The threads interleave step by step at the database
      (Threads.v) and at the list of workers (Registry.v); a deletion from a tree is cut in
      two for the sentinel, which all workers write without a lock (Sentinel.v).  Otherwise
      a thread is a sequence of steps on one world, and the theorems on a worker assume
      that no other touches the sentinel meanwhile.  Shared.v shows which functions touch
      what worker_lock guards.  A thread that is created but has not yet set running is
      taken for one that has ended by shutdown_worker; main's end is not interleaved with it.
    - Memory order, and the contents of struct addrinfo and struct sigaction.  The signal
      handler is modelled; it runs while pselect waits, as SIGINT is blocked otherwise.
    - What goes to stderr, and the text that caskmon prints, of which the values are
      recorded.
    - The kernel: recv, send, epoll, mmap and the other calls answer from lists or
      arguments, any value they may give, and what they do is recorded.  accept on the
      status socket is taken to return, as pselect has found it ready; caskmon's own end by
      SIGPIPE is not modelled.
    - A request with a negative Content-Length is followed to the copy out of bounds, and
      not beyond.
    - free_buffer and array_free, which do nothing but free a block that is not used
      again; the macros of common.h, which are written out where they are used; the options
      of the build, and the bytes of the index page. *)

(** ** This file

    The result type of C fragments, the state monad they run in with its
    weakest-precondition rules, fixed-width integers, little-endian byte strings, and
    the list lemmas about reading and overwriting a range that every component uses. *)
From stdpp Require Export base numbers list gmap strings.
From Stdlib Require Export Lia ZArith.

#[global] Open Scope Z_scope.

(** [lia] on goals and hypotheses stated with the boolean tests of the code. *)
Ltac zlia :=
  try lazymatch goal with
      | |- false = _ => symmetry
      | |- true = _ => symmetry
      end;
  rewrite ?orb_false_iff, ?orb_true_iff, ?andb_true_iff, ?andb_false_iff,
    ?negb_true_iff, ?negb_false_iff, ?Z.ltb_lt, ?Z.ltb_ge, ?Z.leb_le, ?Z.leb_gt,
    ?Z.eqb_eq, ?Z.eqb_neq in *; lia.

(** ** Results of a C fragment

    [Val a]: the fragment finished with [a].  [Stuck]: it executed something
    whose behaviour C leaves undefined (a dereference of a pointer that points
    to no object, an access out of the bounds of an allocation, a division by
    zero).  [Timeout]: the fuel of a loop ran out.  [Blocked]: it waits in a call
    that does not return.  [Killed]: a signal that is not handled has ended the
    process. *)
Inductive res (A : Type) : Type :=
  | Val (a : A)
  | Stuck
  | Timeout
  | Blocked
  | Killed.
Arguments Val {A} a.
Arguments Stuck {A}.
Arguments Timeout {A}.
Arguments Blocked {A}.
Arguments Killed {A}.

#[global] Instance res_ret : MRet res := fun A a => Val a.
#[global] Instance res_bind : MBind res := fun A B k r =>
  match r with
  | Val a => k a
  | Stuck => Stuck
  | Timeout => Timeout
  | Blocked => Blocked
  | Killed => Killed
  end.

#[global] Instance Val_inj {A} : Inj (=) (=) (@Val A).
Proof. by intros ?? [= ->]. Qed.

Definition res_opt {A} (o : option A) : res A :=
  match o with Some a => Val a | None => Stuck end.

Lemma res_bind_Val {A B} (r : res A) (k : A -> res B) b :
  (r ≫= k) = Val b <-> exists a, r = Val a /\ k a = Val b.
Proof. destruct r; cbn; naive_solver. Qed.

Definition terminates {A} (r : res A) : Prop := exists a, r = Val a.

(** ** Fragments that change a state [S] *)
Definition cmd (S A : Type) : Type := S -> res (A * S).

#[global] Instance cmd_ret {S} : MRet (cmd S) := fun A a s => Val (a, s).
#[global] Instance cmd_bind {S} : MBind (cmd S) := fun A B k c s =>
  match c s with
  | Val (a, s') => k a s'
  | Stuck => Stuck
  | Timeout => Timeout
  | Blocked => Blocked
  | Killed => Killed
  end.

Definition stuck {S A} : cmd S A := fun _ => Stuck.
Definition blocked {S A} : cmd S A := fun _ => Blocked.
Definition killed {S A} : cmd S A := fun _ => Killed.
Definition get {S} : cmd S S := fun s => Val (s, s).
Definition gets {S A} (f : S -> A) : cmd S A := fun s => Val (f s, s).
Definition modify {S} (f : S -> S) : cmd S unit := fun s => Val (tt, f s).
Definition liftr {S A} (r : res A) : cmd S A := fun s =>
  match r with
  | Val a => Val (a, s)
  | Stuck => Stuck
  | Timeout => Timeout
  | Blocked => Blocked
  | Killed => Killed
  end.
Definition when {S} (b : bool) (c : cmd S unit) : cmd S unit :=
  if b then c else mret tt.

(** A loop: [body a] either continues with a new loop state ([inl]) or leaves
    the loop with a result ([inr]). *)
Fixpoint loop {S A B} (fuel : nat) (body : A -> cmd S (A + B)) (a : A) : cmd S B :=
  match fuel with
  | O => fun _ => Timeout
  | Datatypes.S n =>
      r ← body a;
      match r with
      | inl a' => loop n body a'
      | inr b => mret b
      end
  end.

Declare Scope c_scope.
Delimit Scope c_scope with c.
Notation "'if:' b 'then' c" := (when b c) (at level 60, b at level 100, c at level 59) : c_scope.
#[global] Open Scope c_scope.

(** Total-correctness weakest precondition: [c] terminates from [s] without
    undefined behaviour and its result and final state satisfy [Q]. *)
Definition wp {S A} (c : cmd S A) (Q : A -> S -> Prop) (s : S) : Prop :=
  match c s with Val (a, s') => Q a s' | _ => False end.

Section wp_rules.
Context {S : Type}.
Implicit Types s : S.

Lemma wp_ret {A} (a : A) Q s : Q a s -> wp (mret a) Q s.
Proof. done. Qed.

Lemma wp_bind {A B} (c : cmd S A) (k : A -> cmd S B) Q s :
  wp c (fun a s' => wp (k a) Q s') s -> wp (c ≫= k) Q s.
Proof.
  unfold wp, mbind, cmd_bind. by destruct (c s) as [[a s']| | | |].
Qed.

Lemma wp_mono {A} (c : cmd S A) (Q R : A -> S -> Prop) s :
  wp c Q s -> (forall a s', Q a s' -> R a s') -> wp c R s.
Proof. unfold wp. destruct (c s) as [[a s']| | | |]; naive_solver. Qed.

Lemma wp_get Q s : Q s s -> wp get Q s.
Proof. done. Qed.

Lemma wp_gets {A} (f : S -> A) Q s : Q (f s) s -> wp (gets f) Q s.
Proof. done. Qed.

Lemma wp_modify (f : S -> S) Q s : Q tt (f s) -> wp (modify f) Q s.
Proof. done. Qed.

Lemma wp_liftr {A} (r : res A) Q s a : r = Val a -> Q a s -> wp (liftr r) Q s.
Proof. unfold wp, liftr. by intros ->. Qed.

Lemma wp_when (b : bool) c Q s :
  (b = true -> wp c Q s) -> (b = false -> Q tt s) -> wp (when b c) Q s.
Proof. destruct b; cbn; auto. Qed.

Lemma wp_Val {A} (c : cmd S A) Q s :
  wp c Q s <-> exists a s', c s = Val (a, s') /\ Q a s'.
Proof. unfold wp. destruct (c s) as [[a s']| | | |]; naive_solver. Qed.

Lemma wp_terminates {A} (c : cmd S A) Q s : wp c Q s -> terminates (c s).
Proof. rewrite wp_Val. unfold terminates. naive_solver. Qed.

Lemma wp_loop {A B} n (body : A -> cmd S (A + B)) a Q s :
  wp (body a) (fun r s' => match r with
                           | inl a' => wp (loop n body a') Q s'
                           | inr b => Q b s'
                           end) s ->
  wp (loop (Datatypes.S n) body a) Q s.
Proof.
  intros H. cbn. apply wp_bind. eapply wp_mono; [exact H|]. by intros [a'|b] s'.
Qed.

(** More fuel never changes the result of a loop that has finished. *)
Lemma loop_mono {A B} n m (body : A -> cmd S (A + B)) a s r :
  (n <= m)%nat -> loop n body a s = Val r -> loop m body a s = Val r.
Proof.
  revert m a s. induction n as [|n IH]; intros [|m] a s Hle; cbn; try done; [lia|].
  unfold mbind, cmd_bind. destruct (body a s) as [[[a'|b] s']| | | |]; try done.
  apply IH. lia.
Qed.
End wp_rules.

(** Symbolic execution of a fragment: one rule per primitive of this file. *)
Ltac wp_step :=
  lazymatch goal with
  | |- wp (mret _) _ _ => apply wp_ret
  | |- wp (mbind _ _) _ _ => apply wp_bind
  | |- wp get _ _ => apply wp_get
  | |- wp (gets _) _ _ => apply wp_gets
  | |- wp (modify _) _ _ => apply wp_modify
  end.
Ltac wp_steps := repeat (wp_step; cbn beta iota).

(** ** Constants of common.h *)
Definition OK : Z := 0.
Definition ERR : Z := -1.

(** Pointers are abstract addresses; [NULL] is 0. *)
Abbreviation ptr := Z.
Definition NULL : ptr := 0.

(** ** Fixed-width integers *)
Definition wrap (w : Z) (x : Z) : Z := x mod 2 ^ w.
Definition swrap (w : Z) (x : Z) : Z :=
  let y := x mod 2 ^ w in if y <? 2 ^ (w - 1) then y else y - 2 ^ w.

Abbreviation u32 := (wrap 32).
Abbreviation u64 := (wrap 64).
Abbreviation i32 := (swrap 32).
Abbreviation i64 := (swrap 64).

Lemma wrap_small w x : 0 <= x < 2 ^ w -> wrap w x = x.
Proof. unfold wrap. apply Z.mod_small. Qed.

Lemma wrap_bound w x : 0 <= w -> 0 <= wrap w x < 2 ^ w.
Proof. intros. unfold wrap. apply Z.mod_pos_bound. lia. Qed.

Lemma swrap_small w x : 0 < w -> 0 <= x < 2 ^ (w - 1) -> swrap w x = x.
Proof.
  intros Hw Hx. unfold swrap.
  assert (2 ^ w = 2 * 2 ^ (w - 1)).
  { rewrite <- Z.pow_succ_r by lia. f_equal. lia. }
  rewrite Z.mod_small by lia. destruct (Z.ltb_spec x (2 ^ (w - 1))); lia.
Qed.

Lemma swrap_neg w x : 0 < w -> - 2 ^ (w - 1) <= x < 0 -> swrap w x = x.
Proof.
  intros Hw Hx. unfold swrap.
  assert (2 ^ w = 2 * 2 ^ (w - 1)).
  { rewrite <- Z.pow_succ_r by lia. f_equal. lia. }
  assert (x mod 2 ^ w = x + 2 ^ w) as ->.
  { rewrite <- (Z.mod_small (x + 2 ^ w) (2 ^ w)) by lia.
    rewrite <- Zplus_mod_idemp_r, Z_mod_same_full, Z.add_0_r. done. }
  destruct (Z.ltb_spec (x + 2 ^ w) (2 ^ (w - 1))); lia.
Qed.

(** Closed powers of two, so that [lia] sees numerals. *)
Ltac pow2 :=
  change (2 ^ 64) with 18446744073709551616 in *;
  change (2 ^ 63) with 9223372036854775808 in *;
  change (2 ^ (64 - 1)) with 9223372036854775808 in *;
  change (2 ^ 32) with 4294967296 in *;
  change (2 ^ 31) with 2147483648 in *;
  change (2 ^ (32 - 1)) with 2147483648 in *.

Create Rewrite HintDb width.
#[export] Hint Rewrite wrap_small swrap_small using (pow2; lia) : width.
Ltac width := autorewrite with width.

(** ** Little-endian byte strings: how an x86-64 integer sits in memory *)
Fixpoint le_bytes (n : nat) (x : Z) : list Z :=
  match n with
  | O => []
  | S n => x mod 256 :: le_bytes n (x / 256)
  end.

Fixpoint le_val (l : list Z) : Z :=
  match l with
  | [] => 0
  | b :: l => b + 256 * le_val l
  end.

Definition is_byte (b : Z) : Prop := 0 <= b < 256.

Lemma length_le_bytes n x : length (le_bytes n x) = n.
Proof. revert x. induction n; intros; cbn; auto. Qed.

Lemma le_val_bytes_mod n x : le_val (le_bytes n x) = x mod 256 ^ Z.of_nat n.
Proof.
  revert x. induction n as [|n IH]; intros x; cbn [le_bytes le_val].
  - by rewrite Z.mod_1_r.
  - rewrite IH, Nat2Z.inj_succ, Z.pow_succ_r by lia.
    rewrite Z.rem_mul_r by lia. lia.
Qed.

Lemma le_val_bytes n x : 0 <= x < 256 ^ Z.of_nat n -> le_val (le_bytes n x) = x.
Proof. intros. by rewrite le_val_bytes_mod, Z.mod_small. Qed.

Lemma le_bytes_are_bytes n x : Forall is_byte (le_bytes n x).
Proof.
  revert x. induction n as [|n IH]; intros x; cbn; constructor; auto.
  apply Z.mod_pos_bound. lia.
Qed.

Lemma le_bytes_val l : Forall is_byte l -> le_bytes (length l) (le_val l) = l.
Proof.
  induction 1 as [|b l Hb _ IH]; cbn [length le_bytes le_val]; [done|].
  unfold is_byte in Hb. f_equal.
  - rewrite Z.mul_comm, Z.mod_add by lia. by apply Z.mod_small.
  - rewrite Z.mul_comm, Z.div_add by lia. rewrite Z.div_small by lia. by rewrite Z.add_0_l.
Qed.

(** ** Reading and overwriting a range of bytes *)
Definition slice (off n : nat) (l : list Z) : list Z := take n (drop off l).

(** Overwrite [l] from [off] with [bs], filling a gap past the end with zeros
    (the hole a POSIX write past the end of a file leaves). *)
Definition write_at (off : nat) (bs l : list Z) : list Z :=
  take off l ++ replicate (off - length l) 0 ++ bs ++ drop (off + length bs) l.

Lemma length_slice off n l : length (slice off n l) = Nat.min n (length l - off).
Proof. unfold slice. by rewrite length_take, length_drop. Qed.

Lemma slice_app_mid a b c n : n = length b -> slice (length a) n (a ++ b ++ c) = b.
Proof. intros ->. unfold slice. by rewrite drop_app_length, take_app_length. Qed.

Lemma slice_app_r off n a b :
  (length a <= off)%nat -> slice off n (a ++ b) = slice (off - length a) n b.
Proof. intros. unfold slice. by rewrite drop_app_ge. Qed.

Lemma slice_app_l off n a b :
  (off + n <= length a)%nat -> slice off n (a ++ b) = slice off n a.
Proof.
  intros. unfold slice. rewrite drop_app_le, take_app_le by (rewrite ?length_drop; lia). done.
Qed.

Lemma slice_full l n : length l = n -> slice 0 n l = l.
Proof. intros. unfold slice. rewrite drop_0. apply take_ge. lia. Qed.

Lemma length_write_at off bs l :
  length (write_at off bs l) = Nat.max (length l) (off + length bs).
Proof.
  unfold write_at. rewrite !length_app, length_take, length_replicate, length_drop. lia.
Qed.

Lemma write_at_app_mid a b b' c :
  length b' = length b -> write_at (length a) b' (a ++ b ++ c) = a ++ b' ++ c.
Proof.
  intros Hl. unfold write_at.
  rewrite take_app_length, Hl, <- length_app, (assoc_L (++) a b c), drop_app_length.
  rewrite (proj2 (Nat.sub_0_le _ _)) by (rewrite !length_app; lia). done.
Qed.

Lemma write_at_end bs l : write_at (length l) bs l = l ++ bs.
Proof.
  unfold write_at. rewrite firstn_all, Nat.sub_diag, drop_ge by lia.
  by rewrite app_nil_r.
Qed.

Lemma slice_write_at_same off bs l n :
  n = length bs -> slice off n (write_at off bs l) = bs.
Proof.
  intros ->. unfold slice, write_at. rewrite (assoc_L (++)).
  rewrite drop_app_length' by (rewrite length_app, length_take, length_replicate; lia).
  apply take_app_length.
Qed.

Lemma slice_write_at_before off off' n bs l :
  (off + n <= off')%nat -> (off + n <= length l)%nat ->
  slice off n (write_at off' bs l) = slice off n l.
Proof.
  intros H1 H2. unfold write_at. rewrite slice_app_l by (rewrite length_take; lia).
  unfold slice. rewrite <- (take_drop off' l) at 2.
  rewrite drop_app_le, take_app_le by (rewrite ?length_drop, ?length_take; lia). done.
Qed.

Lemma slice_write_at_after off off' n bs l :
  (off' + length bs <= off)%nat -> (off' <= length l)%nat ->
  slice off n (write_at off' bs l) = slice off n l.
Proof.
  intros H1 H2. unfold write_at, slice.
  rewrite (proj2 (Nat.sub_0_le off' (length l))) by lia. cbn [replicate app].
  rewrite (assoc_L (++)). rewrite drop_app_ge by (rewrite length_app, length_take; lia).
  rewrite drop_drop. do 2 f_equal. rewrite length_app, length_take. lia.
Qed.

(** Nested appends to the right. *)
Ltac app_norm := repeat first [rewrite <- (assoc_L (++)) | progress (cbn [app])].
Ltac app_norm_in H :=
  repeat first [rewrite <- (assoc_L (++)) in H | progress (cbn [app] in H)].

(** Closed decidable propositions. *)
Ltac by_compute := refine (bool_decide_eq_true_1 _ _); vm_compute; reflexivity.

(** A [string] literal as the bytes the C compiler stores for it (without the
    terminating NUL). *)
Fixpoint bytes_of (s : string) : list Z :=
  match s with
  | EmptyString => []
  | String c s => Z.of_N (Ascii.N_of_ascii c) :: bytes_of s
  end.
