(* ===== verification/Prog.v ===== *)
(** Programs of atomic steps, for threads that share a state.

    A [prog] is a sequence of commands on the state, each of which happens at once; between
    two of them the other threads may take theirs.  [run] is the program by itself, and
    [along] proves that it is the command it was made from.  The database calls
    (Threads.v) and what is done under worker_lock (Registry.v) are such programs. *)
From S2P Require Import Prelude.

(** ** Programs of atomic steps *)
Inductive prog (S A : Type) : Type :=
  | Ret (a : A)
  | Act {B : Type} (c : cmd S B) (k : B -> prog S A).
Arguments Ret {S A} a.
Arguments Act {S A B} c k.

Fixpoint prog_bind {S A B} (k : A -> prog S B) (p : prog S A) : prog S B :=
  match p with
  | Ret a => k a
  | Act c f => Act c (fun b => prog_bind k (f b))
  end.

#[global] Instance prog_mret {S} : MRet (prog S) := fun A => Ret.
#[global] Instance prog_mbind {S} : MBind (prog S) := fun A B => prog_bind.

(** One step. *)
Definition act {S B} (c : cmd S B) : prog S B := Act c Ret.

Fixpoint prog_loop {S A B} (fuel : nat) (body : A -> prog S (A + B)) (a : A) : prog S B :=
  match fuel with
  | O => act (fun _ => Timeout)
  | Datatypes.S n =>
      r ← body a;
      match r with
      | inl a' => prog_loop n body a'
      | inr b => mret b
      end
  end.

(** All the steps in a row. *)
Fixpoint run {S A} (p : prog S A) : cmd S A :=
  match p with
  | Ret a => mret a
  | Act c k => b ← c; run (k b)
  end.

(** ** The steps in a row *)
Section rows.
Context {S : Type}.
Implicit Types d : S.

Lemma run_bind {A B} (p : prog S A) (k : A -> prog S B) d :
  run (p ≫= k) d = (a ← run p; run (k a)) d.
Proof.
  revert d. induction p as [a|C c f IH]; intros d; [done|].
  cbn [run mbind prog_mbind prog_bind]. unfold mbind, cmd_bind.
  destruct (c d) as [[b d']| | | |]; [|done..]. apply IH.
Qed.

Lemma bind_ext {A B} (c : cmd S A) (k k' : A -> cmd S B) d :
  (forall a d', k a d' = k' a d') -> (c ≫= k) d = (c ≫= k') d.
Proof. intros H. unfold mbind, cmd_bind. by destruct (c d) as [[a d']| | | |]. Qed.

Lemma bind_same {A B} (c c' : cmd S A) (k : A -> cmd S B) d : c d = c' d -> (c ≫= k) d = (c' ≫= k) d.
Proof. unfold mbind, cmd_bind. by intros ->. Qed.

Lemma bind_ret {A} (c : cmd S A) d : (a ← c; mret a) d = c d.
Proof. unfold mbind, cmd_bind. by destruct (c d) as [[a d']| | | |]. Qed.

Lemma bind_assoc {A B C} (c : cmd S A) (k : A -> cmd S B) (k' : B -> cmd S C) d :
  (b ← (a ← c; k a); k' b) d = (a ← c; b ← k a; k' b) d.
Proof. unfold mbind, cmd_bind. by destruct (c d) as [[a d']| | | |]. Qed.

Lemma run_act {A B} (c : cmd S B) (k : B -> prog S A) d : run (b ← act c; k b) d = (b ← c; run (k b)) d.
Proof. done. Qed.

Lemma run_loop {A B} n (b : A -> prog S (A + B)) (b' : A -> cmd S (A + B)) :
  (forall a d, run (b a) d = b' a d) -> forall a d, run (prog_loop n b a) d = loop n b' a d.
Proof.
  intros H. induction n as [|n IH]; intros a d; cbn [prog_loop loop]; [done|].
  rewrite run_bind. transitivity ((r ← run (b a); match r with inl a' => loop n b' a' | inr x => mret x end) d).
  - apply bind_ext. intros [a'|x] d'; [apply IH|done].
  - unfold mbind, cmd_bind. by rewrite H.
Qed.

Lemma run_bind_eq {A B} (p : prog S A) (k : A -> prog S B) (c : cmd S A) (k' : A -> cmd S B) d :
  (forall d, run p d = c d) -> (forall a d, run (k a) d = k' a d) ->
  run (p ≫= k) d = (c ≫= k') d.
Proof. intros Hp Hk. rewrite run_bind. unfold mbind, cmd_bind. rewrite Hp. destruct (c d) as [[a d']| | | |]; auto. Qed.

End rows.

Create HintDb steps discriminated.

(** Go through a program along the command it stands for. *)
Ltac along :=
  repeat (intros; cbv zeta;
    lazymatch goal with
    | |- run (mbind _ (act _)) _ = _ => rewrite run_act; apply bind_ext
    | |- run (mbind _ _) _ = _ => apply run_bind_eq; [solve [auto with steps]|]
    | |- run (match ?x with _ => _ end) _ = _ => destruct x
    | |- run (act _) _ = _ => apply bind_ret
    | |- _ => first [reflexivity | solve [auto with steps]]
    end).
