(* ===== verification/Buffer.v ===== *)
(** The growable byte buffer of buffer.c and buffer.h, and the C memory
    primitives (a load from an allocation, memcpy, strncmp, strtol, strtoull,
    the decimal conversion of snprintf) that the request, connection and cask
    components use on it.

    Module [CMem] has the primitives, module [Buffer] the buffer, its
    well-formedness invariant and the theorems on pushing and resizing. *)
From S2P Require Import Prelude.

Module CMem.

(** An allocation is the list of its bytes; a read outside it is undefined. *)
Definition load (m : list Z) (i : Z) : res Z :=
  if i <? 0 then Stuck else res_opt (m !! Z.to_nat i).

Lemma load_lookup m i x : m !! i = Some x -> load m (Z.of_nat i) = Val x.
Proof.
  intros H. unfold load. replace (Z.of_nat i <? 0) with false by zlia.
  by rewrite Nat2Z.id, H.
Qed.

Lemma load_Val m i x : load m i = Val x <-> 0 <= i /\ m !! Z.to_nat i = Some x.
Proof.
  unfold load. destruct (i <? 0) eqn:E; [|destruct (m !! Z.to_nat i)]; cbn;
    (split; [|intros [? ?]]); try done; try (apply Z.ltb_lt in E; lia); try congruence.
  - apply Z.ltb_ge in E. naive_solver.
Qed.

(** [n] bytes from offset [off]. *)
Definition read_bytes (m : list Z) (off n : Z) : res (list Z) :=
  if (n =? 0) then Val []
  else if (off <? 0) || (n <? 0) || (Z.of_nat (length m) <? off + n) then Stuck
  else Val (slice (Z.to_nat off) (Z.to_nat n) m).

(** A string literal as C stores it. *)
Definition cstr (s : string) : list Z := bytes_of s ++ [0].

(** strncmp(a + i, b + j, n) == 0 *)
Fixpoint strncmp_eq (a : list Z) (i : Z) (b : list Z) (j : Z) (n : nat) : res bool :=
  match n with
  | O => Val true
  | Datatypes.S n =>
      x ← load a i;
      y ← load b j;
      if negb (x =? y) then Val false
      else if x =? 0 then Val true
      else strncmp_eq a (i + 1) b (j + 1) n
  end.

Definition isdigit (c : Z) : bool := (48 <=? c) && (c <=? 57).
Definition isspace (c : Z) : bool := (c =? 32) || ((9 <=? c) && (c <=? 13)).

(** The scanning loops of strtol and strtoull in base 10: white space, an
    optional sign, digits.  The value of the digits is not bounded here; the
    callers saturate it.  [fuel] is the size of the allocation, which the scan
    cannot exceed without leaving it. *)
Fixpoint skip_space (m : list Z) (i : Z) (fuel : nat) : res Z :=
  match fuel with
  | O => Stuck
  | Datatypes.S fuel =>
      c ← load m i;
      if isspace c then skip_space m (i + 1) fuel else Val i
  end.

Fixpoint scan_digits (m : list Z) (i acc : Z) (fuel : nat) : res Z :=
  match fuel with
  | O => Stuck
  | Datatypes.S fuel =>
      c ← load m i;
      if isdigit c then scan_digits m (i + 1) (10 * acc + (c - 48)) fuel else Val acc
  end.

Definition scan_int (m : list Z) (i : Z) : res (bool * Z) :=
  i ← skip_space m i (Datatypes.S (length m));
  c ← load m i;
  let neg := c =? 45 in
  let i := if neg || (c =? 43) then i + 1 else i in
  v ← scan_digits m i 0 (Datatypes.S (length m));
  Val (neg, v).

Definition LONG_MAX : Z := 2 ^ 63 - 1.
Definition LONG_MIN : Z := - 2 ^ 63.
Definition ULLONG_MAX : Z := 2 ^ 64 - 1.

(** strtol saturates at both ends. *)
Definition strtol (m : list Z) (i : Z) : res Z :=
  r ← scan_int m i;
  let '(neg, v) := r in
  Val (if (neg : bool) then Z.max LONG_MIN (- v) else Z.min LONG_MAX v).

(** strtoull saturates above and negates modulo 2^64. *)
Definition strtoull (m : list Z) (i : Z) : res Z :=
  r ← scan_int m i;
  let '(neg, v) := r in
  Val (if ULLONG_MAX <? v then ULLONG_MAX else if (neg : bool) then u64 (- v) else v).

(** The digits "%lu" prints for [0 <= x < 2^64]. *)
Fixpoint digits (fuel : nat) (x : Z) : list Z :=
  match fuel with
  | O => []
  | Datatypes.S fuel =>
      if x <? 10 then [48 + x] else digits fuel (x / 10) ++ [48 + x mod 10]
  end.
Definition dec (x : Z) : list Z := digits 20 x.

(** snprintf(tmp, cap, ...) of the text [s]: what it leaves in [tmp], and its
    result, the length of the whole text. *)
Definition snprintf (cap : nat) (s : list Z) : list Z * Z :=
  (take (cap - 1) s ++ [0], Z.of_nat (length s)).

(** *** What the conversions compute *)
Definition push_digit (acc d : Z) : Z := 10 * acc + (d - 48).
Definition digits_val (acc : Z) (ds : list Z) : Z := foldl push_digit acc ds.

Lemma load_mid pre x post : load (pre ++ x :: post) (Z.of_nat (length pre)) = Val x.
Proof. apply load_lookup. by apply list_lookup_middle. Qed.

Lemma length_snoc_Z (pre : list Z) (x : Z) :
  Z.of_nat (length pre) + 1 = Z.of_nat (length (pre ++ [x])).
Proof. rewrite length_app. cbn. lia. Qed.

Lemma scan_digits_spec ds pre c post acc fuel :
  Forall (fun d => isdigit d = true) ds -> isdigit c = false -> (length ds < fuel)%nat ->
  scan_digits (pre ++ ds ++ c :: post) (Z.of_nat (length pre)) acc fuel =
  Val (digits_val acc ds).
Proof.
  intros Hds Hc. revert pre acc fuel.
  induction Hds as [|d ds Hd Hds IH]; intros pre acc [|fuel] Hf; try (cbn in Hf; lia).
  - cbn [app scan_digits]. rewrite load_mid. cbn [mbind res_bind]. by rewrite Hc.
  - cbn [app scan_digits]. rewrite load_mid. cbn [mbind res_bind]. rewrite Hd.
    rewrite (length_snoc_Z pre d).
    specialize (IH (pre ++ [d]) (10 * acc + (d - 48)) fuel ltac:(cbn in Hf; lia)).
    app_norm_in IH. by rewrite IH.
Qed.

Lemma digits_spec fuel x : 0 <= x < 10 ^ Z.of_nat fuel -> (0 < fuel)%nat ->
  Forall (fun d => isdigit d = true) (digits fuel x) /\
  digits_val 0 (digits fuel x) = x /\ (0 < length (digits fuel x) <= fuel)%nat.
Proof.
  revert x. induction fuel as [|fuel IH]; intros x Hx Hf; [lia|].
  rewrite Nat2Z.inj_succ, Z.pow_succ_r in Hx by lia. cbn [digits].
  destruct (Z.ltb_spec x 10) as [Hlt|Hge].
  - split_and!; [repeat constructor; unfold isdigit; zlia| |cbn; lia..].
    unfold digits_val, push_digit. cbn [foldl]. lia.
  - pose proof (Z.div_mod x 10 ltac:(lia)). pose proof (Z.mod_pos_bound x 10 ltac:(lia)).
    assert (0 < fuel)%nat by (destruct fuel; [cbn in Hx; lia|lia]).
    destruct (IH (x / 10)) as (Hd & Hv & Hl); [|done|].
    { split; [apply Z.div_pos; lia|]. apply Z.div_lt_upper_bound; lia. }
    split_and!.
    + apply Forall_app. split; [done|]. repeat constructor. unfold isdigit. zlia.
    + unfold digits_val in *. rewrite foldl_snoc, Hv. unfold push_digit. lia.
    + rewrite length_app. cbn. lia.
    + rewrite length_app. cbn. lia.
Qed.

Lemma dec_spec x : 0 <= x < 2 ^ 64 ->
  Forall (fun d => isdigit d = true) (dec x) /\ digits_val 0 (dec x) = x /\
  (0 < length (dec x) <= 20)%nat.
Proof.
  intros Hx. apply digits_spec; [|lia]. change (10 ^ Z.of_nat 20) with 100000000000000000000.
  pow2. lia.
Qed.

Lemma isdigit_range c : isdigit c = true -> 48 <= c <= 57.
Proof. unfold isdigit. zlia. Qed.

Lemma scan_int_digits ds pre c post : ds <> [] -> Forall (fun d => isdigit d = true) ds ->
  isdigit c = false ->
  scan_int (pre ++ ds ++ c :: post) (Z.of_nat (length pre)) = Val (false, digits_val 0 ds).
Proof.
  intros Hne Hd Hc. unfold scan_int. cbn [skip_space].
  destruct ds as [|d ds]; [done|].
  inversion Hd as [|? ? Hd0 _]. apply isdigit_range in Hd0. cbn [app].
  rewrite load_mid. cbn [mbind res_bind]. unfold isspace.
  replace ((d =? 32) || ((9 <=? d) && (d <=? 13))) with false.
  2: { symmetry. rewrite orb_false_iff, andb_false_iff. zlia. }
  cbn [mbind res_bind]. rewrite load_mid. cbn [mbind res_bind].
  replace (d =? 45) with false by zlia. replace (d =? 43) with false by zlia. cbn [orb].
  change (d :: ds ++ c :: post) with ((d :: ds) ++ c :: post).
  rewrite scan_digits_spec; [done|done|done|].
  rewrite !length_app. cbn. lia.
Qed.

Lemma scan_int_dec x pre c post : 0 <= x < 2 ^ 64 -> isdigit c = false ->
  scan_int (pre ++ dec x ++ c :: post) (Z.of_nat (length pre)) = Val (false, x).
Proof.
  intros Hx Hc. destruct (dec_spec x Hx) as (Hd & Hv & Hl).
  rewrite scan_int_digits, Hv; [done| |done|done]. intros E. rewrite E in Hl. cbn in Hl. lia.
Qed.

Lemma scan_int_neg x pre c post : 0 <= x < 2 ^ 64 -> isdigit c = false ->
  scan_int (pre ++ 45 :: dec x ++ c :: post) (Z.of_nat (length pre)) = Val (true, x).
Proof.
  intros Hx Hc. destruct (dec_spec x Hx) as (Hd & Hv & Hl).
  unfold scan_int. cbn [skip_space]. rewrite load_mid. cbn [mbind res_bind].
  change (isspace 45) with false. cbn [mbind res_bind]. rewrite load_mid.
  cbn [mbind res_bind Z.eqb Pos.eqb orb]. rewrite (length_snoc_Z pre 45).
  assert (pre ++ 45 :: dec x ++ c :: post = (pre ++ [45]) ++ dec x ++ c :: post) as ->
    by by app_norm.
  rewrite scan_digits_spec; [|done|done|].
  - cbn [mbind res_bind]. by rewrite Hv.
  - rewrite !length_app. cbn. lia.
Qed.

(** Reading back a printed number, from either of the two conversions. *)
Lemma strtol_dec x pre c post : 0 <= x < 2 ^ 63 -> isdigit c = false ->
  strtol (pre ++ dec x ++ c :: post) (Z.of_nat (length pre)) = Val x.
Proof.
  intros Hx Hc. unfold strtol. rewrite scan_int_dec by (done || (pow2; lia)).
  cbn. f_equal. unfold LONG_MAX. pow2. lia.
Qed.

Lemma strtol_neg x pre c post : 0 <= x <= 2 ^ 63 -> isdigit c = false ->
  strtol (pre ++ 45 :: dec x ++ c :: post) (Z.of_nat (length pre)) = Val (- x).
Proof.
  intros Hx Hc. unfold strtol. rewrite scan_int_neg by (done || (pow2; lia)).
  cbn. f_equal. unfold LONG_MIN. pow2. lia.
Qed.

Lemma strtoull_dec x pre c post : 0 <= x < 2 ^ 64 -> isdigit c = false ->
  strtoull (pre ++ dec x ++ c :: post) (Z.of_nat (length pre)) = Val x.
Proof.
  intros Hx Hc. unfold strtoull. rewrite scan_int_dec by done.
  cbn [mbind res_bind]. f_equal. unfold ULLONG_MAX.
  destruct (Z.ltb_spec (2 ^ 64 - 1) x); [lia|done].
Qed.

(** The same of any digits: past the range the answer is the largest number. *)
Lemma strtoull_digits ds pre c post : ds <> [] -> Forall (fun d => isdigit d = true) ds ->
  isdigit c = false ->
  strtoull (pre ++ ds ++ c :: post) (Z.of_nat (length pre)) =
  Val (Z.min ULLONG_MAX (digits_val 0 ds)).
Proof.
  intros Hne Hd Hc. unfold strtoull. rewrite scan_int_digits by done.
  cbn [mbind res_bind]. f_equal. destruct (Z.ltb_spec ULLONG_MAX (digits_val 0 ds)); lia.
Qed.

Lemma digits_val_nonneg ds : forall acc, 0 <= acc -> Forall (fun d => isdigit d = true) ds ->
  0 <= digits_val acc ds.
Proof.
  induction ds as [|d ds IH]; intros acc Ha Hd; [done|]. apply Forall_cons in Hd as [Hd Hds].
  apply isdigit_range in Hd. unfold digits_val. cbn [foldl]. apply IH; [|done]. unfold push_digit. lia.
Qed.

Lemma digits_short fuel k : forall x, (0 < k <= fuel)%nat -> 0 <= x < 10 ^ Z.of_nat k ->
  (length (digits fuel x) <= k)%nat.
Proof.
  revert k. induction fuel as [|fuel IH]; intros k x Hk Hx; [lia|]. cbn [digits].
  destruct (Z.ltb_spec x 10) as [Hlt|Hge]; [cbn; lia|].
  destruct k as [|k]; [lia|]. rewrite Nat2Z.inj_succ, Z.pow_succ_r in Hx by lia.
  destruct k as [|k]; [cbn in Hx; lia|].
  rewrite length_app. cbn [length]. pose proof (IH (S k) (x / 10) ltac:(lia)) as H.
  assert (0 <= x / 10 < 10 ^ Z.of_nat (S k)).
  { split; [apply Z.div_pos; lia|]. apply Z.div_lt_upper_bound; lia. }
  specialize (H ltac:(done)). lia.
Qed.

End CMem.

Module Buffer.
Import CMem.

(** struct buffer_t.  [data] is NULL or the allocation. *)
Record buffer_t := MkBuffer {
  size : Z;
  cap : Z;
  data : option (list Z);
}.

Definition mem (b : buffer_t) : list Z := default [] (data b).

(** The answer of realloc: NULL, or a block whose new bytes are indeterminate,
    byte [i] being [g i]. *)
Definition alloc : Type := option (nat -> Z).

Definition realloc_bytes (g : nat -> Z) (n : nat) (l : list Z) : list Z :=
  take n l ++ (g <$> seq (length l) (n - length l)).

Definition create_buffer (a : alloc) : option buffer_t :=
  match a with None => None | Some _ => Some (MkBuffer 0 0 None) end.

Definition clear_buffer (b : buffer_t) : buffer_t := MkBuffer 0 (cap b) (data b).

Definition resize_buffer (a : alloc) (b : buffer_t) (sz : Z) : Z * buffer_t :=
  if sz =? 0 then (OK, MkBuffer 0 (cap b) None)
  else
    match a with
    | None => (ERR, b)
    | Some g =>
        (OK, MkBuffer (if sz <? size b then sz else size b) sz
               (Some (realloc_bytes g (Z.to_nat sz) (mem b))))
    end.

(** memcpy(m + off, src, n) into an allocation. *)
Definition memcpy (m : list Z) (off : Z) (src : list Z) (n : Z) : res (list Z) :=
  bs ← read_bytes src 0 n;
  if n =? 0 then Val m
  else if (off <? 0) || (Z.of_nat (length m) <? off + n) then Stuck
  else Val (write_at (Z.to_nat off) bs m).

(** [src] is the memory readable at [data]. *)
Definition push_buffer (a : alloc) (b : buffer_t) (src : list Z) (sz : Z)
    : res (Z * buffer_t) :=
  let (ret, b) := if cap b <? u64 (size b + sz) then resize_buffer a b (u64 (size b + sz))
                  else (OK, b) in
  if negb (ret =? OK) then Val (ERR, b)
  else
    m ← memcpy (mem b) (size b) src sz;
    Val (OK, MkBuffer (u64 (size b + sz)) (cap b)
               (match data b with None => None | Some _ => Some m end)).

(** The bytes in use. *)
Definition contents (b : buffer_t) : list Z := take (Z.to_nat (size b)) (mem b).

Lemma contents_Some s c m : contents (MkBuffer s c (Some m)) = take (Z.to_nat s) m.
Proof. done. Qed.

(** The invariant of a buffer between two operations: the capacity is what is
    allocated and the bytes in use are inside it. *)
Record wf (b : buffer_t) : Prop := {
  wf_cap : cap b = Z.of_nat (length (mem b));
  wf_size : 0 <= size b <= cap b;
  wf_max : cap b < 2 ^ 63;
}.

Lemma length_realloc_bytes g n l : length (realloc_bytes g n l) = n.
Proof.
  unfold realloc_bytes. rewrite length_app, length_take, length_fmap, length_seq. lia.
Qed.

Lemma realloc_bytes_prefix g n k l : (k <= n)%nat -> (k <= length l)%nat ->
  take k (realloc_bytes g n l) = take k l.
Proof.
  intros. unfold realloc_bytes. rewrite take_app_le by (rewrite length_take; lia).
  by rewrite take_take, Nat.min_l.
Qed.

Lemma create_buffer_wf a b : create_buffer a = Some b -> wf b /\ contents b = [].
Proof. destruct a; intros [= <-]. split; [by split|done]. Qed.

Lemma clear_buffer_wf b : wf b -> wf (clear_buffer b) /\ contents (clear_buffer b) = [].
Proof. intros []. split; [|done]. split; cbn; [done|lia|done]. Qed.

Lemma resize_buffer_spec a b sz ret b' :
  wf b -> 0 < sz < 2 ^ 63 -> resize_buffer a b sz = (ret, b') ->
  wf b' /\
  match a with
  | None => ret = ERR /\ b' = b
  | Some _ => ret = OK /\ cap b' = sz /\ size b' = Z.min (size b) sz /\
      contents b' = take (Z.to_nat sz) (contents b)
  end.
Proof.
  intros [Hc Hs Hm] Hsz. unfold resize_buffer. replace (sz =? 0) with false by zlia.
  destruct a as [g|]; intros [= <- <-]; [|done].
  assert ((if sz <? size b then sz else size b) = Z.min (size b) sz) as E
    by (destruct (Z.ltb_spec sz (size b)); lia).
  split; [split; cbn; rewrite ?length_realloc_bytes, ?E; lia|].
  split_and!; [done|done|done|].
  rewrite contents_Some, E. unfold contents. rewrite realloc_bytes_prefix by lia. rewrite take_take. f_equal. lia.
Qed.

Lemma write_at_contents b src n :
  wf b -> (Z.to_nat (size b) + n <= length (mem b))%nat -> n = length src ->
  take (Z.to_nat (size b) + n) (write_at (Z.to_nat (size b)) src (mem b)) = contents b ++ src.
Proof.
  intros [Hc Hs _] Hn ->. unfold write_at, contents.
  rewrite (proj2 (Nat.sub_0_le _ (length (mem b)))) by lia. cbn [replicate app].
  rewrite (assoc_L (++)). apply take_app_length'.
  rewrite length_app, length_take. lia.
Qed.

Lemma push_buffer_ok a b src n :
  wf b -> (n <= length src)%nat -> size b + Z.of_nat n < 2 ^ 63 ->
  a <> None \/ size b + Z.of_nat n <= cap b ->
  exists b', push_buffer a b src (Z.of_nat n) = Val (OK, b') /\ wf b' /\
    contents b' = contents b ++ take n src /\ cap b <= cap b'.
Proof.
  intros Hwf Hn Hsz Ha. pose proof Hwf as [Hc Hs Hm]. unfold push_buffer.
  rewrite (wrap_small 64) by (pow2; lia).
  set (b1 := snd (if cap b <? size b + Z.of_nat n
                  then resize_buffer a b (size b + Z.of_nat n) else (OK, b))).
  assert ((if cap b <? size b + Z.of_nat n
           then resize_buffer a b (size b + Z.of_nat n) else (OK, b)) = (OK, b1) /\
          wf b1 /\ size b1 = size b /\ contents b1 = contents b /\
          size b + Z.of_nat n <= cap b1 /\ cap b <= cap b1) as (-> & Hwf1 & Hs1 & Hc1 & Hr & Hle).
  { unfold b1. destruct (Z.ltb_spec (cap b) (size b + Z.of_nat n)) as [Hlt|Hge]; [|by cbn].
    destruct a as [g|]; [|exfalso; destruct Ha; [done|lia]].
    destruct (resize_buffer _ b _) as [ret b2] eqn:E.
    apply resize_buffer_spec in E as (Hw & -> & Hcap & Hsize & Hcont); [|done|lia].
    cbn. rewrite Hcap, Hsize, Hcont. split_and!; try done; try lia.
    apply take_ge. unfold contents. rewrite length_take. lia. }
  clearbody b1. cbn [negb Z.eqb OK]. unfold memcpy, read_bytes.
  destruct (Z.eqb_spec (Z.of_nat n) 0) as [E|E].
  - cbn. replace n with 0%nat by lia. rewrite Z.add_0_r, (wrap_small 64) by (pow2; lia).
    eexists. split; [done|]. destruct Hwf1 as [? ? ?].
    assert (MkBuffer (size b1) (cap b1)
      (match data b1 with None => None | Some _ => Some (mem b1) end) = b1) as ->.
    { destruct b1 as [? ? [d|]]; done. }
    split_and!; [done| |done]. by rewrite take_0, app_nil_r.
  - destruct Hwf1 as [Hc1' Hs1' Hm1'].
    replace ((0 <? 0) || (Z.of_nat n <? 0) || (Z.of_nat (length src) <? 0 + Z.of_nat n))
      with false by zlia.
    cbn [mbind res_bind].
    replace ((size b1 <? 0) || (Z.of_nat (length (mem b1)) <? size b1 + Z.of_nat n))
      with false by zlia.
    cbn [mbind res_bind]. rewrite Nat2Z.id. change (Z.to_nat 0) with 0%nat.
    unfold slice. rewrite drop_0.
    destruct (data b1) as [d|] eqn:Ed; [|unfold mem in Hc1'; rewrite Ed in Hc1'; cbn in *; lia].
    eexists. split; [done|]. rewrite (wrap_small 64) by (pow2; lia).
    assert (length (take n src) = n) as Hl by (rewrite length_take; lia).
    split_and!; [split; cbn; rewrite ?length_write_at, ?Hl; lia| |done].
    rewrite <- Hc1, contents_Some, Z2Nat.inj_add, Nat2Z.id by lia.
    apply write_at_contents; [done|lia|done].
Qed.

End Buffer.
