(* ===== verification/Http.v ===== *)
(** The HTTP vocabulary of http.h and http.c: methods, versions, statuses,
    header keys and the tables of their texts, indexed by the enumerators. *)
From S2P Require Import Prelude Buffer.

Module Http.
Import CMem.

(** kv_t: a C string and the length the table states for it. *)
Record kv_t := make_kv { kv_s : list Z; kv_len : Z }.
Definition kv (s : string) (len : Z) : kv_t := make_kv (cstr s) len.

(** string_t: a range of the request buffer. *)
Record string_t := MkStr { off : Z; len : Z }.

#[global] Instance string_t_eq_dec : EqDecision string_t.
Proof. solve_decision. Defined.

Inductive http_method :=
  | HTTP_METHOD_GET | HTTP_METHOD_HEAD | HTTP_METHOD_POST | HTTP_METHOD_PUT
  | HTTP_METHOD_DELETE | HTTP_METHOD_CONNECT | HTTP_METHOD_OPTIONS
  | HTTP_METHOD_TRACE | HTTP_METHOD_PATCH | HTTP_METHOD_UNKNOWN.

Inductive http_version :=
  | HTTP_VERSION_10 | HTTP_VERSION_11 | HTTP_VERSION_20 | HTTP_VERSION_UNKNOWN.

Inductive http_status :=
  | HTTP_STATUS_200 | HTTP_STATUS_400 | HTTP_STATUS_404 | HTTP_STATUS_500
  | HTTP_STATUS_UNKNOWN.

Inductive http_hkey :=
  | HTTP_HKEY_CONTENT_LENGTH | HTTP_HKEY_CONNECTION | HTTP_HKEY_KEEP_ALIVE
  | HTTP_HKEY_UNKNOWN.

#[global] Instance http_method_eq_dec : EqDecision http_method.
Proof. solve_decision. Defined.
#[global] Instance http_version_eq_dec : EqDecision http_version.
Proof. solve_decision. Defined.

(** The value of an enumerator, and the cast back. *)
Definition method_index (m : http_method) : nat :=
  match m with
  | HTTP_METHOD_GET => 0 | HTTP_METHOD_HEAD => 1 | HTTP_METHOD_POST => 2
  | HTTP_METHOD_PUT => 3 | HTTP_METHOD_DELETE => 4 | HTTP_METHOD_CONNECT => 5
  | HTTP_METHOD_OPTIONS => 6 | HTTP_METHOD_TRACE => 7 | HTTP_METHOD_PATCH => 8
  | HTTP_METHOD_UNKNOWN => 9
  end%nat.
Definition method_of_index (i : nat) : http_method :=
  match i with
  | 0 => HTTP_METHOD_GET | 1 => HTTP_METHOD_HEAD | 2 => HTTP_METHOD_POST
  | 3 => HTTP_METHOD_PUT | 4 => HTTP_METHOD_DELETE | 5 => HTTP_METHOD_CONNECT
  | 6 => HTTP_METHOD_OPTIONS | 7 => HTTP_METHOD_TRACE | 8 => HTTP_METHOD_PATCH
  | _ => HTTP_METHOD_UNKNOWN
  end%nat.
Definition version_index (v : http_version) : nat :=
  match v with
  | HTTP_VERSION_10 => 0 | HTTP_VERSION_11 => 1 | HTTP_VERSION_20 => 2
  | HTTP_VERSION_UNKNOWN => 3
  end%nat.
Definition version_of_index (i : nat) : http_version :=
  match i with
  | 0 => HTTP_VERSION_10 | 1 => HTTP_VERSION_11 | 2 => HTTP_VERSION_20
  | _ => HTTP_VERSION_UNKNOWN
  end%nat.
Definition status_index (s : http_status) : nat :=
  match s with
  | HTTP_STATUS_200 => 0 | HTTP_STATUS_400 => 1 | HTTP_STATUS_404 => 2
  | HTTP_STATUS_500 => 3 | HTTP_STATUS_UNKNOWN => 4
  end%nat.
Definition hkey_index (k : http_hkey) : nat :=
  match k with
  | HTTP_HKEY_CONTENT_LENGTH => 0 | HTTP_HKEY_CONNECTION => 1
  | HTTP_HKEY_KEEP_ALIVE => 2 | HTTP_HKEY_UNKNOWN => 3
  end%nat.

Definition HTTP_METHOD_MAX : nat := method_index HTTP_METHOD_UNKNOWN.
Definition HTTP_VERSION_MAX : nat := version_index HTTP_VERSION_UNKNOWN.

Definition g_http_methods : list kv_t :=
  [kv "GET" 3; kv "HEAD" 4; kv "POST" 4; kv "PUT" 3; kv "DELETE" 6;
   kv "CONNECT" 7; kv "OPTIONS" 7; kv "TRACE" 5; kv "PATCH" 5].
Definition g_http_versions : list kv_t :=
  [kv "HTTP/1.0" 8; kv "HTTP/1.1" 8; kv "HTTP/2.0" 8].
Definition g_http_statuses : list kv_t :=
  [kv "200 OK" 6; kv "400 Bad Request" 15; kv "404 Not Found" 13;
   kv "500 Internal Server Error" 25].
Definition g_http_hkeys : list kv_t :=
  [kv "Content-Length" 14; kv "Connection" 10; kv "Keep-Alive" 10].

(** Each table has one entry per enumerator but the last, the stated lengths
    are those of the texts, and no text is a duplicate. *)
Definition kv_ok (k : kv_t) : bool :=
  bool_decide (Z.of_nat (length (kv_s k)) = kv_len k + 1) &&
  bool_decide (last (kv_s k) = Some 0) &&
  bool_decide (0 ∉ take (Z.to_nat (kv_len k)) (kv_s k)).

Lemma method_index_cast m : method_of_index (method_index m) = m.
Proof. by destruct m. Qed.
Lemma version_index_cast v : version_of_index (version_index v) = v.
Proof. by destruct v. Qed.

Lemma tables_ok :
  forallb kv_ok (g_http_methods ++ g_http_versions ++ g_http_statuses ++ g_http_hkeys) = true /\
  length g_http_methods = HTTP_METHOD_MAX /\ length g_http_versions = HTTP_VERSION_MAX /\
  length g_http_statuses = status_index HTTP_STATUS_UNKNOWN /\
  length g_http_hkeys = hkey_index HTTP_HKEY_UNKNOWN.
Proof. by vm_compute. Qed.

(** struct http_header *)
Record http_header := MkHeader { key : string_t; val : string_t }.

End Http.
