(* ===== verification/Request.v ===== *)
(** The request parser and response builder of request.c.

    Module [Request] follows the C functions: the tokenisers [span], [split],
    [trim]; [parse_status_line], [parse_headers], [find_header] and the state
    machine [parse_request], which is entered again with the same [request]
    each time more bytes have arrived; and the bytes [send_response] puts in
    the buffer. *)
From S2P Require Import Prelude Buffer Http.

Module Request.
Import CMem Buffer Http.

Definition REQ_ERR : Z := -1.
Definition REQ_OK : Z := 0.
Definition REQ_UF : Z := 1.

Definition MAX_HEADERS : nat := 32.
Definition MAX_BODY : Z := 131072.
Definition CONNECTION_FLAG_KEEPALIVE : Z := 1.

Inductive request_state :=
  | REQUEST_STATE_INIT
  | REQUEST_STATE_HEADERS
  | REQUEST_STATE_BODY
  | REQUEST_STATE_READ_COMPLETE.

(** struct request; [headers] always has MAX_HEADERS elements. *)
Record request := MkReq {
  state : request_state;
  read_bytes : Z;
  method : http_method;
  version : http_version;
  uri : string_t;
  num_headers : nat;
  headers : list http_header;
  body : string_t;
}.

(** What zero_struct leaves. *)
Definition zero_header : http_header := MkHeader (MkStr 0 0) (MkStr 0 0).
Definition zero_request : request :=
  MkReq REQUEST_STATE_INIT 0 HTTP_METHOD_GET HTTP_VERSION_10 (MkStr 0 0) 0
    (replicate MAX_HEADERS zero_header) (MkStr 0 0).

Definition with_state (s : request_state) (r : request) : request :=
  MkReq s (read_bytes r) (method r) (version r) (uri r) (num_headers r) (headers r) (body r).
Definition with_read_bytes (n : Z) (r : request) : request :=
  MkReq (state r) n (method r) (version r) (uri r) (num_headers r) (headers r) (body r).
Definition with_body (b : string_t) (r : request) : request :=
  MkReq (state r) (read_bytes r) (method r) (version r) (uri r) (num_headers r) (headers r) b.

(** *** Tokenisers *)

(** span: the number of characters from [off] up to and including the first
    [c], or -1 when there is none before [len].  The reads start at [off]
    from the data pointer [s + base]. *)
Fixpoint span_loop (m : list Z) (c : Z) (n : nat) (p i : Z) : res Z :=
  match n with
  | O => Val (-1)
  | Datatypes.S n =>
      x ← load m p;
      if x =? c then Val (i + 1) else span_loop m c n (p + 1) (i + 1)
  end.
Definition span (m : list Z) (c len off : Z) : res Z :=
  span_loop m c (Z.to_nat (len - off)) off 0.

(** split: cut the [len] characters at [base] at the first [num_tokens - 1]
    delimiters; token offsets are counted from [off].  The result is the
    number of tokens and the tokens written. *)
Fixpoint split_loop (m : list Z) (base len off delim : Z) (n : nat)
    (stop start : Z) (left : nat) : res (list string_t) :=
  match n, left with
  | O, _ | _, O => Val [MkStr (start + off) (len - start)]
  | Datatypes.S n, Datatypes.S left' =>
      x ← load m (base + stop);
      if x =? delim then
        ts ← split_loop m base len off delim n (stop + 1) (stop + 1) left';
        Val (MkStr (start + off) (stop - start) :: ts)
      else split_loop m base len off delim n (stop + 1) start left
  end.
Definition split (m : list Z) (base len off delim : Z) (num_tokens : nat) : res (list string_t) :=
  match num_tokens with
  | O => Val []
  | Datatypes.S O => Val [MkStr off len]
  | Datatypes.S n => split_loop m base len off delim (Z.to_nat len) 0 0 n
  end.

Definition is_blank (c : Z) : bool := (c =? 32) || (c =? 9) || (c =? 13) || (c =? 10).

Fixpoint trim_front (m : list Z) (n : nat) (s : string_t) : res string_t :=
  match n with
  | O => Val s
  | Datatypes.S n =>
      c ← load m (off s);
      if is_blank c then trim_front m n (MkStr (off s + 1) (len s - 1)) else Val s
  end.
Fixpoint trim_back (m : list Z) (n : nat) (s : string_t) : res string_t :=
  match n with
  | O => Val s
  | Datatypes.S n =>
      c ← load m (off s + len s - 1);
      if is_blank c then trim_back m n (MkStr (off s) (len s - 1)) else Val s
  end.
Definition trim (m : list Z) (s : string_t) : res string_t :=
  s ← trim_front m (Z.to_nat (len s)) s;
  trim_back m (Z.to_nat (len s)) s.

(** *** parse_status_line *)

(** The search of a table for the text of token [t]: the index of the first
    entry with its length and characters. *)
Fixpoint find_kv (m : list Z) (t : string_t) (tbl : list kv_t) (i : nat) : res (option nat) :=
  match tbl with
  | [] => Val None
  | k :: tbl =>
      if kv_len k =? len t then
        eq ← strncmp_eq (kv_s k) 0 m (off t) (Z.to_nat (len t));
        if (eq : bool) then Val (Some i) else find_kv m t tbl (Datatypes.S i)
      else find_kv m t tbl (Datatypes.S i)
  end.

Definition parse_status_line (req : request) (buf : buffer_t) : res (Z * request) :=
  let m := mem buf in
  line_len ← span m 10 (i32 (size buf)) 0;
  if line_len <? 0 then Val (REQ_UF, req)
  else
    ts ← split m 0 line_len 0 32 3;
    match ts with
    | [t0; t1; t2] =>
        mi ← find_kv m t0 g_http_methods 0;
        match mi with
        | None => Val (REQ_ERR, req)
        | Some mi =>
            t2 ← trim m t2;
            vi ← find_kv m t2 g_http_versions 0;
            match vi with
            | None => Val (REQ_ERR, req)
            | Some vi =>
                Val (REQ_OK, MkReq (state req) line_len (method_of_index mi)
                               (version_of_index vi) t1 (num_headers req)
                               (headers req) (body req))
            end
        end
    | _ => Val (REQ_ERR, req)
    end.

(** *** parse_headers *)

(** One iteration: [inl] goes on, [inr] leaves with a return code. *)
Definition parse_header (buf : buffer_t) (req : request) : res (request + Z * request) :=
  let m := mem buf in
  let rb := read_bytes req in
  c0 ← load m rb;
  crlf ← (if c0 =? 13 then (c1 ← load m (rb + 1); Val (c1 =? 10)) else Val false);
  if (crlf : bool) then Val (inr (REQ_OK, with_read_bytes (rb + 2) req))
  else
    line_len ← span m 10 (i32 (size buf)) (i32 rb);
    if line_len <? 0 then Val (inr (REQ_UF, req))
    else
      ts ← split m rb line_len (i32 rb) 58 2;
      match ts with
      | [t0; t1] =>
          t0 ← trim m t0;
          t1 ← trim m t1;
          Val (inl (MkReq (state req) (rb + line_len) (method req) (version req) (uri req)
                      (Datatypes.S (num_headers req))
                      (<[num_headers req := MkHeader t0 t1]> (headers req)) (body req)))
      | _ => Val (inr (REQ_ERR, req))
      end.

Fixpoint header_loop (n : nat) (buf : buffer_t) (req : request) : res (Z * request) :=
  match n with
  | O => Val (REQ_OK, req)
  | Datatypes.S n =>
      r ← parse_header buf req;
      match r with
      | inl req => header_loop n buf req
      | inr ret => Val ret
      end
  end.
Definition parse_headers (req : request) (buf : buffer_t) : res (Z * request) :=
  header_loop (MAX_HEADERS - num_headers req) buf req.

(** *** find_header *)
Fixpoint find_header_loop (m : list Z) (k : list Z) (klen : Z) (hs : list http_header)
    : res (option http_header) :=
  match hs with
  | [] => Val None
  | h :: hs =>
      if len (key h) =? klen then
        eq ← strncmp_eq m (off (key h)) k 0 (Z.to_nat klen);
        if (eq : bool) then Val (Some h) else find_header_loop m k klen hs
      else find_header_loop m k klen hs
  end.
Definition find_header (req : request) (k : list Z) (klen : Z) (buf : buffer_t)
    : res (option http_header) :=
  find_header_loop (mem buf) k klen (take (num_headers req) (headers req)).

(** *** parse_request

    One definition per case of the switch; each falls through to the next.
    The result is the return code, the request and the connection's flags. *)
Definition state_complete (req : request) (flags : Z) : Z * request * Z :=
  (REQ_OK, req,
   if bool_decide (version req = HTTP_VERSION_11)
   then Z.lor flags CONNECTION_FLAG_KEEPALIVE else flags).

Definition state_body (buf : buffer_t) (req : request) (flags : Z) : Z * request * Z :=
  if len (body req) =? 0 then state_complete (with_state REQUEST_STATE_READ_COMPLETE req) flags
  else
    let req := with_read_bytes (size buf) req in
    if i32 (read_bytes req) - off (body req) <? len (body req) then (REQ_UF, req, flags)
    else state_complete (with_state REQUEST_STATE_READ_COMPLETE req) flags.

Definition content_length_key : list Z := cstr "Content-Length".

Definition state_headers (buf : buffer_t) (req : request) (flags : Z) : res (Z * request * Z) :=
  r ← parse_headers req buf;
  let '(ret, req) := r in
  if (ret =? REQ_ERR) || (ret =? REQ_UF) then Val (ret, req, flags)
  else
    cl ← find_header req content_length_key 14 buf;
    match cl with
    | Some h =>
        n ← strtol (mem buf) (off (val h));
        let n := i32 n in
        if MAX_BODY <? n then Val (REQ_ERR, req, flags)
        else Val (state_body buf
                    (with_state REQUEST_STATE_BODY
                       (with_body (MkStr (i32 (read_bytes req)) n) req)) flags)
    | None => Val (state_body buf (with_state REQUEST_STATE_BODY req) flags)
    end.

Definition state_init (buf : buffer_t) (req : request) (flags : Z) : res (Z * request * Z) :=
  r ← parse_status_line req buf;
  let '(ret, req) := r in
  if (ret =? REQ_ERR) || (ret =? REQ_UF) then Val (ret, req, flags)
  else state_headers buf (with_state REQUEST_STATE_HEADERS req) flags.

Definition parse_request (buf : buffer_t) (req : request) (flags : Z) : res (Z * request * Z) :=
  match state req with
  | REQUEST_STATE_INIT => state_init buf req flags
  | REQUEST_STATE_HEADERS => state_headers buf req flags
  | REQUEST_STATE_BODY => Val (state_body buf req flags)
  | REQUEST_STATE_READ_COMPLETE => Val (state_complete req flags)
  end.

(** *** Responses *)

(** The text of an enumerator in a table; past its end the read is undefined. *)
Definition table_text (tbl : list kv_t) (i : nat) : res (list Z) :=
  k ← res_opt (tbl !! i);
  Val (take (length (kv_s k) - 1) (kv_s k)).

Definition crlf : list Z := [13; 10].

(** snprintf into [tmp[128]] and push the [n] bytes it reports; the result of
    push_buffer is not looked at. *)
Definition push_text (a : alloc) (b : buffer_t) (s : list Z) : res buffer_t :=
  let (tmp, n) := snprintf 128 s in
  r ← push_buffer a b tmp (u64 n);
  Val (snd r).

(** send_response up to its call of begin_send: what it leaves in the buffer.
    [a] answers every reallocation of the call. *)
Definition fill_response (a : alloc) (buf : buffer_t) (req : request) (flags : Z)
    (status : http_status) (resp : list Z) (rlen : Z) : res buffer_t :=
  let buf := clear_buffer buf in
  v ← table_text g_http_versions (version_index (version req));
  s ← table_text g_http_statuses (status_index status);
  buf ← push_text a buf (v ++ bytes_of " " ++ s ++ crlf);
  buf ← (if negb (Z.land flags CONNECTION_FLAG_KEEPALIVE =? 0) then
           kc ← table_text g_http_hkeys (hkey_index HTTP_HKEY_CONNECTION);
           buf ← push_text a buf (kc ++ bytes_of ": keep-alive" ++ crlf);
           kk ← table_text g_http_hkeys (hkey_index HTTP_HKEY_KEEP_ALIVE);
           push_text a buf (kk ++ bytes_of ": timeout=5" ++ crlf)
         else Val buf);
  kl ← table_text g_http_hkeys (hkey_index HTTP_HKEY_CONTENT_LENGTH);
  buf ← push_text a buf (kl ++ bytes_of ": " ++ dec rlen ++ crlf ++ crlf);
  if rlen =? 0 then Val buf
  else
    r ← push_buffer a buf resp rlen;
    Val (snd r).

(** get_uri and get_body: a pointer into the buffer (as an offset) and a length. *)
Definition get_uri (req : request) : Z * Z := (off (uri req), len (uri req)).
Definition get_body (req : request) : Z * Z := (off (body req), len (body req)).

End Request.
