(* ===== verification/RequestSpec.v ===== *)
(** What the request parser of Request.v computes.

    The tokenisers on the text of a line; the round trip from the text of a
    request to the parsed request; the parser on any input: it stays inside
    the bytes it was given, and stopping for more bytes and going on is the
    same as having had them all; the behaviours a client can observe that the
    protocol does not ask for; and the text of a response. *)
From S2P Require Import Prelude Buffer Http Request.

Module ParserSpec.
Import CMem Buffer Http Request.

(** The text of a range of the buffer. *)
Definition text (m : list Z) (s : string_t) : list Z :=
  slice (Z.to_nat (off s)) (Z.to_nat (len s)) m.

(** [s] is the range of [x] when [pre] precedes it. *)
Definition range (pre x : list Z) : string_t :=
  MkStr (Z.of_nat (length pre)) (Z.of_nat (length x)).

Lemma text_range pre x post : text (pre ++ x ++ post) (range pre x) = x.
Proof. unfold text, range. cbn. rewrite !Nat2Z.id. by apply slice_app_mid. Qed.

Lemma text_tok_eq m pre x post : m = pre ++ x ++ post -> text m (range pre x) = x.
Proof. intros ->. apply text_range. Qed.

(** ** span *)
Lemma span_loop_hit a c n pre post i : c ∉ a -> (length a < n)%nat ->
  span_loop (pre ++ a ++ c :: post) c n (Z.of_nat (length pre)) i =
  Val (i + Z.of_nat (length a) + 1).
Proof.
  revert n pre i. induction a as [|x a IH]; intros [|n] pre i Hc Hn; try (cbn in Hn; lia).
  - cbn [span_loop app]. rewrite load_mid. cbn. rewrite Z.eqb_refl. do 2 f_equal. lia.
  - apply not_elem_of_cons in Hc as [Hx Hc]. cbn [span_loop app]. rewrite load_mid.
    cbn [mbind res_bind]. replace (x =? c) with false by zlia.
    specialize (IH n (pre ++ [x]) (i + 1) Hc ltac:(cbn in Hn; lia)).
    rewrite <- (assoc_L (++)), length_app in IH. cbn [length app] in IH.
    replace (Z.of_nat (length pre) + 1) with (Z.of_nat (length pre + 1)) by lia.
    rewrite IH. f_equal. cbn. lia.
Qed.

Lemma span_loop_miss a c pre post i : c ∉ a ->
  span_loop (pre ++ a ++ post) c (length a) (Z.of_nat (length pre)) i = Val (-1).
Proof.
  revert pre i. induction a as [|x a IH]; intros pre i Hc; [done|].
  apply not_elem_of_cons in Hc as [Hx Hc]. cbn [span_loop app length]. rewrite load_mid.
  cbn [mbind res_bind]. replace (x =? c) with false by zlia.
  specialize (IH (pre ++ [x]) (i + 1) Hc).
  rewrite <- (assoc_L (++)), length_app in IH. cbn [length app] in IH.
  by replace (Z.of_nat (length pre) + 1) with (Z.of_nat (length pre + 1)) by lia.
Qed.

Lemma span_hit m c len pre a post : m = pre ++ a ++ c :: post -> c ∉ a ->
  Z.of_nat (length pre + length a) < len ->
  span m c len (Z.of_nat (length pre)) = Val (Z.of_nat (length a) + 1).
Proof. intros -> Hc Hl. unfold span. rewrite span_loop_hit by (done || lia). f_equal. Qed.

Lemma span_miss m c pre a post : m = pre ++ a ++ post -> c ∉ a ->
  span m c (Z.of_nat (length pre + length a)) (Z.of_nat (length pre)) = Val (-1).
Proof.
  intros -> Hc. unfold span.
  replace (Z.to_nat _) with (length a) by lia. by apply span_loop_miss.
Qed.

(** ** split *)
Lemma split_loop_skip a d n pre post base len off stop start left :
  d ∉ a -> base + stop = Z.of_nat (length pre) ->
  split_loop (pre ++ a ++ post) base len off d (length a + n) stop start (Datatypes.S left) =
  split_loop (pre ++ a ++ post) base len off d n (stop + Z.of_nat (length a)) start
    (Datatypes.S left).
Proof.
  revert pre stop. induction a as [|x a IH]; intros pre stop Hd Hs.
  - cbn. by rewrite Z.add_0_r.
  - apply not_elem_of_cons in Hd as [Hx Hd]. cbn [length app Nat.add].
    cbn [split_loop]. rewrite Hs, load_mid. cbn [mbind res_bind].
    replace (x =? d) with false by zlia.
    specialize (IH (pre ++ [x]) (stop + 1) Hd). rewrite <- (assoc_L (++)) in IH. cbn [app] in IH.
    rewrite IH by (rewrite length_app; cbn; lia). f_equal. lia.
Qed.

Lemma split_loop_piece a d n pre post base len off stop start left :
  d ∉ a -> base + stop = Z.of_nat (length pre) -> (length a < n)%nat ->
  split_loop (pre ++ a ++ d :: post) base len off d n stop start (Datatypes.S left) =
  (ts ← split_loop (pre ++ a ++ d :: post) base len off d (n - length a - 1)
          (stop + Z.of_nat (length a) + 1) (stop + Z.of_nat (length a) + 1) left;
   Val (MkStr (start + off) (stop + Z.of_nat (length a) - start) :: ts)).
Proof.
  intros Hd Hs Hn.
  replace n with (length a + Datatypes.S (n - length a - 1))%nat at 1 by lia.
  rewrite split_loop_skip by done. cbn [split_loop].
  replace (base + (stop + Z.of_nat (length a))) with (Z.of_nat (length (pre ++ a)))
    by (rewrite length_app; lia).
  rewrite (assoc_L (++)) at 1. rewrite load_mid. cbn [mbind res_bind].
  by rewrite Z.eqb_refl.
Qed.

Lemma split_loop_end m base len off d n stop start :
  split_loop m base len off d n stop start 0 = Val [MkStr (start + off) (len - start)].
Proof. by destruct n. Qed.

(** Two tokens: everything before the first delimiter and everything after. *)
Lemma split_two m pre a b d post : m = pre ++ (a ++ d :: b) ++ post -> d ∉ a ->
  split m (Z.of_nat (length pre)) (Z.of_nat (length (a ++ d :: b)))
    (Z.of_nat (length pre)) d 2 =
  Val [range pre a; range (pre ++ a ++ [d]) b].
Proof.
  intros -> Hd. unfold split. rewrite <- (assoc_L (++)). cbn [app].
  rewrite split_loop_piece; [|done|lia|rewrite length_app; cbn; lia].
  rewrite split_loop_end. cbn [mbind res_bind]. unfold range.
  rewrite !length_app. cbn [length]. repeat f_equal; lia.
Qed.

(** Three tokens, from the start of the buffer. *)
Lemma split_three m a b c d post : m = (a ++ d :: b ++ d :: c) ++ post -> d ∉ a -> d ∉ b ->
  split m 0 (Z.of_nat (length (a ++ d :: b ++ d :: c))) 0 d 3 =
  Val [range [] a; range (a ++ [d]) b; range (a ++ d :: b ++ [d]) c].
Proof.
  intros -> Ha Hb. unfold split.
  set (n := length (a ++ d :: b ++ d :: c)).
  assert (n = length a + length b + length c + 2)%nat as Hn.
  { unfold n. rewrite length_app. cbn [length]. rewrite length_app. cbn [length]. lia. }
  assert ((a ++ d :: b ++ d :: c) ++ post = [] ++ a ++ d :: b ++ d :: c ++ post) as ->.
  { by rewrite <- (assoc_L (++)); cbn [app]; rewrite <- (assoc_L (++)). }
  rewrite (split_loop_piece a d _ []) by (done || lia).
  assert ([] ++ a ++ d :: b ++ d :: c ++ post = (a ++ [d]) ++ b ++ d :: c ++ post) as ->.
  { by rewrite <- (assoc_L (++)). }
  rewrite (split_loop_piece b d) by (done || (rewrite ?length_app; cbn [length]; lia)).
  rewrite split_loop_end. cbn [mbind res_bind]. unfold range.
  rewrite !length_app. cbn [length]. rewrite !length_app. cbn [length].
  repeat f_equal; lia.
Qed.

(** ** trim *)
Definition blanks (w : list Z) : Prop := Forall (fun c => is_blank c = true) w.

(** Neither the first nor the last character is blank. *)
Definition trimmed (x : list Z) : Prop :=
  (forall c, head x = Some c -> is_blank c = false) /\
  (forall c, last x = Some c -> is_blank c = false).

Lemma trim_front_spec w pre y post n m s :
  m = pre ++ (w ++ y) ++ post -> s = range pre (w ++ y) -> blanks w ->
  (forall c, head y = Some c -> is_blank c = false) -> n = length (w ++ y) ->
  trim_front m n s = Val (range (pre ++ w) y).
Proof.
  intros -> -> Hw Hy ->. revert pre. induction Hw as [|c w Hc Hw IH]; intros pre.
  - rewrite app_nil_r. cbn [app]. destruct y as [|c y]; [done|].
    cbn [length trim_front range off app]. rewrite load_mid. cbn [mbind res_bind].
    by rewrite (Hy c).
  - cbn [app length trim_front range off len]. rewrite load_mid. cbn [mbind res_bind].
    rewrite Hc. specialize (IH (pre ++ [c])).
    app_norm. app_norm_in IH. rewrite <- IH. f_equal.
    unfold range. rewrite !length_app. cbn [length]. f_equal; lia.
Qed.

Lemma trim_back_spec w pre y post n m s :
  m = pre ++ (y ++ w) ++ post -> s = range pre (y ++ w) -> blanks w ->
  (forall c, last y = Some c -> is_blank c = false) -> n = length (y ++ w) ->
  trim_back m n s = Val (range pre y).
Proof.
  intros -> -> Hw Hy ->. revert post.
  induction w as [|c w IH] using rev_ind; intros post.
  - rewrite app_nil_r. destruct y as [|c y _] using rev_ind; [done|].
    rewrite length_app, Nat.add_1_r. cbn [trim_back range off len].
    replace (Z.of_nat (length pre) + Z.of_nat (length (y ++ [c])) - 1)
      with (Z.of_nat (length (pre ++ y))) by (rewrite !length_app; cbn; lia).
    rewrite <- (assoc_L (++) y), (assoc_L (++) pre). cbn [app].
    rewrite load_mid. cbn [mbind res_bind]. rewrite (Hy c); [done|apply last_snoc].
  - apply Forall_app in Hw as [Hw Hc]. inversion_clear Hc as [|? ? Hc' _]. rename Hc' into Hc.
    rewrite (assoc_L (++) y), length_app, Nat.add_1_r. cbn [trim_back range off len].
    replace (Z.of_nat (length pre) + Z.of_nat (length ((y ++ w) ++ [c])) - 1)
      with (Z.of_nat (length (pre ++ y ++ w))) by (rewrite !length_app; cbn; lia).
    rewrite <- (assoc_L (++) (y ++ w)). cbn [app].
    rewrite (assoc_L (++) pre) at 1. rewrite load_mid. cbn [mbind res_bind]. rewrite Hc.
    rewrite <- (IH Hw (c :: post)). f_equal. unfold range.
    f_equal. rewrite length_app. cbn. lia.
Qed.

(** Blanks on both sides go away. *)
Lemma trim_spec w1 w2 pre x post m s :
  m = pre ++ (w1 ++ x ++ w2) ++ post -> s = range pre (w1 ++ x ++ w2) ->
  blanks w1 -> blanks w2 -> trimmed x -> x <> [] ->
  trim m s = Val (range (pre ++ w1) x).
Proof.
  intros -> -> H1 H2 [Hh Hl] Hx. unfold trim.
  rewrite (trim_front_spec w1 pre (x ++ w2) post); [|done|done|done| |].
  - cbn [mbind res_bind]. eapply trim_back_spec; [|done|done|done|].
    + by rewrite <- !(assoc_L (++)).
    + cbn. by rewrite Nat2Z.id.
  - intros c Hc. apply Hh. by destruct x.
  - cbn. by rewrite Nat2Z.id.
Qed.

Lemma trim_blank w pre post m s :
  m = pre ++ w ++ post -> s = range pre w -> blanks w ->
  trim m s = Val (range (pre ++ w) []).
Proof.
  intros -> -> Hw. unfold trim.
  rewrite (trim_front_spec w pre [] post); [done|..]; rewrite ?app_nil_r; try done.
  cbn. by rewrite Nat2Z.id.
Qed.

(** ** strncmp and the tables *)
Lemma strncmp_eq_spec x y pa sa pb sb n :
  length x = n -> length y = n -> 0 ∉ x \/ 0 ∉ y ->
  strncmp_eq (pa ++ x ++ sa) (Z.of_nat (length pa)) (pb ++ y ++ sb) (Z.of_nat (length pb)) n =
  Val (bool_decide (x = y)).
Proof.
  revert x y pa pb. induction n as [|n IH]; intros [|a x] [|b y] pa pb; try done.
  intros Hx Hy H0. cbn [strncmp_eq app]. rewrite !load_mid. cbn [mbind res_bind].
  destruct (Z.eqb_spec a b) as [->|Hab]; cbn [negb].
  2: { by rewrite bool_decide_false by congruence. }
  rewrite !not_elem_of_cons in H0.
  replace (b =? 0) with false by (symmetry; apply Z.eqb_neq; naive_solver).
  specialize (IH x y (pa ++ [b]) (pb ++ [b])).
  rewrite <- !(assoc_L (++)), !length_app in IH. cbn [length app] in IH.
  replace (Z.of_nat (length pa) + 1) with (Z.of_nat (length pa + 1)) by lia.
  replace (Z.of_nat (length pb) + 1) with (Z.of_nat (length pb + 1)) by lia.
  rewrite IH by (try naive_solver; cbn in *; lia). f_equal.
  apply bool_decide_ext. naive_solver.
Qed.

Definition kv_text (k : kv_t) : list Z := take (Z.to_nat (kv_len k)) (kv_s k).

Fixpoint index_of (x : list Z) (tbl : list kv_t) (i : nat) : option nat :=
  match tbl with
  | [] => None
  | k :: tbl => if bool_decide (kv_text k = x) then Some i else index_of x tbl (Datatypes.S i)
  end.

Lemma find_kv_spec x pre post m t tbl i :
  forallb kv_ok tbl = true -> m = pre ++ x ++ post -> t = range pre x ->
  find_kv m t tbl i = Val (index_of x tbl i).
Proof.
  intros Hok -> ->. revert i. induction tbl as [|k tbl IH]; intros i; [done|].
  cbn [forallb] in Hok. apply andb_true_iff in Hok as [Hk Hok].
  unfold kv_ok in Hk. rewrite !andb_true_iff, !bool_decide_eq_true in Hk.
  destruct Hk as [[Hlen Hlast] H0]. fold (kv_text k) in H0.
  assert (0 <= kv_len k) as Hk0 by (destruct (kv_s k); [done|cbn in Hlen; lia]).
  cbn [find_kv index_of range len off].
  assert (length (kv_text k) = Z.to_nat (kv_len k)) as Hl.
  { unfold kv_text. rewrite length_take. lia. }
  destruct (Z.eqb_spec (kv_len k) (Z.of_nat (length x))) as [E|E].
  - rewrite <- (take_drop (Z.to_nat (kv_len k)) (kv_s k)). fold (kv_text k).
    pose proof (strncmp_eq_spec (kv_text k) x [] (drop (Z.to_nat (kv_len k)) (kv_s k))
      pre post (length x)) as E'. cbn [app length] in E'. change (Z.of_nat 0) with 0 in E'.
    rewrite Nat2Z.id, E' by (try (by left); lia). cbn [mbind res_bind].
    case_bool_decide; [done|]. by apply IH.
  - rewrite bool_decide_false; [by apply IH|]. intros <-. apply E. rewrite Hl. lia.
Qed.

Definition method_text (k : http_method) : list Z :=
  default [] (kv_text <$> g_http_methods !! method_index k).
Definition version_text (v : http_version) : list Z :=
  default [] (kv_text <$> g_http_versions !! version_index v).

Lemma find_method k pre post m t : k <> HTTP_METHOD_UNKNOWN ->
  m = pre ++ method_text k ++ post -> t = range pre (method_text k) ->
  find_kv m t g_http_methods 0 = Val (Some (method_index k)).
Proof.
  intros Hk -> ->. rewrite (find_kv_spec (method_text k) pre post) by done.
  destruct k; done.
Qed.

Lemma find_version v pre post m t : v <> HTTP_VERSION_UNKNOWN ->
  m = pre ++ version_text v ++ post -> t = range pre (version_text v) ->
  find_kv m t g_http_versions 0 = Val (Some (version_index v)).
Proof.
  intros Hk -> ->. rewrite (find_kv_spec (version_text v) pre post) by done.
  destruct v; done.
Qed.

(** ** Rendering a request, and what the parser makes of it *)

(** [s] is the range of an occurrence of [x] in [m]. *)
Definition tok (m : list Z) (s : string_t) (x : list Z) : Prop :=
  exists pre post, m = pre ++ x ++ post /\ s = range pre x.

Lemma tok_text m s x : tok m s x -> text m s = x.
Proof. intros (pre & post & -> & ->). apply text_range. Qed.

Lemma trim_tok pre w1 x w2 post m :
  m = pre ++ (w1 ++ x ++ w2) ++ post -> blanks w1 -> blanks w2 -> trimmed x ->
  exists pre' post', trim m (range pre (w1 ++ x ++ w2)) = Val (range pre' x) /\
    m = pre' ++ x ++ post' /\ (x <> [] -> pre' = pre ++ w1 /\ post' = w2 ++ post).
Proof.
  intros Hm H1 H2 Hx. destruct (decide (x = [])) as [->|Hne].
  - exists (pre ++ w1 ++ w2), post. cbn [app] in *.
    split_and!; [|by rewrite Hm; app_norm|done].
    eapply trim_blank; [done|done|]. by apply Forall_app.
  - exists (pre ++ w1), (w2 ++ post). split_and!; [by eapply trim_spec| |done].
    rewrite Hm. by app_norm.
Qed.

Definition header_text : Type := list Z * list Z.

Definition render_header (h : header_text) : list Z :=
  fst h ++ [58; 32] ++ snd h ++ crlf.
Definition render_headers (hs : list header_text) : list Z := concat (render_header <$> hs).
Definition render_status (k : http_method) (u : list Z) (v : http_version) : list Z :=
  method_text k ++ 32 :: u ++ 32 :: version_text v ++ crlf.
Definition render (k : http_method) (u : list Z) (v : http_version)
    (hs : list header_text) (b : list Z) : list Z :=
  render_status k u v ++ render_headers hs ++ crlf ++ b.

Record header_ok (h : header_text) : Prop := {
  header_key_line : (58 ∉ fst h) /\ (10 ∉ fst h);
  header_val_line : 10 ∉ snd h;
  header_key_trim : trimmed (fst h);
  header_val_trim : trimmed (snd h);
}.

(** The parsed header [t] holds the texts of [h]; its value ends at a CR. *)
Definition header_at (m : list Z) (t : http_header) (h : header_text) : Prop :=
  tok m (key t) (fst h) /\
  exists pre post, m = pre ++ snd h ++ post /\ val t = range pre (snd h) /\
    (snd h <> [] -> head post = Some 13).

Definition same_line (r r' : request) : Prop :=
  state r' = state r /\ method r' = method r /\ version r' = version r /\
  uri r' = uri r /\ body r' = body r.

Lemma render_header_line h : render_header h = (fst h ++ 58 :: 32 :: snd h ++ [13]) ++ [10].
Proof. unfold render_header, crlf. by app_norm. Qed.

Lemma not_blank_not_cr (k rest : list Z) : trimmed k ->
  exists c tl, k ++ 58 :: rest = c :: tl /\ c <> 13.
Proof.
  intros [Hk _]. destruct k as [|c k]; cbn [app]; eexists _, _; split; try done.
  intros ->. by specialize (Hk 13 eq_refl).
Qed.

Lemma parse_header_ok buf req pre h post :
  mem buf = pre ++ render_header h ++ post -> read_bytes req = Z.of_nat (length pre) ->
  Z.of_nat (length (pre ++ render_header h)) <= size buf < 2 ^ 31 -> header_ok h ->
  exists t, header_at (mem buf) t h /\
    parse_header buf req = Val (inl (MkReq (state req)
      (Z.of_nat (length (pre ++ render_header h))) (method req) (version req) (uri req)
      (Datatypes.S (num_headers req)) (<[num_headers req := t]> (headers req)) (body req))).
Proof.
  intros Hm Hrb Hsz [[Hk58 Hk10] Hv10 Hkt Hvt]. destruct h as [k v]; cbn [fst snd] in *.
  unfold parse_header. cbv zeta. rewrite Hrb.
  set (line := k ++ 58 :: 32 :: v ++ [13; 10]).
  assert (render_header (k, v) = line) as Hline.
  { unfold line, render_header, crlf. cbn [fst snd]. by app_norm. }
  rewrite Hline in *. rewrite length_app in Hsz.
  assert (exists c tl, mem buf = pre ++ c :: tl /\ c <> 13) as (c & tl & Hc & Hne).
  { destruct (not_blank_not_cr k (32 :: v ++ [13; 10]) Hkt) as (c & tl & E & Hne).
    exists c, (tl ++ post). split; [|done]. rewrite Hm. unfold line. by rewrite E. }
  assert (load (mem buf) (Z.of_nat (length pre)) = Val c) as -> by (rewrite Hc; apply load_mid).
  cbn [mbind res_bind].
  replace (c =? 13) with false by zlia. cbn [mbind res_bind].
  rewrite !swrap_small by (pow2; lia).
  assert (mem buf = pre ++ (k ++ 58 :: 32 :: v ++ [13]) ++ 10 :: post) as Hspan.
  { rewrite Hm. unfold line. by app_norm. }
  set (line0 := k ++ 58 :: 32 :: v ++ [13]) in *.
  assert (length line = length line0 + 1)%nat as Hlen.
  { unfold line, line0. rewrite !length_app. cbn [length]. rewrite !length_app. cbn [length]. lia. }
  rewrite (span_hit _ _ _ _ _ _ Hspan); [|unfold line0; set_solver|lia].
  cbn [mbind res_bind].
  replace (Z.of_nat (length line0) + 1) with (Z.of_nat (length line)) by lia.
  replace (Z.of_nat (length line) <? 0) with false by zlia.
  pose proof (split_two _ pre k (32 :: v ++ [13; 10]) 58 post Hm Hk58) as Es.
  fold line in Es. rewrite Es. cbn [mbind res_bind].
  destruct (trim_tok pre [] k [] (58 :: 32 :: v ++ [13; 10] ++ post) (mem buf))
    as (p1 & q1 & E1 & Hm1 & _).
  { rewrite Hm, app_nil_r. unfold line. by app_norm. }
  { constructor. } { constructor. } { done. }
  rewrite app_nil_r in E1. cbn [app] in E1. rewrite E1. cbn [mbind res_bind].
  destruct (trim_tok (pre ++ k ++ [58]) [32] v [13; 10] post (mem buf))
    as (p2 & q2 & E2 & Hm2 & Hx).
  { rewrite Hm. unfold line. by app_norm. } { by repeat constructor. }
  { by repeat constructor. } { done. }
  cbn [app] in E2. rewrite E2. cbn [mbind res_bind].
  exists (MkHeader (range p1 k) (range p2 v)). split.
  - split; [by exists p1, q1|]. exists p2, q2. split_and!; [done..|].
    intros [_ ->]%Hx. done.
  - rewrite length_app, Nat2Z.inj_add. done.
Qed.

Lemma parse_header_end buf req pre post :
  mem buf = pre ++ crlf ++ post -> read_bytes req = Z.of_nat (length pre) ->
  parse_header buf req =
  Val (inr (REQ_OK, with_read_bytes (Z.of_nat (length (pre ++ crlf))) req)).
Proof.
  intros Hm Hrb. unfold parse_header. rewrite Hrb, Hm. unfold crlf. cbn [app].
  rewrite load_mid. cbn [mbind res_bind Z.eqb Pos.eqb]. rewrite (length_snoc_Z pre 13).
  assert (pre ++ 13 :: 10 :: post = (pre ++ [13]) ++ 10 :: post) as -> by by app_norm.
  rewrite load_mid. cbn [mbind res_bind Z.eqb Pos.eqb]. do 4 f_equal.
  rewrite !length_app. cbn. lia.
Qed.

(** The loop on rendered headers: it stores them all and goes on after them. *)
Lemma header_loop_render buf hs : forall req pre post done_,
  mem buf = pre ++ render_headers hs ++ post ->
  read_bytes req = Z.of_nat (length pre) ->
  Z.of_nat (length (pre ++ render_headers hs)) <= size buf < 2 ^ 31 ->
  Forall header_ok hs -> (num_headers req + length hs <= MAX_HEADERS)%nat ->
  length (headers req) = MAX_HEADERS ->
  Forall2 (header_at (mem buf)) (take (num_headers req) (headers req)) done_ ->
  exists req', header_loop (MAX_HEADERS - num_headers req) buf req =
      header_loop (MAX_HEADERS - num_headers req') buf req' /\
    same_line req req' /\ num_headers req' = (num_headers req + length hs)%nat /\
    read_bytes req' = Z.of_nat (length (pre ++ render_headers hs)) /\
    Forall2 (header_at (mem buf)) (take (num_headers req') (headers req')) (done_ ++ hs).
Proof.
  induction hs as [|h hs IH]; intros req pre post done_ Hm Hrb Hsz Hok Hn Hlen Hdone.
  - exists req. cbn [length]. rewrite !app_nil_r, Nat.add_0_r. by split_and!.
  - unfold render_headers in Hm, Hsz |- *. rewrite fmap_cons in *. cbn [concat] in *.
    fold (render_headers hs) in *. inversion Hok as [|? ? Hh Hhs]; subst.
    cbn [length] in Hn.
    replace (MAX_HEADERS - num_headers req)%nat
      with (Datatypes.S (MAX_HEADERS - Datatypes.S (num_headers req))) by lia.
    destruct (parse_header_ok buf req pre h (render_headers hs ++ post))
      as (t & Ht & E); [by rewrite Hm; app_norm|done| |done|].
    { rewrite !length_app in *. lia. }
    cbn [header_loop]. rewrite E. cbn [mbind res_bind]. set (req1 := MkReq _ _ _ _ _ _ _ _).
    destruct (IH req1 (pre ++ render_header h) post (done_ ++ [h])) as (req' & E' & Hs & Hn' & Hr & Hd).
    { rewrite Hm. by app_norm. } { done. } { rewrite <- (assoc_L (++)). by app_norm_in Hsz. }
    { done. } { cbn. lia. } { cbn. by rewrite length_insert. }
    { cbn [req1 num_headers headers].
      rewrite (take_S_r _ _ t) by (apply list_lookup_insert_eq; lia).
      rewrite take_insert_ge by lia. apply Forall2_app; [done|]. by apply Forall2_cons. }
    exists req'. split; [exact E'|]. split; [done|]. split; [rewrite Hn'; cbn; lia|].
    split; [rewrite Hr; by app_norm|]. app_norm_in Hd. exact Hd.
Qed.

Lemma header_loop_ok buf hs req pre post :
  mem buf = pre ++ render_headers hs ++ crlf ++ post ->
  read_bytes req = Z.of_nat (length pre) ->
  Z.of_nat (length (pre ++ render_headers hs ++ crlf)) <= size buf < 2 ^ 31 ->
  Forall header_ok hs -> num_headers req = 0%nat -> (length hs < MAX_HEADERS)%nat ->
  length (headers req) = MAX_HEADERS ->
  exists req', header_loop (MAX_HEADERS - num_headers req) buf req = Val (REQ_OK, req') /\
    same_line req req' /\
    read_bytes req' = Z.of_nat (length (pre ++ render_headers hs ++ crlf)) /\
    Forall2 (header_at (mem buf)) (take (num_headers req') (headers req')) hs.
Proof.
  intros Hm Hrb Hsz Hok Hn Hlt Hlen.
  destruct (header_loop_render buf hs req pre (crlf ++ post) [])
    as (req' & E & Hsame & Hn' & Hrb' & Hd); try done.
  { rewrite !length_app in *. lia. } { lia. } { by rewrite Hn. }
  rewrite E, Hn', Hn.
  replace (MAX_HEADERS - (0 + length hs))%nat
    with (Datatypes.S (MAX_HEADERS - length hs - 1)) by lia.
  cbn [header_loop]. rewrite (parse_header_end buf req' (pre ++ render_headers hs) post);
    [|by rewrite Hm; app_norm|done].
  cbn [mbind res_bind]. eexists. split; [done|]. split; [done|].
  split; [cbn; by rewrite <- (assoc_L (++))|]. exact Hd.
Qed.

(** The value of the first header whose key is [k]. *)
Fixpoint lookup_header (k : list Z) (hs : list header_text) : option (list Z) :=
  match hs with
  | [] => None
  | h :: hs => if bool_decide (fst h = k) then Some (snd h) else lookup_header k hs
  end.

Lemma find_header_loop_ok m ts hs k : 0 ∉ k ->
  Forall2 (header_at m) ts hs ->
  match lookup_header k hs with
  | None => find_header_loop m (k ++ [0]) (Z.of_nat (length k)) ts = Val None
  | Some v => exists h k', find_header_loop m (k ++ [0]) (Z.of_nat (length k)) ts = Val (Some h) /\
                header_at m h (k', v)
  end.
Proof.
  intros Hk. induction 1 as [|t h ts hs Hth _ IH]; [done|].
  destruct h as [hk hv]. cbn [lookup_header find_header_loop fst snd].
  pose proof Hth as [(pre & post & Hm & Hrange) _]. cbn [fst] in Hm, Hrange. rewrite Hrange.
  cbn [range len off].
  destruct (Z.eqb_spec (Z.of_nat (length hk)) (Z.of_nat (length k))) as [E|E].
  - pose proof (strncmp_eq_spec hk k pre post [] [0] (length k)) as E'.
    cbn [app length] in E'. change (Z.of_nat 0) with 0 in E'. rewrite <- Hm in E'.
    rewrite Nat2Z.id, E' by (try (by right); lia). cbn [mbind res_bind].
    case_bool_decide; [|exact IH]. eauto.
  - rewrite bool_decide_false; [exact IH|]. intros ->. lia.
Qed.

Definition content_length : list Z := bytes_of "Content-Length".

(** What the headers say about the body [b]: its length, if they state one. *)
Definition body_ok (hs : list header_text) (b : list Z) : Prop :=
  match lookup_header content_length hs with
  | None => True
  | Some v => v = dec (Z.of_nat (length b)) /\ Z.of_nat (length b) <= MAX_BODY
  end.

Lemma dec_not_nil x : 0 <= x < 2 ^ 64 -> dec x <> [].
Proof. intros Hx E. destruct (dec_spec x Hx) as (_ & _ & Hl). rewrite E in Hl. cbn in Hl. lia. Qed.

(** The flags a completed request leaves. *)
Definition keepalive (v : http_version) (flags : Z) : Z :=
  if bool_decide (v = HTTP_VERSION_11) then Z.lor flags CONNECTION_FLAG_KEEPALIVE else flags.

(** The last two states, once the body is there. *)
Definition completes (r : request) (flags : Z) (out : Z * request * Z) : Prop :=
  exists r', out = (REQ_OK, r', keepalive (version r) flags) /\
    state r' = REQUEST_STATE_READ_COMPLETE /\ method r' = method r /\
    version r' = version r /\ uri r' = uri r /\ num_headers r' = num_headers r /\
    headers r' = headers r /\ body r' = body r.

Lemma state_body_ok buf r flags :
  len (body r) = 0 \/ len (body r) <= i32 (size buf) - off (body r) ->
  completes r flags (state_body buf r flags).
Proof.
  intros H. unfold state_body. destruct (Z.eqb_spec (len (body r)) 0) as [E|E].
  - eexists. by split_and!.
  - cbn [with_read_bytes read_bytes body].
    replace (_ <? len (body r)) with false by zlia. eexists. by split_and!.
Qed.

(** What [state_headers] does once the header loop has returned REQ_OK with
    request [r], the texts of whose headers are [hs]. *)
Lemma state_headers_run buf req r hs flags :
  header_loop (MAX_HEADERS - num_headers req) buf req = Val (REQ_OK, r) ->
  Forall2 (header_at (mem buf)) (take (num_headers r) (headers r)) hs ->
  match lookup_header content_length hs with
  | None => state_headers buf req flags =
              Val (state_body buf (with_state REQUEST_STATE_BODY r) flags)
  | Some v => exists pre post, mem buf = pre ++ v ++ post /\ (v <> [] -> head post = Some 13) /\
      state_headers buf req flags =
        (n ← strtol (mem buf) (Z.of_nat (length pre));
         if MAX_BODY <? i32 n then Val (REQ_ERR, r, flags)
         else Val (state_body buf (with_state REQUEST_STATE_BODY
                     (with_body (MkStr (i32 (read_bytes r)) (i32 n)) r)) flags))
  end.
Proof.
  intros E Hd. unfold state_headers, parse_headers. rewrite E. cbn [mbind res_bind].
  change ((REQ_OK =? REQ_ERR) || (REQ_OK =? REQ_UF)) with false. cbn iota. unfold find_header.
  pose proof (find_header_loop_ok (mem buf) _ _ content_length ltac:(by_compute) Hd) as Hf.
  change content_length_key with (content_length ++ [0]).
  change 14 with (Z.of_nat (length content_length)).
  destruct (lookup_header content_length hs) as [v|]; [|by rewrite Hf].
  destruct Hf as (h & k' & -> & _ & p & q & Hp & Hval & Hq). exists p, q.
  split; [done|]. split; [done|]. cbn [mbind res_bind]. by rewrite Hval.
Qed.

(** The header section of a rendered request, and the body. *)
Lemma state_headers_ok buf req pre hs b pad flags :
  mem buf = pre ++ render_headers hs ++ crlf ++ b ++ pad ->
  size buf = Z.of_nat (length (pre ++ render_headers hs ++ crlf ++ b)) -> size buf < 2 ^ 31 ->
  read_bytes req = Z.of_nat (length pre) -> num_headers req = 0%nat ->
  length (headers req) = MAX_HEADERS -> len (body req) = 0 ->
  Forall header_ok hs -> (length hs < MAX_HEADERS)%nat -> body_ok hs b ->
  exists r', state_headers buf req flags = Val (REQ_OK, r', keepalive (version req) flags) /\
    state r' = REQUEST_STATE_READ_COMPLETE /\ method r' = method req /\
    version r' = version req /\ uri r' = uri req /\
    Forall2 (header_at (mem buf)) (take (num_headers r') (headers r')) hs /\
    match lookup_header content_length hs with
    | None => len (body r') = 0
    | Some _ => body r' = range (pre ++ render_headers hs ++ crlf) b
    end.
Proof.
  intros Hm Hsz Hmax Hrb Hn Hlen Hb0 Hok Hhs Hb.
  destruct (header_loop_ok buf hs req pre (b ++ pad))
    as (r & E & (Hst & Hme & Hve & Hu & Hbo) & Hr & Hd); try done.
  { rewrite !length_app in Hsz. rewrite !length_app. lia. }
  pose proof (state_headers_run buf req r hs flags E Hd) as Hrun.
  unfold body_ok in Hb. destruct (lookup_header content_length hs) as [v|].
  - destruct Hb as [-> Hmb]. destruct Hrun as (p & q & Hp & Hq & ->).
    assert (0 <= Z.of_nat (length b) < 2 ^ 31) as Hbl by (unfold MAX_BODY in Hmb; pow2; lia).
    specialize (Hq (dec_not_nil (Z.of_nat (length b)) ltac:(pow2; lia))).
    destruct q as [|c q]; [done|]. injection Hq as ->.
    assert (strtol (mem buf) (Z.of_nat (length p)) = Val (Z.of_nat (length b))) as ->.
    { rewrite Hp. apply strtol_dec; [pow2; lia|done]. }
    cbn [mbind res_bind].
    rewrite (swrap_small 32 (Z.of_nat (length b))) by (pow2; lia).
    replace (MAX_BODY <? Z.of_nat (length b)) with false by zlia.
    rewrite Hr. set (h0 := pre ++ render_headers hs ++ crlf).
    assert (size buf = Z.of_nat (length h0 + length b)) as Hsz'.
    { rewrite Hsz. unfold h0. rewrite !length_app. lia. }
    rewrite (swrap_small 32 (Z.of_nat (length h0))) by (pow2; lia).
    set (r0 := with_state REQUEST_STATE_BODY _).
    destruct (state_body_ok buf r0 flags) as (r' & E' & H1 & H2 & H3 & H4 & H5 & H6 & H7).
    { right. cbn. rewrite swrap_small by (pow2; lia). lia. }
    rewrite E'. exists r'. cbn in H2, H3, H4, H5, H6, H7.
    split; [cbn [r0 version with_state with_body]; by rewrite Hve|].
    split_and!; try congruence. by rewrite H7.
  - rewrite Hrun. set (r0 := with_state REQUEST_STATE_BODY _).
    destruct (state_body_ok buf r0 flags) as (r' & E' & H1 & H2 & H3 & H4 & H5 & H6 & H7).
    { left. cbn. by rewrite Hbo. }
    rewrite E'. exists r'. cbn in H2, H3, H4, H5, H6, H7.
    split; [cbn [r0 version with_state with_body]; by rewrite Hve|].
    split_and!; try congruence.
Qed.

Record request_ok (k : http_method) (u : list Z) (v : http_version)
    (hs : list header_text) (b : list Z) : Prop := {
  ok_method : k <> HTTP_METHOD_UNKNOWN;
  ok_uri : (32 ∉ u) /\ (10 ∉ u);
  ok_version : v <> HTTP_VERSION_UNKNOWN;
  ok_headers : Forall header_ok hs;
  ok_count : (length hs < MAX_HEADERS)%nat;
  ok_body : body_ok hs b;
}.

Lemma parse_status_line_ok buf req k u v post :
  mem buf = render_status k u v ++ post ->
  Z.of_nat (length (render_status k u v)) <= size buf < 2 ^ 31 ->
  k <> HTTP_METHOD_UNKNOWN -> 32 ∉ u -> 10 ∉ u -> v <> HTTP_VERSION_UNKNOWN ->
  parse_status_line req buf =
  Val (REQ_OK, MkReq (state req) (Z.of_nat (length (render_status k u v))) k v
                 (range (method_text k ++ [32]) u) (num_headers req) (headers req) (body req)).
Proof.
  intros Hm Hsz Hk Hu32 Hu10 Hv. unfold parse_status_line. cbv zeta.
  rewrite swrap_small by (pow2; lia).
  assert ((32 ∉ method_text k) /\ (10 ∉ method_text k)) as [Hk32 Hk10]
    by (split; destruct k; by_compute).
  assert (10 ∉ version_text v) as Hv10 by (destruct v; by_compute).
  set (line0 := method_text k ++ 32 :: u ++ 32 :: version_text v ++ [13]).
  assert (mem buf = [] ++ line0 ++ 10 :: post) as Hspan.
  { rewrite Hm. unfold line0, render_status, crlf. by app_norm. }
  assert (length (render_status k u v) = length line0 + 1)%nat as Hlen.
  { unfold line0, render_status, crlf. rewrite !length_app. cbn [length].
    rewrite !length_app. cbn [length]. rewrite !length_app. cbn [length]. lia. }
  change (span (mem buf) 10 (size buf) 0)
    with (span (mem buf) 10 (size buf) (Z.of_nat (length (@nil Z)))).
  rewrite (span_hit _ _ _ _ _ _ Hspan); [|unfold line0; set_solver|cbn; lia].
  cbn [mbind res_bind].
  replace (Z.of_nat (length line0) + 1) with (Z.of_nat (length (render_status k u v))) by lia.
  replace (Z.of_nat (length (render_status k u v)) <? 0) with false by zlia.
  pose proof (split_three _ (method_text k) u (version_text v ++ crlf) 32 post Hm Hk32 Hu32) as Es.
  fold (render_status k u v) in Es. rewrite Es. cbn [mbind res_bind].
  rewrite (find_method k [] (32 :: u ++ 32 :: version_text v ++ crlf ++ post));
    [|done| |done]. 2: { rewrite Hm. unfold render_status. by app_norm. }
  cbn [mbind res_bind].
  destruct (trim_tok (method_text k ++ 32 :: u ++ [32]) [] (version_text v) crlf post (mem buf))
    as (p & q & E & Hp & _).
  { rewrite Hm. unfold render_status. by app_norm. } { constructor. }
  { by repeat constructor. } { destruct v; split; intros c [= <-]; done. }
  cbn [app] in E. rewrite E. cbn [mbind res_bind].
  rewrite (find_version v p q) by done. cbn [mbind res_bind].
  by rewrite method_index_cast, version_index_cast.
Qed.

(** ** Any input

    What the parser does with a line depends on the line alone, not on what
    follows it in memory, and never leaves the line. *)
Definition in_range (lo hi : nat) (s : string_t) : Prop :=
  Z.of_nat lo <= off s /\ 0 <= len s /\ off s + len s <= Z.of_nat hi.

Lemma range_in pre x : in_range (length pre) (length (pre ++ x)) (range pre x).
Proof. unfold in_range, range. cbn. rewrite length_app. lia. Qed.

Lemma blank_split_front x : exists w y, x = w ++ y /\ blanks w /\
  (forall c, head y = Some c -> is_blank c = false).
Proof.
  induction x as [|c x (w & y & -> & Hw & Hy)].
  - exists [], []. by repeat constructor.
  - destruct (is_blank c) eqn:E.
    + exists (c :: w), y. split_and!; [done|by constructor|done].
    + exists [], (c :: w ++ y). split_and!; [done|constructor|]. by intros ? [= <-].
Qed.

Lemma blank_split_back x : exists y w, x = y ++ w /\ blanks w /\
  (forall c, last y = Some c -> is_blank c = false).
Proof.
  induction x as [|c x (y & w & -> & Hw & Hy)] using rev_ind.
  - exists [], []. by repeat constructor.
  - destruct (is_blank c) eqn:E.
    + exists y, (w ++ [c]). split_and!; [by app_norm| |done].
      apply Forall_app. split; [done|by constructor].
    + exists ((y ++ w) ++ [c]), []. split_and!; [by rewrite app_nil_r|constructor|].
      intros c'. rewrite last_snoc. by intros [= <-].
Qed.

Lemma trim_any pre x : exists p y q, pre ++ x = p ++ y ++ q /\ (length pre <= length p)%nat /\
  forall post, trim (pre ++ x ++ post) (range pre x) = Val (range p y).
Proof.
  destruct (blank_split_front x) as (w1 & y & -> & H1 & Hy).
  destruct (blank_split_back y) as (z & w2 & -> & H2 & Hz).
  exists (pre ++ w1), z, w2. split_and!; [by app_norm|rewrite length_app; lia|].
  intros post. unfold trim.
  rewrite (trim_front_spec w1 pre (z ++ w2) post); [|done|done|done|done|].
  - cbn [mbind res_bind]. eapply (trim_back_spec w2 (pre ++ w1) z post); [|done|done|done|].
    + by app_norm.
    + cbn. by rewrite Nat2Z.id.
  - cbn. by rewrite Nat2Z.id.
Qed.

Lemma range_in_range p y q n : p ++ y ++ q = n -> in_range (length p) (length n) (range p y).
Proof. intros <-. unfold in_range, range. cbn. rewrite !length_app. lia. Qed.

Lemma split_loop_none a d pre post base len off stop start left :
  d ∉ a -> base + stop = Z.of_nat (length pre) ->
  split_loop (pre ++ a ++ post) base len off d (length a) stop start left =
  Val [MkStr (start + off) (len - start)].
Proof.
  intros Hd Hs. destruct left as [|left]; [apply split_loop_end|].
  rewrite <- (Nat.add_0_r (length a)). by rewrite split_loop_skip.
Qed.

(** Splitting a header line at its first colon, if it has one. *)
Lemma split_two_any pre x d :
  (exists a b, x = a ++ d :: b /\ forall post,
     split (pre ++ x ++ post) (Z.of_nat (length pre)) (Z.of_nat (length x))
       (Z.of_nat (length pre)) d 2 = Val [range pre a; range (pre ++ a ++ [d]) b]) \/
  (exists t, forall post,
     split (pre ++ x ++ post) (Z.of_nat (length pre)) (Z.of_nat (length x))
       (Z.of_nat (length pre)) d 2 = Val [t]).
Proof.
  destruct (decide (d ∈ x)) as [Hin|Hout].
  - left. apply list_elem_of_split_l in Hin as (a & b & -> & Ha).
    exists a, b. split; [done|]. intros post. by eapply split_two.
  - right. eexists. intros post. unfold split. rewrite Nat2Z.id.
    apply split_loop_none; [done|lia].
Qed.

(** The test for the empty line. *)
Definition at_crlf (m : list Z) (rb : Z) : res bool :=
  c0 ← load m rb;
  if c0 =? 13 then (c1 ← load m (rb + 1); Val (c1 =? 10)) else Val false.

Lemma parse_header_unfold buf req :
  parse_header buf req =
  (crlf ← at_crlf (mem buf) (read_bytes req);
   if (crlf : bool) then Val (inr (REQ_OK, with_read_bytes (read_bytes req + 2) req))
   else
     line_len ← span (mem buf) 10 (i32 (size buf)) (i32 (read_bytes req));
     if line_len <? 0 then Val (inr (REQ_UF, req))
     else
       ts ← split (mem buf) (read_bytes req) line_len (i32 (read_bytes req)) 58 2;
       match ts with
       | [t0; t1] =>
           t0 ← trim (mem buf) t0;
           t1 ← trim (mem buf) t1;
           Val (inl (MkReq (state req) (read_bytes req + line_len) (method req) (version req)
                       (uri req) (Datatypes.S (num_headers req))
                       (<[num_headers req := MkHeader t0 t1]> (headers req)) (body req)))
       | _ => Val (inr (REQ_ERR, req))
       end).
Proof. unfold parse_header, at_crlf. by destruct (load (mem buf) (read_bytes req)). Qed.

Lemma at_crlf_any pre x : (2 <= length x)%nat ->
  exists b, at_crlf (pre ++ x) (Z.of_nat (length pre)) = Val b /\
    (b = true <-> exists tl, x = 13 :: 10 :: tl).
Proof.
  destruct x as [|c0 [|c1 x]]; cbn [length]; intros Hl; try lia.
  unfold at_crlf. rewrite load_mid. cbn [mbind res_bind].
  destruct (Z.eqb_spec c0 13) as [->|H0].
  - rewrite (length_snoc_Z pre 13).
    assert (pre ++ 13 :: c1 :: x = (pre ++ [13]) ++ c1 :: x) as -> by by app_norm.
    rewrite load_mid. cbn [mbind res_bind]. eexists. split; [done|].
    rewrite Z.eqb_eq. split; [intros ->; eauto|naive_solver].
  - eexists. split; [done|]. split; [done|]. naive_solver.
Qed.

Lemma at_crlf_line pre a post : 10 ∉ a -> a <> [13] ->
  at_crlf (pre ++ a ++ 10 :: post) (Z.of_nat (length pre)) = Val false.
Proof.
  intros Ha Hne. destruct a as [|c a].
  - unfold at_crlf. cbn [app]. by rewrite load_mid.
  - destruct (at_crlf_any pre ((c :: a) ++ 10 :: post)) as ([|] & -> & Hb).
    { rewrite length_app. cbn. lia. }
    + destruct Hb as [[tl Htl] _]; [done|]. cbn [app] in Htl. injection Htl as -> Htl.
      destruct a as [|c a]; [done|]. injection Htl as -> _. set_solver.
    + done.
Qed.

(** What one header line turns into. *)
Lemma parse_header_line pre a req : 10 ∉ a ->
  exists out,
    (forall buf post, mem buf = pre ++ a ++ 10 :: post -> read_bytes req = Z.of_nat (length pre) ->
       Z.of_nat (length (pre ++ a)) < size buf < 2 ^ 31 -> parse_header buf req = Val out) /\
    match out with
    | inl req' => exists t, in_range (length pre) (length (pre ++ a ++ [10])) (key t) /\
        in_range (length pre) (length (pre ++ a ++ [10])) (val t) /\
        req' = MkReq (state req) (Z.of_nat (length (pre ++ a ++ [10]))) (method req)
          (version req) (uri req) (Datatypes.S (num_headers req))
          (<[num_headers req := t]> (headers req)) (body req)
    | inr (ret, req') =>
        (ret = REQ_ERR /\ req' = req) \/
        (ret = REQ_OK /\ a = [13] /\
         req' = with_read_bytes (Z.of_nat (length (pre ++ a ++ [10]))) req)
    end.
Proof.
  intros Ha. set (x := a ++ [10]).
  destruct (decide (a = [13])) as [E13|Hne].
  { exists (inr (REQ_OK, with_read_bytes (Z.of_nat (length (pre ++ x))) req)). split.
    - intros buf post Hm Hrb _. subst a. by apply (parse_header_end _ _ _ post).
    - right. by split_and!. }
  assert (forall buf post, mem buf = pre ++ a ++ 10 :: post ->
            at_crlf (mem buf) (Z.of_nat (length pre)) = Val false) as Hcrlf.
  { intros buf post Hm. rewrite Hm. by apply at_crlf_line. }
  assert (forall buf post, mem buf = pre ++ a ++ 10 :: post ->
            Z.of_nat (length (pre ++ a)) < size buf < 2 ^ 31 ->
            span (mem buf) 10 (i32 (size buf)) (i32 (Z.of_nat (length pre))) =
            Val (Z.of_nat (length x))) as Hspan.
  { intros buf post Hm Hsz. rewrite length_app in Hsz. rewrite !swrap_small by (pow2; lia).
    rewrite (span_hit _ _ _ _ _ _ Hm Ha) by lia. unfold x. rewrite length_app. cbn.
    f_equal. lia. }
  assert (forall post, pre ++ a ++ 10 :: post = pre ++ x ++ post) as Hx.
  { intros post. unfold x. by app_norm. }
  destruct (split_two_any pre x 58) as [(k & v & Hkv & Hs)|(t & Hs)].
  - destruct (trim_any pre k) as (p1 & y1 & q1 & R1 & L1 & T1).
    destruct (trim_any (pre ++ k ++ [58]) v) as (p2 & y2 & q2 & R2 & L2 & T2).
    set (t1 := range p1 y1) in *. set (t2 := range p2 y2) in *.
    exists (inl (MkReq (state req) (Z.of_nat (length (pre ++ x))) (method req) (version req)
              (uri req) (Datatypes.S (num_headers req))
              (<[num_headers req := MkHeader t1 t2]> (headers req)) (body req))).
    split.
    + intros buf post Hm Hrb Hsz. rewrite parse_header_unfold, Hrb, (Hcrlf _ _ Hm).
      cbn [mbind res_bind]. rewrite (Hspan _ _ Hm Hsz). cbn [mbind res_bind].
      replace (Z.of_nat (length x) <? 0) with false by zlia. cbn iota.
      rewrite swrap_small by (rewrite length_app in Hsz; pow2; lia).
      rewrite Hx in Hm. rewrite Hm, Hs. cbn [mbind res_bind].
      specialize (T1 (58 :: v ++ post)). specialize (T2 post).
      rewrite Hkv. app_norm. rewrite T1. cbn [mbind res_bind].
      app_norm_in T2. rewrite T2. cbn [mbind res_bind]. do 3 f_equal.
      rewrite !length_app. cbn [length]. lia.
    + exists (MkHeader t1 t2). split_and!; [..|done].
      all: apply (f_equal length) in R1, R2; rewrite Hkv;
        unfold in_range; cbn [key val t1 t2 range off len];
        rewrite !length_app in *; cbn [length] in *; rewrite ?length_app in *;
        cbn [length] in *; lia.
  - exists (inr (REQ_ERR, req)). split; [|by left].
    intros buf post Hm Hrb Hsz. rewrite parse_header_unfold, Hrb, (Hcrlf _ _ Hm).
    cbn [mbind res_bind]. rewrite (Hspan _ _ Hm Hsz). cbn [mbind res_bind].
    replace (Z.of_nat (length x) <? 0) with false by zlia. cbn iota.
    rewrite swrap_small by (rewrite length_app in Hsz; pow2; lia).
    rewrite Hx in Hm. rewrite Hm, Hs. done.
Qed.

(** No end of line among the bytes received: more are needed, unless the bytes
    after them, left over in the buffer, complete a CRLF. *)
Lemma parse_header_miss pre a post buf req :
  mem buf = pre ++ a ++ post -> size buf = Z.of_nat (length (pre ++ a)) -> size buf < 2 ^ 31 ->
  (2 <= length post)%nat -> read_bytes req = Z.of_nat (length pre) -> 10 ∉ a ->
  exists b, at_crlf (mem buf) (Z.of_nat (length pre)) = Val b /\
    parse_header buf req =
      Val (inr (if b then (REQ_OK, with_read_bytes (Z.of_nat (length pre) + 2) req)
                else (REQ_UF, req))) /\
    (b = true -> (exists post', post = 13 :: 10 :: post' /\ a = []) \/
                 (exists post', post = 10 :: post' /\ a = [13])).
Proof.
  intros Hm Hsz Hmax Hpost Hrb Ha.
  destruct (at_crlf_any pre (a ++ post)) as (b & Hb & Hcr).
  { rewrite length_app. lia. }
  exists b. rewrite Hm, Hb. split_and!; [done| |].
  - rewrite parse_header_unfold, Hrb, Hm, Hb. cbn [mbind res_bind]. destruct b; [done|].
    rewrite Hsz, length_app in Hmax.
    rewrite !swrap_small by (rewrite ?Hsz, ?length_app; pow2; lia).
    rewrite Hsz, length_app. by rewrite (span_miss _ 10 pre a post).
  - intros [tl Htl]%Hcr. destruct a as [|c [|c' a]]; cbn [app] in Htl.
    + left. by exists tl.
    + right. injection Htl as -> ->. by exists tl.
    + injection Htl as -> -> _. set_solver.
Qed.

(** What holds of a request while its headers are being read, [n] bytes having
    been received: the header positions it holds are inside them, and at most
    [p] bytes are consumed. *)
Record reading_at (n p : nat) (r : request) : Prop := {
  reading_pos : exists k, read_bytes r = Z.of_nat k /\ (k <= p)%nat;
  reading_count : (num_headers r <= MAX_HEADERS)%nat;
  reading_len : length (headers r) = MAX_HEADERS;
  reading_headers : Forall (fun h => in_range 0 n (key h) /\ in_range 0 n (val h))
                      (take (num_headers r) (headers r));
}.
Abbreviation reading n := (reading_at n n).

Lemma in_range_weaken lo lo' hi hi' s : (lo' <= lo)%nat -> (hi <= hi')%nat ->
  in_range lo hi s -> in_range lo' hi' s.
Proof. unfold in_range. lia. Qed.

Lemma reading_weaken n n' p p' r :
  (n <= n')%nat -> (p <= p')%nat -> reading_at n p r -> reading_at n' p' r.
Proof.
  intros Hn Hp [(k & ? & ?) ? ? Hh]. split; [exists k; split; [done|lia]|done..|].
  eapply Forall_impl; [exact Hh|]. cbn. intros h [? ?].
  split; eapply (in_range_weaken 0 0 n); eauto.
Qed.

Lemma reading_push n r t k : reading n r -> (num_headers r < MAX_HEADERS)%nat -> (k <= n)%nat ->
  in_range 0 n (key t) -> in_range 0 n (val t) ->
  reading n (MkReq (state r) (Z.of_nat k) (method r) (version r) (uri r)
    (Datatypes.S (num_headers r)) (<[num_headers r := t]> (headers r)) (body r)).
Proof.
  intros [_ Hc Hl Hh] Hlt Hk Ht1 Ht2. split; cbn.
  - by exists k.
  - lia.
  - by rewrite length_insert.
  - rewrite (take_S_r _ _ t) by (apply list_lookup_insert_eq; lia).
    rewrite take_insert_ge by lia. apply Forall_app.
    split; [done|constructor; [by split|constructor]].
Qed.

(** One iteration of the header loop on the bytes [data]: either it does the
    same whatever follows them, or they end inside a line. *)
Lemma parse_header_step data r :
  reading (length data) r -> (num_headers r < MAX_HEADERS)%nat ->
  (exists out,
     (forall buf more, mem buf = data ++ more ->
        Z.of_nat (length data) <= size buf < 2 ^ 31 -> parse_header buf r = Val out) /\
     match out with
     | inl r' => reading (length data) r' /\ same_line r r' /\
                 num_headers r' = Datatypes.S (num_headers r)
     | inr (ret, r') => (ret = REQ_ERR /\ r' = r) \/
         (ret = REQ_OK /\ exists k, r' = with_read_bytes (Z.of_nat k) r /\ (k <= length data)%nat)
     end) \/
  (forall buf more, mem buf = data ++ more -> size buf = Z.of_nat (length data) ->
     size buf < 2 ^ 31 -> (2 <= length more)%nat ->
     parse_header buf r = Val (inr (REQ_UF, r)) \/
     parse_header buf r = Val (inr (REQ_OK, with_read_bytes (read_bytes r + 2) r))).
Proof.
  intros H Hlt. pose proof (reading_pos _ _ _ H) as (k & Hrb & Hk).
  rewrite <- (take_drop k data). set (pre := take k data) in *. set (suf := drop k data) in *.
  assert (data = pre ++ suf) as Hdata by (by unfold pre, suf; rewrite take_drop).
  assert (length pre = k) as Hpre by (unfold pre; rewrite length_take; lia).
  clearbody pre suf. rewrite <- Hpre in Hrb. rewrite Hdata in H.
  destruct (decide (10 ∈ suf)) as [Hin|Hout].
  - left. apply list_elem_of_split_l in Hin as (a & rest & -> & Ha).
    destruct (parse_header_line pre a r Ha) as (out & Ho & Hout). exists out. split.
    + intros buf more Hm Hsz. apply (Ho buf (rest ++ more)); [|done|].
      * rewrite Hm. by app_norm.
      * rewrite !length_app in *. cbn [length] in Hsz. lia.
    + destruct out as [r'|[ret r']].
      * destruct Hout as (t & Ht1 & Ht2 & ->). rewrite !length_app in *. cbn [length] in *.
        split; [|by split_and!].
        apply reading_push; [done|done|lia|..];
          [eapply in_range_weaken, Ht1|eapply in_range_weaken, Ht2]; lia.
      * destruct Hout as [?|(? & _ & ->)]; [by left|right]. split; [done|].
        eexists. split; [done|]. rewrite !length_app. cbn. lia.
  - right. intros buf more Hm Hsz Hmax Hmore. rewrite <- (assoc_L (++)) in Hm.
    destruct (parse_header_miss pre suf more buf r Hm Hsz Hmax Hmore Hrb Hout)
      as (b & _ & E & _).
    rewrite E, Hrb. destruct b; auto.
Qed.

(** The return codes of a header loop. *)
Lemma header_loop_run buf data more r n :
  mem buf = data ++ more -> size buf = Z.of_nat (length data) -> size buf < 2 ^ 31 ->
  (2 <= length more)%nat -> reading (length data) r -> n = (MAX_HEADERS - num_headers r)%nat ->
  exists ret r', header_loop n buf r = Val (ret, r') /\ same_line r r' /\
    reading_at (length data) (length data + 2) r' /\
    (ret = REQ_OK \/ (ret = REQ_ERR \/ ret = REQ_UF) /\ reading (length data) r').
Proof.
  intros Hm Hsz Hmax Hmore. revert r. induction n as [|n IH]; intros r H Hn.
  - exists REQ_OK, r. split_and!; [done|by split_and!| |by left].
    eapply reading_weaken; [..|done]; lia.
  - pose proof (reading_pos _ _ _ H) as (k0 & Hrb & Hk0).
    cbn [header_loop].
    destruct (parse_header_step data r H ltac:(lia)) as [(out & Ho & Hout)|Hmiss].
    + rewrite (Ho buf more Hm) by lia. cbn [mbind res_bind].
      destruct out as [r1|[ret r1]].
      * destruct Hout as (H1 & Hs & Hn1). destruct (IH r1 H1 ltac:(lia)) as (ret & r' & E & Hs' & Hr).
        exists ret, r'. rewrite E. split; [done|]. split; [|done].
        unfold same_line in *. intuition congruence.
      * exists ret, r1. destruct Hout as [[-> ->]|[-> (k & -> & Hk)]].
        -- split_and!; [done|by split_and!| |by right; split; [left|]].
           eapply reading_weaken; [..|done]; lia.
        -- split_and!; [done|by split_and!| |by left].
           destruct H. split; [exists k; split; [done|lia]|done..].
    + destruct (Hmiss buf more Hm Hsz Hmax Hmore) as [E|E]; rewrite E; cbn [mbind res_bind].
      * exists REQ_UF, r. split_and!; [done|by split_and!| |by right; split; [right|]].
        eapply reading_weaken; [..|done]; lia.
      * eexists REQ_OK, _. split_and!; [done|by split_and!| |by left].
        destruct H as [_ ? ? ?]. split; cbn; try done. exists (k0 + 2)%nat. split; [rewrite Hrb; lia|lia].
Qed.

(** When the loop asks for more bytes, starting over with more of them goes
    through the same iterations: it comes to where the request stands. *)
Lemma header_loop_resume buf1 buf2 data more1 more2 r r1 n :
  mem buf1 = data ++ more1 -> size buf1 = Z.of_nat (length data) -> size buf1 < 2 ^ 31 ->
  (2 <= length more1)%nat ->
  mem buf2 = data ++ more2 -> size buf1 <= size buf2 < 2 ^ 31 ->
  reading (length data) r -> n = (MAX_HEADERS - num_headers r)%nat ->
  header_loop n buf1 r = Val (REQ_UF, r1) ->
  header_loop n buf2 r = header_loop (MAX_HEADERS - num_headers r1) buf2 r1.
Proof.
  intros Hm1 Hs1 Hmax Hmore Hm2 Hs2. revert r. induction n as [|n IH]; intros r H Hn; [done|].
  cbn [header_loop].
  destruct (parse_header_step data r H ltac:(lia)) as [(out & Ho & Hout)|Hmiss].
  - rewrite (Ho buf1 more1 Hm1), (Ho buf2 more2 Hm2) by lia. cbn [mbind res_bind].
    destruct out as [r'|[ret r']].
    + destruct Hout as (H1 & _ & Hn1). apply IH; [done|lia].
    + intros [= -> ->]. destruct Hout as [[? _]|[? _]]; done.
  - destruct (Hmiss buf1 more1 Hm1 Hs1 Hmax Hmore) as [E|E]; rewrite E; cbn [mbind res_bind].
    + intros [= <-]. rewrite <- Hn. done.
    + done.
Qed.

(** *** The status line of any input *)
Lemma split_three_any x d :
  (exists a b c, x = a ++ d :: b ++ d :: c /\ forall post,
     split (x ++ post) 0 (Z.of_nat (length x)) 0 d 3 =
     Val [range [] a; range (a ++ [d]) b; range (a ++ d :: b ++ [d]) c]) \/
  (exists ts, (length ts < 3)%nat /\ forall post,
     split (x ++ post) 0 (Z.of_nat (length x)) 0 d 3 = Val ts).
Proof.
  destruct (decide (d ∈ x)) as [Hin|Hout].
  2: { right. eexists [_]. split; [cbn; lia|]. intros post. unfold split. rewrite Nat2Z.id.
       by apply (split_loop_none x d []). }
  apply list_elem_of_split_l in Hin as (a & y & -> & Ha).
  destruct (decide (d ∈ y)) as [Hin|Hout].
  - left. apply list_elem_of_split_l in Hin as (b & c & -> & Hb).
    exists a, b, c. split; [done|]. intros post. by apply (split_three _ a b c d post).
  - right. eexists [_; _]. split; [cbn; lia|]. intros post. unfold split. rewrite Nat2Z.id.
    rewrite <- (assoc_L (++)). cbn [app].
    rewrite (split_loop_piece a d _ [] (y ++ post) 0) by
      (done || (rewrite ?length_app; cbn [length]; lia)).
    assert ([] ++ a ++ d :: y ++ post = (a ++ [d]) ++ y ++ post) as -> by by app_norm.
    replace (length (a ++ d :: y) - length a - 1)%nat with (length y)
      by (rewrite length_app; cbn [length]; lia).
    rewrite split_loop_none; [done|done|]. rewrite length_app. cbn [length]. lia.
Qed.

Definition status_parsed (n : nat) (r r' : request) : Prop :=
  exists k v u j, r' = MkReq (state r) (Z.of_nat j) k v u (num_headers r) (headers r) (body r) /\
    k <> HTTP_METHOD_UNKNOWN /\ v <> HTTP_VERSION_UNKNOWN /\ in_range 0 n u /\ (j <= n)%nat.

Lemma index_of_lt x tbl i j : index_of x tbl i = Some j -> (i <= j < i + length tbl)%nat.
Proof.
  revert i. induction tbl as [|k tbl IH]; intros i; cbn; [done|].
  case_bool_decide; [intros [= <-]; lia|]. intros ?%IH. lia.
Qed.

Lemma parse_status_any data r :
  (exists out,
     (forall buf more, mem buf = data ++ more -> Z.of_nat (length data) <= size buf < 2 ^ 31 ->
        parse_status_line r buf = Val out) /\
     ((fst out = REQ_ERR /\ snd out = r) \/
      (fst out = REQ_OK /\ status_parsed (length data) r (snd out)))) \/
  (forall buf more, mem buf = data ++ more -> size buf = Z.of_nat (length data) ->
     size buf < 2 ^ 31 -> parse_status_line r buf = Val (REQ_UF, r)).
Proof.
  destruct (decide (10 ∈ data)) as [Hin|Hout].
  2: { right. intros buf more Hm Hsz Hmax. unfold parse_status_line. cbv zeta.
       rewrite swrap_small by (pow2; lia). rewrite Hsz.
       pose proof (span_miss (mem buf) 10 [] data more Hm Hout) as E. cbn [length Nat.add] in E.
       change (Z.of_nat 0) with 0 in E. by rewrite E. }
  left. apply list_elem_of_split_l in Hin as (a & rest & -> & Ha).
  set (x := a ++ [10]).
  assert (forall post, a ++ 10 :: post = x ++ post) as Hx by (intros; unfold x; by app_norm).
  assert (forall buf more, mem buf = (a ++ 10 :: rest) ++ more ->
            Z.of_nat (length (a ++ 10 :: rest)) <= size buf < 2 ^ 31 ->
            span (mem buf) 10 (i32 (size buf)) 0 = Val (Z.of_nat (length x))) as Hspan.
  { intros buf more Hm Hsz. rewrite length_app in Hsz. cbn [length] in Hsz.
    rewrite swrap_small by (pow2; lia). rewrite <- (assoc_L (++)) in Hm.
    pose proof (span_hit _ 10 (size buf) [] a _ Hm Ha ltac:(cbn; lia)) as E.
    change (Z.of_nat (length [])) with 0 in E. rewrite E. unfold x. rewrite length_app. cbn. f_equal. lia. }
  destruct (split_three_any x 32) as [(t0 & t1 & t2 & Hsp & Hs)|(ts & Hts & Hs)].
  2: { exists (REQ_ERR, r). split; [|by left]. intros buf more Hm Hsz. unfold parse_status_line.
       cbv zeta. rewrite (Hspan _ _ Hm Hsz). cbn [mbind res_bind].
       replace (Z.of_nat (length x) <? 0) with false by zlia.
       rewrite Hm, <- (assoc_L (++)), <- app_comm_cons, Hx, Hs. cbn [mbind res_bind].
       destruct ts as [|? [|? [|? ts]]]; [done..|cbn in Hts; lia]. }
  destruct (trim_any (t0 ++ 32 :: t1 ++ [32]) t2) as (p & y & q & Hpy & Hlp & Ht).
  set (out := match index_of t0 g_http_methods 0 with
              | None => (REQ_ERR, r)
              | Some mi =>
                  match index_of y g_http_versions 0 with
                  | None => (REQ_ERR, r)
                  | Some vi => (REQ_OK, MkReq (state r) (Z.of_nat (length x))
                      (method_of_index mi) (version_of_index vi)
                      (range (t0 ++ [32]) t1) (num_headers r) (headers r) (body r))
                  end
              end).
  exists out. split.
  - intros buf more Hm Hsz. unfold parse_status_line. cbv zeta. rewrite (Hspan _ _ Hm Hsz).
    cbn [mbind res_bind]. replace (Z.of_nat (length x) <? 0) with false by zlia. cbn iota.
    rewrite <- (assoc_L (++)), <- app_comm_cons, Hx in Hm. rewrite Hm, Hs. cbn [mbind res_bind].
    rewrite (find_kv_spec t0 [] (32 :: t1 ++ 32 :: t2 ++ rest ++ more)); [|done| |done].
    2: { rewrite Hsp. by app_norm. }
    cbn [mbind res_bind]. unfold out. destruct (index_of t0 g_http_methods 0) as [mi|]; [|done].
    specialize (Ht (rest ++ more)). rewrite Hsp. app_norm. app_norm_in Ht.
    assert ((t0 ++ 32 :: t1 ++ [32]) = t0 ++ 32 :: t1 ++ [32]) as _ by done.
    rewrite Ht. cbn [mbind res_bind].
    rewrite (find_kv_spec y p (q ++ rest ++ more)); [|done| |done].
    2: { app_norm_in Hpy. apply (f_equal (.++ rest ++ more)) in Hpy. by app_norm_in Hpy. }
    cbn [mbind res_bind]. by destruct (index_of y g_http_versions 0).
  - unfold out. destruct (index_of t0 g_http_methods 0) as [mi|] eqn:E1; [|by left].
    destruct (index_of y g_http_versions 0) as [vi|] eqn:E2; [|by left]. right. split; [done|].
    apply index_of_lt in E1, E2. cbn in E1, E2.
    eexists _, _, _, _. split; [done|]. split_and!.
    + do 9 (destruct mi as [|mi]; [done|]). lia.
    + do 3 (destruct vi as [|vi]; [done|]). lia.
    + unfold in_range, range. cbn [off len]. assert (length x = length (a ++ [10])) as Hl by done.
      rewrite Hsp in Hl. rewrite !length_app in *. cbn [length] in *.
      rewrite !length_app in *. cbn [length] in *. lia.
    + unfold x. rewrite !length_app. cbn. lia.
Qed.

(** ** The properties *)

(** Where in the buffer the parser finds the parts of a rendered request. *)
Lemma parse_render_ranges buf k u v hs b pad flags :
  mem buf = render k u v hs b ++ pad ->
  size buf = Z.of_nat (length (render k u v hs b)) -> size buf < 2 ^ 31 ->
  request_ok k u v hs b ->
  exists r, parse_request buf zero_request flags = Val (REQ_OK, r, keepalive v flags) /\
    state r = REQUEST_STATE_READ_COMPLETE /\ method r = k /\ version r = v /\
    uri r = range (method_text k ++ [32]) u /\
    Forall2 (header_at (mem buf)) (take (num_headers r) (headers r)) hs /\
    match lookup_header content_length hs with
    | None => len (body r) = 0
    | Some _ => body r = range (render_status k u v ++ render_headers hs ++ crlf) b
    end.
Proof.
  intros Hm Hsz Hmax [Hk [Hu32 Hu10] Hv Hh Hc Hb]. unfold parse_request. cbn [state zero_request].
  unfold state_init. unfold render in *.
  set (st := render_status k u v) in *.
  rewrite (parse_status_line_ok buf zero_request k u v
    (render_headers hs ++ crlf ++ b ++ pad)); try done.
  2: { rewrite Hm. by app_norm. }
  2: { fold st. rewrite Hsz, length_app in *. lia. }
  cbn [mbind res_bind]. change ((REQ_OK =? REQ_ERR) || (REQ_OK =? REQ_UF)) with false.
  cbn iota. set (r0 := with_state _ _).
  destruct (state_headers_ok buf r0 st hs b pad flags)
    as (r & E & H1 & H2 & H3 & H4 & H5 & H6); try done.
  { rewrite Hm. by app_norm. }
  exists r. rewrite E. by split_and!.
Qed.

(** C28: parsing the text of a request gives the request back.  For a known
    method and version, a URI without blanks, fewer than [MAX_HEADERS] headers
    (a key without colon, no end of line, no blanks at the ends) and a body
    whose length is what a Content-Length header says, if there is one,
    [parse_request] on a fresh request completes in one call; the method, the
    version, the texts of the URI, of every header in order and of the body
    are those rendered, and HTTP/1.1 sets the keep-alive flag of the connection. *)
Theorem parse_render buf k u v hs b pad flags :
  mem buf = render k u v hs b ++ pad ->
  size buf = Z.of_nat (length (render k u v hs b)) -> size buf < 2 ^ 31 ->
  request_ok k u v hs b ->
  exists r, parse_request buf zero_request flags = Val (REQ_OK, r, keepalive v flags) /\
    state r = REQUEST_STATE_READ_COMPLETE /\ method r = k /\ version r = v /\
    text (mem buf) (uri r) = u /\
    Forall2 (fun t h => text (mem buf) (key t) = fst h /\ text (mem buf) (val t) = snd h)
      (take (num_headers r) (headers r)) hs /\
    match lookup_header content_length hs with
    | None => len (body r) = 0
    | Some _ => text (mem buf) (body r) = b
    end.
Proof.
  intros Hm Hsz Hmax Hok.
  destruct (parse_render_ranges buf k u v hs b pad flags)
    as (r & E & H1 & H2 & H3 & H4 & H5 & H6); try done.
  exists r. rewrite E. split_and!; try done.
  - rewrite H4, Hm. unfold render, render_status.
    apply text_tok_eq with (32 :: version_text v ++ crlf ++ render_headers hs ++ crlf ++ b ++ pad).
    by app_norm.
  - eapply Forall2_impl; [exact H5|]. intros t h [Hkey (p & q & Hp & Hval & _)].
    split; [by apply tok_text|]. rewrite Hval, Hp. apply text_range.
  - destruct (lookup_header content_length hs); [|done]. rewrite H6.
    apply (text_tok_eq _ _ b pad). rewrite Hm. unfold render. by app_norm.
Qed.

(** ** Safety on any input *)
Lemma load_in_bounds m i : 0 <= i < Z.of_nat (length m) -> exists c, load m i = Val c.
Proof.
  intros Hi. destruct (lookup_lt_is_Some_2 m (Z.to_nat i)) as [c Hc]; [lia|].
  exists c. apply load_Val. split; [lia|done].
Qed.

Lemma strncmp_eq_safe a i b j n : 0 <= i -> 0 <= j ->
  i + Z.of_nat n <= Z.of_nat (length a) -> j + Z.of_nat n <= Z.of_nat (length b) ->
  exists r, strncmp_eq a i b j n = Val r.
Proof.
  revert i j. induction n as [|n IH]; intros i j Hi Hj Ha Hb; [by eexists|]. cbn [strncmp_eq].
  destruct (load_in_bounds a i ltac:(lia)) as [x ->].
  destruct (load_in_bounds b j ltac:(lia)) as [y ->]. cbn [mbind res_bind].
  destruct (negb (x =? y)); [by eexists|]. destruct (x =? 0); [by eexists|]. apply IH; lia.
Qed.

Lemma find_header_loop_safe m n k kn hs : (n <= length m)%nat -> 0 <= kn <= Z.of_nat (length k) ->
  Forall (fun h => in_range 0 n (key h) /\ in_range 0 n (val h)) hs ->
  exists o, find_header_loop m k kn hs = Val o /\
    forall h, o = Some h -> in_range 0 n (val h).
Proof.
  intros Hn Hk. induction 1 as [|h hs [Hkey Hval] _ IH]; cbn [find_header_loop].
  - exists None. done.
  - destruct (Z.eqb_spec (len (key h)) kn) as [E|E]; [|done]. unfold in_range in Hkey.
    destruct (strncmp_eq_safe m (off (key h)) k 0 (Z.to_nat kn)) as [[] ->];
      [lia..| |done]; cbn [mbind res_bind].
    exists (Some h). split; [done|]. by intros ? [= <-].
Qed.

(** A NUL stops the scan of a number. *)
Lemma skip_space_stops m i j fuel : 0 <= i <= j -> load m j = Val 0 ->
  (Z.to_nat (j - i) < fuel)%nat ->
  exists i' c, skip_space m i fuel = Val i' /\ i <= i' <= j /\ load m i' = Val c.
Proof.
  revert i. induction fuel as [|fuel IH]; intros i Hi Hj Hf; [lia|]. cbn [skip_space].
  pose proof Hj as [_ Hl]%load_Val. apply lookup_lt_Some in Hl.
  destruct (load_in_bounds m i ltac:(lia)) as [c Hc]. rewrite Hc. cbn [mbind res_bind].
  destruct (isspace c) eqn:Es; [|by exists i, c; split_and!; try lia].
  destruct (decide (i = j)) as [->|]; [rewrite Hj in Hc; injection Hc as <-; done|].
  destruct (IH (i + 1)) as (i' & c' & E & Hb & Hl'); [lia|done|lia|].
  exists i', c'. rewrite E. split_and!; [done|lia..|done].
Qed.

Lemma scan_digits_stops m i j acc fuel : 0 <= i <= j -> load m j = Val 0 ->
  (Z.to_nat (j - i) < fuel)%nat -> exists v, scan_digits m i acc fuel = Val v.
Proof.
  revert i acc. induction fuel as [|fuel IH]; intros i acc Hi Hj Hf; [lia|]. cbn [scan_digits].
  pose proof Hj as [_ Hl]%load_Val. apply lookup_lt_Some in Hl.
  destruct (load_in_bounds m i ltac:(lia)) as [c Hc]. rewrite Hc. cbn [mbind res_bind].
  destruct (isdigit c) eqn:Es; [|by eexists].
  destruct (decide (i = j)) as [->|]; [rewrite Hj in Hc; injection Hc as <-; done|].
  apply IH; [lia|done|lia].
Qed.

Lemma scan_int_stops m i j : 0 <= i <= j -> load m j = Val 0 -> exists r, scan_int m i = Val r.
Proof.
  intros Hi Hj. unfold scan_int. pose proof Hj as [_ Hl]%load_Val. apply lookup_lt_Some in Hl.
  destruct (skip_space_stops m i j (Datatypes.S (length m))) as (i' & c & -> & Hb & Hc);
    [done|done|lia|].
  cbn [mbind res_bind]. rewrite Hc. cbn [mbind res_bind]. cbv zeta.
  set (i2 := if (c =? 45) || (c =? 43) then i' + 1 else i').
  assert (i' <= i2 <= j) as Hi2.
  { unfold i2. destruct ((c =? 45) || (c =? 43)) eqn:E; [|lia].
    destruct (decide (i' = j)) as [->|]; [|lia].
    rewrite Hj in Hc. injection Hc as <-. done. }
  destruct (scan_digits_stops m i2 j 0 (Datatypes.S (length m))) as [v ->]; [lia|done|lia|].
  by eexists.
Qed.

Lemma strtol_stops m i j : 0 <= i <= j -> load m j = Val 0 -> exists v, strtol m i = Val v.
Proof.
  intros Hi Hj. unfold strtol. destruct (scan_int_stops m i j Hi Hj) as [[neg v] ->].
  by eexists.
Qed.

(** What every request is between two calls of [parse_request], [n] bytes
    having been received. *)
Record request_wf (n : nat) (r : request) : Prop := {
  wf_reading : match state r with
               | REQUEST_STATE_INIT | REQUEST_STATE_HEADERS => reading n r
               | _ => reading_at n (n + 2) r
               end;
  wf_uri : in_range 0 n (uri r);
  wf_body : match state r with
            | REQUEST_STATE_INIT | REQUEST_STATE_HEADERS => body r = MkStr 0 0
            | _ => 0 <= off (body r) <= Z.of_nat n + 2 /\ len (body r) <= MAX_BODY
            end;
  wf_complete : state r = REQUEST_STATE_READ_COMPLETE ->
                len (body r) = 0 \/ off (body r) + len (body r) <= Z.of_nat n;
}.

(** The result of a call: after REQ_ERR, which closes the connection, nothing
    is promised of the request. *)
Definition parsed_wf (n : nat) (flags : Z) (out : res (Z * request * Z)) : Prop :=
  exists ret r flags', out = Val (ret, r, flags') /\
    ((ret = REQ_OK /\ request_wf n r /\ state r = REQUEST_STATE_READ_COMPLETE /\
      flags' = keepalive (version r) flags) \/
     (ret = REQ_UF /\ request_wf n r /\ state r <> REQUEST_STATE_READ_COMPLETE /\
      flags' = flags) \/
     (ret = REQ_ERR /\ flags' = flags)).

Lemma state_body_wf buf n r flags : Z.of_nat n < 2 ^ 31 -> size buf = Z.of_nat n ->
  request_wf n r -> state r = REQUEST_STATE_BODY ->
  parsed_wf n flags (Val (state_body buf r flags)).
Proof.
  intros Hn Hsz [Hr Hu Hb _] Hs. rewrite Hs in *. unfold state_body, parsed_wf.
  destruct (Z.eqb_spec (len (body r)) 0) as [E|E].
  - eexists _, _, _. split; [done|]. left. split; [done|]. split; [|by split].
    split; cbn; [|done|done|by left]. by destruct Hr.
  - rewrite Hsz. change (body (with_read_bytes _ r)) with (body r).
    cbn [with_read_bytes read_bytes]. rewrite swrap_small by (pow2; lia).
    assert (forall s, reading_at n (n + 2) (with_state s (with_read_bytes (Z.of_nat n) r))) as Hr'.
    { destruct Hr. split; cbn; [exists n; split; [done|lia]|done..]. }
    destruct (Z.ltb_spec (Z.of_nat n - off (body r)) (len (body r))).
    + eexists _, _, _. split; [done|]. right. left. split; [done|]. cbn. rewrite Hs.
      split; [|done]. split; cbn; rewrite ?Hs; try done; apply (Hr' (state r)).
    + eexists _, _, _. split; [done|]. left. split; [done|]. split; [|done].
      split; cbn; try done; right; lia.
Qed.

Lemma state_headers_wf buf data more r flags :
  mem buf = data ++ more -> size buf = Z.of_nat (length data) -> size buf + 2 < 2 ^ 31 ->
  (2 <= length more)%nat -> 0 ∈ more ->
  request_wf (length data) r -> state r = REQUEST_STATE_HEADERS ->
  parsed_wf (length data) flags (state_headers buf r flags).
Proof.
  intros Hm Hsz Hmax Hmore H0 [Hr Hu Hb _] Hs. rewrite Hs in *.
  unfold state_headers, parse_headers.
  destruct (header_loop_run buf data more r _ Hm Hsz ltac:(lia) Hmore Hr eq_refl)
    as (ret & r' & -> & (Hst & _ & _ & Hur & Hbo) & Hr' & Hret). cbn [mbind res_bind].
  destruct Hret as [->|[[->| ->] Hrd]].
  2: { eexists _, _, _. split; [done|]. by right; right. }
  2: { eexists _, _, _. split; [done|]. right; left. split_and!; [done| |by rewrite Hst, Hs|done].
       split; rewrite ?Hst, ?Hs, ?Hur, ?Hbo; done. }
  change ((REQ_OK =? REQ_ERR) || (REQ_OK =? REQ_UF)) with false. cbn iota.
  pose proof (reading_pos _ _ _ Hr') as (j & Hj & Hjn).
  rewrite Hsz in Hmax. destruct (find_header_loop_safe (mem buf) (length data) content_length_key 14
    (take (num_headers r') (headers r'))) as (o & Ho & Hval).
  { rewrite Hm, length_app. lia. } { by vm_compute. } { apply Hr'. }
  unfold find_header. rewrite Ho. cbn [mbind res_bind]. destruct o as [h|].
  - specialize (Hval h eq_refl). apply list_elem_of_lookup in H0 as [i Hi].
    destruct (strtol_stops (mem buf) (off (val h)) (Z.of_nat (length data + i))) as [v ->].
    { unfold in_range in Hval. lia. }
    { rewrite Hm. apply load_lookup. rewrite lookup_app_r by lia.
      by replace (length data + i - length data)%nat with i by lia. }
    cbn [mbind res_bind]. cbv zeta. destruct (Z.ltb_spec MAX_BODY (i32 v)).
    + eexists _, _, _. split; [done|]. by right; right.
    + apply state_body_wf; [lia|done| |done]. split; cbn; rewrite ?Hur; try done.
      * by destruct Hr'.
      * split; [|done]. rewrite Hj, swrap_small by (pow2; lia). lia.
  - apply state_body_wf; [lia|done| |done]. split; cbn; rewrite ?Hur, ?Hbo, ?Hb; try done.
    + by destruct Hr'.
    + cbn. unfold MAX_BODY. lia.
Qed.

Lemma state_init_wf buf data more r flags :
  mem buf = data ++ more -> size buf = Z.of_nat (length data) -> size buf + 2 < 2 ^ 31 ->
  (2 <= length more)%nat -> 0 ∈ more ->
  request_wf (length data) r -> state r = REQUEST_STATE_INIT ->
  parsed_wf (length data) flags (state_init buf r flags).
Proof.
  intros Hm Hsz Hmax Hmore H0 Hwf Hs. unfold state_init.
  destruct (parse_status_any data r) as [([ret r'] & Ho & Hout)|Hmiss].
  - rewrite (Ho buf more Hm) by lia. cbn [mbind res_bind].
    cbn [fst snd] in Hout.
    destruct Hout as [[-> ->]|[-> (k & v & u & j & -> & _ & _ & Hu & Hj)]].
    + eexists _, _, _. split; [done|]. by right; right.
    + change ((REQ_OK =? REQ_ERR) || (REQ_OK =? REQ_UF)) with false.
      cbn iota. apply (state_headers_wf buf data more); try done.
      destruct Hwf as [Hr _ Hb _]. rewrite Hs in *.
      split; cbn; try done. destruct Hr. split; cbn; try done. by exists j.
  - rewrite (Hmiss buf more) by (done || lia). cbn [mbind res_bind].
    eexists _, _, _. split; [done|]. right; left. by rewrite Hs.
Qed.

Lemma request_wf_weaken n n' r : (n <= n')%nat -> request_wf n r -> request_wf n' r.
Proof.
  intros Hn [Hr Hu Hb Hc]. split.
  - destruct (state r); eapply reading_weaken; try exact Hr; lia.
  - by eapply in_range_weaken; [..|exact Hu]; lia.
  - destruct (state r); try done; lia.
  - intros H. specialize (Hc H). lia.
Qed.

Lemma zero_request_wf n : request_wf n zero_request.
Proof.
  split; cbn; try done; [|unfold in_range; cbn; lia].
  split; cbn; try done; [exists 0%nat; lia|unfold MAX_HEADERS; lia].
Qed.

Lemma parse_request_ok buf data more r flags n :
  mem buf = data ++ more -> size buf = Z.of_nat (length data) -> size buf + 2 < 2 ^ 31 ->
  (2 <= length more)%nat -> 0 ∈ more ->
  (n <= length data)%nat -> request_wf n r ->
  parsed_wf (length data) flags (parse_request buf r flags).
Proof.
  intros Hm Hsz Hmax Hmore H0 Hn Hwf%(request_wf_weaken _ _ _ Hn). unfold parse_request.
  destruct (state r) eqn:E.
  - by apply (state_init_wf buf data more).
  - by apply (state_headers_wf buf data more).
  - apply state_body_wf; try done; lia.
  - eexists _, _, _. split; [done|]. by left.
Qed.

(** C29: the parser is memory safe when a NUL follows.  Whatever bytes [data] were
    received, fewer than 2^31 - 2, in a block that has at least two more bytes behind them with a NUL among
    those, and whatever earlier calls made of the request, [parse_request] runs without
    an out-of-bounds read and terminates; it either completes the request (setting
    keep-alive for HTTP/1.1), asks for more bytes or rejects it.  Unless it rejects it,
    the invariant holds again: the URI and the headers lie inside the received bytes,
    there are at most MAX_HEADERS headers, [read_bytes] and the start of the body are at
    most two bytes past what was received, the length of the body is at most MAX_BODY (it
    may be negative), and a body that is complete ends inside what was received.  The
    code makes room for the bytes behind, and does not set them: without a NUL there the
    parser can leave the block (parse_unterminated). *)
Theorem parse_request_safe buf data more r flags n :
  mem buf = data ++ more -> size buf = Z.of_nat (length data) -> size buf + 2 < 2 ^ 31 ->
  (2 <= length more)%nat -> 0 ∈ more ->
  (n <= length data)%nat -> request_wf n r ->
  parsed_wf (length data) flags (parse_request buf r flags).
Proof. apply parse_request_ok. Qed.

(** ** Bytes that arrive in pieces *)

(** [pending data r]: some calls of [parse_request] on ever longer prefixes of
    [data], the last on [data] itself, all asked for more bytes of the header
    section; [r] is the request they leave. *)
Inductive pending (flags : Z) : list Z -> request -> Prop :=
  | pending_start : pending flags [] zero_request
  | pending_more data more1 r buf more r' :
      pending flags data r ->
      mem buf = (data ++ more1) ++ more -> size buf = Z.of_nat (length (data ++ more1)) ->
      size buf + 2 < 2 ^ 31 -> (2 <= length more)%nat -> 0 ∈ more ->
      parse_request buf r flags = Val (REQ_UF, r', flags) ->
      state r' <> REQUEST_STATE_BODY ->
      pending flags (data ++ more1) r'.

Lemma state_body_state buf r flags : state r = REQUEST_STATE_BODY ->
  forall r' flags', state_body buf r flags = (REQ_UF, r', flags') -> state r' = REQUEST_STATE_BODY.
Proof.
  intros Hs r' flags'. unfold state_body, state_complete. destruct (len (body r) =? 0).
  - by intros [= <- _].
  - destruct (_ <? _); [|done]. by intros [= <- _].
Qed.

Lemma state_headers_resume buf1 buf2 data more1 more2 r r1 flags f1 :
  mem buf1 = data ++ more1 -> size buf1 = Z.of_nat (length data) -> size buf1 < 2 ^ 31 ->
  (2 <= length more1)%nat ->
  mem buf2 = data ++ more2 -> size buf1 <= size buf2 < 2 ^ 31 -> reading (length data) r ->
  state r = REQUEST_STATE_HEADERS ->
  state_headers buf1 r flags = Val (REQ_UF, r1, f1) -> state r1 <> REQUEST_STATE_BODY ->
  f1 = flags /\ state r1 = REQUEST_STATE_HEADERS /\
  state_headers buf2 r flags = state_headers buf2 r1 flags.
Proof.
  intros Hm1 Hs1 Hmax Hmore Hm2 Hs2 Hr Hst. unfold state_headers, parse_headers.
  destruct (header_loop_run buf1 data more1 r _ Hm1 Hs1 Hmax Hmore Hr eq_refl)
    as (ret & r' & E & (Hst' & _) & _ & Hret). rewrite E. cbn [mbind res_bind].
  destruct Hret as [->|[[->| ->] _]]; [|done|].
  2: { change ((REQ_UF =? REQ_ERR) || (REQ_UF =? REQ_UF)) with true. cbn iota.
       intros [= <- <-] _. split_and!; [done|congruence|].
       by rewrite (header_loop_resume buf1 buf2 data more1 more2 r r' _ Hm1 Hs1 Hmax Hmore Hm2 Hs2
         Hr eq_refl E). }
  change ((REQ_OK =? REQ_ERR) || (REQ_OK =? REQ_UF)) with false. cbn iota.
  destruct (find_header _ _ _ _) as [[h|]| | | |]; cbn [mbind res_bind]; [| |done..].
  - destruct (strtol _ _) as [n| | | |]; cbn [mbind res_bind]; [|done..]. cbv zeta.
    destruct (_ <? _); [done|]. intros [= Hb] Hne. exfalso. eapply Hne, state_body_state; [|exact Hb]; done.
  - intros [= Hb] Hne. exfalso. eapply Hne, state_body_state; [|exact Hb]; done.
Qed.

Lemma parse_request_resume buf1 buf2 data more1 more2 r r1 flags :
  mem buf1 = data ++ more1 -> size buf1 = Z.of_nat (length data) -> size buf1 < 2 ^ 31 ->
  (2 <= length more1)%nat ->
  mem buf2 = data ++ more2 -> size buf1 <= size buf2 < 2 ^ 31 -> request_wf (length data) r ->
  state r = REQUEST_STATE_INIT \/ state r = REQUEST_STATE_HEADERS ->
  parse_request buf1 r flags = Val (REQ_UF, r1, flags) -> state r1 <> REQUEST_STATE_BODY ->
  (state r1 = REQUEST_STATE_INIT \/ state r1 = REQUEST_STATE_HEADERS) /\
  parse_request buf2 r flags = parse_request buf2 r1 flags.
Proof.
  intros Hm1 Hs1 Hmax Hmore Hm2 Hs2 [Hr _ _ _] Hst Hp Hne. unfold parse_request in *.
  destruct Hst as [Hst|Hst]; rewrite Hst in *.
  - unfold state_init in Hp |- *.
    destruct (parse_status_any data r) as [([ret r'] & Ho & Hout)|Hmiss].
    + rewrite (Ho buf1 more1 Hm1) in Hp by lia. rewrite (Ho buf2 more2 Hm2) by lia.
      cbn [mbind res_bind fst snd] in *.
      destruct Hout as [[-> ->]|[-> (k & v & u & j & -> & _ & _ & Hu & Hj)]]; [done|].
      change ((REQ_OK =? REQ_ERR) || (REQ_OK =? REQ_UF)) with false in *. cbn iota in *.
      eapply state_headers_resume in Hp as (_ & -> & ->); eauto.
      destruct Hr. split; cbn; try done. by exists j.
    + rewrite (Hmiss buf1 more1) in Hp by (done || lia). injection Hp as <-.
      rewrite Hst. by auto.
  - eapply state_headers_resume in Hp as (_ & -> & ->); eauto.
Qed.

Lemma pending_wf flags data r : pending flags data r ->
  request_wf (length data) r /\ (state r = REQUEST_STATE_INIT \/ state r = REQUEST_STATE_HEADERS).
Proof.
  induction 1 as [|data more1 r buf more r' Hp [IHw IHs] Hm Hs Hmax Hmore H0 E Hne].
  { split; [apply zero_request_wf|by left]. }
  assert (request_wf (length (data ++ more1)) r) as Hw.
  { eapply request_wf_weaken; [|exact IHw]. rewrite length_app. lia. }
  split.
  - destruct (parse_request_ok buf _ more r flags (length (data ++ more1)) Hm Hs Hmax Hmore H0)
      as (ret & r2 & f2 & E' & Hr); [done|done|]. rewrite E in E'. injection E' as <- <- <-.
    destruct Hr as [[? _]|[(_ & ? & _)|[? _]]]; done.
  - eapply (parse_request_resume buf buf _ more more); eauto; lia.
Qed.

(** C30: it does not matter how the header section is cut into pieces.  After
    any sequence of receptions that all ended in a request for more bytes of
    it, parsing the next, longer, contents of the buffer with the request they
    left gives what parsing it from scratch gives. *)
Theorem parse_in_pieces flags data r buf more :
  pending flags data r -> mem buf = data ++ more ->
  Z.of_nat (length data) <= size buf < 2 ^ 31 ->
  parse_request buf r flags = parse_request buf zero_request flags.
Proof.
  intros Hp. revert buf more.
  induction Hp as [|data more1 r buf more r' Hp IH Hm Hs Hmax Hmore H0 E Hne];
    intros buf2 more2 Hm2 Hs2; [done|].
  destruct (pending_wf _ _ _ Hp) as [Hw Hst].
  destruct (parse_request_resume buf buf2 (data ++ more1) more more2 r r' flags) as [_ <-];
    try done; try lia.
  { eapply request_wf_weaken; [|exact Hw]. rewrite length_app. lia. }
  apply (IH buf2 (more1 ++ more2)); [rewrite Hm2; by app_norm|]. rewrite length_app in Hs2. lia.
Qed.

(** ** What the parser accepts that it should not *)

(** The status line of a fresh request, then the headers. *)
Lemma parse_rendered_status buf k u v post flags :
  mem buf = render_status k u v ++ post ->
  Z.of_nat (length (render_status k u v)) <= size buf < 2 ^ 31 ->
  k <> HTTP_METHOD_UNKNOWN -> (32 ∉ u) /\ (10 ∉ u) -> v <> HTTP_VERSION_UNKNOWN ->
  parse_request buf zero_request flags =
  state_headers buf (MkReq REQUEST_STATE_HEADERS (Z.of_nat (length (render_status k u v))) k v
    (range (method_text k ++ [32]) u) 0 (replicate MAX_HEADERS zero_header) (MkStr 0 0)) flags.
Proof.
  intros Hm Hsz Hk [Hu1 Hu2] Hv. unfold parse_request. cbn [state zero_request].
  unfold state_init. by rewrite (parse_status_line_ok buf zero_request k u v post).
Qed.

(** ** What is rejected *)

(** The parser rejects these bytes, whatever is left in the buffer behind them. *)
Definition rejected (text : list Z) : Prop := forall buf more flags,
  mem buf = text ++ more -> size buf = Z.of_nat (length text) -> size buf < 2 ^ 31 ->
  exists req, parse_request buf zero_request flags = Val (REQ_ERR, req, flags).

(** A first line that is not one of a request is. *)
Lemma rejected_line text req : Z.of_nat (length text) < 2 ^ 31 ->
  parse_status_line zero_request (MkBuffer (Z.of_nat (length text)) (Z.of_nat (length text)) (Some text)) =
    Val (REQ_ERR, req) ->
  rejected text.
Proof.
  intros Hmax E buf more flags Hm Hsz Hlt. unfold parse_request, state_init. cbn [state zero_request].
  set (b0 := MkBuffer _ _ _) in E. assert (mem b0 = text ++ []) as Hm0 by (by rewrite app_nil_r).
  destruct (parse_status_any text zero_request) as [(out & H & _)|H].
  - rewrite (H b0 [] Hm0) in E by (cbn; lia). injection E as ->.
    rewrite (H buf more Hm) by lia. by eexists.
  - by rewrite (H b0 [] Hm0) in E by done.
Qed.

(** A request whose Content-Length is beyond MAX_BODY is. *)
Lemma rejected_oversize k u v hs b n :
  k <> HTTP_METHOD_UNKNOWN -> (32 ∉ u) /\ (10 ∉ u) -> v <> HTTP_VERSION_UNKNOWN ->
  Forall header_ok hs -> (length hs < MAX_HEADERS)%nat ->
  lookup_header content_length hs = Some (dec n) -> MAX_BODY < n < 2 ^ 31 ->
  rejected (render k u v hs b).
Proof.
  intros Hk Hu Hv Hh Hc Hl Hn buf more flags Hm Hsz Hmax. unfold render in *. set (st := render_status k u v) in *.
  assert (mem buf = st ++ render_headers hs ++ crlf ++ b ++ more) as Hm' by (rewrite Hm; by app_norm).
  rewrite (parse_rendered_status buf k u v _ flags Hm'); try done.
  2: { fold st. rewrite Hsz, length_app in *. lia. }
  fold st. set (req := MkReq _ _ _ _ _ _ _ _).
  destruct (header_loop_ok buf hs req st (b ++ more) Hm') as (r & E & _ & _ & Hd); try done.
  { rewrite !length_app in Hsz. rewrite !length_app. lia. }
  pose proof (state_headers_run buf req r hs flags E Hd) as Hrun.
  rewrite Hl in Hrun. destruct Hrun as (p & q & Hp & Hq & ->).
  assert (0 <= n < 2 ^ 31) as Hn0 by (unfold MAX_BODY in Hn; lia).
  specialize (Hq (dec_not_nil n ltac:(pow2; lia))). destruct q as [|c q]; [done|]. injection Hq as ->.
  rewrite Hp. rewrite (strtol_dec n p 13 q) by (done || (pow2; lia)).
  cbn [mbind res_bind]. rewrite swrap_small by (pow2; lia).
  replace (MAX_BODY <? n) with true by (symmetry; apply Z.ltb_lt, Hn). by eexists.
Qed.

(** a negative Content-Length is accepted.  The test against MAX_BODY
    bounds the number only from above: a request whose Content-Length is [-n]
    completes, with a body of length [-n] (the value the POST handler passes
    on to the database as an unsigned size). *)
Theorem parse_negative_length buf k u v hs b n pad flags :
  mem buf = render k u v hs b ++ pad ->
  size buf = Z.of_nat (length (render k u v hs b)) -> size buf < 2 ^ 31 ->
  k <> HTTP_METHOD_UNKNOWN -> (32 ∉ u) /\ (10 ∉ u) -> v <> HTTP_VERSION_UNKNOWN ->
  Forall header_ok hs -> (length hs < MAX_HEADERS)%nat ->
  lookup_header content_length hs = Some (45 :: dec n) -> 0 < n <= 2 ^ 31 ->
  exists r, parse_request buf zero_request flags = Val (REQ_OK, r, keepalive v flags) /\
    state r = REQUEST_STATE_READ_COMPLETE /\ method r = k /\
    uri r = range (method_text k ++ [32]) u /\ len (body r) = - n.
Proof.
  intros Hm Hsz Hmax Hk Hu Hv Hh Hc Hl Hn. unfold render in *. set (st := render_status k u v) in *.
  assert (mem buf = st ++ render_headers hs ++ crlf ++ b ++ pad) as Hm' by (rewrite Hm; by app_norm).
  rewrite (parse_rendered_status buf k u v _ flags Hm'); try done.
  2: { fold st. rewrite Hsz, length_app in *. lia. }
  fold st. set (req := MkReq _ _ _ _ _ _ _ _).
  destruct (header_loop_ok buf hs req st (b ++ pad) Hm')
    as (r & E & (_ & Hme & Hve & Hur & _) & Hr & Hd); try done.
  { rewrite !length_app in Hsz. rewrite !length_app. lia. }
  pose proof (state_headers_run buf req r hs flags E Hd) as Hrun.
  rewrite Hl in Hrun. destruct Hrun as (p & q & Hp & Hq & ->).
  destruct q as [|c q]; [by specialize (Hq ltac:(done))|].
  specialize (Hq ltac:(done)). injection Hq as ->.
  rewrite Hp. cbn [app]. rewrite (strtol_neg n p 13 q) by (done || (pow2; lia)).
  cbn [mbind res_bind]. rewrite (swrap_neg 32) by (pow2; lia).
  replace (MAX_BODY <? - n) with false by (unfold MAX_BODY; zlia).
  set (r0 := with_state REQUEST_STATE_BODY _).
  destruct (state_body_ok buf r0 flags) as (r' & -> & H1 & H2 & H3 & H4 & _ & _ & H7).
  { right. cbn. rewrite Hr, !swrap_small by (rewrite !length_app in *; pow2; lia).
    rewrite !length_app in *. lia. }
  exists r'. cbn in H2, H4, H7. rewrite H7. split_and!; [cbn; by rewrite Hve|done| | |done].
  - rewrite H2. exact Hme.
  - rewrite H4. exact Hur.
Qed.

(** with MAX_HEADERS headers the empty line is taken for the body.  The
    header loop then ends by its bound, without having looked at what follows;
    the request completes and its body is the first bytes of the CRLF that
    ends the headers followed by the real body, cut at the stated length. *)
Theorem parse_full_headers buf k u v hs b pad flags :
  mem buf = render k u v hs b ++ pad ->
  size buf = Z.of_nat (length (render k u v hs b)) -> size buf < 2 ^ 31 ->
  k <> HTTP_METHOD_UNKNOWN -> (32 ∉ u) /\ (10 ∉ u) -> v <> HTTP_VERSION_UNKNOWN ->
  Forall header_ok hs -> length hs = MAX_HEADERS ->
  lookup_header content_length hs = Some (dec (Z.of_nat (length b))) ->
  Z.of_nat (length b) <= MAX_BODY -> b <> [] ->
  exists r, parse_request buf zero_request flags = Val (REQ_OK, r, keepalive v flags) /\
    state r = REQUEST_STATE_READ_COMPLETE /\
    text (mem buf) (body r) = take (length b) (crlf ++ b).
Proof.
  intros Hm Hsz Hmax Hk Hu Hv Hh Hc Hl Hmb Hb. unfold render in *. set (st := render_status k u v) in *.
  assert (mem buf = st ++ render_headers hs ++ crlf ++ b ++ pad) as Hm' by (rewrite Hm; by app_norm).
  rewrite (parse_rendered_status buf k u v _ flags Hm'); try done.
  2: { fold st. rewrite Hsz, length_app in *. lia. }
  fold st. set (req := MkReq _ _ _ _ _ _ _ _).
  destruct (header_loop_render buf hs req st (crlf ++ b ++ pad) [] Hm')
    as (r & E & (_ & _ & Hve & _) & Hn' & Hr & Hd); try done.
  { rewrite !length_app in Hsz. rewrite !length_app. lia. } { cbn. lia. }
  assert (num_headers r = MAX_HEADERS) as Hnr by (rewrite Hn'; cbn [req num_headers]; lia).
  rewrite Hnr, Nat.sub_diag in E.
  pose proof (state_headers_run buf req r hs flags E Hd) as Hrun.
  rewrite Hl in Hrun. destruct Hrun as (p & q & Hp & Hq & ->).
  assert (0 < Z.of_nat (length b) < 2 ^ 31) as Hbl.
  { unfold MAX_BODY in Hmb. destruct b; [done|]. cbn [length] in *. pow2. lia. }
  specialize (Hq (dec_not_nil (Z.of_nat (length b)) ltac:(pow2; lia))).
  destruct q as [|c q]; [done|]. injection Hq as ->.
  assert (strtol (mem buf) (Z.of_nat (length p)) = Val (Z.of_nat (length b))) as ->.
  { rewrite Hp. apply strtol_dec; [pow2; lia|done]. }
  cbn [mbind res_bind]. rewrite (swrap_small 32) by (pow2; lia).
  replace (MAX_BODY <? Z.of_nat (length b)) with false by zlia.
  rewrite Hr. set (h0 := st ++ render_headers hs) in *.
  assert (size buf = Z.of_nat (length h0 + 2 + length b)) as Hsz'.
  { rewrite Hsz. unfold h0. rewrite !length_app. cbn. lia. }
  rewrite (swrap_small 32 (Z.of_nat (length h0))) by (pow2; lia).
  set (r0 := with_state REQUEST_STATE_BODY _).
  destruct (state_body_ok buf r0 flags) as (r' & -> & H1 & H2 & H3 & _ & _ & _ & H7).
  { right. cbn. rewrite Hsz', swrap_small by (pow2; lia). lia. }
  exists r'. cbn in H7. rewrite H7. split_and!; [cbn; by rewrite Hve|done|].
  assert (length (take (length b) (crlf ++ b)) = length b) as Ht.
  { rewrite length_take, length_app. cbn. lia. }
  rewrite <- Ht at 1. apply (text_tok_eq _ h0 _ (drop (length b) (crlf ++ b) ++ pad)).
  rewrite Hm. unfold h0. app_norm. do 2 f_equal. rewrite (assoc_L (++) (take _ _)), take_drop.
  unfold crlf. by app_norm.
Qed.

(** The number in a Content-Length is read up to a byte that ends it, wherever that is.
    When the value is empty, strtol skips the end of the headers and reads on in the
    bytes behind what was received.  These are 4096 bytes that realloc has given and nobody has
    set; if they are all digits, it goes past the end of the block. *)
Theorem parse_unterminated : let text := bytes_of "POST / HTTP/1.1" ++ crlf ++ bytes_of "Content-Length:" ++ crlf ++ crlf in
  let size := Z.of_nat (length text) in
  parse_request (MkBuffer size (size + 4096) (Some (text ++ replicate 4096 49))) zero_request 0 = Stuck.
Proof. by vm_compute. Qed.

(** bytes left over from an earlier reception can end the headers.  The
    test for the empty line looks two bytes ahead without comparing with the
    buffer's size: when the status line and complete headers have arrived and
    the two bytes behind them in the buffer happen to be CR LF, the request
    completes although its empty line was never received. *)
Theorem parse_stale_end buf k u v hs stale flags :
  mem buf = render_status k u v ++ render_headers hs ++ crlf ++ stale ->
  size buf = Z.of_nat (length (render_status k u v ++ render_headers hs)) -> size buf < 2 ^ 31 ->
  k <> HTTP_METHOD_UNKNOWN -> (32 ∉ u) /\ (10 ∉ u) -> v <> HTTP_VERSION_UNKNOWN ->
  Forall header_ok hs -> (length hs < MAX_HEADERS)%nat ->
  lookup_header content_length hs = None ->
  exists r, parse_request buf zero_request flags = Val (REQ_OK, r, keepalive v flags) /\
    state r = REQUEST_STATE_READ_COMPLETE /\ read_bytes r = size buf + 2.
Proof.
  intros Hm Hsz Hmax Hk Hu Hv Hh Hc Hl. set (st := render_status k u v) in *.
  rewrite (parse_rendered_status buf k u v _ flags Hm); try done.
  2: { fold st. rewrite Hsz, length_app in *. lia. }
  fold st. set (req := MkReq _ _ _ _ _ _ _ _).
  destruct (header_loop_render buf hs req st (crlf ++ stale) [] Hm)
    as (r & E & (_ & _ & Hve & _ & Hbo) & Hn' & Hr & Hd); try done; [lia|cbn; lia|].
  assert (MAX_HEADERS - num_headers r = Datatypes.S (MAX_HEADERS - length hs - 1))%nat as Hnr.
  { rewrite Hn'. cbn [req num_headers]. lia. }
  rewrite Hnr in E. cbn [header_loop] in E.
  rewrite (parse_header_end buf r (st ++ render_headers hs) stale) in E;
    [|by rewrite Hm; app_norm|done].
  cbn [mbind res_bind] in E. set (r1 := with_read_bytes _ r) in E.
  pose proof (state_headers_run buf req r1 hs flags E Hd) as Hrun. rewrite Hl in Hrun.
  rewrite Hrun. unfold state_body. cbn [body with_state r1 with_read_bytes].
  rewrite Hbo. cbn [req body len Z.eqb]. eexists.
  split; [unfold state_complete, keepalive; cbn; by rewrite Hve|].
  split; [done|]. cbn. rewrite Hsz, length_app. cbn. lia.
Qed.

(** ** Responses *)

Lemma wf_length b : wf b -> size b = Z.of_nat (length (contents b)).
Proof. intros []. unfold contents. rewrite length_take. lia. Qed.

Lemma push_text_ok g b s : wf b -> (length s < 128)%nat ->
  Z.of_nat (length (contents b)) + 128 < 2 ^ 63 ->
  exists b', push_text (Some g) b s = Val b' /\ wf b' /\ contents b' = contents b ++ s.
Proof.
  intros Hwf Hs Hsz. unfold push_text, snprintf.
  rewrite (wrap_small 64) by (pow2; lia).
  destruct (push_buffer_ok (Some g) b (take (128 - 1) s ++ [0]) (length s))
    as (b' & -> & Hwf' & Hc & _); [done| | |by left|].
  - rewrite length_app, length_take. lia.
  - rewrite (wf_length b Hwf). pow2. lia.
  - exists b'. split_and!; [done..|]. rewrite Hc, (take_ge s) by lia. by rewrite take_app_length.
Qed.

Definition status_text (s : http_status) : list Z :=
  default [] (kv_text <$> g_http_statuses !! status_index s).

(** The response the protocol asks for. *)
Definition response_text (v : http_version) (s : http_status) (alive : bool)
    (body : list Z) : list Z :=
  version_text v ++ bytes_of " " ++ status_text s ++ crlf ++
  (if alive then bytes_of "Connection: keep-alive" ++ crlf ++
                 bytes_of "Keep-Alive: timeout=5" ++ crlf else []) ++
  bytes_of "Content-Length: " ++ dec (Z.of_nat (length body)) ++ crlf ++ crlf ++ body.

Lemma table_text_version v : v <> HTTP_VERSION_UNKNOWN ->
  table_text g_http_versions (version_index v) = Val (version_text v).
Proof. by destruct v. Qed.

Lemma table_text_status s : s <> HTTP_STATUS_UNKNOWN ->
  table_text g_http_statuses (status_index s) = Val (status_text s).
Proof. by destruct s. Qed.

Lemma status_line_short v s :
  (length (version_text v) <= 8)%nat /\ (length (status_text s) <= 25)%nat.
Proof. split; [destruct v|destruct s]; by_compute. Qed.

(** The keep-alive headers, when the connection is kept. *)
Lemma push_keep_alive g b1 (alive : bool) : wf b1 -> (length (contents b1) <= 37)%nat ->
  exists b2, (if alive then
      kc ← table_text g_http_hkeys (hkey_index HTTP_HKEY_CONNECTION);
      buf ← push_text (Some g) b1 (kc ++ bytes_of ": keep-alive" ++ crlf);
      kk ← table_text g_http_hkeys (hkey_index HTTP_HKEY_KEEP_ALIVE);
      push_text (Some g) buf (kk ++ bytes_of ": timeout=5" ++ crlf)
    else Val b1) = Val b2 /\ wf b2 /\
    contents b2 = contents b1 ++ (if alive then bytes_of "Connection: keep-alive" ++ crlf ++
      bytes_of "Keep-Alive: timeout=5" ++ crlf else []).
Proof.
  intros Hw Hl. destruct alive; [|by exists b1; rewrite app_nil_r].
  change (table_text g_http_hkeys (hkey_index HTTP_HKEY_CONNECTION))
    with (Val (bytes_of "Connection")). cbn [mbind res_bind].
  destruct (push_text_ok g b1 (bytes_of "Connection" ++ bytes_of ": keep-alive" ++ crlf))
    as (b2 & -> & Hw2 & Hc2); [done|cbn; lia|pow2; lia|]. cbn [mbind res_bind].
  change (table_text g_http_hkeys (hkey_index HTTP_HKEY_KEEP_ALIVE))
    with (Val (bytes_of "Keep-Alive")). cbn [mbind res_bind].
  destruct (push_text_ok g b2 (bytes_of "Keep-Alive" ++ bytes_of ": timeout=5" ++ crlf))
    as (b3 & -> & Hw3 & Hc3); [done|cbn; lia| |].
  { rewrite Hc2, !length_app. cbn [length bytes_of crlf]. pow2. cbn. lia. }
  exists b3. split; [done|]. split; [done|]. rewrite Hc3, Hc2. by app_norm.
Qed.

(** All of the response. *)
Lemma fill_response_ok g buf req flags s resp n :
  wf buf -> version req <> HTTP_VERSION_UNKNOWN -> s <> HTTP_STATUS_UNKNOWN ->
  (n <= length resp)%nat -> Z.of_nat n < 2 ^ 62 ->
  exists b, fill_response (Some g) buf req flags s resp (Z.of_nat n) = Val b /\ wf b /\
    contents b = response_text (version req) s
      (negb (Z.land flags CONNECTION_FLAG_KEEPALIVE =? 0)) (take n resp).
Proof.
  intros Hwf Hv Hs Hn Hmax. assert (2 ^ 62 = 4611686018427387904) as P62 by done.
  unfold fill_response. destruct (clear_buffer_wf buf Hwf) as [Hw0 Hc0]. cbv zeta.
  rewrite table_text_version, table_text_status by done. cbn [mbind res_bind].
  destruct (status_line_short (version req) s) as [Hl1 Hl2].
  set (l1 := version_text _ ++ _).
  assert (length l1 <= 37)%nat as Hll.
  { unfold l1, crlf. rewrite !length_app. cbn. lia. }
  destruct (push_text_ok g (clear_buffer buf) l1) as (b1 & -> & Hw1 & Hc1);
    [done|lia|by rewrite Hc0|].
  cbn [mbind res_bind]. rewrite Hc0 in Hc1. cbn [app] in Hc1.
  set (alive := negb _). set (l2 := if alive then bytes_of "Connection: keep-alive" ++ crlf ++
                 bytes_of "Keep-Alive: timeout=5" ++ crlf else []).
  assert (length l2 <= 48)%nat as Hl2' by (unfold l2; destruct alive; cbn; lia).
  destruct (push_keep_alive g b1 alive) as (b2 & -> & Hw2 & Hc2); [done|by rewrite Hc1|].
  fold l2 in Hc2. rewrite Hc1 in Hc2.
  cbn [mbind res_bind].
  change (table_text g_http_hkeys (hkey_index HTTP_HKEY_CONTENT_LENGTH))
    with (Val (bytes_of "Content-Length")). cbn [mbind res_bind].
  destruct (dec_spec (Z.of_nat n) ltac:(pow2; lia)) as (_ & _ & Hdec).
  set (l3 := bytes_of "Content-Length" ++ _).
  assert (length l3 <= 40)%nat as Hl3.
  { unfold l3. revert Hdec. generalize (dec (Z.of_nat n)). intros d Hdec.
    rewrite !length_app. cbn. lia. }
  destruct (push_text_ok g b2 l3) as (b3 & -> & Hw3 & Hc3); [done|lia| |].
  { rewrite Hc2, length_app. pow2. lia. }
  cbn [mbind res_bind].
  assert (length (take n resp) = n) as Ht by (rewrite length_take; lia).
  assert (l1 ++ l2 ++ l3 ++ take n resp = response_text (version req) s alive (take n resp)) as Hr.
  { unfold response_text. rewrite Ht. unfold l1, l2, l3. by app_norm. }
  destruct (Z.eqb_spec (Z.of_nat n) 0) as [E|E].
  - exists b3. split_and!; [done..|]. rewrite <- Hr, Hc3, Hc2.
    replace n with 0%nat by lia. rewrite take_0, app_nil_r. by app_norm.
  - destruct (push_buffer_ok (Some g) b3 resp n) as (b4 & -> & Hw4 & Hc4 & _); [done..| |by left|].
    { rewrite (wf_length b3 Hw3), Hc3, Hc2, !length_app. rewrite P62 in Hmax. pow2. lia. }
    exists b4. split_and!; [done..|]. rewrite <- Hr, Hc4, Hc3, Hc2. by app_norm.
Qed.

(** send_response writes the response the protocol asks for.  When no
    allocation fails, for a known version and status and a body of [n] readable
    bytes, the buffer afterwards holds exactly the status line, the keep-alive
    headers if the connection's flag is set, the Content-Length of the body and
    the body, whatever it held before; no 128-byte line overflows. *)
Theorem fill_response_text g buf req flags s resp n :
  wf buf -> version req <> HTTP_VERSION_UNKNOWN -> s <> HTTP_STATUS_UNKNOWN ->
  (n <= length resp)%nat -> Z.of_nat n < 2 ^ 62 ->
  exists b, fill_response (Some g) buf req flags s resp (Z.of_nat n) = Val b /\ wf b /\
    contents b = response_text (version req) s
      (negb (Z.land flags CONNECTION_FLAG_KEEPALIVE =? 0)) (take n resp).
Proof. apply fill_response_ok. Qed.

(** ** Witnesses *)

(** A buffer that holds [data], with the bytes [more] behind it. *)
Definition buffer_with (data more : list Z) : buffer_t :=
  MkBuffer (Z.of_nat (length data)) (Z.of_nat (length (data ++ more))) (Some (data ++ more)).

Definition ex_headers : list header_text :=
  [(bytes_of "Host", bytes_of "localhost"); (bytes_of "Content-Length", bytes_of "5")].
Definition ex_request : list Z :=
  render HTTP_METHOD_POST (bytes_of "/post") HTTP_VERSION_11 ex_headers (bytes_of "hello").

(** Closed side conditions of the theorems above. *)
Ltac closed :=
  lazymatch goal with
  | |- trimmed _ => split; intros ? [= <-]; reflexivity
  | |- header_ok _ => split; [by_compute|by_compute|closed|closed]
  | |- Forall _ (_ :: _) => constructor; [closed|closed]
  | |- Forall _ [] => constructor
  | |- _ /\ _ => split; closed
  | |- _ => first [done | by_compute | by vm_compute]
  end.

Lemma ex_headers_ok : Forall header_ok ex_headers.
Proof. unfold ex_headers. closed. Qed.

Lemma parse_render_witness : exists r,
  parse_request (buffer_with ex_request [0; 0]) zero_request 0 = Val (REQ_OK, r, 1) /\
  text (mem (buffer_with ex_request [0; 0])) (body r) = bytes_of "hello".
Proof.
  destruct (parse_render (buffer_with ex_request [0; 0]) HTTP_METHOD_POST (bytes_of "/post")
    HTTP_VERSION_11 ex_headers (bytes_of "hello") [0; 0] 0) as (r & E & _ & _ & _ & _ & _ & Hb).
  - reflexivity.
  - reflexivity.
  - by_compute.
  - split; [done|closed|done|exact ex_headers_ok|by_compute|split; [reflexivity|by_compute]].
  - exists r. split; [exact E|exact Hb].
Defined.

Lemma parse_request_safe_witness :
  parsed_wf (length (take 20 ex_request)) 0
    (parse_request (buffer_with (take 20 ex_request) [0; 0]) zero_request 0).
Proof.
  apply (parse_request_safe _ (take 20 ex_request) [0; 0] zero_request 0 0);
    [reflexivity|reflexivity|by_compute|by_compute|by_compute|by_compute|apply zero_request_wf].
Defined.

(** The request left after the first 40 bytes of the example. *)
Definition ex_pending : request :=
  match parse_request (buffer_with (take 40 ex_request) [0; 0]) zero_request 0 with
  | Val (_, r, _) => r
  | _ => zero_request
  end.

Lemma parse_in_pieces_witness :
  num_headers ex_pending = 1%nat /\
  parse_request (buffer_with ex_request [0; 0]) ex_pending 0 =
  parse_request (buffer_with ex_request [0; 0]) zero_request 0.
Proof.
  split; [reflexivity|].
  apply (parse_in_pieces 0 ([] ++ take 40 ex_request) ex_pending
    (buffer_with ex_request [0; 0]) (drop 40 ex_request ++ [0; 0])).
  - apply (pending_more 0 [] (take 40 ex_request) zero_request
      (buffer_with (take 40 ex_request) [0; 0]) [0; 0]);
      [constructor|reflexivity|reflexivity|by_compute|by_compute|by_compute|by vm_compute|done].
  - reflexivity.
  - by vm_compute.
Defined.

Lemma parse_negative_length_witness : exists r,
  parse_request (buffer_with (render HTTP_METHOD_POST (bytes_of "/post") HTTP_VERSION_10
    [(content_length, bytes_of "-5")] (bytes_of "hello")) [0; 0]) zero_request 0
  = Val (REQ_OK, r, 0) /\ len (body r) = -5.
Proof.
  destruct (parse_negative_length (buffer_with (render HTTP_METHOD_POST (bytes_of "/post")
    HTTP_VERSION_10 [(content_length, bytes_of "-5")] (bytes_of "hello")) [0; 0])
    HTTP_METHOD_POST (bytes_of "/post") HTTP_VERSION_10 [(content_length, bytes_of "-5")]
    (bytes_of "hello") 5 [0; 0] 0) as (r & E & _ & _ & _ & H).
  - reflexivity.
  - reflexivity.
  - by_compute.
  - done.
  - closed.
  - done.
  - closed.
  - by_compute.
  - reflexivity.
  - by_compute.
  - exists r. split; [exact E|exact H].
Defined.

Example ex_rejected : rejected (bytes_of "FETCH / HTTP/1.1" ++ crlf ++ crlf) /\
  rejected (render HTTP_METHOD_POST (bytes_of "/") HTTP_VERSION_11 [(content_length, bytes_of "99999999")] []).
Proof.
  split; [apply (rejected_line _ zero_request); [by_compute|by vm_compute]|].
  apply (rejected_oversize _ _ _ _ _ 99999999); [done|closed|done|closed|by_compute|by vm_compute|done].
Qed.

Definition ex_full : list header_text :=
  (content_length, bytes_of "5") :: replicate 31 (bytes_of "Accept", bytes_of "text").

Lemma parse_full_headers_witness : exists r,
  parse_request (buffer_with (render HTTP_METHOD_POST (bytes_of "/post") HTTP_VERSION_10
    ex_full (bytes_of "hello")) [0; 0]) zero_request 0 = Val (REQ_OK, r, 0) /\
  text (mem (buffer_with (render HTTP_METHOD_POST (bytes_of "/post") HTTP_VERSION_10
    ex_full (bytes_of "hello")) [0; 0])) (body r) = [13; 10] ++ bytes_of "hel".
Proof.
  destruct (parse_full_headers (buffer_with (render HTTP_METHOD_POST (bytes_of "/post")
    HTTP_VERSION_10 ex_full (bytes_of "hello")) [0; 0])
    HTTP_METHOD_POST (bytes_of "/post") HTTP_VERSION_10 ex_full
    (bytes_of "hello") [0; 0] 0) as (r & E & _ & H).
  - reflexivity.
  - reflexivity.
  - by_compute.
  - done.
  - closed.
  - done.
  - constructor; [closed|]. apply Forall_replicate. closed.
  - reflexivity.
  - reflexivity.
  - by_compute.
  - done.
  - exists r. split; [exact E|exact H].
Defined.

Lemma parse_stale_end_witness : exists r,
  parse_request (buffer_with (render_status HTTP_METHOD_GET (bytes_of "/") HTTP_VERSION_11 ++
    render_headers [(bytes_of "Host", bytes_of "localhost")]) (crlf ++ [0])) zero_request 0
  = Val (REQ_OK, r, 1) /\ state r = REQUEST_STATE_READ_COMPLETE.
Proof.
  destruct (parse_stale_end (buffer_with (render_status HTTP_METHOD_GET (bytes_of "/")
    HTTP_VERSION_11 ++ render_headers [(bytes_of "Host", bytes_of "localhost")]) (crlf ++ [0]))
    HTTP_METHOD_GET (bytes_of "/") HTTP_VERSION_11 [(bytes_of "Host", bytes_of "localhost")]
    [0] 0) as (r & E & H & _).
  - reflexivity.
  - reflexivity.
  - by_compute.
  - done.
  - closed.
  - done.
  - closed.
  - by_compute.
  - reflexivity.
  - exists r. split; [exact E|exact H].
Defined.

Lemma fill_response_text_witness : exists b,
  fill_response (Some (fun _ => 0)) (MkBuffer 0 0 None) zero_request 1 HTTP_STATUS_200
    (bytes_of "ok") 2 = Val b /\
  contents b = response_text HTTP_VERSION_10 HTTP_STATUS_200 true (bytes_of "ok").
Proof.
  destruct (fill_response_text (fun _ => 0) (MkBuffer 0 0 None) zero_request 1 HTTP_STATUS_200
    (bytes_of "ok") 2) as (b & E & _ & H).
  - by split.
  - done.
  - done.
  - by_compute.
  - by_compute.
  - exists b. split; [exact E|exact H].
Defined.

End ParserSpec.
