(* ===== verification/Db.v ===== *)
(** The hash-table database of db.c: one file that holds a header, an array of
    bucket heads and a heap of records, read and written through pread/pwrite
    and a shared mapping of the header and buckets.

    Module [Db] has the file-level model: [open_db], [close_db], [db_insert],
    [db_get] and their helpers, over the exact bytes of the file and a schedule
    of system-call outcomes.  Module [DbSpec] has the abstract store (the list
    of pastes, a paste's id is its index), the bytes that represent one
    ([image]) and the theorems that relate the two. *)
From S2P Require Import Prelude.

Module Db.

(** What the next system or allocator call does: succeed, fail, or (for pread
    and pwrite) transfer only the first [n] bytes. *)
Inductive fault := Fine | Fail | Short (n : nat).

Definition fails (f : fault) : bool := match f with Fail => true | _ => false end.
Definition short {A} (f : fault) (l : list A) : list A :=
  match f with Short n => take n l | _ => l end.

(** The lock is held for writing, held for reading, or free; or it has been freed with
    the struct it is in. *)
Inductive rwlock := Unlocked | RdLocked | WrLocked | Freed.

#[global] Instance rwlock_eq_dec : EqDecision rwlock.
Proof. solve_decision. Defined.

(** struct db: the bytes of the file open at [db->fd] (which the MAP_SHARED
    mapping [db->map] shows as well), the size of that mapping, and the lock.
    [db->meta] is the start of the mapping and [db->buckets] is 16 bytes into
    it.  [sched] lists the outcomes of the calls to come; past its end every
    call succeeds. *)
Record db := MkDb {
  file : list Z;
  mapped : Z;
  lock : rwlock;
  sched : list fault;
}.

Definition set_file (f : list Z) (d : db) : db :=
  MkDb f (mapped d) (lock d) (sched d).
Definition set_lock (k : rwlock) (d : db) : db :=
  MkDb (file d) (mapped d) k (sched d).

Definition DBID_FREE : Z := 18446744073709551615.

(** sizeof(struct header); REC_HDR_SIZE = offsetof(struct record, offset);
    offsetof(struct record, offset).  The structs are packed. *)
Definition HEADER_SIZE : Z := 16.
Definition REC_HDR_SIZE : Z := 20.
Definition OFFSET_OF_OFFSET : Z := 20.

(** struct record *)
Record record := MkRecord {
  rec_vlen : Z;
  rec_id : Z;
  rec_next : Z;
  rec_offset : Z;
  rec_val : list Z;
}.

(** The first REC_HDR_SIZE bytes of a record in memory, and back. *)
Definition record_header (r : record) : list Z :=
  le_bytes 4 (rec_vlen r) ++ le_bytes 8 (rec_id r) ++ le_bytes 8 (rec_next r).
Definition read_record (bs : list Z) : record :=
  MkRecord (le_val (slice 0 4 bs)) (le_val (slice 4 8 bs)) (le_val (slice 12 8 bs)) 0 [].

(** *** System calls *)
Definition syscall : cmd db fault := fun d =>
  match sched d with
  | [] => Val (Fine, d)
  | f :: fs => Val (f, MkDb (file d) (mapped d) (lock d) fs)
  end.

Definition pread (off : Z) (n : nat) : cmd db (option (list Z)) :=
  f ← syscall;
  d ← get;
  let off := i64 off in
  mret (if fails f || (off <? 0) then None
        else Some (short f (slice (Z.to_nat off) n (file d)))).

Definition pwrite (off : Z) (bs : list Z) : cmd db Z :=
  f ← syscall;
  let off := i64 off in
  if fails f || (off <? 0) then mret (-1)
  else
    let bs := short f bs in
    _ ← modify (fun d =>
      match bs with
      | [] => d
      | _ => set_file (write_at (Z.to_nat off) bs (file d)) d
      end);
    mret (Z.of_nat (length bs)).

Definition get_file_size : cmd db Z :=
  f ← syscall;
  d ← get;
  mret (if fails f then 0 else Z.of_nat (length (file d))).

Definition malloc_fails : cmd db bool := f ← syscall; mret (fails f).

(** An access to a struct that has been freed is undefined. *)
Definition live : cmd db unit :=
  d ← get;
  if bool_decide (lock d = Freed) then stuck else mret tt.

(** pthread_rwlock_{rd,wr}lock: nonzero ([true]) when it fails.  Taking a lock
    this thread already holds is undefined. *)
Definition rwlock_acquire (k : rwlock) : cmd db bool :=
  _ ← live;
  f ← syscall;
  if fails f then mret true
  else
    d ← get;
    if bool_decide (lock d = Unlocked) then _ ← modify (set_lock k); mret false
    else stuck.

Definition rwlock_unlock : cmd db unit := modify (set_lock Unlocked).

(** A 64-bit load or store at byte [off] of the mapping.  Outside the mapping
    it is undefined, and so it is past the end of the file (SIGBUS). *)
Definition in_map (off : Z) (d : db) : bool :=
  (0 <=? off) && (off + 8 <=? mapped d) && (off + 8 <=? Z.of_nat (length (file d))).

Definition map_load (off : Z) : cmd db Z :=
  d ← get;
  if in_map off d then mret (le_val (slice (Z.to_nat off) 8 (file d))) else stuck.

Definition map_store (off : Z) (x : Z) : cmd db unit :=
  d ← get;
  if in_map off d then
    modify (set_file (write_at (Z.to_nat off) (le_bytes 8 x) (file d)))
  else stuck.

Definition bucket (index : Z) : Z := HEADER_SIZE + 8 * index.

(** id % num_buckets *)
Definition umod (a b : Z) : cmd db Z := if b =? 0 then stuck else mret (a mod b).

(** *** write_record *)
Definition write_record (rec : record) : cmd db Z :=
  nomem ← malloc_fails;
  if (nomem : bool) then mret ERR
  else if Z.of_nat (length (rec_val rec)) <? rec_vlen rec then stuck
  else
    n ← pwrite (rec_offset rec) (record_header rec ++ take (Z.to_nat (rec_vlen rec)) (rec_val rec));
    mret (if n <? 0 then ERR else OK).

(** *** db_insert *)

(** The walk to the last record of a bucket's list: its offset, or [None] when
    a record header cannot be read. *)
Definition last_link (fuel : nat) (off : Z) : cmd db (option Z) :=
  loop fuel (fun off =>
    r ← pread off (Z.to_nat REC_HDR_SIZE);
    match r with
    | None => mret (inr None)
    | Some bs =>
        if negb (Z.of_nat (length bs) =? REC_HDR_SIZE) then mret (inr None)
        else
          let rec := read_record bs in
          if negb (rec_next rec =? DBID_FREE) then mret (inl (rec_next rec))
          else mret (inr (Some off))
    end) off.

(** Point the bucket, or the last record of its list, at [pos]: OK or ERR. *)
Definition link_entry (fuel : nat) (index pos : Z) : cmd db Z :=
  off ← map_load (bucket index);
  if off =? DBID_FREE then _ ← map_store (bucket index) pos; mret OK
  else
    l ← last_link fuel off;
    match l with
    | None => mret ERR
    | Some off =>
        n ← pwrite (u64 (off + OFFSET_OF_OFFSET)) (le_bytes 8 pos);
        mret (if negb (n =? 8) then ERR else OK)
    end.

(** [id = db->meta->id++], the bucket index and the position of the new record. *)
Definition next_slot : cmd db (Z * Z * Z) :=
  i ← map_load 0;
  _ ← map_store 0 (u64 (i + 1));
  nb ← map_load 8;
  index ← umod i nb;
  pos ← get_file_size;
  mret (i, index, pos).

(** The result is the return code and what was stored to [*result], if
    anything was. [data] is the memory readable at [val]. *)
Definition db_insert (fuel : nat) (data : list Z) (len : Z) : cmd db (Z * option Z) :=
  failed ← rwlock_acquire WrLocked;
  if (failed : bool) then mret (ERR, None)
  else
    slot ← next_slot;
    let '(i, index, pos) := slot in
    ret ← link_entry fuel index pos;
    if ret =? OK then
      ret ← write_record (MkRecord len i DBID_FREE pos data);
      _ ← rwlock_unlock;
      mret (ret, Some i)
    else
      _ ← rwlock_unlock;
      mret (ret, None).

(** *** db_get *)

(** The search of a bucket's list for [key], and the copy of its value. *)
Definition find_record (fuel : nat) (key off : Z) : cmd db (option (list Z)) :=
  loop fuel (fun off =>
    r ← pread off (Z.to_nat REC_HDR_SIZE);
    match r with
    | None => mret (inr None)
    | Some bs =>
        if negb (Z.of_nat (length bs) =? REC_HDR_SIZE) then mret (inr None)
        else
          let rec := read_record bs in
          if rec_id rec =? key then
            nomem ← malloc_fails;
            if (nomem : bool) then mret (inr None)
            else
              v ← pread (u64 (off + REC_HDR_SIZE)) (Z.to_nat (rec_vlen rec));
              mret (inr (v ≫= fun v =>
                if negb (Z.of_nat (length v) =? rec_vlen rec) then None else Some v))
          else if negb (rec_next rec =? DBID_FREE) then mret (inl (rec_next rec))
          else mret (inr None)
    end) off.

(** The result is the returned buffer (its length is what [*vlen] is set to)
    or NULL. *)
Definition db_get (fuel : nat) (key : Z) : cmd db (option (list Z)) :=
  failed ← rwlock_acquire RdLocked;
  if (failed : bool) then mret None
  else
    nb ← map_load 8;
    index ← umod key nb;
    off ← map_load (bucket index);
    ret ← (if off =? DBID_FREE then mret None else find_record fuel key off);
    _ ← rwlock_unlock;
    mret ret.

(** *** open_db, close_db *)

(** [disk]: the file at [path], if there is one.  Each path through the
    function consumes the outcomes it meets; a failure after the file was
    created leaves it behind. *)
Definition header_size_for (num_buckets : Z) : Z := u64 (HEADER_SIZE + u64 (8 * num_buckets)).

(** ftruncate: grow with zeros or cut. *)
Definition truncate (n : nat) (f : list Z) : list Z := take n f ++ replicate (n - length f) 0.

Definition pop (fs : list fault) : fault * list fault :=
  match fs with [] => (Fine, []) | f :: fs => (f, fs) end.

(** mmap of no bytes fails.  When the size of the table wraps around, the header or
    the table that is cleared is not all in the mapping. *)
Definition open_db (disk : option (list Z)) (num_buckets : Z) (fs : list fault)
    : res (option db * option (list Z)) :=
  let (calloc, fs) := pop fs in
  if fails calloc then Val (None, disk) else
  let (init, fs) := pop fs in
  if fails init then Val (None, disk) else
  match disk with
  | None =>
      let (opn, fs) := pop fs in
      if fails opn then Val (None, disk) else
      let size := header_size_for num_buckets in
      let (trunc, fs) := pop fs in
      if fails trunc || (i64 size <? 0) then Val (None, Some []) else
      let f := truncate (Z.to_nat size) [] in
      let (mmap, fs) := pop fs in
      if fails mmap || (size =? 0) then Val (None, Some f) else
      if size <? HEADER_SIZE + u64 (8 * num_buckets) then Stuck else
      let f := write_at 0 (le_bytes 8 0) f in
      let f := write_at 8 (le_bytes 8 num_buckets) f in
      let f := write_at 16 (replicate (Z.to_nat (u64 (8 * num_buckets))) 255) f in
      Val (Some (MkDb f size Unlocked fs), Some f)
  | Some f =>
      let (opn, fs) := pop fs in
      if fails opn then Val (None, disk) else
      let (rd, fs) := pop fs in
      let hdr := short rd (slice 0 (Z.to_nat HEADER_SIZE) f) in
      if fails rd || negb (Z.of_nat (length hdr) =? HEADER_SIZE) then Val (None, disk) else
      let size := header_size_for (le_val (slice 8 8 hdr)) in
      let (mmap, fs) := pop fs in
      if fails mmap || (size =? 0) then Val (None, disk) else
      Val (Some (MkDb f size Unlocked fs), Some f)
  end.

(** munmap of the bytes that the header, in the first page of the mapping, says there
    are, close and free: the file keeps what was written to it. *)
Definition close_db : cmd db unit :=
  _ ← live;
  size ← gets (fun d => header_size_for (le_val (slice 8 8 (file d))));
  modify (fun d => MkDb (file d) (Z.max 0 (mapped d - size)) Freed (sched d)).

(** The file that is found at the path from then on. *)
Definition on_disk (d : db) : option (list Z) := Some (file d).

End Db.

(** * Abstract specification and refinement *)
Module DbSpec.
Import Db.

(** The bytes of a record whose list ends with it. *)
Definition record_bytes (i : Z) (v : list Z) : list Z :=
  record_header (MkRecord (Z.of_nat (length v)) i DBID_FREE 0 []) ++ v.

Fixpoint records (i : nat) (vals : list (list Z)) : list Z :=
  match vals with
  | [] => []
  | v :: vals => record_bytes (Z.of_nat i) v ++ records (Datatypes.S i) vals
  end.

(** Where the records start in a file whose first record is at [base]. *)
Fixpoint positions (base : Z) (vals : list (list Z)) : list Z :=
  match vals with
  | [] => []
  | v :: vals => base :: positions (base + REC_HDR_SIZE + Z.of_nat (length v)) vals
  end.

Definition heads (nb : nat) (vals : list (list Z)) : list Z :=
  positions (bucket (Z.of_nat nb)) vals ++ replicate (nb - length vals) DBID_FREE.

Definition words (l : list Z) : list Z := concat (le_bytes 8 <$> l).

Arguments record_bytes : simpl never.

(** A file with the id counter [cnt], [nb] buckets, one record for each of
    [vals] (whose ids are their indices), and then the bytes [tail]. *)
Definition layout (cnt : Z) (nb : nat) (vals : list (list Z)) (tail : list Z) : list Z :=
  le_bytes 8 cnt ++ le_bytes 8 (Z.of_nat nb) ++
  words (heads nb vals) ++ records 0 vals ++ tail.

(** The file of a store that holds [vals] and nothing else. *)
Definition image (nb : nat) (vals : list (list Z)) : list Z :=
  layout (Z.of_nat (length vals)) nb vals [].

(** Every value fits the 32-bit length field and the file an off_t. *)
Definition fits (nb : nat) (vals : list (list Z)) (tail : list Z) : Prop :=
  Forall (fun v => Z.of_nat (length v) < 2 ^ 32) vals /\
  Z.of_nat (length (layout 0 nb vals tail)) < 2 ^ 63.

(** The file and the mapping of [d] have that layout. *)
Record stored (cnt : Z) (nb : nat) (vals : list (list Z)) (tail : list Z) (d : db) : Prop := {
  stored_file : file d = layout cnt nb vals tail;
  stored_mapped : mapped d = bucket (Z.of_nat nb);
  stored_cnt : 0 <= cnt < 2 ^ 64;
  stored_nb : (0 < nb)%nat;
  stored_room : (length vals <= nb)%nat;
  stored_fits : fits nb vals tail;
}.

(** The open database [d] holds [vals] in [nb] buckets; between two operations
    the lock is free. *)
Definition holds (nb : nat) (vals : list (list Z)) (d : db) : Prop :=
  stored (Z.of_nat (length vals)) nb vals [] d /\ lock d = Unlocked.

(** ** Layout lemmas *)
Lemma length_record_bytes i v : length (record_bytes i v) = (20 + length v)%nat.
Proof.
  unfold record_bytes, record_header. rewrite !length_app, !length_le_bytes. cbn. lia.
Qed.

Lemma length_words l : length (words l) = (8 * length l)%nat.
Proof.
  unfold words. induction l as [|x l IH]; [done|].
  rewrite fmap_cons, concat_cons, length_app, IH, length_le_bytes. cbn. lia.
Qed.

Lemma words_app l k : words (l ++ k) = words l ++ words k.
Proof. unfold words. by rewrite fmap_app, concat_app. Qed.

Lemma words_split l i x : l !! i = Some x ->
  words l = words (take i l) ++ le_bytes 8 x ++ words (drop (Datatypes.S i) l) /\
  length (words (take i l)) = (8 * i)%nat.
Proof.
  intros Hi. split.
  - rewrite <- (take_drop_middle l i x Hi) at 1. by rewrite words_app.
  - rewrite length_words, length_take. apply lookup_lt_Some in Hi. lia.
Qed.

Lemma length_positions base vals : length (positions base vals) = length vals.
Proof. revert base. induction vals; intros; cbn; auto. Qed.

Lemma length_heads nb vals : (length vals <= nb)%nat -> length (heads nb vals) = nb.
Proof.
  intros. unfold heads. rewrite length_app, length_positions, length_replicate. lia.
Qed.

Lemma positions_app base vals ws :
  positions base (vals ++ ws) =
  positions base vals ++ positions (base + Z.of_nat (length (records 0 vals))) ws.
Proof.
  revert base. generalize 0%nat as i.
  induction vals as [|v vals IH]; intros i base; cbn [positions records app length].
  - by rewrite Z.add_0_r.
  - rewrite (IH (Datatypes.S i)). do 3 f_equal.
    rewrite length_app, length_record_bytes. unfold REC_HDR_SIZE. lia.
Qed.

Lemma records_app i vals ws :
  records i (vals ++ ws) = records i vals ++ records (i + length vals) ws.
Proof.
  revert i. induction vals as [|v vals IH]; intros i; cbn.
  - by rewrite Nat.add_0_r.
  - rewrite IH, <- (assoc_L (++)), <- Nat.add_succ_comm. done.
Qed.

Lemma length_records_irrel i j vals : length (records i vals) = length (records j vals).
Proof.
  revert i j. induction vals as [|v vals IH]; intros i j; cbn; [done|].
  rewrite !length_app, !length_record_bytes. by rewrite (IH _ (Datatypes.S j)).
Qed.

Lemma length_layout cnt nb vals tail : (length vals <= nb)%nat ->
  Z.of_nat (length (layout cnt nb vals tail)) =
  bucket (Z.of_nat nb) + Z.of_nat (length (records 0 vals)) + Z.of_nat (length tail).
Proof.
  intros H. unfold layout, bucket, HEADER_SIZE.
  rewrite !length_app, !length_le_bytes, length_words, length_heads by done. lia.
Qed.

Lemma length_image nb vals : (length vals <= nb)%nat ->
  Z.of_nat (length (image nb vals)) =
  bucket (Z.of_nat nb) + Z.of_nat (length (records 0 vals)).
Proof. intros H. unfold image. rewrite length_layout by done. cbn. lia. Qed.

(** Record [i] of a layout, and the offset its bucket head gives for it. *)
Lemma layout_record cnt nb vals tail i v : (length vals <= nb)%nat -> vals !! i = Some v ->
  exists pre post, layout cnt nb vals tail = pre ++ record_bytes (Z.of_nat i) v ++ post /\
    heads nb vals !! i = Some (Z.of_nat (length pre)) /\
    pre = le_bytes 8 cnt ++ le_bytes 8 (Z.of_nat nb) ++
          words (heads nb vals) ++ records 0 (take i vals) /\
    post = records (Datatypes.S i) (drop (Datatypes.S i) vals) ++ tail.
Proof.
  intros Hnb Hi.
  pose proof (take_drop_middle vals i v Hi) as Hv.
  pose proof (lookup_lt_Some _ _ _ Hi) as Hlt.
  set (pre := take i vals) in *. set (post := drop (Datatypes.S i) vals) in *.
  assert (length pre = i) as Hpre by (unfold pre; rewrite length_take; lia).
  exists (le_bytes 8 cnt ++ le_bytes 8 (Z.of_nat nb) ++
          words (heads nb vals) ++ records 0 pre), (records (Datatypes.S i) post ++ tail).
  assert (Z.of_nat (length (le_bytes 8 cnt ++ le_bytes 8 (Z.of_nat nb) ++
          words (heads nb vals) ++ records 0 pre)) =
          bucket (Z.of_nat nb) + Z.of_nat (length (records 0 pre))) as Hlen.
  { unfold bucket, HEADER_SIZE.
    rewrite !length_app, !length_le_bytes, length_words, length_heads by done. lia. }
  split_and!.
  - unfold layout. replace (records 0 vals) with (records 0 (pre ++ v :: post)) by (by rewrite Hv).
    rewrite records_app, Hpre, Nat.add_0_l.
    cbn [records]. by rewrite <- !(assoc_L (++)).
  - rewrite Hlen. unfold heads.
    rewrite lookup_app_l by (rewrite length_positions; lia).
    replace (positions (bucket (Z.of_nat nb)) vals)
      with (positions (bucket (Z.of_nat nb)) (pre ++ v :: post)) by (by rewrite Hv).
    rewrite positions_app. clearbody pre post.
    rewrite lookup_app_r. 2: { rewrite length_positions. lia. }
    rewrite length_positions, Hpre, Nat.sub_diag. done.
  - done.
  - done.
Qed.

Lemma heads_free nb vals i : (length vals <= i < nb)%nat ->
  heads nb vals !! i = Some DBID_FREE.
Proof.
  intros H. unfold heads. rewrite lookup_app_r by (rewrite length_positions; lia).
  rewrite length_positions. apply lookup_replicate. split; [done|]. lia.
Qed.

(** The word at bucket [i] of a layout. *)
Lemma layout_bucket cnt nb vals tail i x : heads nb vals !! i = Some x ->
  exists pre post, layout cnt nb vals tail = pre ++ le_bytes 8 x ++ post /\
    Z.of_nat (length pre) = bucket (Z.of_nat i).
Proof.
  intros Hi. destruct (words_split _ _ _ Hi) as [Hw Hl].
  exists (le_bytes 8 cnt ++ le_bytes 8 (Z.of_nat nb) ++ words (take i (heads nb vals))),
         (words (drop (Datatypes.S i) (heads nb vals)) ++ records 0 vals ++ tail).
  split.
  - unfold layout. rewrite Hw. by rewrite <- !(assoc_L (++)).
  - unfold bucket, HEADER_SIZE. rewrite !length_app, !length_le_bytes, Hl. lia.
Qed.

(** ** Rules of the primitives

    [clean fs]: no call of the schedule [fs] fails. *)
Definition clean (fs : list fault) : Prop := Forall (fun f => f = Fine) fs.
Definition set_sched (fs : list fault) (d : db) : db := MkDb (file d) (mapped d) (lock d) fs.

Lemma set_sched_self d : set_sched (sched d) d = d.
Proof. by destruct d. Qed.

Lemma wp_syscall Q d :
  (forall f fs, (clean (sched d) -> f = Fine /\ clean fs) -> Q f (set_sched fs d)) ->
  wp syscall Q d.
Proof.
  intros H. unfold wp, syscall. destruct (sched d) as [|f fs] eqn:E.
  - rewrite <- (set_sched_self d), E. apply H. intros _. by split; [|constructor].
  - apply H. intros Hc. inversion Hc. auto.
Qed.

Lemma wp_pread off n Q d :
  0 <= off < 2 ^ 63 ->
  (forall r fs,
     (r = None \/ exists k, r = Some (take k (slice (Z.to_nat off) n (file d)))) ->
     (clean (sched d) -> r = Some (slice (Z.to_nat off) n (file d)) /\ clean fs) ->
     Q r (set_sched fs d)) ->
  wp (pread off n) Q d.
Proof.
  intros Hoff H. unfold pread. wp_step. apply wp_syscall. intros f fs Hf. wp_steps.
  rewrite swrap_small by (pow2; lia).
  replace (off <? 0) with false by lia. cbn [set_sched file].
  apply H.
  - destruct f; cbn [fails orb short]; [right|by left|right].
    + exists n. unfold slice. by rewrite take_take, Nat.min_id.
    + eauto.
  - intros [-> Hc]%Hf. done.
Qed.

Lemma wp_pwrite off bs Q d :
  0 <= off < 2 ^ 63 -> (0 < length bs)%nat ->
  (forall n f' fs,
     (clean (sched d) -> n = Z.of_nat (length bs) /\
        f' = write_at (Z.to_nat off) bs (file d) /\ clean fs) ->
     Q n (set_sched fs (set_file f' d))) ->
  wp (pwrite off bs) Q d.
Proof.
  intros Hoff Hbs H. unfold pwrite. wp_step. apply wp_syscall. intros f fs Hf.
  rewrite swrap_small by (pow2; lia). replace (off <? 0) with false by lia.
  destruct f; cbn [fails orb short]; wp_steps.
  - destruct bs as [|b bs]; [cbn in Hbs; lia|].
    apply (H _ (write_at (Z.to_nat off) (b :: bs) (file d))). intros [_ ?]%Hf. done.
  - replace (set_sched fs d) with (set_sched fs (set_file (file d) d)) by done.
    apply H. by intros [? _]%Hf.
  - destruct (take n bs) as [|b bs'] eqn:E.
    + replace (set_sched fs d) with (set_sched fs (set_file (file d) d)) by done.
      apply H. by intros [? _]%Hf.
    + apply (H _ (write_at (Z.to_nat off) (b :: bs') (file d))). by intros [? _]%Hf.
Qed.

Lemma wp_get_file_size Q d :
  (forall n fs, n = 0 \/ n = Z.of_nat (length (file d)) ->
     (clean (sched d) -> n = Z.of_nat (length (file d)) /\ clean fs) ->
     Q n (set_sched fs d)) ->
  wp get_file_size Q d.
Proof.
  intros H. unfold get_file_size. wp_step. apply wp_syscall. intros f fs Hf. wp_steps.
  apply H; [destruct (fails f); auto|]. by intros [-> ?]%Hf.
Qed.

Lemma wp_malloc_fails Q d :
  (forall b fs, (clean (sched d) -> b = false /\ clean fs) -> Q b (set_sched fs d)) ->
  wp malloc_fails Q d.
Proof.
  intros H. unfold malloc_fails. wp_step. apply wp_syscall. intros f fs Hf. wp_steps.
  apply H. by intros [-> ?]%Hf.
Qed.

Lemma wp_live Q d : lock d <> Freed -> Q tt d -> wp live Q d.
Proof. intros Hl HQ. unfold live. wp_steps. rewrite bool_decide_false by done. by apply wp_ret. Qed.

Lemma wp_acquire k Q d :
  lock d = Unlocked ->
  (forall fs, ~ clean (sched d) -> Q true (set_sched fs d)) ->
  (forall fs, (clean (sched d) -> clean fs) -> Q false (set_lock k (set_sched fs d))) ->
  wp (rwlock_acquire k) Q d.
Proof.
  intros Hl Ht Hf. unfold rwlock_acquire. wp_step. apply wp_live; [by rewrite Hl|]. wp_step. apply wp_syscall. intros f fs Hc.
  destruct (fails f) eqn:E.
  - apply wp_ret, Ht. by intros [-> ?]%Hc.
  - wp_steps. cbn [set_sched lock]. rewrite bool_decide_true by done. wp_steps.
    apply Hf. by intros [_ ?]%Hc.
Qed.

Lemma wp_map_load off x pre post Q d :
  file d = pre ++ le_bytes 8 x ++ post -> Z.of_nat (length pre) = off ->
  off + 8 <= mapped d -> 0 <= x < 2 ^ 64 ->
  Q x d -> wp (map_load off) Q d.
Proof.
  intros Hf Hp Hm Hx HQ. unfold map_load. wp_steps.
  assert (in_map off d = true) as ->.
  { unfold in_map. rewrite Hf, !length_app, length_le_bytes.
    rewrite !andb_true_iff, !Z.leb_le. lia. }
  apply wp_ret. rewrite Hf, <- Hp, Nat2Z.id, slice_app_mid by (by rewrite length_le_bytes).
  by rewrite le_val_bytes.
Qed.

Lemma wp_map_store off x w pre post Q d :
  file d = pre ++ w ++ post -> length w = 8%nat -> Z.of_nat (length pre) = off ->
  off + 8 <= mapped d ->
  Q tt (set_file (pre ++ le_bytes 8 x ++ post) d) -> wp (map_store off x) Q d.
Proof.
  intros Hf Hw Hp Hm HQ. unfold map_store. wp_steps.
  assert (in_map off d = true) as ->.
  { unfold in_map. rewrite Hf, !length_app, Hw.
    rewrite !andb_true_iff, !Z.leb_le. lia. }
  wp_steps. rewrite Hf, <- Hp, Nat2Z.id, write_at_app_mid; [done|].
  by rewrite length_le_bytes, Hw.
Qed.

Lemma wp_umod a b Q d : b <> 0 -> Q (a mod b) d -> wp (umod a b) Q d.
Proof. intros Hb HQ. unfold umod. by rewrite (proj2 (Z.eqb_neq b 0)). Qed.

Lemma read_record_header r rest :
  0 <= rec_vlen r < 2 ^ 32 -> 0 <= rec_id r < 2 ^ 64 -> 0 <= rec_next r < 2 ^ 64 ->
  read_record (record_header r ++ rest) = MkRecord (rec_vlen r) (rec_id r) (rec_next r) 0 [].
Proof.
  intros H1 H2 H3. unfold read_record, record_header. rewrite <- !(assoc_L (++)).
  assert (forall n x l, slice 0 n (le_bytes n x ++ l) = le_bytes n x) as E0.
  { intros. apply (slice_app_mid [] (le_bytes n x) l). by rewrite length_le_bytes. }
  rewrite E0.
  rewrite (slice_app_mid (le_bytes 4 _) (le_bytes 8 _)) by (by rewrite length_le_bytes).
  rewrite (assoc_L (++) (le_bytes 4 _)).
  rewrite (slice_app_mid (le_bytes 4 _ ++ le_bytes 8 _) (le_bytes 8 _))
    by (by rewrite length_le_bytes).
  by rewrite !le_val_bytes.
Qed.

(** ** db_get *)

(** What a read-only fragment may do to the database: consume outcomes. *)
Definition only_sched (d d' : db) : Prop := d' = set_sched (sched d') d.

(** The answer of a search that finds [o] when every call succeeds: a failing
    call can only turn the answer into "not found". *)
Definition finds (o : option (list Z)) (d : db) (r : option (list Z)) (d' : db) : Prop :=
  only_sched d d' /\ (r = None \/ r = o) /\
  (clean (sched d) -> r = o /\ clean (sched d')).

Lemma finds_none o d fs : (clean (sched d) -> o = None /\ clean fs) ->
  finds o d None (set_sched fs d).
Proof. intros Hc. split; [done|]. split; [by left|]. intros [-> ?]%Hc. done. Qed.

Lemma finds_fault o d fs : ~ clean (sched d) -> finds o d None (set_sched fs d).
Proof. intros Hc. by apply finds_none. Qed.

(** A record in the file: [pre] precedes it. *)
Definition record_at (d : db) (pre : list Z) (i : Z) (v : list Z) : Prop :=
  exists post, file d = pre ++ record_bytes i v ++ post.

Lemma record_at_header d pre i v : record_at d pre i v ->
  slice (length pre) 20 (file d) =
  record_header (MkRecord (Z.of_nat (length v)) i DBID_FREE 0 []).
Proof.
  intros [post ->]. unfold record_bytes. rewrite <- (assoc_L (++)).
  apply slice_app_mid. reflexivity.
Qed.

Lemma record_at_value d pre i v : record_at d pre i v ->
  slice (length pre + 20) (length v) (file d) = v.
Proof.
  intros [post ->]. unfold record_bytes.
  replace (length pre + 20)%nat with
    (length (pre ++ record_header (MkRecord (Z.of_nat (length v)) i DBID_FREE 0 [])))
    by by rewrite length_app.
  rewrite <- (assoc_L (++)), (assoc_L (++) pre). by apply slice_app_mid.
Qed.

Lemma find_record_wp d pre i v fuel key :
  record_at d pre i v -> 0 <= i < 2 ^ 64 -> Z.of_nat (length v) < 2 ^ 32 ->
  Z.of_nat (length pre) + 20 < 2 ^ 63 ->
  wp (find_record (Datatypes.S fuel) key (Z.of_nat (length pre)))
     (finds (if i =? key then Some v else None) d) d.
Proof.
  intros Hrec Hi Hv Hpre. unfold find_record. apply wp_loop. wp_step.
  apply wp_pread; [lia|]. intros r fs Hr Hc. rewrite Nat2Z.id in Hr, Hc.
  change (Z.to_nat REC_HDR_SIZE) with 20%nat in Hr, Hc.
  rewrite (record_at_header _ _ _ _ Hrec) in Hr, Hc.
  destruct r as [bs|]; [|apply wp_ret, finds_fault; by intros [? _]%Hc].
  destruct (Z.of_nat (length bs) =? REC_HDR_SIZE) eqn:E; cbn [negb].
  2: { apply wp_ret, finds_fault. by intros [[= ->] _]%Hc. }
  assert (bs = record_header (MkRecord (Z.of_nat (length v)) i DBID_FREE 0 [])) as ->.
  { destruct Hr as [?|[k [= Hk]]]; [done|]. rewrite Hk in E |- *.
    apply take_ge. rewrite length_take in E. unfold REC_HDR_SIZE in E.
    change (length (record_header _)) with 20%nat in E |- *. apply Z.eqb_eq in E. lia. }
  rewrite <- (app_nil_r (record_header _)).
  rewrite read_record_header; cbn [rec_vlen rec_id rec_next]; [|lia|done|by vm_compute].
  destruct (i =? key) eqn:Ek; [|rewrite Z.eqb_refl; apply wp_ret, finds_none; by intros [_ ?]%Hc].
  wp_step. apply wp_malloc_fails. intros nomem fs' Hm. cbn [set_sched sched] in Hm.
  destruct nomem; [by apply wp_ret, (finds_fault _ d fs'); intros [_ [? _]%Hm]%Hc|].
  wp_step. unfold REC_HDR_SIZE.
  rewrite (wrap_small 64) by (pow2; lia). apply wp_pread; [lia|].
  intros r fs'' Hr' Hc'. cbn [set_sched file sched] in Hr', Hc'.
  replace (Z.to_nat (Z.of_nat (length pre) + 20)) with (length pre + 20)%nat in Hr', Hc' by lia.
  rewrite Nat2Z.id, (record_at_value _ _ _ _ Hrec) in Hr', Hc'.
  apply wp_ret. split; [done|]. split.
  - destruct Hr' as [->|[k ->]]; [by left|]. cbn.
    destruct (Z.of_nat (length (take k v)) =? Z.of_nat (length v)) eqn:El; [|by left].
    right. cbn. f_equal. apply take_ge. apply Z.eqb_eq in El. rewrite length_take in El. lia.
  - intros [_ [_ [-> ?]%Hc']%Hm]%Hc. cbn. by rewrite Z.eqb_refl.
Qed.

Section stored.
Context (cnt : Z) (nb : nat) (vals : list (list Z)) (tail : list Z) (d : db).
Context (H : stored cnt nb vals tail d).

Lemma stored_nb_Z : 0 < Z.of_nat nb < 2 ^ 60.
Proof.
  destruct H as [? ? ? Hnb Hr [_ Hf]]. rewrite length_layout in Hf by done.
  unfold bucket, HEADER_SIZE in Hf. pow2. lia.
Qed.

Lemma stored_header : file d = le_bytes 8 cnt ++
  le_bytes 8 (Z.of_nat nb) ++ (words (heads nb vals) ++ records 0 vals ++ tail).
Proof. exact (stored_file _ _ _ _ _ H). Qed.

Lemma stored_size : Z.of_nat (length (file d)) < 2 ^ 63.
Proof.
  rewrite (stored_file _ _ _ _ _ H), length_layout by apply H.
  destruct H as [? ? ? ? Hr [_ Hf]]. by rewrite length_layout in Hf.
Qed.

Lemma stored_load_nb Q : Q (Z.of_nat nb) d -> wp (map_load 8) Q d.
Proof.
  eapply (wp_map_load _ _ (le_bytes 8 cnt)); [exact stored_header|..].
  - by rewrite length_le_bytes.
  - rewrite (stored_mapped _ _ _ _ _ H). pose proof stored_nb_Z. unfold bucket, HEADER_SIZE. lia.
  - pose proof stored_nb_Z. pow2. lia.
Qed.

(** The record in bucket [i] when the bucket is not free. *)
Lemma stored_record i v : vals !! i = Some v ->
  exists pre, record_at d pre (Z.of_nat i) v /\
    heads nb vals !! i = Some (Z.of_nat (length pre)) /\
    Z.of_nat (length pre) + 20 < 2 ^ 63 /\ Z.of_nat (length v) < 2 ^ 32.
Proof.
  intros Hi.
  pose proof stored_size as Hs. destruct H as [Hf _ _ _ Hr [Hv _]].
  destruct (layout_record cnt nb vals tail i v Hr Hi) as (pre & post & E & Hp & _).
  exists pre. split_and!.
  - exists post. by rewrite Hf.
  - done.
  - rewrite Hf, E in Hs. rewrite !length_app, length_record_bytes in Hs. lia.
  - rewrite Forall_lookup in Hv. by eapply Hv.
Qed.

Lemma stored_head i : (i < nb)%nat -> exists x, heads nb vals !! i = Some x /\ 0 <= x < 2 ^ 64.
Proof.
  intros Hi. destruct (decide (i < length vals)%nat) as [Hl|Hl].
  - destruct (lookup_lt_is_Some_2 _ _ Hl) as [v Hv].
    destruct (stored_record _ _ Hv) as (pre & _ & ? & ? & _). eexists. split; [done|].
    pow2. lia.
  - exists DBID_FREE. split; [apply heads_free; lia|by vm_compute].
Qed.

Lemma stored_load_bucket i x Q : (i < nb)%nat -> heads nb vals !! i = Some x ->
  Q x d -> wp (map_load (bucket (Z.of_nat i))) Q d.
Proof.
  intros Hi Hx HQ. destruct (layout_bucket cnt _ _ tail _ _ Hx) as (pre & post & E & Hp).
  eapply wp_map_load; [by rewrite (stored_file _ _ _ _ _ H)|done| |..|done].
  - rewrite (stored_mapped _ _ _ _ _ H). unfold bucket, HEADER_SIZE. lia.
  - destruct (stored_head i Hi) as (y & Hy & ?). congruence.
Qed.
End stored.


Lemma stored_ext cnt nb vals tail d d' : file d' = file d -> mapped d' = mapped d ->
  stored cnt nb vals tail d -> stored cnt nb vals tail d'.
Proof. intros Hf Hm []. by split; rewrite ?Hf, ?Hm. Qed.

(** Under a held lock [d1], what [find_record] and the free-bucket test answer
    is the value whose index is the key. *)
Lemma bucket_lookup_wp cnt nb vals tail d key i off fuel :
  stored cnt nb vals tail d -> 0 <= key -> key mod Z.of_nat nb = Z.of_nat i ->
  heads nb vals !! i = Some off ->
  wp (if off =? DBID_FREE then mret None else find_record (Datatypes.S fuel) key off)
     (finds (vals !! Z.to_nat key) d) d.
Proof.
  intros H Hkey Hi Hoff.
  pose proof (stored_nb_Z _ _ _ _ _ H) as Hnb. pose proof (stored_room _ _ _ _ _ H) as Hroom.
  assert (i < nb)%nat as Hin.
  { pose proof (Z.mod_pos_bound key (Z.of_nat nb) ltac:(lia)). lia. }
  assert (key = Z.of_nat i \/ Z.of_nat nb <= key) as Hcases.
  { destruct (decide (key < Z.of_nat nb)); [|by right; lia].
    rewrite Z.mod_small in Hi by lia. by left. }
  destruct (decide (i < length vals)%nat) as [Hl|Hl].
  - destruct (lookup_lt_is_Some_2 _ _ Hl) as [v Hv].
    destruct (stored_record _ _ _ _ _ H _ _ Hv) as (pre & Hrec & Hp & Hlen & Hvl).
    rewrite Hp in Hoff. injection Hoff as <-.
    replace (Z.of_nat (length pre) =? DBID_FREE) with false
      by (unfold DBID_FREE; pow2; lia).
    assert (vals !! Z.to_nat key = if Z.of_nat i =? key then Some v else None) as ->.
    { destruct (Z.eqb_spec (Z.of_nat i) key) as [<-|Hne]; [by rewrite Nat2Z.id|].
      apply lookup_ge_None_2. lia. }
    apply find_record_wp; [done| |done|done]. pow2. lia.
  - rewrite (heads_free nb vals i) in Hoff by lia. injection Hoff as <-.
    rewrite Z.eqb_refl. rewrite lookup_ge_None_2 by lia. apply wp_ret.
    rewrite <- (set_sched_self d) at 2. by apply finds_none.
Qed.

Lemma db_get_wp cnt nb vals tail d fuel key :
  stored cnt nb vals tail d -> lock d = Unlocked -> 0 <= key ->
  wp (db_get (Datatypes.S fuel) key) (finds (vals !! Z.to_nat key) d) d.
Proof.
  intros H Hlock Hkey.
  unfold db_get. wp_step. apply wp_acquire; [done|..].
  { intros fs Hc. by apply wp_ret, finds_fault. }
  intros fs Hc. set (d1 := set_lock RdLocked (set_sched fs d)).
  assert (stored cnt nb vals tail d1) as H1 by by apply (stored_ext _ _ _ _ d).
  pose proof (stored_nb_Z _ _ _ _ _ H) as Hnb.
  wp_step. apply (stored_load_nb _ _ _ _ _ H1).
  wp_step. apply wp_umod; [lia|].
  pose proof (Z.mod_pos_bound key (Z.of_nat nb) ltac:(lia)) as Hmod.
  destruct (stored_head _ _ _ _ _ H1 (Z.to_nat (key mod Z.of_nat nb))) as (off & Hoff & _); [lia|].
  wp_step. rewrite <- (Z2Nat.id (key mod Z.of_nat nb)) by lia.
  apply (stored_load_bucket _ _ _ _ _ H1 _ off); [lia|done|].
  wp_step. eapply wp_mono.
  { apply (bucket_lookup_wp cnt nb vals tail d1 key (Z.to_nat (key mod Z.of_nat nb)) off fuel H1 Hkey); [|done]. lia. }
  intros r d2 (Hd2 & Hr & Hq). wp_steps.
  split; [|split; [done|]].
  - unfold only_sched. rewrite Hd2. destruct d. cbn in Hlock. by subst.
  - by intros [-> ?]%Hc%Hq.
Qed.

(** ** db_insert *)

(** The image with the last value taken apart: what an insertion has to add. *)
Lemma heads_room nb vals : (length vals < nb)%nat ->
  heads nb vals = positions (bucket (Z.of_nat nb)) vals ++
                  DBID_FREE :: replicate (nb - Datatypes.S (length vals)) DBID_FREE.
Proof.
  intros H. unfold heads. f_equal.
  by replace (nb - length vals)%nat with (Datatypes.S (nb - Datatypes.S (length vals))) by lia.
Qed.

Lemma image_room nb vals : (length vals < nb)%nat ->
  image nb vals =
  (le_bytes 8 (Z.of_nat (length vals)) ++ le_bytes 8 (Z.of_nat nb) ++
   words (positions (bucket (Z.of_nat nb)) vals)) ++ le_bytes 8 DBID_FREE ++
  (words (replicate (nb - Datatypes.S (length vals)) DBID_FREE) ++ records 0 vals).
Proof.
  intros H. unfold image, layout. rewrite heads_room by done. rewrite words_app, app_nil_r.
  change (words (?x :: ?l)) with (le_bytes 8 x ++ words l).
  by rewrite <- !(assoc_L (++)).
Qed.

Lemma image_snoc nb vals v : (length vals < nb)%nat ->
  image nb (vals ++ [v]) =
  (le_bytes 8 (Z.of_nat (length vals) + 1) ++ le_bytes 8 (Z.of_nat nb) ++
   words (positions (bucket (Z.of_nat nb)) vals)) ++
  le_bytes 8 (bucket (Z.of_nat nb) + Z.of_nat (length (records 0 vals))) ++
  (words (replicate (nb - Datatypes.S (length vals)) DBID_FREE) ++ records 0 vals) ++
  record_bytes (Z.of_nat (length vals)) v.
Proof.
  intros H. unfold image, layout, heads. rewrite positions_app, records_app, !length_app.
  cbn [length positions records]. rewrite Nat.add_1_r, Nat2Z.inj_succ, <- Z.add_1_r.
  rewrite !words_app, !app_nil_r, Nat.add_0_l.
  change (words [?x]) with (le_bytes 8 x ++ []). rewrite app_nil_r.
  by rewrite <- !(assoc_L (++)).
Qed.

(** What an insertion does when its bucket is free: whatever the calls answer
    it returns OK or ERR with the lock released, and if they all succeed the
    store has grown by the value. *)
Definition appends (nb : nat) (vals : list (list Z)) (v : list Z) (d : db)
    (r : Z * option Z) (d' : db) : Prop :=
  lock d' = Unlocked /\ mapped d' = mapped d /\ (fst r = OK \/ fst r = ERR) /\
  (clean (sched d) ->
     r = (OK, Some (Z.of_nat (length vals))) /\ holds nb (vals ++ [v]) d' /\ clean (sched d')).

Lemma write_record_wp r Q d :
  0 <= rec_offset r < 2 ^ 63 -> 0 <= rec_vlen r <= Z.of_nat (length (rec_val r)) ->
  (forall c f' fs, c = OK \/ c = ERR ->
     (clean (sched d) -> c = OK /\ clean fs /\
        f' = write_at (Z.to_nat (rec_offset r))
               (record_header r ++ take (Z.to_nat (rec_vlen r)) (rec_val r)) (file d)) ->
     Q c (set_sched fs (set_file f' d))) ->
  wp (write_record r) Q d.
Proof.
  intros Hoff Hlen H. unfold write_record. wp_step. apply wp_malloc_fails.
  intros nomem fs Hm. destruct nomem.
  { apply wp_ret. apply (H ERR (file d) fs); [by right|]. by intros [? _]%Hm. }
  replace (Z.of_nat (length (rec_val r)) <? rec_vlen r) with false by lia.
  wp_step. apply wp_pwrite; [done| |].
  { rewrite length_app. change (length (record_header r)) with 20%nat. lia. }
  intros n f' fs' Hw. wp_steps. cbn [set_sched sched file] in Hw.
  apply (H _ f' fs'); [destruct (n <? 0); auto|].
  intros [_ (-> & -> & ?)%Hw]%Hm. split_and!; [|done..].
  by replace (Z.of_nat _ <? 0) with false by lia.
Qed.

(** [next_slot] bumps the id in the header and leaves the rest of the file. *)
Lemma next_slot_wp cnt nb vals tail Q d :
  stored cnt nb vals tail d ->
  (forall pos fs rest,
     file d = le_bytes 8 cnt ++ rest ->
     pos = 0 \/ pos = Z.of_nat (length (file d)) ->
     (clean (sched d) -> pos = Z.of_nat (length (file d)) /\ clean fs) ->
     Q (cnt, cnt mod Z.of_nat nb, pos)
       (set_sched fs (set_file (le_bytes 8 (u64 (cnt + 1)) ++ rest) d))) ->
  wp next_slot Q d.
Proof.
  intros H HQ. pose proof (stored_nb_Z _ _ _ _ _ H) as Hnb. pose proof (stored_room _ _ _ _ _ H).
  pose proof (stored_header _ _ _ _ _ H) as Hfile.
  pose proof (stored_mapped _ _ _ _ _ H) as Hmap. unfold bucket, HEADER_SIZE in Hmap.
  unfold next_slot. wp_step.
  eapply (wp_map_load _ _ []); [exact Hfile|done|lia|apply H|].
  wp_step. eapply (wp_map_store _ _ _ []); [exact Hfile|apply length_le_bytes|done|lia|].
  cbn [app].
  wp_step. eapply (wp_map_load _ _ (le_bytes 8 _));
    [done|by rewrite length_le_bytes|cbn; lia|pow2; lia|].
  wp_step. apply wp_umod; [lia|]. wp_step. apply wp_get_file_size.
  intros pos fs Hpos Hc. apply wp_ret. apply HQ; [done|..]; rewrite Hfile;
    cbn [set_file file] in Hpos, Hc; rewrite length_app, length_le_bytes in Hpos, Hc;
    by rewrite length_app, length_le_bytes.
Qed.

Lemma link_entry_free_wp fuel i pos pre post Q d :
  file d = pre ++ le_bytes 8 DBID_FREE ++ post -> Z.of_nat (length pre) = bucket i ->
  bucket i + 8 <= mapped d ->
  Q OK (set_file (pre ++ le_bytes 8 pos ++ post) d) -> wp (link_entry fuel i pos) Q d.
Proof.
  intros Hf Hp Hm HQ. unfold link_entry. wp_step.
  eapply wp_map_load; [exact Hf|done|done|by vm_compute|]. rewrite Z.eqb_refl.
  wp_step. eapply wp_map_store; [exact Hf|apply length_le_bytes|done|done|].
  by apply wp_ret.
Qed.

Lemma db_insert_wp nb vals data len v d fuel :
  holds nb vals d -> (length vals < nb)%nat ->
  v = take (Z.to_nat len) data -> len = Z.of_nat (length v) -> fits nb (vals ++ [v]) [] ->
  wp (db_insert fuel data len) (appends nb vals v d) d.
Proof.
  intros [H Hlock] Hroom Hv -> Hfits.
  pose proof (stored_nb_Z _ _ _ _ _ H) as Hnb. pose proof (stored_size _ _ _ _ _ H) as Hsize.
 
  pose proof (stored_file _ _ _ _ _ H) as Hfile. pose proof (stored_mapped _ _ _ _ _ H) as Hmap.
  rewrite Nat2Z.id in Hv.
  assert (length v <= length data)%nat as Hdata by (rewrite Hv, length_take; lia).
  unfold db_insert. wp_step. apply wp_acquire; [done|..].
  { intros fs Hc. apply wp_ret. by split_and!; [..|by right|]. }
  intros fs Hc. set (d1 := set_lock WrLocked (set_sched fs d)).
  wp_step. apply (next_slot_wp (Z.of_nat (length vals)) nb vals []); [by apply (stored_ext _ _ _ _ d)|].
  intros pos fs1 rest Hrest Hpos Hc1. cbn [d1 set_lock set_sched set_file file sched] in *.
  change (layout _ _ _ _) with (image nb vals) in Hfile.
  rewrite Hfile, image_room, <- !(assoc_L (++)) in Hrest by done. apply app_inv_head in Hrest.
  subst rest. rewrite Z.mod_small, wrap_small by (pow2; lia). rewrite Hfile in Hpos, Hc1.
  set (pre := le_bytes 8 (Z.of_nat (length vals) + 1) ++ le_bytes 8 (Z.of_nat nb) ++
                words (positions (bucket (Z.of_nat nb)) vals)).
  wp_step. apply (link_entry_free_wp _ _ _ pre
    (words (replicate (nb - Datatypes.S (length vals)) DBID_FREE) ++ records 0 vals)).
  { cbn [set_file set_sched file]. unfold pre. by rewrite <- !(assoc_L (++)). }
  { unfold pre, bucket, HEADER_SIZE.
    rewrite !length_app, !length_le_bytes, length_words, length_positions. lia. }
  { cbn. rewrite Hmap. unfold bucket, HEADER_SIZE. lia. }
  cbn [Z.eqb OK]. wp_step. rewrite Hfile in Hsize.
  apply write_record_wp; cbn [rec_offset rec_vlen rec_val]; [lia|lia|].
  intros c f' fs2 Hc2 Hw. wp_steps.
  split_and!; [done|done|by destruct Hc2 as [-> | ->]; auto|].
  intros [-> (-> & ? & ->)%Hw]%Hc%Hc1. split_and!; [done| |done]. split; [|done].
  cbn [rec_offset rec_vlen rec_val]. rewrite !Nat2Z.id, <- Hv.
  split; [|done|rewrite length_app; cbn; pow2; lia|apply H|rewrite length_app; cbn; lia|done].
  cbn [set_sched set_file set_lock file].
  change (layout _ _ _ _) with (image nb (vals ++ [v])).
  rewrite image_snoc, <- length_image by lia. fold pre.
  rewrite <- !(assoc_L (++) _ _ (record_bytes _ _)), !(assoc_L (++) _ _ (record_bytes _ _)).
  replace (length (image nb vals)) with (length (pre ++
    le_bytes 8 (Z.of_nat (length (image nb vals))) ++
    words (replicate (nb - Datatypes.S (length vals)) DBID_FREE) ++ records 0 vals)) at 1.
  { rewrite write_at_end. by rewrite <- !(assoc_L (++)). }
  rewrite image_room by done. unfold pre. by rewrite !length_app, !length_le_bytes.
Qed.

(** *** A length beyond the bytes there are *)
Lemma stuck_bind {A B} (m : cmd db A) (k : A -> cmd db B) d :
  wp m (fun a d' => k a d' = Stuck) d -> (m ≫= k) d = Stuck.
Proof. unfold wp, mbind, cmd_bind. by destruct (m d) as [[a d']| | | |]. Qed.

Lemma bind_stuck {A B} (m : cmd db A) (k : A -> cmd db B) d :
  m d = Stuck -> (m ≫= k) d = Stuck.
Proof. unfold mbind, cmd_bind. by intros ->. Qed.

(** When nothing fails, db_insert reads past the end of its data: write_record
    copies [len] bytes. *)
Lemma db_insert_overreads nb vals data len d fuel :
  holds nb vals d -> clean (sched d) -> (length vals < nb)%nat ->
  Z.of_nat (length data) < len -> db_insert fuel data len d = Stuck.
Proof.
  intros [H Hlock] Hclean Hroom Hlen.
  pose proof (stored_nb_Z _ _ _ _ _ H) as Hnb.
  pose proof (stored_file _ _ _ _ _ H) as Hfile. pose proof (stored_mapped _ _ _ _ _ H) as Hmap.
  unfold db_insert. apply stuck_bind, wp_acquire; [done|by intros ? []|]. intros fs Hc. cbn iota.
  set (d1 := set_lock WrLocked (set_sched fs d)).
  apply stuck_bind, (next_slot_wp (Z.of_nat (length vals)) nb vals []); [by apply (stored_ext _ _ _ _ d)|].
  intros pos fs1 rest Hrest _ Hc1. cbn [d1 set_lock set_sched set_file file sched] in *.
  change (layout _ _ _ _) with (image nb vals) in Hfile.
  rewrite Hfile, image_room, <- !(assoc_L (++)) in Hrest by done. apply app_inv_head in Hrest.
  subst rest. rewrite Z.mod_small, wrap_small by (pow2; lia).
  apply stuck_bind, (link_entry_free_wp _ _ _ (le_bytes 8 (Z.of_nat (length vals) + 1) ++
      le_bytes 8 (Z.of_nat nb) ++ words (positions (bucket (Z.of_nat nb)) vals))
    (words (replicate (nb - Datatypes.S (length vals)) DBID_FREE) ++ records 0 vals)).
  { cbn [set_file set_sched file]. by rewrite <- !(assoc_L (++)). }
  { unfold bucket, HEADER_SIZE. rewrite !length_app, !length_le_bytes, length_words, length_positions. lia. }
  { cbn. rewrite Hmap. unfold bucket, HEADER_SIZE. lia. }
  cbn [Z.eqb OK]. apply bind_stuck. unfold write_record.
  apply stuck_bind, wp_malloc_fails. intros nomem fs2 Hm. cbn [set_file set_sched sched] in Hm.
  destruct Hm as [-> _]; [by apply Hc1, Hc|]. cbn [rec_val rec_vlen].
  by replace (Z.of_nat (length data) <? len) with true by zlia.
Qed.

(** *** Insertion into a bucket that is taken

    The walk finds the last record; what is then written at its offset 20 is
    not its [next] field but the first eight bytes of its value. *)
Definition clobber (pos : Z) (v : list Z) : list Z := le_bytes 8 pos ++ drop 8 v.

Lemma length_clobber pos v : (8 <= length v)%nat -> length (clobber pos v) = length v.
Proof. intros. unfold clobber. rewrite length_app, length_le_bytes, length_drop. lia. Qed.

Lemma positions_insert base vals i v v' : vals !! i = Some v -> length v' = length v ->
  positions base (<[i:=v']> vals) = positions base vals.
Proof.
  revert base i. induction vals as [|w vals IH]; intros base [|i]; cbn; try done.
  - intros [= ->] ->. done.
  - intros Hi Hl. f_equal. by apply IH.
Qed.

Lemma heads_insert nb vals i v v' : vals !! i = Some v -> length v' = length v ->
  heads nb (<[i:=v']> vals) = heads nb vals.
Proof. intros. unfold heads. by rewrite length_insert, (positions_insert _ _ _ v). Qed.

Lemma layout_clobber cnt nb vals tail i v pos : (length vals <= nb)%nat ->
  vals !! i = Some v -> (8 <= length v)%nat ->
  exists off, heads nb vals !! i = Some (Z.of_nat off) /\
    slice off 20 (layout cnt nb vals tail) =
      record_header (MkRecord (Z.of_nat (length v)) (Z.of_nat i) DBID_FREE 0 []) /\
    write_at (off + 20) (le_bytes 8 pos) (layout cnt nb vals tail) =
      layout cnt nb (<[i:=clobber pos v]> vals) tail.
Proof.
  intros Hnb Hi Hv. pose proof (lookup_lt_Some _ _ _ Hi) as Hlt.
  destruct (layout_record cnt nb vals tail i v Hnb Hi) as (pre & post & E & Hh & Hpre & Hpost).
  destruct (layout_record cnt nb (<[i:=clobber pos v]> vals) tail i (clobber pos v))
    as (pre' & post' & E' & _ & Hpre' & Hpost').
  { by rewrite length_insert. } { by apply list_lookup_insert_eq. }
  rewrite (heads_insert _ _ _ v), take_insert_ge in Hpre' by (try apply length_clobber; done || lia).
  rewrite drop_insert_lt in Hpost' by lia.
  assert (pre' = pre) as -> by congruence. assert (post' = post) as -> by congruence.
  exists (length pre). rewrite E, E'. unfold record_bytes.
  rewrite length_clobber, <- !(assoc_L (++)) by done.
  split_and!; [done|by apply slice_app_mid|].
  set (hdr := record_header _).
  replace (length pre + 20)%nat with (length (pre ++ hdr)) by by rewrite length_app.
  unfold clobber. rewrite <- (take_drop 8 v) at 1.
  rewrite <- !(assoc_L (++)), !(assoc_L (++) pre hdr). apply write_at_app_mid.
  rewrite length_le_bytes, length_take. lia.
Qed.

Lemma link_entry_taken_wp cnt nb vals tail i v fuel pos Q d :
  file d = layout cnt nb vals tail -> stored cnt nb vals tail d -> clean (sched d) ->
  vals !! i = Some v -> (8 <= length v)%nat ->
  (forall fs, clean fs -> Q OK (set_sched fs
     (set_file (layout cnt nb (<[i:=clobber pos v]> vals) tail) d))) ->
  wp (link_entry (Datatypes.S fuel) (Z.of_nat i) pos) Q d.
Proof.
  intros Hf H Hc Hi Hv HQ. pose proof (stored_room _ _ _ _ _ H) as Hroom.
  pose proof (lookup_lt_Some _ _ _ Hi) as Hlt.
  destruct (layout_clobber cnt nb vals tail i v pos Hroom Hi Hv) as (off & Hh & Hs & Hw).
  assert (Z.of_nat off + 28 <= Z.of_nat (length (file d)) < 2 ^ 63) as Hoff.
  { destruct (stored_record _ _ _ _ _ H _ _ Hi) as (pre & [post E] & Hp & _).
    rewrite Hh in Hp. injection Hp as Hp%Nat2Z.inj. subst off.
    split; [|eapply stored_size, H]. rewrite E, !length_app, length_record_bytes. lia. }
  unfold link_entry. wp_step. apply (stored_load_bucket _ _ _ _ _ H _ (Z.of_nat off)); [lia|done|].
  replace (Z.of_nat off =? DBID_FREE) with false by (unfold DBID_FREE; pow2; lia).
  wp_step. unfold last_link. apply wp_loop. wp_step. apply wp_pread; [lia|].
  intros r fs _ Hr. destruct (Hr Hc) as [-> Hc']. rewrite Nat2Z.id, Hf. clear Hr.
  change (Z.to_nat REC_HDR_SIZE) with 20%nat. rewrite Hs.
  change (negb (Z.of_nat (length (record_header _)) =? REC_HDR_SIZE)) with false. cbn beta iota.
  rewrite <- (app_nil_r (record_header _)), read_record_header;
    cbn [rec_vlen rec_id rec_next]; [|..|by vm_compute].
  2: { destruct (stored_record _ _ _ _ _ H _ _ Hi) as (? & _ & _ & _ & ?). lia. }
  2: { pose proof (stored_nb_Z _ _ _ _ _ H). pow2. lia. }
  rewrite Z.eqb_refl. cbn [negb]. wp_steps. unfold OFFSET_OF_OFFSET.
  rewrite (wrap_small 64) by (pow2; lia).
  apply wp_pwrite; [lia|rewrite length_le_bytes; lia|].
  intros n f' fs' Hw'. destruct (Hw' Hc') as (-> & -> & Hc''). cbn [set_sched file].
  rewrite length_le_bytes. apply wp_ret. rewrite Hf.
  replace (Z.to_nat (Z.of_nat off + 20)) with (off + 20)%nat by lia. rewrite Hw.
  by apply HQ.
Qed.

Lemma length_records_insert j vals i v v' : vals !! i = Some v -> length v' = length v ->
  length (records j (<[i:=v']> vals)) = length (records j vals).
Proof.
  revert i j. induction vals as [|w vals IH]; intros [|i] j; cbn [records insert list_insert];
    try done; rewrite !length_app, !length_record_bytes.
  - intros [= ->] ->. done.
  - intros Hi Hl. rewrite (IH i); done.
Qed.

Lemma fits_clobber nb vals tail i v pos : (length vals <= nb)%nat ->
  vals !! i = Some v -> (8 <= length v)%nat -> fits nb vals tail ->
  fits nb (<[i:=clobber pos v]> vals) tail.
Proof.
  intros Hnb Hi Hv [Hf Hs]. split.
  - apply Forall_insert; [done|]. rewrite length_clobber by done.
    rewrite Forall_lookup in Hf. by eapply Hf.
  - rewrite length_layout in Hs |- * by (by rewrite ?length_insert).
    by rewrite (length_records_insert _ _ _ v) by (try apply length_clobber; done).
Qed.

Lemma layout_tail cnt nb vals tail x : layout cnt nb vals (tail ++ x) = layout cnt nb vals tail ++ x.
Proof. unfold layout. by rewrite <- !(assoc_L (++)). Qed.

Lemma db_insert_taken_wp cnt nb vals tail i v data len w d fuel :
  stored cnt nb vals tail d -> lock d = Unlocked -> clean (sched d) ->
  cnt mod Z.of_nat nb = Z.of_nat i -> vals !! i = Some v -> (8 <= length v)%nat ->
  w = take (Z.to_nat len) data -> len = Z.of_nat (length w) ->
  fits nb vals (tail ++ record_bytes cnt w) ->
  wp (db_insert (Datatypes.S fuel) data len) (fun r d' =>
      r = (OK, Some cnt) /\ lock d' = Unlocked /\ clean (sched d') /\
      stored (u64 (cnt + 1)) nb (<[i:=clobber (Z.of_nat (length (file d))) v]> vals)
             (tail ++ record_bytes cnt w) d') d.
Proof.
  intros H Hlock Hcl Hcnt Hi Hv Hw -> Hfits.
  pose proof (stored_size _ _ _ _ _ H) as Hsize. pose proof (stored_file _ _ _ _ _ H) as Hfile.
  rewrite Nat2Z.id in Hw.
  assert (length w <= length data)%nat as Hdata by (rewrite Hw, length_take; lia).
  unfold db_insert. wp_step. apply wp_acquire; [done|by intros|].
  intros fs Hc. specialize (Hc Hcl). set (d1 := set_lock WrLocked (set_sched fs d)).
  wp_step. apply (next_slot_wp cnt nb vals tail); [by apply (stored_ext _ _ _ _ d)|].
  intros pos fs1 rest Hrest _ Hc1. destruct (Hc1 Hc) as [-> Hc1']. clear Hc1.
  cbn [d1 set_lock set_sched set_file file sched] in *.
  rewrite Hfile in Hrest. unfold layout in Hrest. apply app_inv_head in Hrest. subst rest.
  rewrite Hcnt. set (d2 := set_sched fs1 _).
  assert (stored (u64 (cnt + 1)) nb vals tail d2) as H2.
  { split; [done|apply H|apply wrap_bound; lia|apply H..]. }
  wp_step. apply (link_entry_taken_wp (u64 (cnt + 1)) nb vals tail i v); [done..|].
  intros fs2 Hc2. cbn [Z.eqb OK]. wp_step.
  apply write_record_wp; cbn [rec_offset rec_vlen rec_val]; [lia|lia|].
  intros c f' fs3 _ Hf'. destruct (Hf' Hc2) as (-> & Hc3 & ->). wp_steps.
  rewrite !Nat2Z.id, <- Hw. cbn [d2 set_sched set_file file].
  split_and!; [done..|]. split; cbn [set_sched set_file set_lock file mapped].
  - assert (length (file d) = length (layout (u64 (cnt + 1)) nb
      (<[i:=clobber (Z.of_nat (length (file d))) v]> vals) tail)) as Hl.
    { apply Nat2Z.inj. rewrite Hfile, !length_layout by (rewrite ?length_insert; apply H).
      by rewrite (length_records_insert _ _ _ v) by (try apply length_clobber; done). }
    rewrite layout_tail. rewrite Hl at 1. apply write_at_end.
  - apply H.
  - apply wrap_bound. lia.
  - apply H.
  - rewrite length_insert. apply H.
  - apply fits_clobber; [apply H|done..].
Qed.

(** *** open_db *)
Lemma words_free n : words (replicate n DBID_FREE) = replicate (8 * n) 255.
Proof.
  induction n as [|n IH]; [done|]. cbn [replicate].
  change (words (?x :: ?l)) with (le_bytes 8 x ++ words l). rewrite IH.
  replace (8 * Datatypes.S n)%nat with (8 + 8 * n)%nat by lia.
  rewrite replicate_add. by vm_compute (le_bytes 8 DBID_FREE).
Qed.

Lemma pop_clean fs f fs' : pop fs = (f, fs') -> clean fs -> f = Fine /\ clean fs'.
Proof.
  unfold pop. destruct fs as [|g fs]; intros [= <- <-]; [done|]. intros H. by inversion H.
Qed.

Ltac pop_clean :=
  match goal with
  | H : clean ?fs |- context [pop ?fs] =>
      let f := fresh "f" in let fs' := fresh "fs" in let E := fresh "E" in
      destruct (pop fs) as [f fs'] eqn:E; apply (pop_clean _ _ _ E) in H as [-> H];
      cbn [fails short orb]
  end.

Lemma header_size_small nb : (0 < nb)%nat -> bucket (Z.of_nat nb) < 2 ^ 63 ->
  header_size_for (Z.of_nat nb) = bucket (Z.of_nat nb).
Proof.
  unfold header_size_for, bucket, HEADER_SIZE. intros.
  rewrite (wrap_small 64 (8 * _)) by (pow2; lia). apply wrap_small. pow2. lia.
Qed.

(** The three stores that initialise a fresh mapping. *)
Lemma fresh_image nb (z := replicate (16 + 8 * nb) 0) :
  write_at 16 (replicate (8 * nb) 255)
    (write_at 8 (le_bytes 8 (Z.of_nat nb)) (write_at 0 (le_bytes 8 0) z)) = image nb [].
Proof.
  assert (z = replicate 8 0 ++ replicate 8 0 ++ replicate (8 * nb) 0) as ->.
  { unfold z. by rewrite <- !replicate_add. }
  assert (forall x c, write_at 0 (le_bytes 8 x) (replicate 8 0 ++ c) = le_bytes 8 x ++ c) as E0.
  { intros. by apply (write_at_app_mid [] (replicate 8 0)). }
  assert (forall x y c, write_at 8 (le_bytes 8 y) (le_bytes 8 x ++ replicate 8 0 ++ c) =
                        le_bytes 8 x ++ le_bytes 8 y ++ c) as E1.
  { intros. by apply (write_at_app_mid (le_bytes 8 x) (replicate 8 0)). }
  rewrite E0, E1, (assoc_L (++)).
  pose proof (write_at_app_mid (le_bytes 8 0 ++ le_bytes 8 (Z.of_nat nb)) (replicate (8 * nb) 0)
    (replicate (8 * nb) 255) []) as E2.
  rewrite !app_nil_r in E2. change (length (le_bytes 8 0 ++ le_bytes 8 (Z.of_nat nb))) with 16%nat in E2.
  rewrite E2 by by rewrite !length_replicate.
  unfold image, layout, heads. cbn [length positions records app].
  rewrite Nat.sub_0_r, words_free, <- !(assoc_L (++)), !app_nil_r. done.
Qed.

Lemma open_db_fresh_spec nb fs :
  (0 < nb)%nat -> bucket (Z.of_nat nb) < 2 ^ 63 ->
  match open_db None (Z.of_nat nb) fs with
  | Val (Some d, disk) => holds nb [] d /\ disk = Some (file d) /\ (clean fs -> clean (sched d))
  | Val (None, _) => ~ clean fs
  | _ => False
  end.
Proof.
  intros Hnb Hsz. unfold open_db. rewrite header_size_small by done.
  assert (0 <= bucket (Z.of_nat nb)) by (unfold bucket, HEADER_SIZE; lia).
  rewrite swrap_small by (pow2; lia). replace (bucket _ <? 0) with false by lia.
  rewrite wrap_small by (unfold bucket, HEADER_SIZE in *; pow2; lia).
  replace (bucket _ =? 0) with false by (unfold bucket, HEADER_SIZE; lia).
  replace (_ <? HEADER_SIZE + _) with false by (unfold bucket; lia).
  assert (truncate (Z.to_nat (bucket (Z.of_nat nb))) [] = replicate (16 + 8 * nb) 0) as ->.
  { unfold truncate. rewrite take_nil. cbn [length app]. rewrite Nat.sub_0_r. f_equal.
    unfold bucket, HEADER_SIZE. lia. }
  replace (Z.to_nat (8 * Z.of_nat nb)) with (8 * nb)%nat by lia. rewrite fresh_image.
  assert (forall fs, holds nb [] (MkDb (image nb []) (bucket (Z.of_nat nb)) Unlocked fs)) as Hh.
  { intros fs'. split; [|done]. split; cbn; try done; [lia|]. split; [by constructor|].
    rewrite length_layout by (cbn; lia). cbn. lia. }
  repeat match goal with
  | |- context [pop ?fs] =>
      let E := fresh "E" in destruct (pop fs) as [? ?] eqn:E; pose proof (pop_clean _ _ _ E)
  | |- context [fails ?f] => destruct f; cbn [fails orb]
  end; try (intros Hc; naive_solver); split_and!; try apply Hh; naive_solver.
Qed.

Lemma open_db_again_spec cnt nb vals tail d any fs :
  stored cnt nb vals tail d ->
  match open_db (on_disk d) any fs with
  | Val (Some d', disk) =>
      stored cnt nb vals tail d' /\ lock d' = Unlocked /\ disk = on_disk d /\
      (clean fs -> clean (sched d'))
  | Val (None, disk) => ~ clean fs /\ disk = on_disk d
  | _ => False
  end.
Proof.
  intros H. unfold on_disk, open_db.
  pose proof (stored_file _ _ _ _ _ H) as Hf. pose proof (stored_nb_Z _ _ _ _ _ H) as Hnb.
  set (hdr := le_bytes 8 cnt ++ le_bytes 8 (Z.of_nat nb)).
  assert (slice 0 (Z.to_nat HEADER_SIZE) (file d) = hdr) as Hh.
  { rewrite Hf. unfold layout. rewrite (assoc_L (++)).
    by apply (slice_app_mid [] hdr). }
  assert (forall rd, negb (Z.of_nat (length (short rd hdr)) =? HEADER_SIZE) = false ->
            short rd hdr = hdr) as Hshort.
  { intros [| |k]; cbn [short]; [done..|]. rewrite negb_false_iff, Z.eqb_eq, length_take.
    unfold HEADER_SIZE. intros Hk. apply take_ge. change (length hdr) with 16%nat in *. lia. }
  assert (header_size_for (le_val (slice 8 8 hdr)) = mapped d) as Hsz.
  { rewrite (stored_mapped _ _ _ _ _ H). unfold hdr.
    assert (slice 8 8 (le_bytes 8 cnt ++ le_bytes 8 (Z.of_nat nb)) = le_bytes 8 (Z.of_nat nb)) as ->.
    { rewrite <- (app_nil_r (le_bytes 8 (Z.of_nat nb))) at 1.
      by apply (slice_app_mid (le_bytes 8 cnt) (le_bytes 8 (Z.of_nat nb)) []). }
    rewrite le_val_bytes by (pow2; lia). apply header_size_small; [lia|].
    pose proof (stored_size _ _ _ _ _ H) as Hs. rewrite Hf, length_layout in Hs by apply H. lia. }
  rewrite Hh.
  repeat match goal with
  | |- context [pop ?fs] =>
      let E := fresh "E" in destruct (pop fs) as [? ?] eqn:E; pose proof (pop_clean _ _ _ E)
  | |- context [negb ?b] => destruct (negb b) eqn:?
  | |- context [fails ?f] => destruct (fails f) eqn:?; cbn [orb]
  end; try (split; [intros Hc; naive_solver|done]).
  rewrite Hshort, Hsz by done.
  replace (mapped d =? 0) with false by (rewrite (stored_mapped _ _ _ _ _ H); unfold bucket, HEADER_SIZE; lia).
  split_and!; [by apply (stored_ext _ _ _ _ d)|done..|naive_solver].
Qed.

Lemma open_db_unlocked disk nb fs d disk' : open_db disk nb fs = Val (Some d, disk') -> lock d = Unlocked.
Proof. unfold open_db. repeat case_match; intros [= <- <-]; done. Qed.

(** No call on a database that has been closed is defined. *)
Lemma freed_stuck fuel data len key d : lock d = Freed ->
  db_insert fuel data len d = Stuck /\ db_get fuel key d = Stuck /\ close_db d = Stuck.
Proof.
  intros H. assert (live d = Stuck) as E by (unfold live, mbind, cmd_bind, get; by rewrite H).
  unfold db_insert, db_get, close_db, rwlock_acquire, mbind, cmd_bind. by rewrite E.
Qed.

(** close_db gives the struct back and leaves the file as it is. *)
Lemma close_db_wp d : lock d <> Freed -> wp close_db (fun _ d' => file d' = file d /\ lock d' = Freed) d.
Proof. intros H. unfold close_db. wp_step. apply wp_live; [done|]. by wp_steps. Qed.

(** ** A whole session *)
Fixpoint insert_all (fuel : nat) (vs : list (list Z)) : cmd db (list (Z * option Z)) :=
  match vs with
  | [] => mret []
  | v :: vs =>
      r ← db_insert fuel v (Z.of_nat (length v));
      rs ← insert_all fuel vs;
      mret (r :: rs)
  end.

Lemma fits_prefix nb vals vs : (length (vals ++ vs) <= nb)%nat -> fits nb (vals ++ vs) [] ->
  fits nb vals [].
Proof.
  intros Hl [Hf Hs]. rewrite length_app in Hl. split; [by apply Forall_app in Hf as [? _]|].
  rewrite length_layout in Hs |- * by (rewrite ?length_app; lia).
  rewrite records_app, length_app in Hs. lia.
Qed.

Lemma insert_all_wp nb vs vals d fuel :
  holds nb vals d -> clean (sched d) -> (length (vals ++ vs) <= nb)%nat ->
  fits nb (vals ++ vs) [] ->
  wp (insert_all fuel vs) (fun rs d' =>
      rs = (fun i => (OK, Some (Z.of_nat i))) <$> seq (length vals) (length vs) /\
      holds nb (vals ++ vs) d' /\ clean (sched d')) d.
Proof.
  revert vals d. induction vs as [|v vs IH]; intros vals d H Hc Hl Hf; cbn [insert_all].
  - apply wp_ret. by rewrite app_nil_r.
  - rewrite length_app in Hl. cbn [length] in Hl.
    rewrite (cons_middle v vals vs), (assoc_L (++)) in Hf |- *.
    wp_step. eapply wp_mono.
    { apply (db_insert_wp nb vals v _ v); [done|lia| |done|].
      - rewrite Nat2Z.id. by rewrite firstn_all.
      - eapply fits_prefix; [|done]. rewrite !length_app. cbn. lia. }
    intros r d1 (_ & _ & _ & Hok). destruct (Hok Hc) as (-> & H1 & Hc1).
    wp_step. eapply wp_mono.
    { apply (IH (vals ++ [v])); [done|done|rewrite !length_app; cbn; lia|done]. }
    intros rs d2 (-> & H2 & Hc2). apply wp_ret. split_and!; [|done|done].
    rewrite length_app. cbn. by rewrite Nat.add_1_r.
Qed.

(** The smallest open database that holds [vals]. *)
Definition image_db (nb : nat) (vals : list (list Z)) : db :=
  MkDb (image nb vals) (bucket (Z.of_nat nb)) Unlocked [].

Lemma image_db_stored nb vals : (0 < nb)%nat -> (length vals <= nb)%nat -> fits nb vals [] ->
  stored (Z.of_nat (length vals)) nb vals [] (image_db nb vals).
Proof.
  intros Hnb Hl [Hf Hs]. split; try done.
  rewrite length_layout in Hs by done. unfold bucket, HEADER_SIZE in Hs. pow2. lia.
Qed.

Lemma image_db_holds nb vals : (0 < nb)%nat -> (length vals <= nb)%nat -> fits nb vals [] ->
  holds nb vals (image_db nb vals).
Proof. intros. split; [by apply image_db_stored|done]. Qed.

(** ** Properties *)

(** C32: [db_get] always returns, with the lock released and the file as it was.
    When every call succeeds it returns exactly the value stored under [key]
    (NULL when there is none); a failing or short read, allocation or lock can
    only turn that answer into NULL, never into another value. *)
Theorem db_get_finds cnt nb vals tail d fuel key :
  stored cnt nb vals tail d -> lock d = Unlocked -> 0 <= key ->
  exists r d', db_get (Datatypes.S fuel) key d = Val (r, d') /\
    file d' = file d /\ mapped d' = mapped d /\ lock d' = Unlocked /\
    (r = None \/ r = vals !! Z.to_nat key) /\
    (clean (sched d) -> r = vals !! Z.to_nat key).
Proof.
  intros H Hl Hk.
  destruct (proj1 (wp_Val _ _ _) (db_get_wp cnt nb vals tail d fuel key H Hl Hk))
    as (r & d' & E & Hd & Hr & Hc).
  exists r, d'. rewrite E, Hd. split_and!; [done..|]. by intros [? _]%Hc.
Qed.

Lemma db_get_finds_witness :
  exists r d', db_get 1 1 (image_db 2 [[104; 105]; [111]]) = Val (r, d') /\ r = Some [111].
Proof.
  destruct (db_get_finds 2 2 [[104; 105]; [111]] [] (image_db 2 [[104; 105]; [111]]) 0 1)
    as (r & d' & E & _ & _ & _ & _ & Hr).
  - apply (image_db_stored 2 [[104; 105]; [111]]); [lia|cbn; lia|]. by split; [repeat constructor|].
  - reflexivity.
  - lia.
  - exists r, d'. split; [exact E|]. apply Hr. constructor.
Defined.

(** C31: [db_insert] into a store that still has a free bucket always returns OK
    or ERR with the lock released, whatever the system calls answer; if they
    all succeed it returns OK, its result is the next id, and the store has
    grown by exactly the value.  If one fails or transfers less, OK does not promise
    that the value is there (db_insert_loses). *)
Theorem db_insert_appends nb vals data len v d fuel :
  holds nb vals d -> (length vals < nb)%nat ->
  v = take (Z.to_nat len) data -> len = Z.of_nat (length v) -> fits nb (vals ++ [v]) [] ->
  exists r d', db_insert fuel data len d = Val (r, d') /\
    lock d' = Unlocked /\ (fst r = OK \/ fst r = ERR) /\
    (clean (sched d) ->
       r = (OK, Some (Z.of_nat (length vals))) /\ holds nb (vals ++ [v]) d').
Proof.
  intros H Hr Hv Hl Hf.
  destruct (proj1 (wp_Val _ _ _) (db_insert_wp nb vals data len v d fuel H Hr Hv Hl Hf))
    as (r & d' & E & Hlock & _ & Hret & Hc).
  exists r, d'. split_and!; [done..|]. intros (? & ? & _)%Hc. done.
Qed.

Lemma db_insert_appends_witness :
  exists r d', db_insert 0 [7; 8; 9] 2 (image_db 2 [[1]]) = Val (r, d') /\
    r = (OK, Some 1) /\ holds 2 [[1]; [7; 8]] d'.
Proof.
  destruct (db_insert_appends 2 [[1]] [7; 8; 9] 2 [7; 8] (image_db 2 [[1]]) 0)
    as (r & d' & E & _ & _ & Hr).
  - apply image_db_holds; [lia|cbn; lia|]. by split; [repeat constructor|].
  - cbn. lia.
  - reflexivity.
  - reflexivity.
  - by split; [repeat constructor|].
  - exists r, d'. split; [exact E|]. apply Hr. constructor.
Defined.

(** C27: persistence and round trip. A fresh database with [nb] buckets accepts
    any [length vs <= nb] values, numbers them 0, 1, 2, ..., and after it is
    closed and opened again (with any bucket count on the command line)
    [db_get] returns for every key the value inserted with that number. *)
Theorem db_session_roundtrip nb vs any fuel :
  (0 < nb)%nat -> (length vs <= nb)%nat -> fits nb vs [] ->
  exists d d1 closed d2,
    open_db None (Z.of_nat nb) [] = Val (Some d, Some (file d)) /\
    insert_all fuel vs d =
      Val ((fun i => (OK, Some (Z.of_nat i))) <$> seq 0 (length vs), d1) /\
    close_db d1 = Val (tt, closed) /\ open_db (on_disk closed) any [] = Val (Some d2, on_disk d1) /\
    forall key, 0 <= key ->
      exists d3, db_get (Datatypes.S fuel) key d2 = Val (vs !! Z.to_nat key, d3).
Proof.
  intros Hnb Hl Hf.
  assert (bucket (Z.of_nat nb) < 2 ^ 63) as Hsz.
  { destruct Hf as [_ Hs]. rewrite length_layout in Hs by done. lia. }
  pose proof (open_db_fresh_spec nb [] Hnb Hsz) as Hopen.
  destruct (open_db None (Z.of_nat nb) []) as [[[d|] disk]| | | |]; try done;
    [|by destruct Hopen; constructor].
  destruct Hopen as (Hd & -> & Hc). specialize (Hc (Forall_nil_2 _)).
  destruct (proj1 (wp_Val _ _ _) (insert_all_wp nb vs [] d fuel Hd Hc Hl Hf))
    as (rs & d1 & Hins & -> & [Hd1 Hl1] & _).
  pose proof (open_db_again_spec _ _ _ _ _ any [] Hd1) as Hre.
  destruct (proj1 (wp_Val _ _ _) (close_db_wp d1 ltac:(by rewrite Hl1))) as ([] & d1' & Ecl & Hd1' & _).
  destruct (open_db (on_disk d1) any []) as [[[d2|] disk2]| | | |] eqn:Ere; try done;
    [|by destruct Hre as [Hre _]; destruct Hre; constructor].
  destruct Hre as (Hd2 & Hl2 & -> & Hc2). exists d, d1, d1', d2. unfold on_disk at 1. rewrite Hd1'.
  split_and!; [done..|]. intros key Hk.
  destruct (proj1 (wp_Val _ _ _) (db_get_wp _ _ _ _ _ fuel key Hd2 Hl2 Hk))
    as (r & d3 & E & _ & _ & Hr).
  destruct (Hr (Hc2 (Forall_nil_2 _))) as [-> _]. by exists d3.
Qed.

Lemma db_session_roundtrip_witness : exists d2 d3,
  db_get 1 1 d2 = Val (Some [5; 6], d3).
Proof.
  destruct (db_session_roundtrip 3 [[1; 2; 3]; [5; 6]] 100 0) as (d & d1 & cl & d2 & _ & _ & _ & _ & Hget).
  - lia.
  - cbn. lia.
  - by split; [repeat constructor|].
  - destruct (Hget 1) as [d3 E]; [lia|]. exists d2, d3. exact E.
Defined.

(** C33: once every bucket is taken, [db_insert] still answers OK with a fresh
    id, but the entry is lost: [db_get] of that id finds nothing, and the first
    eight bytes of the value in the bucket's record are overwritten by the file
    position of the new record. (The code writes the link at offset 20 of the
    last record, where its value starts, instead of at its [next] field.) *)
Theorem db_insert_collision nb vals v data len w d fuel :
  holds nb vals d -> length vals = nb -> clean (sched d) ->
  vals !! 0%nat = Some v -> (8 <= length v)%nat ->
  w = take (Z.to_nat len) data -> len = Z.of_nat (length w) ->
  fits nb vals (record_bytes (Z.of_nat nb) w) ->
  exists d' d1 d2,
    db_insert (Datatypes.S fuel) data len d = Val ((OK, Some (Z.of_nat nb)), d') /\
    db_get (Datatypes.S fuel) (Z.of_nat nb) d' = Val (None, d1) /\
    db_get (Datatypes.S fuel) 0 d' =
      Val (Some (le_bytes 8 (Z.of_nat (length (file d))) ++ drop 8 v), d2).
Proof.
  intros [H Hlock] <- Hc Hv Hl Hw Hlen Hf.
  pose proof (stored_nb_Z _ _ _ _ _ H) as Hnb.
  assert (Z.of_nat (length vals) mod Z.of_nat (length vals) = Z.of_nat 0) as Hmod
    by (apply Z.mod_same; lia).
  destruct (proj1 (wp_Val _ _ _) (db_insert_taken_wp _ _ _ _ 0 v data len w d fuel
    H Hlock Hc Hmod Hv Hl Hw Hlen Hf))
    as (r & d' & E & -> & Hlock' & Hc' & H').
  destruct (proj1 (wp_Val _ _ _) (db_get_wp _ _ _ _ _ fuel (Z.of_nat (length vals)) H' Hlock'
    ltac:(lia))) as (r1 & d1 & E1 & _ & _ & Hr1).
  destruct (proj1 (wp_Val _ _ _) (db_get_wp _ _ _ _ _ fuel 0 H' Hlock' ltac:(lia)))
    as (r2 & d2 & E2 & _ & _ & Hr2).
  exists d', d1, d2. destruct (Hr1 Hc') as [-> _], (Hr2 Hc') as [-> _].
  rewrite E, E1, E2, Nat2Z.id. split_and!; [done| |].
  - by rewrite lookup_ge_None_2 by (rewrite length_insert; lia).
  - rewrite list_lookup_insert_eq by lia. done.
Qed.

Lemma db_insert_collision_witness : exists d' d1,
  db_insert 1 [42] 1 (image_db 1 [[1; 2; 3; 4; 5; 6; 7; 8; 9]]) = Val ((OK, Some 1), d') /\
  db_get 1 0 d' = Val (Some [53; 0; 0; 0; 0; 0; 0; 0; 9], d1).
Proof.
  destruct (db_insert_collision 1 [[1; 2; 3; 4; 5; 6; 7; 8; 9]] [1; 2; 3; 4; 5; 6; 7; 8; 9]
    [42] 1 [42] (image_db 1 [[1; 2; 3; 4; 5; 6; 7; 8; 9]]) 0) as (d' & d1 & d2 & E & _ & E2).
  - apply image_db_holds; [lia|cbn; lia|]. by split; [repeat constructor|].
  - reflexivity.
  - constructor.
  - reflexivity.
  - cbn. lia.
  - reflexivity.
  - reflexivity.
  - by split; [repeat constructor|].
  - exists d', d2. split; [exact E|exact E2].
Defined.

(** opening. For any outcomes of the calls, opening a path that does not
    exist gives either NULL after a failure or an open, empty, unlocked
    database, and opening an existing database gives NULL after a failure, or
    the same contents with the bucket count of its header; neither loses the
    file's contents. *)
Theorem open_db_spec cnt nb vals tail d any fs :
  stored cnt nb vals tail d -> lock d <> Freed ->
  match open_db None (Z.of_nat nb) fs with
  | Val (Some d', disk) => holds nb [] d' /\ disk = Some (file d')
  | Val (None, _) => ~ clean fs
  | _ => False
  end /\
  exists closed, close_db d = Val (tt, closed) /\
  match open_db (on_disk closed) any fs with
  | Val (Some d', disk) =>
      stored cnt nb vals tail d' /\ lock d' = Unlocked /\ disk = on_disk d
  | Val (None, disk) => ~ clean fs /\ disk = on_disk d
  | _ => False
  end.
Proof.
  intros H Hlive. split.
  - assert (bucket (Z.of_nat nb) < 2 ^ 63) as Hz.
    { pose proof (stored_size _ _ _ _ _ H) as Hz. rewrite (stored_file _ _ _ _ _ H), length_layout in Hz by apply H. lia. }
    pose proof (open_db_fresh_spec nb fs (stored_nb _ _ _ _ _ H) Hz) as Hs.
    destruct (open_db None (Z.of_nat nb) fs) as [[[d'|] disk]| | | |]; [naive_solver|done..].
  - pose proof (open_db_again_spec _ _ _ _ _ any fs H) as Hs.
    destruct (proj1 (wp_Val _ _ _) (close_db_wp d Hlive)) as ([] & d1 & E & Hd1 & _).
    exists d1. split; [done|]. unfold on_disk at 1. rewrite Hd1. fold (on_disk d).
    destruct (open_db (on_disk d) any fs) as [[[d'|] disk]| | | |]; [naive_solver|done..].
Qed.

Lemma open_db_spec_witness :
  match open_db (on_disk (image_db 1 [[1]])) 7 [Fine; Fine; Fine; Short 4] with
  | Val (None, disk) => disk = Some (image 1 [[1]])
  | _ => False
  end.
Proof.
  destruct (open_db_spec 1 1 [[1]] [] (image_db 1 [[1]]) 7 [Fine; Fine; Fine; Short 4])
    as [_ (closed & Ecl & H)].
  - apply (image_db_stored 1 [[1]]); [lia|cbn; lia|]. by split; [repeat constructor|].
  - done.
  - injection Ecl as <-. change (on_disk _) with (on_disk (image_db 1 [[1]])) in H at 1.
    destruct (open_db (on_disk (image_db 1 [[1]])) 7 [Fine; Fine; Fine; Short 4])
      as [[[d'|] disk]| | | |] eqn:E; [vm_compute in E; discriminate E|apply H|done..].
Defined.

(** A bucket count whose table wraps around to 8 bytes is accepted by the options, and
    open_db then clears almost 2^64 bytes of a mapping of 8. *)
Theorem bucket_clear_overruns : open_db None (2 ^ 61 - 1) [] = Stuck.
Proof. by vm_compute. Qed.

(** db_insert does not look at how much pwrite has written: a record that is cut short,
    by a full disk for one, is answered with OK, and cannot be read back.  When fstat
    fails, the record is written over the header. *)
Theorem db_insert_loses : let d := image_db 2 [] in
  (exists d1 d2, db_insert 1 [65; 66; 67] 3 (MkDb (file d) (mapped d) Unlocked [Fine; Fine; Fine; Short 21]) =
      Val ((OK, Some 0), d1) /\ db_get 1 0 d1 = Val (None, d2)) /\
  (exists d1, db_insert 1 [65; 66; 67] 3 (MkDb (file d) (mapped d) Unlocked [Fine; Fail]) =
      Val ((OK, Some 0), d1) /\ slice 0 4 (file d1) = le_bytes 4 3).
Proof. split; repeat eexists; by vm_compute. Qed.

End DbSpec.
