(* ===== verification/Store.v ===== *)
(** What the database promises to the server: the interface between db.c and the functions
    of the routes, and the calls a worker makes through it.

    [PasteStore] is the interface: a way to insert and a way to get that keep a list of
    pastes, each under its index.  [db_store] is the database of db.c, [list_store] the list
    itself.  Module [Calls] has a sequence of calls on any store; a client that is proved
    against the interface (the functions of the routes in CaskSpec.v, the threads in
    ThreadsThm.v) does not look into the file.  Module [StoreThm]: the database answers any
    sequence of calls as the list does. *)
From S2P Require Import Prelude Db.
Import Db DbSpec.

(** [st_holds vals d]: the store [d] holds [vals] and nothing goes wrong; [st_room vals]:
    there is room for [vals]. *)
Class PasteStore {D : Type} (insert : nat -> list Z -> Z -> cmd D (Z * option Z))
    (get_paste : nat -> Z -> cmd D (option (list Z))) := {
  st_holds : list (list Z) -> D -> Prop;
  st_room : list (list Z) -> Prop;
  st_room_prefix : forall vals more, st_room (vals ++ more) -> st_room vals;
  st_bounded : forall vals d, st_holds vals d -> Z.of_nat (length vals) < 2 ^ 60;
  st_insert_ok : forall vals fuel data len v d,
    st_holds vals d -> v = take (Z.to_nat len) data -> len = Z.of_nat (length v) ->
    st_room (vals ++ [v]) ->
    wp (insert fuel data len)
      (fun r d' => r = (OK, Some (Z.of_nat (length vals))) /\ st_holds (vals ++ [v]) d') d;
  st_get_ok : forall vals fuel key d,
    st_holds vals d -> 0 <= key ->
    wp (get_paste (Datatypes.S fuel) key)
      (fun r d' => r = vals !! Z.to_nat key /\ st_holds vals d') d;
}.

(** ** The database *)

(** Nothing went wrong and the pastes are [vals]. *)
Definition good (nb : nat) (vals : list (list Z)) (d : db) : Prop :=
  holds nb vals d /\ clean (sched d).

(** Room for these pastes: a bucket for each, and lengths and offsets in range. *)
Definition room (nb : nat) (vals : list (list Z)) : Prop :=
  (length vals <= nb)%nat /\ fits nb vals [].

Lemma room_prefix nb vals more : room nb (vals ++ more) -> room nb vals.
Proof.
  intros [Hl Hf]. split; [|by apply (fits_prefix nb vals more)]. rewrite length_app in Hl. lia.
Qed.

Lemma good_bounded nb vals d : good nb vals d -> Z.of_nat (length vals) < 2 ^ 60.
Proof. intros [[Hs _] _]. pose proof (stored_nb_Z _ _ _ _ _ Hs). pose proof (stored_room _ _ _ _ _ Hs). lia. Qed.

Lemma good_insert nb vals fuel data len v d :
  good nb vals d -> v = take (Z.to_nat len) data -> len = Z.of_nat (length v) -> room nb (vals ++ [v]) ->
  wp (db_insert fuel data len)
    (fun r d' => r = (OK, Some (Z.of_nat (length vals))) /\ good nb (vals ++ [v]) d') d.
Proof.
  intros [Hh Hc] Hv Hlen [Hl Hf]. rewrite length_app in Hl. cbn [length] in Hl.
  eapply wp_mono; [by eapply db_insert_wp; try done; lia|]. intros r d' (_ & _ & _ & Hr).
  destruct (Hr Hc) as (-> & Hh' & Hc'). split; [done|]. by split.
Qed.

Lemma good_get nb vals fuel key d : good nb vals d -> 0 <= key ->
  wp (db_get (Datatypes.S fuel) key) (fun r d' => r = vals !! Z.to_nat key /\ good nb vals d') d.
Proof.
  intros [[Hs Hl] Hc] Hkey. eapply wp_mono; [by eapply db_get_wp|]. intros r d' (Hd & _ & Hr).
  destruct (Hr Hc) as [-> Hc']. split; [done|]. split; [|done].
  split; [eapply stored_ext; [..|exact Hs]|]; by rewrite Hd.
Qed.

#[export] Instance db_store (nb : nat) : PasteStore db_insert db_get := {
  st_holds := good nb;
  st_room := room nb;
  st_room_prefix := room_prefix nb;
  st_bounded := good_bounded nb;
  st_insert_ok := good_insert nb;
  st_get_ok := good_get nb;
}.

(** ** The list *)
Definition list_insert (fuel : nat) (data : list Z) (len : Z) : cmd (list (list Z)) (Z * option Z) :=
  fun vals => Val ((OK, Some (Z.of_nat (length vals))), vals ++ [take (Z.to_nat len) data]).
Definition list_get (fuel : nat) (key : Z) : cmd (list (list Z)) (option (list Z)) :=
  fun vals => Val (vals !! Z.to_nat key, vals).

#[export] Instance list_store : PasteStore list_insert list_get.
Proof.
  refine {|
    st_holds vals d := d = vals /\ Z.of_nat (length vals) < 2 ^ 60;
    st_room vals := Z.of_nat (length vals) < 2 ^ 60;
  |}.
  - intros vals more. rewrite length_app. lia.
  - by intros vals d [_ H].
  - intros vals fuel data len v d [-> _] -> _ Hr. by split.
  - intros vals fuel key d [-> Hl] _. by split.
Defined.

(** ** Calls *)
Module Calls.

(** A call, and its answer. *)
Inductive op := Insert (fuel : nat) (data : list Z) (len : Z) | Get (fuel : nat) (key : Z).
Inductive answer := Inserted (r : Z * option Z) | Got (v : option (list Z)).

(** The values a call adds, and what it is answered on the pastes held. *)
Definition pasted (o : op) : list (list Z) :=
  match o with Insert _ data len => [take (Z.to_nat len) data] | Get _ _ => [] end.
Definition answer_of (vals : list (list Z)) (o : op) : answer :=
  match o with
  | Insert _ _ _ => Inserted (OK, Some (Z.of_nat (length vals)))
  | Get _ key => Got (vals !! Z.to_nat key)
  end.

(** Calls one after the other on the pastes held. *)
Fixpoint in_turn (vals : list (list Z)) (os : list op) : list answer :=
  match os with
  | [] => []
  | o :: os => answer_of vals o :: in_turn (vals ++ pasted o) os
  end.

Lemma in_turn_snoc os o : forall vals,
  in_turn vals (os ++ [o]) = in_turn vals os ++ [answer_of (vals ++ (os ≫= pasted)) o].
Proof.
  induction os as [|o' os IH]; intros vals; cbn [in_turn app mbind list_bind]; [by rewrite app_nil_r|].
  by rewrite IH, (assoc_L (++)).
Qed.

(** A call as the routes make it. *)
Definition op_ok (o : op) : Prop :=
  match o with
  | Insert _ data len => 0 <= len <= Z.of_nat (length data)
  | Get fuel key => (0 < fuel)%nat /\ 0 <= key
  end.

Section client.
Context {D : Type} (insert : nat -> list Z -> Z -> cmd D (Z * option Z)).
Context (get_paste : nat -> Z -> cmd D (option (list Z))).

Definition call_op (o : op) : cmd D answer :=
  match o with
  | Insert fuel data len => r ← insert fuel data len; mret (Inserted r)
  | Get fuel key => v ← get_paste fuel key; mret (Got v)
  end.

Fixpoint call_all (os : list op) : cmd D (list answer) :=
  match os with
  | [] => mret []
  | o :: os => a ← call_op o; l ← call_all os; mret (a :: l)
  end.

Context {PS : PasteStore insert get_paste}.

Lemma call_op_ok o vals d : st_holds vals d -> op_ok o -> st_room (vals ++ pasted o) ->
  wp (call_op o) (fun a d' => a = answer_of vals o /\ st_holds (vals ++ pasted o) d') d.
Proof.
  intros Hh Ho Hr. destruct o as [fuel data len|fuel key]; cbn [call_op answer_of pasted op_ok] in *; wp_step.
  - eapply wp_mono; [eapply st_insert_ok; [done|done|rewrite length_take; lia|done]|].
    intros r d' [-> Hh']. by apply wp_ret.
  - destruct Ho as [Hf Hk]. destruct fuel as [|fuel]; [lia|].
    eapply wp_mono; [by eapply st_get_ok|]. intros v d' [-> Hh']. apply wp_ret. by rewrite app_nil_r.
Qed.

Lemma call_all_ok os : forall vals d, st_holds vals d -> Forall op_ok os -> st_room (vals ++ (os ≫= pasted)) ->
  wp (call_all os) (fun l d' => l = in_turn vals os /\ st_holds (vals ++ (os ≫= pasted)) d') d.
Proof.
  induction os as [|o os IH]; intros vals d Hh Hos Hr; cbn [call_all in_turn mbind list_bind] in *.
  { apply wp_ret. by rewrite app_nil_r. }
  apply Forall_cons in Hos as [Ho Hos]. rewrite (assoc_L (++)) in Hr |- *.
  wp_step. eapply wp_mono; [apply call_op_ok; [done|done|by eapply st_room_prefix]|].
  intros a d1 [-> H1]. wp_step. eapply wp_mono; [by apply IH|]. intros l d2 [-> H2]. by apply wp_ret.
Qed.
End client.
End Calls.

Module StoreThm.
Import Calls.

(** C10: The database is a list of pastes to its clients.  Any calls of db_insert and
    db_get, one after the other, on a database with room for what they insert, with no
    system call that fails, get the
    answers that the same calls get from a list to which each value is appended and from
    which each key is looked up, and the database then holds that list. *)
Theorem db_refines_list nb vals os d :
  good nb vals d -> Forall op_ok os -> room nb (vals ++ (os ≫= pasted)) ->
  exists answers vals' d',
    call_all db_insert db_get os d = Val (answers, d') /\
    call_all list_insert list_get os vals = Val (answers, vals') /\
    good nb vals' d'.
Proof.
  intros Hd Hos Hr.
  destruct (proj1 (wp_Val _ _ _) (call_all_ok db_insert db_get (PS := db_store nb) os vals d Hd Hos Hr)) as (l & d' & E & -> & Hd').
  assert (st_room (PasteStore := list_store) (vals ++ (os ≫= pasted))) as Hl.
  { cbn. exact (good_bounded _ _ _ Hd'). }
  assert (st_holds (PasteStore := list_store) vals vals) as Hv.
  { split; [done|]. by eapply good_bounded. }
  destruct (proj1 (wp_Val _ _ _) (call_all_ok list_insert list_get os vals vals Hv Hos Hl)) as (l' & v' & E' & -> & [-> _]).
  by eexists _, _, d'.
Qed.

Lemma db_refines_list_witness : exists vals' d',
  call_all db_insert db_get [Insert 0 [5; 6] 2; Get 1 0; Get 1 1; Get 1 2] (image_db 3 [[7; 8]]) =
    Val ([Inserted (OK, Some 1); Got (Some [7; 8]); Got (Some [5; 6]); Got None], d') /\
  good 3 vals' d'.
Proof.
  destruct (db_refines_list 3 [[7; 8]] [Insert 0 [5; 6] 2; Get 1 0; Get 1 1; Get 1 2] (image_db 3 [[7; 8]]))
    as (l & vals' & d' & E & El & Hd).
  - split; [|constructor]. apply image_db_holds; [lia|cbn; lia|]. by split; [repeat constructor|].
  - repeat constructor; cbn; lia.
  - split; [by_compute|]. by split; [repeat constructor|].
  - injection El as <- <-. exists [[7; 8]; [5; 6]], d'. split; [exact E|exact Hd].
Defined.
End StoreThm.
