(* ===== verification/ThreadsThm.v ===== *)
(** The theorems on workers that share the database (Threads.v): the steps are the
    functions of Db.v, an interleaving has the effect of the calls one after the other in
    the order in which they let go of the lock, no thread is ever blocked for good, and
    with room for all of them the pastes of all threads are there under the numbers they
    were given. *)
From S2P Require Import Prelude Prog Db Store Threads.
Import Db DbSpec Calls Threads.

(** ** The steps in a row *)
Lemma run_next_slot d : run next_slot_steps d = next_slot d.
Proof. unfold next_slot_steps, next_slot. along. Qed.

Lemma run_last_link fuel off d : run (last_link_steps fuel off) d = last_link fuel off d.
Proof. apply run_loop. along. Qed.
#[export] Hint Resolve run_next_slot run_last_link : steps.

Lemma run_link_entry fuel index pos d : run (link_entry_steps fuel index pos) d = link_entry fuel index pos d.
Proof. unfold link_entry_steps, link_entry. along. Qed.

Lemma run_write_record rec d : run (write_record_steps rec) d = write_record rec d.
Proof. unfold write_record_steps, write_record. along. Qed.

Lemma run_find_record fuel key off d : run (find_record_steps fuel key off) d = find_record fuel key off d.
Proof. apply run_loop. along. Qed.
#[export] Hint Resolve run_link_entry run_write_record run_find_record : steps.

(** A call is its steps between the lock and the unlock. *)
Definition locked (o : op) : cmd db answer :=
  failed ← rwlock_acquire (mode o);
  if (failed : bool) then mret (refused o)
  else
    a ← run (body o);
    _ ← rwlock_unlock;
    mret a.

(** Between the lock and the unlock of the two calls of Db.v. *)
Definition insert_body (fuel : nat) (data : list Z) (len : Z) : cmd db (Z * option Z) :=
  slot ← next_slot;
  let '(i, index, pos) := slot in
  ret ← link_entry fuel index pos;
  if ret =? OK then
    ret ← write_record (MkRecord len i DBID_FREE pos data);
    mret (ret, Some i)
  else mret (ret, None).

Definition get_body (fuel : nat) (key : Z) : cmd db (option (list Z)) :=
  nb ← map_load 8;
  index ← umod key nb;
  off ← map_load (bucket index);
  if off =? DBID_FREE then mret None else find_record fuel key off.

Lemma run_insert fuel data len d : run (insert_steps fuel data len) d = insert_body fuel data len d.
Proof. unfold insert_steps, insert_body. along. Qed.

Lemma run_get fuel key d : run (get_steps fuel key) d = get_body fuel key d.
Proof. unfold get_steps, get_body. along. Qed.

Lemma call_locked o d : call o d = locked o d.
Proof.
  destruct o as [fuel data len|fuel key]; unfold call, locked; cbn [call_op mode refused body].
  - unfold db_insert. rewrite bind_assoc. apply bind_ext. intros [] d1; [done|].
    transitivity ((r ← insert_body fuel data len; _ ← rwlock_unlock; mret (Inserted r)) d1).
    + unfold insert_body. rewrite !bind_assoc. apply bind_ext. intros [[i index] pos] d2.
      rewrite !bind_assoc. apply bind_ext. intros ret d3. destruct (ret =? OK); [|done].
      rewrite !bind_assoc. by apply bind_ext.
    + symmetry. etransitivity; [apply bind_same; etransitivity; [apply run_bind|apply bind_same, run_insert]|].
      by rewrite bind_assoc.
  - unfold db_get. rewrite bind_assoc. apply bind_ext. intros [] d1; [done|].
    transitivity ((v ← get_body fuel key; _ ← rwlock_unlock; mret (Got v)) d1).
    + unfold get_body. rewrite !bind_assoc. apply bind_ext. intros nb d2.
      rewrite !bind_assoc. apply bind_ext. intros index d3.
      rewrite !bind_assoc. apply bind_ext. intros off d4.
      rewrite !bind_assoc. by apply bind_ext.
    + symmetry. etransitivity; [apply bind_same; etransitivity; [apply run_bind|apply bind_same, run_get]|].
      by rewrite bind_assoc.
Qed.

(** ** What a step leaves alone *)

(** The lock, and for a reader the file. *)
Definition calm {B} (reads : bool) (c : cmd db B) : Prop := forall d b d', c d = Val (b, d') ->
  lock d' = lock d /\ (reads = true -> file d' = file d /\ mapped d' = mapped d).

Fixpoint steady {A} (reads : bool) (p : prog db A) : Prop :=
  match p with
  | Ret _ => True
  | Act c k => calm reads c /\ forall b, steady reads (k b)
  end.

Lemma calm_ret {B} reads (b : B) : calm reads (mret b : cmd db B).
Proof. by intros d b' d' [= <- <-]. Qed.

Lemma calm_get reads : calm reads get.
Proof. by intros d b' d' [= <- <-]. Qed.

Lemma calm_bind {B C} reads (c : cmd db B) (k : B -> cmd db C) :
  calm reads c -> (forall b, calm reads (k b)) -> calm reads (c ≫= k).
Proof.
  intros Hc Hk d b d' H. unfold mbind, cmd_bind in H.
  destruct (c d) as [[b1 d1]| | | |] eqn:E; [|done..]. apply Hc in E as [E1 E2]. apply Hk in H as [H1 H2].
  split; [congruence|]. intros Hr. destruct (E2 Hr), (H2 Hr). split; congruence.
Qed.

Lemma calm_none {B} reads (r : res (B * db)) : (forall x, r <> Val x) -> calm reads (fun _ => r).
Proof. intros Hr d b d' H. by destruct (Hr (b, d')). Qed.

Lemma calm_syscall reads : calm reads syscall.
Proof. intros d b d'. unfold syscall. by destruct (sched d); intros [= <- <-]. Qed.

Lemma calm_modify f : (forall d, lock (f d) = lock d) -> calm false (modify f).
Proof. by intros H d b d' [= <- <-]. Qed.

Create HintDb calm discriminated.
#[export] Hint Resolve calm_ret calm_get calm_syscall : calm.

(** Take a command or a program apart. *)
Ltac stay :=
  repeat (intros; cbv zeta;
    lazymatch goal with
    | |- calm _ (mbind _ _) => apply calm_bind
    | |- calm _ (modify _) => apply calm_modify
    | |- calm _ stuck => by apply calm_none
    | |- calm _ (match ?x with _ => _ end) => destruct x
    | |- calm _ _ => solve [auto with calm]
    | |- lock (match ?x with _ => _ end) = _ => destruct x
    | |- lock _ = _ => reflexivity
    end).

Lemma calm_map_load reads off : calm reads (map_load off).
Proof. unfold map_load. stay. Qed.
Lemma calm_map_store off x : calm false (map_store off x).
Proof. unfold map_store. stay. Qed.
Lemma calm_umod reads a b : calm reads (umod a b).
Proof. unfold umod. stay. Qed.
Lemma calm_pread reads off n : calm reads (pread off n).
Proof. unfold pread. stay. Qed.
Lemma calm_pwrite off bs : calm false (pwrite off bs).
Proof. unfold pwrite. stay. Qed.
Lemma calm_get_file_size reads : calm reads get_file_size.
Proof. unfold get_file_size. stay. Qed.
Lemma calm_malloc_fails reads : calm reads malloc_fails.
Proof. unfold malloc_fails. stay. Qed.
#[export] Hint Resolve calm_map_load calm_map_store calm_umod calm_pread calm_pwrite calm_get_file_size
  calm_malloc_fails : calm.

Lemma steady_bind {A B} reads (p : prog db A) (k : A -> prog db B) :
  steady reads p -> (forall a, steady reads (k a)) -> steady reads (p ≫= k).
Proof.
  intros Hp Hk. induction p as [a|C c f IH]; [apply Hk|]. destruct Hp as [Hc Hf].
  split; [exact Hc|]. intros b. by apply IH.
Qed.

Lemma steady_act {B} reads (c : cmd db B) : calm reads c -> steady reads (act c).
Proof. by split. Qed.

Lemma steady_loop {A B} reads n (b : A -> prog db (A + B)) : (forall a, steady reads (b a)) ->
  forall a, steady reads (prog_loop n b a).
Proof.
  intros Hb. induction n as [|n IH]; intros a; cbn [prog_loop].
  - by apply steady_act, calm_none.
  - apply steady_bind; [apply Hb|]. intros [a'|x]; [apply IH|done].
Qed.

Ltac steadily :=
  repeat (intros; cbv zeta;
    lazymatch goal with
    | |- steady _ (mbind _ _) => apply steady_bind
    | |- steady _ (mret _) => exact I
    | |- steady _ (prog_loop _ _ _) => apply steady_loop
    | |- steady _ (act _) => apply steady_act; stay
    | |- steady _ (match ?x with _ => _ end) => destruct x
    end).

Definition reads (o : op) : bool := match o with Insert _ _ _ => false | Get _ _ => true end.

Lemma body_steady o : steady (reads o) (body o).
Proof.
  destruct o as [fuel data len|fuel key]; cbn [reads body].
  - unfold insert_steps, next_slot_steps, link_entry_steps, last_link_steps, write_record_steps. steadily.
  - unfold get_steps, find_record_steps. steadily.
Qed.

Lemma seen_back k d' : lock d' = k -> seen k (sched d') (shared d') = d'.
Proof. by destruct d' as [f m l s]; cbn; intros <-. Qed.

Lemma shared_idem d : shared (shared d) = shared d.
Proof. done. Qed.

(** ** The lock *)
Lemma live_seen fs d : live (seen Unlocked fs d) = Val (tt, seen Unlocked fs d).
Proof. done. Qed.

Lemma acquire_refused k f fs fs' d : pop fs = (f, fs') -> fails f = true ->
  rwlock_acquire k (seen Unlocked fs d) = Val (true, seen Unlocked fs' d).
Proof.
  unfold pop. intros Hp Hf. destruct fs as [|f1 fs]; injection Hp as <- <-; [done|].
  unfold rwlock_acquire. unfold mbind at 1, cmd_bind at 1. rewrite live_seen.
  unfold mbind, cmd_bind, syscall. cbn. by rewrite Hf.
Qed.

Lemma acquire_ok k f fs fs' d : pop fs = (f, fs') -> fails f = false ->
  rwlock_acquire k (seen Unlocked fs d) = Val (false, seen k fs' d).
Proof.
  unfold pop. intros Hp Hf. destruct fs as [|f1 fs]; injection Hp as <- <-; [done|].
  unfold rwlock_acquire. unfold mbind at 1, cmd_bind at 1. rewrite live_seen.
  unfold mbind, cmd_bind, syscall. cbn. by rewrite Hf.
Qed.

Lemma call_refused o f fs fs' d : pop fs = (f, fs') -> fails f = true ->
  call o (seen Unlocked fs d) = Val (refused o, seen Unlocked fs' d).
Proof.
  intros Hp Hf. rewrite call_locked. unfold locked, mbind, cmd_bind.
  by rewrite (acquire_refused _ _ _ _ _ Hp Hf).
Qed.

Lemma call_run o f fs fs' d : pop fs = (f, fs') -> fails f = false ->
  call o (seen Unlocked fs d) = (a ← run (body o); _ ← rwlock_unlock; mret a) (seen (mode o) fs' d).
Proof.
  intros Hp Hf. rewrite call_locked. unfold locked. unfold mbind at 1, cmd_bind at 1.
  by rewrite (acquire_ok _ _ _ _ _ Hp Hf).
Qed.

(** ** One after the other *)
Section serial.
Context (calls : list (op * list fault)) (d0 : db).

(** The calls made one after the other, in the order listed, each to its end. *)
Inductive serial : list (nat * answer) -> db -> Prop :=
  | serial_nil : serial [] (shared d0)
  | serial_snoc l d i o fs a d' :
      serial l d -> calls !! i = Some (o, fs) -> i ∉ l.*1 ->
      call o (seen Unlocked fs d) = Val (a, d') -> serial (l ++ [(i, a)]) (shared d').

Lemma serial_shared l d : serial l d -> shared d = d.
Proof. by destruct 1. Qed.

Lemma serial_nodup l d : serial l d -> NoDup l.*1.
Proof.
  induction 1 as [|l d i o fs a d' _ IH _ Hi _]; [constructor|]. rewrite fmap_app. cbn.
  apply NoDup_app. split_and!; [done| |apply NoDup_singleton]. by intros j Hj ->%list_elem_of_singleton.
Qed.

Lemma serial_calls l d i : serial l d -> i ∈ l.*1 -> (i < length calls)%nat.
Proof.
  induction 1 as [|l d j o fs a d' _ IH Hj _ _]; [by intros ?%elem_of_nil|].
  rewrite fmap_app, elem_of_app. cbn. intros [?| ->%list_elem_of_singleton]; [auto|by eapply lookup_lt_Some].
Qed.

(** Where a thread is when the calls in [l] are over and have left [ds], and the
    database is [d] now: a thread inside has, from [ds] on, done as much of its call as
    [p] leaves to do. *)
Definition thread_inv (l : list (nat * answer)) (ds d : db) (i : nat) (t : thread) : Prop :=
  exists fs0, calls !! i = Some (t_op t, fs0) /\
    match t_status t with
    | Waiting => t_faults t = fs0 /\ (i ∉ l.*1)
    | Inside p => (i ∉ l.*1) /\ steady (reads (t_op t)) p /\
        exists f fs1, pop fs0 = (f, fs1) /\ fails f = false /\
          run (body (t_op t)) (seen (mode (t_op t)) fs1 ds) = run p (seen (mode (t_op t)) (t_faults t) d)
    | Finished a => (i, a) ∈ l
    end.

Record inv (c : config) (l : list (nat * answer)) (ds : db) : Prop := {
  inv_serial : serial l ds;
  inv_length : length (c_threads c) = length calls;
  inv_shared : shared (c_db c) = c_db c;
  inv_threads : forall i t, c_threads c !! i = Some t -> thread_inv l ds (c_db c) i t;
  inv_log : forall i a, (i, a) ∈ l -> exists t, c_threads c !! i = Some t /\ t_status t = Finished a;
  inv_exclusive : forall i j t u, i <> j -> c_threads c !! i = Some t -> c_threads c !! j = Some u ->
    inside WrLocked t -> ~ inside WrLocked u /\ ~ inside RdLocked u;
  inv_quiet : (forall i t, c_threads c !! i = Some t -> ~ inside WrLocked t) -> c_db c = ds;
}.

Lemma inside_mode t p : t_status t = Inside p -> inside (mode (t_op t)) t.
Proof. intros H. split; [done|]. by rewrite H. Qed.

Lemma start_inv : inv (start d0 calls) [] (shared d0).
Proof.
  split; try done; cbn [start c_threads c_db].
  - constructor.
  - by rewrite length_fmap.
  - intros i t (x & -> & Hx)%list_lookup_fmap_Some. destruct x as [o fs]. exists fs. split; [done|].
    split; [done|]. by apply not_elem_of_nil.
  - by intros i a ?%elem_of_nil.
  - intros i j t u _ (x & -> & _)%list_lookup_fmap_Some _. by intros [_ []].
Qed.

(** The threads that have not moved. *)
Lemma others_moved (ths : list thread) i t' j u : <[i := t']> ths !! j = Some u -> i <> j -> ths !! j = Some u.
Proof. intros H Hne. by rewrite list_lookup_insert_ne in H. Qed.

(** A thread that is not inside is where it is, whatever the database. *)
Lemma thread_inv_outside l ds d ds' d' i t : (forall k, ~ inside k t) ->
  thread_inv l ds d i t -> thread_inv l ds' d' i t.
Proof.
  intros Ho (fs0 & Hc & Ht). exists fs0. split; [done|]. destruct (t_status t) eqn:E; try done.
  destruct (Ho _ (inside_mode _ _ E)).
Qed.

(** A call that is over at [i] is of no concern to the others. *)
Lemma thread_inv_snoc l ds d i j a t : i <> j -> thread_inv l ds d j t -> thread_inv (l ++ [(i, a)]) ds d j t.
Proof.
  intros Hne (fs0 & Hc & Ht). exists fs0. split; [done|].
  assert (j ∉ l.*1 -> j ∉ (l ++ [(i, a)]).*1) as Hj.
  { intros Hj. rewrite fmap_app, elem_of_app. by intros [?|?%list_elem_of_singleton]. }
  destruct (t_status t).
  - destruct Ht. auto.
  - destruct Ht as (? & ? & ?). auto.
  - rewrite elem_of_app. by left.
Qed.

Lemma insert_inside (ths : list thread) i t' j u k : <[i := t']> ths !! j = Some u -> inside k u ->
  ~ inside k t' -> i <> j /\ ths !! j = Some u.
Proof.
  intros Hu Hin Hout. destruct (decide (i = j)) as [->|Hne]; [|by rewrite list_lookup_insert_ne in Hu].
  apply list_lookup_insert_Some in Hu as [(_ & <- & _)|[? _]]; done.
Qed.

Lemma finished_outside o fs a k : ~ inside k (Thread o fs (Finished a)).
Proof. by intros [_ []]. Qed.

(** A thread is done, and what it has done is the next of the calls. *)
Lemma finish_inv d ths l ds i o fs fs' st fs0 a d' :
  inv (Config d ths) l ds -> ths !! i = Some (Thread o fs st) -> (forall b, st <> Finished b) ->
  calls !! i = Some (o, fs0) -> call o (seen Unlocked fs0 ds) = Val (a, d') ->
  shared d' = ds \/ shared d' = d /\ (forall j u k, i <> j -> ths !! j = Some u -> ~ inside k u) ->
  ((forall j u, i <> j -> ths !! j = Some u -> ~ inside WrLocked u) -> d = shared d') ->
  inv (Config d (<[i := Thread o fs' (Finished a)]> ths)) (l ++ [(i, a)]) (shared d').
Proof.
  intros [Hs Hlen Hsh Hth Hlog Hex Hq] Hi Hst Hc Hcall Hds Hquiet. cbn [c_db c_threads] in *.
  assert (i ∉ l.*1) as Hnew.
  { intros ([j b] & -> & Hin)%list_elem_of_fmap. cbn in Hi. apply Hlog in Hin as (t & Ht & Hb).
    rewrite Hi in Ht. injection Ht as <-. by eapply Hst. }
  pose proof (lookup_lt_Some _ _ _ Hi) as Hlt.
  split; cbn [c_db c_threads].
  - by econstructor.
  - by rewrite length_insert.
  - done.
  - intros j u Hu. destruct (decide (i = j)) as [<-|Hne].
    + rewrite list_lookup_insert_eq in Hu by done. injection Hu as <-. exists fs0. split; [done|].
      cbn. rewrite elem_of_app. right. by apply list_elem_of_singleton.
    + rewrite list_lookup_insert_ne in Hu by done. apply thread_inv_snoc; [done|].
      destruct Hds as [-> |[-> Hout]]; [by apply Hth|].
      eapply thread_inv_outside; [|by apply Hth]. by intros k; eapply Hout.
  - intros j b. rewrite elem_of_app. intros [Hin|[= -> ->]%list_elem_of_singleton].
    + destruct (decide (i = j)) as [<-|Hne].
      { destruct Hnew. apply list_elem_of_fmap. by exists (i, b). }
      rewrite list_lookup_insert_ne by done. by apply Hlog.
    + rewrite list_lookup_insert_eq by done. by eexists.
  - intros j1 j2 t u Hne Ht Hu Hin. pose proof (finished_outside o fs' a) as Hout.
    apply (insert_inside _ _ _ _ _ WrLocked) in Ht as [_ Ht]; [|done..].
    split; intros Hin2; eapply insert_inside in Hu as [_ Hu]; try done; by destruct (Hex j1 j2 t u Hne Ht Hu Hin).
  - intros Hno. apply Hquiet. intros j u Hne Hu. apply (Hno j). by rewrite list_lookup_insert_ne.
Qed.

(** A thread goes on inside: the other threads are outside, or it has changed nothing. *)
Lemma inside_inv d ths l ds i o fs st fs' p d' :
  inv (Config d ths) l ds -> ths !! i = Some (Thread o fs st) -> (forall b, st <> Finished b) ->
  shared d' = d' ->
  thread_inv l ds d' i (Thread o fs' (Inside p)) ->
  d' = d \/ (forall j u k, i <> j -> ths !! j = Some u -> ~ inside k u) ->
  (forall j u, i <> j -> ths !! j = Some u -> ~ inside WrLocked u /\ (mode o = WrLocked -> ~ inside RdLocked u)) ->
  (mode o <> WrLocked -> d' = d /\ d = ds) ->
  inv (Config d' (<[i := Thread o fs' (Inside p)]> ths)) l ds.
Proof.
  intros [Hs Hlen Hsh Hth Hlog Hex Hq] Hi Hst Hsh' Hme Hd' Hin Hrd. cbn [c_db c_threads] in *.
  pose proof (lookup_lt_Some _ _ _ Hi) as Hlt.
  split; cbn [c_db c_threads]; try done.
  - by rewrite length_insert.
  - intros j u Hu. destruct (decide (i = j)) as [<-|Hne].
    + rewrite list_lookup_insert_eq in Hu by done. by injection Hu as <-.
    + rewrite list_lookup_insert_ne in Hu by done.
      destruct Hd' as [-> |Hout]; [by apply Hth|].
      eapply thread_inv_outside; [|by apply Hth]. by intros k; eapply Hout.
  - intros j b Hl. apply Hlog in Hl as (u & Hu & Hb). destruct (decide (i = j)) as [<-|Hne].
    { rewrite Hi in Hu. injection Hu as <-. by destruct (Hst b). }
    exists u. by rewrite list_lookup_insert_ne.
  - intros j1 j2 t u Hne Ht Hu Hw. destruct (decide (i = j1)) as [<-|Hne1].
    + rewrite list_lookup_insert_eq in Ht by done. injection Ht as <-. destruct Hw as [Hm _]. cbn in Hm.
      rewrite list_lookup_insert_ne in Hu by done. destruct (Hin j2 u Hne Hu). auto.
    + rewrite list_lookup_insert_ne in Ht by done. by destruct (Hin j1 t Hne1 Ht) as [[] _].
  - intros Hno. destruct (decide (mode o = WrLocked)) as [Hm|Hm]; [|by destruct (Hrd Hm) as [-> ->]].
    destruct (Hno i (Thread o fs' (Inside p))); [by apply list_lookup_insert_eq|done].
Qed.

Lemma mode_reads o : reads o = true <-> mode o <> WrLocked.
Proof. by destruct o. Qed.

(** Nobody else is inside with a writer, and no writer with a reader. *)
Lemma inv_others d ths l ds i o fs p j u :
  inv (Config d ths) l ds -> ths !! i = Some (Thread o fs (Inside p)) -> i <> j -> ths !! j = Some u ->
  ~ inside WrLocked u /\ (mode o = WrLocked -> ~ inside RdLocked u).
Proof.
  intros Hinv Hi Hne Hu. pose proof (inv_exclusive _ _ _ Hinv) as Hex. cbn [c_threads] in Hex. split.
  - intros Hw. destruct (Hex j i u _ (not_eq_sym Hne) Hu Hi Hw) as [H1 H2].
    destruct o; [apply H1|apply H2]; by split.
  - intros Hm. apply (Hex i j _ u Hne Hi Hu). by split.
Qed.

Lemma inv_reader d ths l ds i o fs p :
  inv (Config d ths) l ds -> ths !! i = Some (Thread o fs (Inside p)) -> mode o <> WrLocked -> d = ds.
Proof.
  intros Hinv Hi Hm. apply (inv_quiet _ _ _ Hinv). cbn [c_threads]. intros j u Hu.
  destruct (decide (i = j)) as [<-|Hne]; [rewrite Hi in Hu; injection Hu as <-; by intros [? _]|].
  apply (inv_others _ _ _ _ _ _ _ _ _ _ Hinv Hi Hne Hu).
Qed.

Lemma inside_cases k t : inside k t -> inside WrLocked t \/ inside RdLocked t.
Proof. intros [Hk Hin]. destruct (t_op t) eqn:E; [left|right]; unfold inside; by rewrite E. Qed.

Lemma inv_writer d ths l ds i o fs p :
  inv (Config d ths) l ds -> ths !! i = Some (Thread o fs (Inside p)) -> mode o = WrLocked ->
  forall j u k, i <> j -> ths !! j = Some u -> ~ inside k u.
Proof.
  intros Hinv Hi Hm j u k Hne Hu Hin.
  destruct (inv_others _ _ _ _ _ _ _ _ _ _ Hinv Hi Hne Hu) as [H1 H2].
  apply inside_cases in Hin as [?|?]; [done|by apply H2].
Qed.

Lemma step_inv c c' l ds : step c c' -> inv c l ds -> exists l' ds', inv c' l' ds'.
Proof.
  destruct 1 as [i o f fs fs' d ths Hi Hp Hf|i o f fs fs' d ths Hi Hp Hf Hlet|i o fs B cm k b d' d ths Hi Hcm
    |i o fs a d ths Hi]; intros Hinv;
    destruct (inv_threads _ _ _ Hinv _ _ Hi) as (fs0 & Hc & Hst); cbn [t_op t_status t_faults c_db c_threads] in *.
  - (* the lock is refused *)
    destruct Hst as [<- Hnew]. pose proof (serial_shared _ _ (inv_serial _ _ _ Hinv)) as Hds.
    eexists (l ++ [(i, refused o)]), (shared (seen Unlocked fs' ds)).
    eapply finish_inv; [exact Hinv|exact Hi|done|exact Hc|by eapply call_refused|by left|].
    intros Hno. transitivity ds; [|done]. apply (inv_quiet _ _ _ Hinv). cbn [c_threads]. intros j u Hu.
    destruct (decide (i = j)) as [<-|Hne]; [rewrite Hi in Hu; injection Hu as <-; by intros [_ []]|by eapply Hno].
  - (* the lock is taken *)
    destruct Hst as [<- Hnew]. exists l, ds.
    assert (forall j u, ths !! j = Some u -> ~ inside WrLocked u /\ (mode o = WrLocked -> ~ inside RdLocked u)) as Hout.
    { intros j u Hu. by eapply Forall_lookup_1 in Hlet. }
    assert (d = ds) as ->. { apply (inv_quiet _ _ _ Hinv). intros j u Hu. by apply (Hout j u). }
    eapply inside_inv; [exact Hinv|exact Hi|done|apply (inv_shared _ _ _ Hinv)| |by left| |done].
    + exists fs. split; [done|]. split; [done|]. split; [apply body_steady|]. by exists f, fs'.
    + intros j u _ Hu. by apply (Hout j u).
  - (* a step between the lock and the unlock *)
    destruct Hst as (Hnew & [Hcalm Hk] & f & fs1 & Hp & Hf & Hrun). exists l, ds.
    destruct (Hcalm _ _ _ Hcm) as [Hlock Hrd]. cbn [seen lock file mapped] in Hlock, Hrd.
    pose proof (inv_shared _ _ _ Hinv) as Hsh. cbn [c_db] in Hsh.
    assert (mode o <> WrLocked -> shared d' = d) as Hsame.
    { intros Hm. destruct Hrd as [E1 E2]; [by apply mode_reads|]. rewrite <- Hsh. unfold shared, seen. by rewrite E1, E2. }
    eapply inside_inv; [exact Hinv|exact Hi|done|done| | | |].
    + exists fs0. split; [done|]. split; [done|]. split; [apply Hk|]. exists f, fs1. split; [done|]. split; [done|].
      cbn [t_op t_faults]. rewrite Hrun, (seen_back _ d' Hlock). cbn [run]. unfold mbind, cmd_bind. by rewrite Hcm.
    + destruct (decide (mode o = WrLocked)) as [Hm|Hm]; [right|left; by apply Hsame].
      by eapply inv_writer.
    + intros j u Hne Hu. by eapply inv_others.
    + intros Hm. split; [by apply Hsame|by eapply inv_reader].
  - (* the unlock *)
    destruct Hst as (Hnew & _ & f & fs1 & Hp & Hf & Hrun).
    pose proof (inv_shared _ _ _ Hinv) as Hsh. cbn [c_db] in Hsh.
    assert (call o (seen Unlocked fs0 ds) = Val (a, seen Unlocked fs d)) as Hcall.
    { rewrite (call_run _ _ _ _ _ Hp Hf). unfold mbind at 1, cmd_bind at 1. by rewrite Hrun. }
    exists (l ++ [(i, a)]), (shared (seen Unlocked fs d)).
    eapply finish_inv; [exact Hinv|exact Hi|done|exact Hc|exact Hcall| |by rewrite <- Hsh].
    destruct (decide (mode o = WrLocked)) as [Hm|Hm].
    + right. split; [exact Hsh|]. by eapply inv_writer.
    + left. etransitivity; [exact Hsh|by eapply inv_reader].
Qed.
End serial.

Lemma steps_inv calls d0 c : rtc step (start d0 calls) c -> exists l ds, inv calls d0 c l ds.
Proof.
  revert c. apply (rtc_ind_r (fun c => exists l ds, inv calls d0 c l ds)).
  - exists [], (shared d0). apply start_inv.
  - intros c1 c2 _ Hs (l & ds & Hinv). by eapply step_inv.
Qed.

(** ** Progress *)
Definition at_work (t : thread) : bool := match t_status t with Inside _ => true | _ => false end.
Definition is_done (t : thread) : bool := match t_status t with Finished _ => true | _ => false end.

Lemma some_or_all (f : thread -> bool) ths :
  (exists i t, ths !! i = Some t /\ f t = true) \/ Forall (fun t => f t = false) ths.
Proof.
  induction ths as [|t ths IH]; [by right|].
  destruct (f t) eqn:E; [left; by exists 0%nat, t|].
  destruct IH as [(i & u & Hi & Hu)|Hall]; [left; by exists (Datatypes.S i), u|right; by constructor].
Qed.

(** While a thread has not finished, one of them can go on. *)
Lemma goes_on calls d0 c l ds : inv calls d0 c l ds ->
  (forall i o fs, calls !! i = Some (o, fs) -> i ∉ l.*1 -> terminates (call o (seen Unlocked fs ds))) ->
  finished c \/ exists c', step c c'.
Proof.
  intros Hinv Hterm. destruct c as [d ths].
  destruct (some_or_all at_work ths) as [(i & [o fs st] & Hi & Hw)|Hidle].
  { destruct (inv_threads _ _ _ _ _ Hinv _ _ Hi) as (fs0 & Hc & Hst). cbn [t_op t_status t_faults] in *.
    destruct st as [|p|]; try done. destruct Hst as (Hnew & _ & f & fs1 & Hp & Hf & Hrun). cbn [c_db] in Hrun.
    destruct p as [a|B cm k]; [right; eexists; by eapply step_unlock|].
    destruct (Hterm i o fs0 Hc Hnew) as [x Hx]. rewrite (call_run _ _ _ _ _ Hp Hf) in Hx.
    unfold mbind at 1, cmd_bind at 1 in Hx. rewrite Hrun in Hx. cbn [run] in Hx.
    unfold mbind, cmd_bind in Hx.
    destruct (cm (seen (mode o) fs d)) as [[b d']| | | |] eqn:Ecm; [|done..].
    right. eexists. by eapply step_act. }
  destruct (some_or_all (fun t => negb (is_done t)) ths) as [(i & [o fs st] & Hi & Hw)|Hall].
  - right. destruct st as [|p|]; [|by eapply Forall_lookup_1 in Hidle; [|exact Hi]|done].
    destruct (pop fs) as [f fs'] eqn:Hp. destruct (fails f) eqn:Hf; eexists; [by eapply step_refused|].
    eapply step_lock; [done..|]. eapply Forall_impl; [exact Hidle|]. intros t Ht.
    assert (forall k, ~ inside k t) as Hn; [|auto]. intros k [_ Hin]. unfold at_work in Ht. by destruct (t_status t).
  - left. eapply Forall_impl; [exact Hall|]. intros t Ht. unfold is_done in Ht. by destruct (t_status t).
Qed.

(** ** No interleaving goes on for ever *)
Definition later (st' st : status) : Prop :=
  match st with
  | Waiting => st' <> Waiting
  | Inside (Ret a) => st' = Finished a
  | Inside (Act c k) => exists b, st' = Inside (k b)
  | Finished _ => False
  end.

Lemma later_wf : well_founded later.
Proof.
  assert (forall a, Acc later (Finished a)) as Hfin by by constructor.
  assert (forall p, Acc later (Inside p)) as Hin.
  { intros p. induction p as [a|B c k IH]; constructor; [by intros st ->|]. intros st [b ->]. apply IH. }
  intros [|p|a]; [|apply Hin|apply Hfin]. constructor. by intros [|p|a] Hst.
Qed.

Lemma step_later c c' : step c c' -> exists i t t',
  c_threads c !! i = Some t /\ c_threads c' = <[i := t']> (c_threads c) /\ later (t_status t') (t_status t).
Proof.
  destruct 1; do 3 eexists; (split; [eassumption|]); (split; [reflexivity|]); cbn; try done. by eexists.
Qed.

(** One element of a list gets smaller. *)
Definition one_later (l' l : list thread) : Prop := exists i t t',
  l !! i = Some t /\ l' = <[i := t']> l /\ later (t_status t') (t_status t).

Lemma cons_later_wf st : Acc later st -> forall t ths, t_status t = st ->
  Acc one_later ths -> Acc one_later (t :: ths).
Proof.
  induction 1 as [st _ IHst]. intros t ths Et Hacc. induction Hacc as [ths Hths IHths]. constructor.
  intros l' (i & u & u' & Hu & -> & Hlt). destruct i as [|i].
  - cbn in Hu |- *. injection Hu as <-. eapply IHst; [rewrite <- Et; exact Hlt|done|by constructor].
  - cbn. apply IHths. by exists i, u, u'.
Qed.

Lemma one_later_wf ths : Acc one_later ths.
Proof.
  induction ths as [|t ths IH]; [|by eapply cons_later_wf; [apply later_wf| |]].
  constructor. by intros l' (i & t & t' & Ht & _).
Qed.

Lemma step_wf : well_founded (fun c' c => step c c').
Proof.
  intros [d ths]. revert d. induction (one_later_wf ths) as [ths _ IH]. intros d. constructor.
  intros [d' ths'] H%step_later. by apply IH.
Qed.

(** ** On the list of pastes *)
Definition op_at (calls : list (op * list fault)) (i : nat) : op := default (Get 0 0) (fst <$> calls !! i).

Lemma fits_perm nb vals vals' : (length vals <= nb)%nat -> vals ≡ₚ vals' -> fits nb vals [] -> fits nb vals' [].
Proof.
  intros Hl Hp [Hf Hs]. split; [by rewrite <- Hp|].
  assert (forall i, length (records i vals) = length (records i vals')) as Hr.
  { clear Hl Hf Hs. induction Hp as [|v l l' _ IH|v w l|l l' l'' _ IH1 _ IH2]; intros i; cbn [records].
    - done.
    - rewrite !length_app. rewrite (IH (Datatypes.S i)). by rewrite !length_record_bytes.
    - rewrite !length_app, !length_record_bytes. rewrite (length_records_irrel (Datatypes.S (Datatypes.S i)) 0). lia.
    - by rewrite IH1. }
  rewrite length_layout in Hs |- * by (by rewrite <- ?Hp). by rewrite <- Hr.
Qed.

Section store.
Context (nb : nat) (vals : list (list Z)) (calls : list (op * list fault)) (d0 : db).
Abbreviation pastes := (calls.*1 ≫= pasted).
Context (Hd0 : holds nb vals d0) (Hok : Forall (fun x => op_ok (fst x)) calls).
Context (Hclean : Forall (fun x => clean (snd x)) calls).
Context (Hroom : (length (vals ++ pastes) <= nb)%nat) (Hfits : fits nb (vals ++ pastes) []).

Lemma ops_submseteq ids : NoDup ids -> (forall i, i ∈ ids -> (i < length calls)%nat) ->
  op_at calls <$> ids ⊆+ calls.*1.
Proof.
  intros Hnd Hlt. assert (calls.*1 = op_at calls <$> seq 0 (length calls)) as ->.
  { apply list_eq. intros i. rewrite !list_lookup_fmap. destruct (decide (i < length calls)%nat) as [Hi|Hi].
    - rewrite lookup_seq_lt by done. cbn. unfold op_at. by destruct (lookup_lt_is_Some_2 calls i Hi) as [x ->].
    - rewrite lookup_ge_None_2 by lia. rewrite (lookup_ge_None_2 (seq _ _)); [done|rewrite length_seq; lia]. }
  apply fmap_submseteq, NoDup_submseteq; [done|]. intros i Hi%Hlt. apply elem_of_seq. lia.
Qed.

Lemma room_for ids : NoDup ids -> (forall i, i ∈ ids -> (i < length calls)%nat) ->
  (length (vals ++ ((op_at calls <$> ids) ≫= pasted)) <= nb)%nat /\
  fits nb (vals ++ ((op_at calls <$> ids) ≫= pasted)) [].
Proof.
  intros Hnd Hlt. pose proof (ops_submseteq ids Hnd Hlt) as Hsub.
  apply (bind_submseteq pasted) in Hsub. apply submseteq_Permutation in Hsub as [k Hk].
  assert (vals ++ pastes ≡ₚ (vals ++ ((op_at calls <$> ids) ≫= pasted)) ++ k) as Hp.
  { by rewrite Hk, (assoc_L (++)). }
  assert (length ((vals ++ ((op_at calls <$> ids) ≫= pasted)) ++ k) <= nb)%nat as Hl.
  { rewrite <- (Permutation_length Hp). exact Hroom. }
  split; [rewrite length_app in Hl; lia|]. eapply fits_prefix; [exact Hl|]. by apply (fits_perm nb _ _ Hroom Hp).
Qed.

(** A call on what the ones before it have left, by the promise of the store. *)
Lemma call_good o ps fs d : holds nb ps d -> op_ok o -> clean fs -> room nb (ps ++ pasted o) ->
  wp (call o) (fun a d' => a = answer_of ps o /\ good nb (ps ++ pasted o) d') (seen Unlocked fs d).
Proof.
  intros [Hst Hl] Ho Hc Hr. apply (call_op_ok _ _ (PS := db_store nb)); [|done|done].
  split; [|done]. split; [|done]. by apply (stored_ext _ _ _ _ d).
Qed.

(** What the calls one after the other have left, and what they were answered. *)
Lemma serial_store l ds : serial calls d0 l ds ->
  holds nb (vals ++ ((op_at calls <$> l.*1) ≫= pasted)) ds /\
  l.*2 = in_turn vals (op_at calls <$> l.*1).
Proof.
  induction 1 as [|l d i o fs a d' Hs IH Hi Hnew Hcall].
  { rewrite app_nil_r. split; [|done]. destruct Hd0 as [Hst Hl]. split; [|done]. by apply (stored_ext _ _ _ _ d0). }
  destruct IH as [Hholds Hans]. set (os := op_at calls <$> l.*1) in *.
  assert (op_at calls <$> (l ++ [(i, a)]).*1 = os ++ [o]) as Eos.
  { rewrite !fmap_app. cbn. unfold op_at at 2. by rewrite Hi. }
  destruct (room_for (l ++ [(i, a)]).*1) as [Hl Hf].
  { rewrite fmap_app. apply NoDup_app. split_and!; [by eapply serial_nodup| |apply NoDup_singleton].
    by intros j Hj ->%list_elem_of_singleton. }
  { intros j. rewrite fmap_app, elem_of_app. intros [?| ->%list_elem_of_singleton];
      [by eapply serial_calls|by eapply lookup_lt_Some]. }
  rewrite Eos in Hl, Hf |- *. rewrite bind_app, (assoc_L (++)) in Hl, Hf |- *.
  cbn [mbind list_bind] in Hl, Hf |- *. rewrite app_nil_r in Hl, Hf |- *.
  rewrite fmap_app. cbn [fmap list_fmap snd]. rewrite in_turn_snoc, <- Hans.
  pose proof (Forall_lookup_1 _ _ _ _ Hok Hi) as Ho. pose proof (Forall_lookup_1 _ _ _ _ Hclean Hi) as Hc.
  cbn [fst snd] in Ho, Hc.
  destruct (proj1 (wp_Val _ _ _) (call_good o _ fs d Hholds Ho Hc (conj Hl Hf))) as (b & d1 & E & -> & [[Hst Hlk] _]).
  rewrite Hcall in E. injection E as -> ->. split; [|done]. split; [|done]. by apply (stored_ext _ _ _ _ d1).
Qed.

(** So the next of them ends as well. *)
Lemma next_terminates l ds i o fs : serial calls d0 l ds -> calls !! i = Some (o, fs) -> i ∉ l.*1 ->
  terminates (call o (seen Unlocked fs ds)).
Proof.
  intros Hs Hi Hnew. destruct (serial_store l ds Hs) as [Hholds _].
  set (os := op_at calls <$> l.*1) in *.
  destruct (room_for (l.*1 ++ [i])) as [Hl Hf].
  { apply NoDup_app. split_and!; [by eapply serial_nodup| |apply NoDup_singleton].
    by intros j Hj ->%list_elem_of_singleton. }
  { intros j. rewrite elem_of_app. intros [?| ->%list_elem_of_singleton];
      [by eapply serial_calls|by eapply lookup_lt_Some]. }
  assert (op_at calls <$> (l.*1 ++ [i]) = os ++ [o]) as Eos.
  { rewrite fmap_app. cbn. unfold op_at at 2. by rewrite Hi. }
  rewrite Eos, bind_app, (assoc_L (++)) in Hl, Hf. cbn [mbind list_bind] in Hl, Hf. rewrite app_nil_r in Hl, Hf.
  pose proof (Forall_lookup_1 _ _ _ _ Hok Hi) as Ho. pose proof (Forall_lookup_1 _ _ _ _ Hclean Hi) as Hc.
  cbn [fst snd] in Ho, Hc.
  destruct (proj1 (wp_Val _ _ _) (call_good o _ fs ds Hholds Ho Hc (conj Hl Hf))) as (b & d1 & E & _).
  by exists (b, d1).
Qed.
End store.

(** ** A scheduler that can be run *)

(** Thread [i] takes its next step, if it can. *)
Definition turn (c : config) (i : nat) : option config :=
  let d := c_db c in
  let ths := c_threads c in
  match ths !! i with
  | Some (Thread o fs Waiting) =>
      let (f, fs') := pop fs in
      if fails f then Some (Config d (<[i := Thread o fs' (Finished (refused o))]> ths))
      else if forallb (fun t => negb (at_work t && (negb (reads (t_op t)) || negb (reads o)))) ths
      then Some (Config d (<[i := Thread o fs' (Inside (body o))]> ths)) else None
  | Some (Thread o fs (Inside (Act cm k))) =>
      match cm (seen (mode o) fs d) with
      | Val (b, d') => Some (Config (shared d') (<[i := Thread o (sched d') (Inside (k b))]> ths))
      | _ => None
      end
  | Some (Thread o fs (Inside (Ret a))) => Some (Config d (<[i := Thread o fs (Finished a)]> ths))
  | _ => None
  end.

Fixpoint turns (c : config) (is_next : list nat) : option config :=
  match is_next with
  | [] => Some c
  | i :: is_next => c' ← turn c i; turns c' is_next
  end.

Lemma turn_step c i c' : turn c i = Some c' -> step c c'.
Proof.
  destruct c as [d ths]. unfold turn. cbn [c_db c_threads].
  destruct (ths !! i) as [[o fs [|p|a]]|] eqn:Hi; [|destruct p as [a|B cm k]|done..].
  - destruct (pop fs) as [f fs'] eqn:Hp. destruct (fails f) eqn:Hf; [intros [= <-]; by eapply step_refused|].
    destruct (forallb _ ths) eqn:Hall; [|done]. intros [= <-]. eapply step_lock; [done..|].
    rewrite forallb_forall in Hall. apply Forall_forall. intros t Ht%list_elem_of_In%Hall.
    unfold at_work, inside in *. destruct t as [[] fs2 []], o; cbn in *; try discriminate Ht;
      (split; [|intros Hk; try discriminate Hk]); intros [H1 H2]; try discriminate H1; exact H2.
  - intros [= <-]. by eapply step_unlock.
  - destruct (cm (seen (mode o) fs d)) as [[b d']| | | |] eqn:E; [|done..]. intros [= <-]. by eapply step_act.
Qed.

Lemma turns_steps is_next : forall c c', turns c is_next = Some c' -> rtc step c c'.
Proof.
  induction is_next as [|i is_next IH]; intros c c'; cbn [turns]; [by intros [= ->]|].
  destruct (turn c i) as [c1|] eqn:E; [|done]. cbn. intros H. eapply rtc_l; [by eapply turn_step|by apply IH].
Qed.

(** When all have finished, the calls that are over are all of them. *)
Lemma serial_order calls d0 c l ds : inv calls d0 c l ds -> finished c ->
  l.*1 ≡ₚ seq 0 (length calls) /\ c_db c = ds /\
  forall i a, (i, a) ∈ l <-> exists t, c_threads c !! i = Some t /\ t_status t = Finished a.
Proof.
  intros Hinv Hfin. pose proof (inv_serial _ _ _ _ _ Hinv) as Hs.
  assert (forall i t, c_threads c !! i = Some t -> exists a, t_status t = Finished a /\ (i, a) ∈ l) as Hall.
  { intros i t Hi. pose proof (Forall_lookup_1 _ _ _ _ Hfin Hi) as Ht.
    destruct (inv_threads _ _ _ _ _ Hinv i t Hi) as (fs0 & _ & Hst).
    cbn beta in Ht. destruct (t_status t) as [| |a]; try done. by exists a. }
  split_and!.
  - apply NoDup_Permutation; [by eapply serial_nodup|apply NoDup_seq|]. intros i. rewrite elem_of_seq. split.
    + intros Hi. split; [lia|]. by eapply serial_calls.
    + intros [_ Hi]. rewrite <- (inv_length _ _ _ _ _ Hinv) in Hi.
      destruct (lookup_lt_is_Some_2 (c_threads c) i Hi) as [t Ht]. destruct (Hall i t Ht) as (a & _ & Hin).
      apply list_elem_of_fmap. by exists (i, a).
  - apply (inv_quiet _ _ _ _ _ Hinv). intros i t Hi [_ Hw].
    destruct (Hall i t Hi) as (a & Ha & _). by rewrite Ha in Hw.
  - intros i a. split; [apply (inv_log _ _ _ _ _ Hinv)|]. intros (t & Ht & Ha).
    destruct (Hall i t Ht) as (a' & Ha' & Hin). by rewrite Ha in Ha'; injection Ha' as ->.
Qed.

(** Two threads that insert and two that get, and an interleaving of their steps in which
    the two that get are between lock and unlock at the same time. *)
Definition four_calls : list (op * list fault) :=
  [(Insert 4 [5] 1, []); (Get 4 0, []); (Get 4 1, []); (Insert 4 [6; 7] 2, [])].
Definition four_turns : list nat :=
  replicate 11 0%nat ++ mjoin (replicate 8 [1%nat; 2%nat]) ++ replicate 11 3%nat.
Definition four_start : config := start (image_db 4 [[7; 8]]) four_calls.
Definition four_end : config := default four_start (turns four_start four_turns).

Lemma four_steps : rtc step four_start four_end.
Proof. apply (turns_steps four_turns). by vm_compute. Qed.

Lemma four_finished : finished four_end.
Proof. unfold finished. let ths := eval vm_compute in (c_threads four_end) in change (c_threads four_end) with ths. repeat constructor. Qed.

Module ThreadsThm.

(** C7: Calls of db_insert and db_get by several threads at once have the effect of the
    same calls one after the other.  Whatever the interleaving of their steps, and
    whatever the outcomes of the system calls of each, when all have finished there is an
    order of the threads in which the calls, each run to its end by itself on what the
    ones before it have left, leave this database and give these answers. *)
Theorem calls_serialize calls d0 c : rtc step (start d0 calls) c -> finished c ->
  exists l, l.*1 ≡ₚ seq 0 (length calls) /\ serial calls d0 l (c_db c) /\
    forall i a, (i, a) ∈ l <-> exists t, c_threads c !! i = Some t /\ t_status t = Finished a.
Proof.
  intros (l & ds & Hinv)%steps_inv Hfin. destruct (serial_order _ _ _ _ _ Hinv Hfin) as (Hp & -> & Hl).
  exists l. split_and!; [done|apply Hinv|done].
Qed.

Lemma calls_serialize_witness : exists l, l.*1 ≡ₚ [0%nat; 1%nat; 2%nat; 3%nat] /\
  serial four_calls (image_db 4 [[7; 8]]) l (c_db four_end) /\
  (2%nat, Got (Some [5])) ∈ l.
Proof.
  destruct (calls_serialize four_calls (image_db 4 [[7; 8]]) four_end four_steps four_finished) as (l & Hl & Hs & Ha).
  exists l. split; [exact Hl|]. split; [exact Hs|]. apply Ha. eexists. split; by vm_compute.
Defined.

(** C6: With a free bucket for each new paste, pastes that fit, and no failing call,
    threads that insert and get at the same time lose nothing and never block one another.  However their steps
    interleave, as long as not all have finished one of them can go on, and they cannot go
    on for ever; when they have finished, the database holds the pastes it had followed by
    the new ones in some order of the threads, each insertion was answered with the number
    its paste has there, and each get with the paste of its number among those inserted
    before it. *)
Theorem pastes_all_kept nb vals calls d0 c :
  holds nb vals d0 -> Forall (fun x => op_ok (fst x)) calls -> Forall (fun x => clean (snd x)) calls ->
  (length (vals ++ (calls.*1 ≫= pasted)) <= nb)%nat -> fits nb (vals ++ (calls.*1 ≫= pasted)) [] ->
  rtc step (start d0 calls) c ->
  Acc (fun c2 c1 => step c1 c2) c /\ (finished c \/ exists c', step c c') /\
  (finished c -> exists order, order ≡ₚ seq 0 (length calls) /\
     holds nb (vals ++ ((op_at calls <$> order) ≫= pasted)) (c_db c) /\
     forall k i, order !! k = Some i -> exists t a, c_threads c !! i = Some t /\ t_status t = Finished a /\
       in_turn vals (op_at calls <$> order) !! k = Some a).
Proof.
  intros Hd0 Hok Hclean Hroom Hfits Hsteps. split; [apply step_wf|].
  destruct (steps_inv _ _ _ Hsteps) as (l & ds & Hinv). pose proof (inv_serial _ _ _ _ _ Hinv) as Hs. split.
  - eapply goes_on; [exact Hinv|]. intros i o fs Hi Hnew.
    by eapply (next_terminates nb vals calls d0).
  - intros Hfin. destruct (serial_order _ _ _ _ _ Hinv Hfin) as (Hperm & <- & Hlog). exists l.*1.
    destruct (serial_store nb vals calls d0 Hd0 Hok Hclean Hroom Hfits l (c_db c) Hs) as [Hh Ha].
    split_and!; [done|done|]. intros k i Hk. rewrite <- Ha.
    apply list_lookup_fmap_Some in Hk as ([j a] & -> & Hk). cbn [fst].
    destruct (proj1 (Hlog j a) (list_elem_of_lookup_2 _ _ _ Hk)) as (t & Ht & Hst).
    exists t, a. split_and!; [done|done|]. by rewrite list_lookup_fmap, Hk.
Qed.

Lemma pastes_all_kept_witness : exists order, order ≡ₚ [0%nat; 1%nat; 2%nat; 3%nat] /\
  holds 4 ([7; 8] :: ((op_at four_calls <$> order) ≫= pasted)) (c_db four_end).
Proof.
  destruct (pastes_all_kept 4 [[7; 8]] four_calls (image_db 4 [[7; 8]]) four_end) as (_ & _ & H).
  - apply image_db_holds; [by_compute|by_compute|]. by split; [repeat constructor|].
  - repeat constructor; cbn; lia.
  - repeat constructor.
  - by_compute.
  - by split; [repeat constructor|].
  - exact four_steps.
  - destruct (H four_finished) as (order & Ho & Hh & _). exists order. split; [exact Ho|exact Hh].
Defined.
End ThreadsThm.
