(* ===== verification/Array.v ===== *)
(** The growable array of array.h: macros on a pointer to the elements, in front
    of which a header keeps the size and the capacity.

    Module [Array] has the macros, for elements of [elmsz] bytes; module
    [ArraySpec] the list they represent ([elems]), the invariant [wf] and the
    theorems. *)
From S2P Require Import Prelude.

Module Array.

(** struct array_header_t and the elements behind it; NULL is [None].  There is
    one slot for every element that the allocation has room for. *)
Record array_header_t (A : Type) := MkArray { sz : Z; cap : Z; slots : list A }.
Arguments MkArray {A} sz cap slots.
Arguments sz {A} a : rename.
Arguments cap {A} a : rename.
Arguments slots {A} a : rename.

Section array.
Context {A : Type}.
Abbreviation array := (option (array_header_t A)).
Implicit Types a : array.

(** sizeof(array_header_t), and sizeof of an element. *)
Definition HEADER : Z := 16.
Variable elmsz : Z.

(** The answer of malloc or realloc: NULL, or a block in which slot [i], if it
    is new, holds [g i]. *)
Abbreviation alloc := (option (nat -> A)).

Definition array_size a : Z := match a with Some h => sz h | None => 0 end.
Definition array_cap a : Z := match a with Some h => cap h | None => 0 end.
Definition array_full a : bool := array_size a =? array_cap a.

(** The header of a pointer that is dereferenced without a test. *)
Definition array_header a : res (array_header_t A) := res_opt a.

(** The elements for which [sizeof *header + n * elmsz] bytes, computed in 64
    bits, have room; a smaller block does not even hold the header. *)
Definition block_slots (n : Z) : res nat :=
  let bytes := u64 (HEADER + u64 (n * elmsz)) in
  if bytes <? HEADER then Stuck else Val (Z.to_nat ((bytes - HEADER) / elmsz)).

Definition array_resize (g : alloc) a (n : Z) : res array :=
  let n := if n =? 0 then 1 else n in
  match g with
  | None => Stuck
  | Some g =>
      k ← block_slots n;
      let old := match a with Some h => slots h | None => [] end in
      Val (Some (MkArray (array_size a) n (take k old ++ (g <$> seq (length old) (k - length old)))))
  end.

(** a[i] = item *)
Definition set_slot a (i : Z) (item : A) : res array :=
  h ← array_header a;
  if (0 <=? i) && (i <? Z.of_nat (length (slots h)))
  then Val (Some (MkArray (sz h) (cap h) (<[Z.to_nat i := item]> (slots h))))
  else Stuck.

Definition set_size a (n : Z) : res array :=
  h ← array_header a;
  Val (Some (MkArray (u64 n) (cap h) (slots h))).

(** memmove(&a[dst], &a[src], n elements): both ranges lie in the block. *)
Definition move_slots a (dst src n : Z) : res array :=
  h ← array_header a;
  let l := slots h in
  if (dst <? 0) || (src <? 0) || (n <? 0) ||
     (Z.of_nat (length l) <? dst + n) || (Z.of_nat (length l) <? src + n) then Stuck
  else
    let moved := take (Z.to_nat n) (drop (Z.to_nat src) l) in
    Val (Some (MkArray (sz h) (cap h)
      (take (Z.to_nat dst) l ++ moved ++ drop (Z.to_nat dst + Z.to_nat n) l))).

Definition array_push_back (g : alloc) a (item : A) : res array :=
  a ← (if array_full a then array_resize g a (u64 (array_size a * 2)) else Val a);
  let i := array_size a in
  a ← set_size a (i + 1);
  set_slot a i item.

(** next_pot64 is used by this macro and defined nowhere in the program. *)
Definition array_push_back_n (next_pot64 : Z -> Z) (g : alloc) a (items : list A) : res array :=
  let n := Z.of_nat (length items) in
  a ← (if array_cap a <? u64 (array_size a + n)
       then array_resize g a (next_pot64 (u64 (array_size a + n))) else Val a);
  h ← array_header a;
  if Z.of_nat (length (slots h)) <? sz h + n then Stuck
  else
    Val (Some (MkArray (u64 (sz h + n)) (cap h)
      (take (Z.to_nat (sz h)) (slots h) ++ items ++
       drop (Z.to_nat (sz h) + length items) (slots h)))).

Definition array_insert (g : alloc) a (item : A) (i : Z) : res array :=
  a ← (if array_full a then array_resize g a (u64 (array_size a * 2)) else Val a);
  a ← (if negb (array_size a =? 0) then move_slots a (i + 1) i (array_size a - i) else Val a);
  a ← set_slot a i item;
  set_size a (array_size a + 1).

Definition array_pop_back a : res array :=
  if array_size a =? 0 then Val a else set_size a (array_size a - 1).

Definition array_remove a (i : Z) : res array :=
  a ← (if i <? u64 (array_size a - 1) then move_slots a i (i + 1) (array_size a - i - 1) else Val a);
  set_size a (array_size a - 1).

Definition array_clear a : res array :=
  match a with Some _ => set_size a 0 | None => Val a end.

Definition array_shrink (g : alloc) a : res array :=
  if array_size a <? array_cap a then array_resize g a (array_size a) else Val a.

Definition array_ensure (g : alloc) a (n : Z) : res array :=
  if array_size a <? n then array_resize g a n else Val a.

(** A read of a[i]. *)
Definition array_get a (i : Z) : res A :=
  h ← array_header a;
  if i <? 0 then Stuck else res_opt (slots h !! Z.to_nat i).

End array.
End Array.

Module ArraySpec.
Import Array.

Section spec.
Context {A : Type}.
Variable elmsz : Z.
Hypothesis elmsz_pos : 0 < elmsz.
Abbreviation array := (option (array_header_t A)).
Implicit Types a : array.

(** The list an array stands for. *)
Definition elems a : list A :=
  match a with Some h => take (Z.to_nat (sz h)) (slots h) | None => [] end.

(** The elements are inside the block, which has a slot for each element of the
    capacity. *)
Definition wf a : Prop :=
  match a with
  | None => True
  | Some h => 0 <= sz h <= cap h /\ 0 < cap h /\ Z.of_nat (length (slots h)) = cap h /\
              HEADER + cap h * elmsz < 2 ^ 64
  end.

Lemma wf_size a : wf a -> array_size a = Z.of_nat (length (elems a)).
Proof.
  destruct a as [h|]; [|done]. cbn. intros (H1 & _ & H2 & _). rewrite length_take. lia.
Qed.

Lemma block_slots_ok n : 0 <= n -> HEADER + n * elmsz < 2 ^ 64 ->
  block_slots elmsz n = Val (Z.to_nat n).
Proof.
  intros Hn Hm. unfold block_slots. unfold HEADER in *.
  assert (0 <= n * elmsz) by nia.
  rewrite (wrap_small 64 (n * elmsz)), wrap_small by (pow2; lia). replace (16 + n * elmsz <? 16) with false by zlia.
  do 2 f_equal. replace (16 + n * elmsz - 16) with (n * elmsz) by lia.
  by rewrite Z.div_mul by lia.
Qed.

(** Resizing keeps the elements that still have room. *)
Lemma array_resize_ok g a n :
  wf a -> array_size a <= n -> HEADER + Z.max 1 n * elmsz < 2 ^ 64 ->
  exists a', array_resize elmsz (Some g) a n = Val a' /\ wf a' /\ elems a' = elems a /\
    array_cap a' = Z.max 1 n /\ a' <> None.
Proof.
  intros Hwf Hn Hm. unfold array_resize.
  pose proof (wf_size a Hwf) as Hs.
  replace (if n =? 0 then 1 else n) with (Z.max 1 n) by (destruct (Z.eqb_spec n 0); lia).
  rewrite block_slots_ok by lia. cbn [mbind res_bind].
  eexists. split; [done|]. set (old := match a with Some h => slots h | None => [] end).
  assert (Z.of_nat (length old) = array_cap a) as Hold by (destruct a; cbn in *; [naive_solver|done]).
  split_and!; [| |done|done].
  - cbn. rewrite length_app, length_take, length_fmap, length_seq.
    destruct a as [h|]; cbn in *; lia.
  - unfold elems at 1. cbn [sz slots].
    assert (elems a = take (Z.to_nat (array_size a)) old) as -> by (destruct a; done).
    rewrite take_app_le.
    + rewrite take_take. f_equal. lia.
    + rewrite length_take. destruct a as [h|]; cbn in *; lia.
Qed.

(** Making room for one more element. *)
Lemma make_room g a :
  wf a -> HEADER + (2 * array_size a + 1) * elmsz < 2 ^ 64 ->
  exists h, (if array_full a then array_resize elmsz (Some g) a (u64 (array_size a * 2)) else Val a) =
      Val (Some h) /\
    wf (Some h) /\ elems (Some h) = elems a /\ sz h < cap h /\
    (cap h = array_cap a \/ cap h = Z.max 1 (2 * array_size a)).
Proof.
  intros Hwf Hm. pose proof (wf_size a Hwf) as Hs. unfold HEADER in *. unfold array_full.
  destruct (Z.eqb_spec (array_size a) (array_cap a)) as [Heq|Hne].
  - rewrite (wrap_small 64) by (pow2; nia).
    destruct (array_resize_ok g a (array_size a * 2)) as (a' & -> & Hw & He & Hc & Hn);
      [done|lia|unfold HEADER; nia|].
    destruct a' as [h|]; [|done]. exists h. split_and!; [done..| |].
    + pose proof (wf_size _ Hw) as Hs'. cbn [array_size array_cap] in *. rewrite He in Hs'. lia.
    + right. cbn in Hc. lia.
  - destruct a as [h|]; [|done]. exists h. cbn in *. split_and!; try done; lia.
Qed.

Lemma set_slot_ok h i (x : A) : 0 <= i < Z.of_nat (length (slots h)) ->
  set_slot (Some h) i x = Val (Some (MkArray (sz h) (cap h) (<[Z.to_nat i := x]> (slots h)))).
Proof.
  intros Hi. unfold set_slot. cbn. by replace ((0 <=? i) && (i <? Z.of_nat (length (slots h)))) with true by zlia.
Qed.

Lemma array_push_back_ok g a x :
  wf a -> HEADER + (2 * array_size a + 1) * elmsz < 2 ^ 64 ->
  exists a', array_push_back elmsz (Some g) a x = Val a' /\ wf a' /\
    elems a' = elems a ++ [x] /\
    (array_cap a' = array_cap a \/ array_cap a' = Z.max 1 (2 * array_size a)).
Proof.
  intros Hwf Hm. pose proof (wf_size a Hwf) as Hs. unfold array_push_back.
  destruct (make_room g a Hwf Hm) as (h & -> & Hw & He & Hlt & Hc). cbn [mbind res_bind].
  pose proof (wf_size _ Hw) as Hs'. cbn [array_size] in *. rewrite He in Hs'.
  destruct Hw as (H1 & H2 & H3 & H4). unfold HEADER in *.
  unfold set_size. cbn [array_header res_opt mbind res_bind].
  rewrite set_slot_ok by (cbn; lia). eexists. split; [done|]. cbn [sz cap slots].
  rewrite (wrap_small 64) by (pow2; nia). split; [|split; [|done]].
  - cbn. rewrite length_insert. unfold HEADER. lia.
  - unfold elems at 1. cbn [sz slots]. rewrite <- He. cbn [elems].
    replace (Z.to_nat (sz h + 1)) with (S (Z.to_nat (sz h))) by lia.
    rewrite (take_S_r _ _ x) by (apply list_lookup_insert_eq; lia).
    by rewrite take_insert_ge by lia.
Qed.

Lemma elems_move h dst src n : 0 <= dst -> 0 <= src -> 0 <= n ->
  dst + n <= Z.of_nat (length (slots h)) -> src + n <= Z.of_nat (length (slots h)) ->
  move_slots (Some h) dst src n = Val (Some (MkArray (A := A) (sz h) (cap h)
      (take (Z.to_nat dst) (slots h) ++ take (Z.to_nat n) (drop (Z.to_nat src) (slots h)) ++
       drop (Z.to_nat dst + Z.to_nat n) (slots h)))).
Proof.
  intros. unfold move_slots. cbn [array_header res_opt mbind res_bind].
  by replace ((dst <? 0) || (src <? 0) || (n <? 0) || (Z.of_nat (length (slots h)) <? dst + n)
    || (Z.of_nat (length (slots h)) <? src + n)) with false by zlia.
Qed.

Lemma array_insert_ok g a x i :
  wf a -> (i <= length (elems a))%nat -> HEADER + (2 * array_size a + 1) * elmsz < 2 ^ 64 ->
  exists a', array_insert elmsz (Some g) a x (Z.of_nat i) = Val a' /\ wf a' /\
    elems a' = take i (elems a) ++ x :: drop i (elems a).
Proof.
  intros Hwf Hi Hm. pose proof (wf_size a Hwf) as Hs. unfold array_insert.
  destruct (make_room g a Hwf Hm) as (h & -> & Hw & He & Hlt & Hc). cbn [mbind res_bind].
  pose proof (wf_size _ Hw) as Hs'. cbn [array_size] in *. rewrite He in Hs'. rewrite <- He in *.
  destruct Hw as (H1 & H2 & H3 & H4). unfold HEADER in *.
  set (l2 := take i (slots h) ++ take (Z.to_nat (sz h - Z.of_nat i)) (drop i (slots h))).
  assert (exists l3, (if negb (sz h =? 0)
      then move_slots (Some h) (Z.of_nat i + 1) (Z.of_nat i) (sz h - Z.of_nat i)
      else Val (Some h)) = Val (Some (MkArray (sz h) (cap h) l3)) /\
    length l3 = length (slots h) /\ take i l3 = take i (slots h) /\
    take (Z.to_nat (sz h) - i) (drop (S i) l3) = take (Z.to_nat (sz h) - i) (drop i (slots h)))
    as (l3 & -> & Hl3 & Ht3 & Hd3).
  { destruct (Z.eqb_spec (sz h) 0) as [E|E]; cbn [negb].
    - exists (slots h). split_and!; [by destruct h|done|done|].
      replace (Z.to_nat (sz h) - i)%nat with 0%nat by lia. done.
    - rewrite elems_move by lia.
      eexists. split; [done|]. rewrite Nat2Z.id.
      replace (Z.to_nat (Z.of_nat i + 1)) with (S i) by lia.
      replace (Z.to_nat (sz h - Z.of_nat i)) with (Z.to_nat (sz h) - i)%nat by lia.
      assert (length (take (S i) (slots h)) = S i) as Hl by (rewrite length_take; lia).
      assert (length (take (Z.to_nat (sz h) - i) (drop i (slots h))) = (Z.to_nat (sz h) - i)%nat)
        as Hl' by (rewrite length_take, length_drop; lia).
      split_and!.
      + rewrite !length_app, Hl, Hl', length_drop. lia.
      + rewrite take_app_le by lia. rewrite take_take. f_equal. lia.
      + rewrite drop_app_length' by done. by rewrite take_app_length' by done. }
  cbn [mbind res_bind]. rewrite set_slot_ok by (cbn; lia). cbn [mbind res_bind array_size sz cap slots].
  unfold set_size. cbn [array_header res_opt mbind res_bind sz cap slots]. rewrite Nat2Z.id.
  eexists. split; [done|]. rewrite (wrap_small 64) by (pow2; nia). split.
  - cbn. rewrite length_insert. unfold HEADER. lia.
  - cbn [elems sz slots] in *.
    replace (Z.to_nat (sz h + 1)) with (S (Z.to_nat (sz h))) by lia.
    rewrite (insert_take_drop l3 i x) by lia.
    assert (length (take i l3) = i) as Hl by (rewrite length_take; lia).
    rewrite take_app_ge by lia. rewrite Hl, Ht3.
    replace (S (Z.to_nat (sz h)) - i)%nat with (S (Z.to_nat (sz h) - i)) by lia.
    cbn [take]. rewrite Hd3, take_take, take_drop_commute, Nat.min_l by lia.
    do 2 f_equal. do 2 f_equal. lia.
Qed.

Lemma array_remove_ok a i :
  wf a -> (i < length (elems a))%nat ->
  exists a', array_remove a (Z.of_nat i) = Val a' /\ wf a' /\ elems a' = delete i (elems a).
Proof.
  intros Hwf Hi. pose proof (wf_size a Hwf) as Hs. destruct a as [h|]; [|cbn in Hi; lia].
  cbn [array_size] in Hs. destruct Hwf as (H1 & H2 & H3 & H4).
  assert (sz h < 2 ^ 64) as Hmax by (unfold HEADER in *; nia).
  unfold array_remove. cbn [array_size]. rewrite (wrap_small 64) by (pow2; lia).
  assert (exists l3, (if Z.of_nat i <? sz h - 1
      then move_slots (Some h) (Z.of_nat i) (Z.of_nat i + 1) (sz h - Z.of_nat i - 1)
      else Val (Some h)) = Val (Some (MkArray (sz h) (cap h) l3)) /\
    length l3 = length (slots h) /\
    take (Z.to_nat (sz h) - 1) l3 = delete i (elems (Some h))) as (l3 & -> & Hl3 & He3).
  { rewrite delete_take_drop. cbn [elems].
    destruct (Z.ltb_spec (Z.of_nat i) (sz h - 1)) as [Hlt|Hge].
    - rewrite elems_move by lia.
      eexists. split; [done|]. rewrite Nat2Z.id.
      replace (Z.to_nat (Z.of_nat i + 1)) with (S i) by lia.
      replace (Z.to_nat (sz h - Z.of_nat i - 1)) with (Z.to_nat (sz h) - S i)%nat by lia.
      assert (length (take i (slots h)) = i) as Hl by (rewrite length_take; lia).
      assert (length (take (Z.to_nat (sz h) - S i) (drop (S i) (slots h))) = (Z.to_nat (sz h) - S i)%nat)
        as Hl' by (rewrite length_take, length_drop; lia).
      split; [rewrite !length_app, Hl, Hl', length_drop; lia|].
      rewrite (assoc_L (++)), take_app_length' by (rewrite length_app; lia).
      rewrite take_take, Nat.min_l, take_drop_commute by lia. do 2 f_equal. f_equal. lia.
    - exists (slots h). split; [by destruct h|]. split; [done|].
      rewrite take_take, Nat.min_l by lia.
      rewrite (drop_ge (take _ _)) by (rewrite length_take; lia). rewrite app_nil_r. f_equal. lia. }
  cbn [mbind res_bind]. unfold set_size. cbn [array_header res_opt mbind res_bind sz cap slots array_size].
  eexists. split; [done|]. rewrite (wrap_small 64) by (pow2; lia). split.
  - cbn. lia.
  - cbn [elems sz slots] in *. rewrite <- He3. f_equal. lia.
Qed.

(** What [n] pushes onto NULL leave. *)
Fixpoint push_all (gs : nat -> nat -> A) a (xs : list A) : res array :=
  match xs with
  | [] => Val a
  | x :: xs => a ← array_push_back elmsz (Some (gs (length xs))) a x; push_all gs a xs
  end.

Lemma push_all_ok gs xs : forall a, wf a ->
  array_cap a <= Z.max 1 (2 * array_size a) ->
  HEADER + 2 * (array_size a + Z.of_nat (length xs) + 1) * elmsz < 2 ^ 64 ->
  exists a', push_all gs a xs = Val a' /\ wf a' /\ elems a' = elems a ++ xs /\
    array_cap a' <= Z.max 1 (2 * array_size a').
Proof.
  induction xs as [|x xs IH]; intros a Hwf Hc Hm; cbn [push_all].
  - exists a. by rewrite app_nil_r.
  - pose proof (wf_size a Hwf) as Hs. cbn [length] in Hm.
    destruct (array_push_back_ok (gs (length xs)) a x Hwf) as (a1 & -> & Hw1 & He1 & Hc1);
      [unfold HEADER in *; nia|].
    pose proof (wf_size a1 Hw1) as Hs1. rewrite He1, length_app in Hs1. cbn [length] in Hs1.
    cbn [mbind res_bind]. destruct (IH a1) as (a' & H1 & H2 & H3 & H4); [done|lia| |].
    + replace (array_size a1) with (array_size a + 1) by lia. unfold HEADER in *. nia.
    + exists a'. split_and!; try done. rewrite H3, He1. by app_norm.
Qed.
End spec.
End ArraySpec.

Module ArrayThm.
Import Array ArraySpec.

(** pushing any list of items onto the NULL array, with every allocation
    succeeding and room for twice the items in the address space, gives an array
    of exactly these items in order, without an access outside the block, whose
    capacity is at most twice its size. *)
Theorem array_pushes_correct {A : Type} elmsz (gs : nat -> nat -> A) xs :
  0 < elmsz -> HEADER + 2 * (Z.of_nat (length xs) + 1) * elmsz < 2 ^ 64 ->
  exists a, push_all elmsz gs None xs = Val a /\ wf elmsz a /\ elems a = xs /\
    array_size a = Z.of_nat (length xs) /\
    array_cap a <= Z.max 1 (2 * Z.of_nat (length xs)).
Proof.
  intros He Hm. destruct (push_all_ok elmsz He gs xs None) as (a & H1 & H2 & H3 & H4);
    [done|cbn; lia|done|].
  pose proof (wf_size elmsz a H2) as Hs. rewrite H3 in Hs. cbn [elems app] in *.
  exists a. split_and!; [done..|]. by rewrite Hs in H4.
Qed.

(** array_insert at a position of the array (or at its end) and array_remove
    of an element are insertion into and deletion from the list of elements;
    both keep the invariant and never access memory outside the block. *)
Theorem array_edit_correct {A : Type} elmsz (g : nat -> A) a x i :
  0 < elmsz -> wf elmsz a -> HEADER + (2 * array_size a + 1) * elmsz < 2 ^ 64 ->
  ((i <= length (elems a))%nat ->
   exists a', array_insert elmsz (Some g) a x (Z.of_nat i) = Val a' /\ wf elmsz a' /\
     elems a' = take i (elems a) ++ x :: drop i (elems a)) /\
  ((i < length (elems a))%nat ->
   exists a', array_remove a (Z.of_nat i) = Val a' /\ wf elmsz a' /\
     elems a' = delete i (elems a)).
Proof.
  intros He Hwf Hm. split; intros Hi.
  - by apply array_insert_ok.
  - by apply array_remove_ok.
Qed.

Lemma array_pushes_correct_witness : exists a,
  push_all 8 (fun _ _ => 0) None [5; 6; 7] = Val a /\ elems a = [5; 6; 7].
Proof.
  destruct (array_pushes_correct 8 (fun _ _ => 0) [5; 6; 7] ltac:(lia) ltac:(by vm_compute))
    as (a & H1 & _ & H2 & _).
  by exists a.
Defined.

Lemma array_edit_correct_witness :
  (exists a, array_insert 8 (Some (fun _ => 0)) (Some (MkArray 2 2 [5; 7])) 6 1 = Val a /\
     elems a = [5; 6; 7]) /\
  (exists a, array_remove (Some (MkArray 2 2 [5; 7])) 1 = Val a /\ elems a = [5]).
Proof.
  destruct (array_edit_correct 8 (fun _ => 0) (Some (MkArray 2 2 [5; 7])) 6 1%nat
    ltac:(lia) ltac:(split_and!; by vm_compute) ltac:(by vm_compute)) as [H1 H2].
  split.
  - destruct (H1 ltac:(apply Nat.leb_le; by vm_compute)) as (a & Ha & _ & He). by exists a.
  - destruct (H2 ltac:(apply Nat.ltb_lt; by vm_compute)) as (a & Ha & _ & He). by exists a.
Defined.
End ArrayThm.
