(* ===== verification/Route.v ===== *)
(** The route table of route.c: routes are pushed to a growable array once, and
    every request is matched against all of them.

    Module [Route] has the code; module [RouteSpec] the list-level choice of a
    route and the theorem that match_route makes it. *)
From S2P Require Import Prelude Buffer Http Array.

Module Route.
Import CMem Http Array.

Inductive route_match := ROUTE_MATCH_EXACT | ROUTE_MATCH_PREFIX.

#[global] Instance route_match_eq_dec : EqDecision route_match.
Proof. solve_decision. Defined.

(** struct route.  [uri] is the C string it points to; callbacks are numbers. *)
Record route := MkRoute {
  method : http_method;
  match_kind : route_match;
  uri : list Z;
  len : Z;
  cb : ptr;
  data : ptr;
}.

Abbreviation routes_t := (option (array_header_t route)).

(** sizeof(struct route) *)
Definition SIZEOF_ROUTE : Z := 40.

Fixpoint strlen (s : list Z) : res Z :=
  match s with
  | [] => Stuck
  | c :: s => if c =? 0 then Val 0 else n ← strlen s; Val (n + 1)
  end.

Definition add_route (g : option (nat -> route)) (routes : routes_t) (method : http_method)
    (match_kind : route_match) (uri : list Z) (cb data : ptr) : res routes_t :=
  len ← strlen uri;
  array_push_back SIZEOF_ROUTE g routes (MkRoute method match_kind uri len cb data).

(** The loop over the routes from [i] on, [n] of them left; the URI is at [u] in
    the request's buffer [m]. *)
Fixpoint match_loop (routes : routes_t) (meth : http_method) (m : list Z) (u ulen : Z)
    (n : nat) (i : Z) (match_ : option route) (longest : Z) : res (option route) :=
  match n with
  | O => Val match_
  | S n =>
      r ← array_get routes i;
      if negb (bool_decide (method r = meth)) then
        match_loop routes meth m u ulen n (i + 1) match_ longest
      else
        match match_kind r with
        | ROUTE_MATCH_EXACT =>
            if len r =? ulen then
              eq ← strncmp_eq (uri r) 0 m u (Z.to_nat (len r));
              if (eq : bool) then Val (Some r)
              else match_loop routes meth m u ulen n (i + 1) match_ longest
            else match_loop routes meth m u ulen n (i + 1) match_ longest
        | ROUTE_MATCH_PREFIX =>
            eq ← strncmp_eq (uri r) 0 m u (Z.to_nat (len r));
            if (eq : bool) && (longest <? len r)
            then match_loop routes meth m u ulen n (i + 1) (Some r) (len r)
            else match_loop routes meth m u ulen n (i + 1) match_ longest
        end
  end.

Definition match_route (routes : routes_t) (meth : http_method) (m : list Z) (u ulen : Z)
    : res (option route) :=
  match_loop routes meth m u ulen (Z.to_nat (array_size routes)) 0 None 0.

End Route.

Module RouteSpec.
Import CMem Http Array ArraySpec Route.

(** The characters of a route's URI. *)
Definition text (r : route) : list Z := take (Z.to_nat (len r)) (uri r).

(** A route as add_route makes it: a C string and its length.  [c] is a
    character that no route has. *)
Record route_ok (c : Z) (r : route) : Prop := {
  route_uri : uri r = text r ++ [0];
  route_len : len r = Z.of_nat (length (text r));
  route_nul : 0 ∉ text r;
  route_sep : c ∉ text r;
}.

(** *** The choice of a route *)
Definition is_exact (meth : http_method) (u : list Z) (r : route) : bool :=
  bool_decide (method r = meth) && bool_decide (match_kind r = ROUTE_MATCH_EXACT) &&
  bool_decide (text r = u).
Definition is_prefix (meth : http_method) (u : list Z) (r : route) : bool :=
  bool_decide (method r = meth) && bool_decide (match_kind r = ROUTE_MATCH_PREFIX) &&
  bool_decide (text r `prefix_of` u).

(** The first of the longest ones that are longer than [n]. *)
Fixpoint longest_from (best : option route) (n : nat) (rs : list route) : option route :=
  match rs with
  | [] => best
  | r :: rs =>
      if (n <? length (text r))%nat then longest_from (Some r) (length (text r)) rs
      else longest_from best n rs
  end.

(** An exact match wins; otherwise the longest prefix that is not empty. *)
Definition best_route (meth : http_method) (u : list Z) (rs : list route) : option route :=
  match List.filter (is_exact meth u) rs with
  | r :: _ => Some r
  | [] => longest_from None 0 (List.filter (is_prefix meth u) rs)
  end.

(** What [longest_from] picks is one of the candidates and none is longer. *)
Lemma longest_from_spec rs : forall best n,
  match longest_from best n rs with
  | Some r => (best = Some r /\ Forall (fun r' => length (text r') <= n)%nat rs) \/
      exists rs1 rs2, rs = rs1 ++ r :: rs2 /\ (n < length (text r))%nat /\
        Forall (fun r' => length (text r') < length (text r))%nat rs1 /\
        Forall (fun r' => length (text r') <= length (text r))%nat rs2
  | None => best = None /\ Forall (fun r' => length (text r') <= n)%nat rs
  end.
Proof.
  induction rs as [|r rs IH]; intros best n; cbn [longest_from].
  - destruct best; [left|]; done.
  - destruct (Nat.ltb_spec n (length (text r))) as [Hlt|Hge].
    + specialize (IH (Some r) (length (text r))).
      destruct (longest_from _ _ rs) as [r'|]; [|by destruct IH].
      right. destruct IH as [[[= ->] Hall]|(rs1 & rs2 & -> & Hn & H1 & H2)].
      * exists [], rs. split_and!; [done|lia|constructor|done].
      * exists (r :: rs1), rs2. split_and!; [done|lia| |done]. by constructor.
    + specialize (IH best n). destruct (longest_from _ _ rs) as [r'|].
      * destruct IH as [[-> Hall]|(rs1 & rs2 & -> & Hn & H1 & H2)].
        -- left. split; [done|]. by constructor.
        -- right. exists (r :: rs1), rs2. split_and!; [done|done| |done].
           constructor; [lia|done].
      * destruct IH as [-> Hall]. split; [done|]. by constructor.
Qed.

(** *** The comparisons *)

(** strncmp of a whole string against a text followed by [c] is the prefix test. *)
Lemma strncmp_prefix t : forall pa pb u c post, 0 ∉ t -> c ∉ t ->
  strncmp_eq (pa ++ t ++ [0]) (Z.of_nat (length pa)) (pb ++ u ++ c :: post) (Z.of_nat (length pb))
    (length t) = Val (bool_decide (t `prefix_of` u)).
Proof.
  induction t as [|a t IH]; intros pa pb u c post H0 Hc; cbn [length strncmp_eq].
  { by rewrite bool_decide_true by apply prefix_nil. }
  rewrite not_elem_of_cons in H0, Hc. destruct H0 as [Ha H0], Hc as [Hac Hc].
  cbn [app]. rewrite load_mid. cbn [mbind res_bind].
  destruct u as [|b u].
  - cbn [app]. rewrite load_mid. cbn [mbind res_bind].
    replace (negb (a =? c)) with true by zlia.
    rewrite bool_decide_false; [done|]. by intros ?%prefix_nil_not.
  - cbn [app]. rewrite load_mid. cbn [mbind res_bind].
    destruct (Z.eqb_spec a b) as [->|Hab]; cbn [negb].
    + replace (b =? 0) with false by zlia. rewrite (length_snoc_Z pa b), (length_snoc_Z pb b).
      specialize (IH (pa ++ [b]) (pb ++ [b]) u c post H0 Hc). app_norm_in IH.
      rewrite IH. f_equal. apply bool_decide_ext. split.
      * apply prefix_cons.
      * apply prefix_cons_inv_2.
    + rewrite bool_decide_false; [done|]. intros H. by apply prefix_cons_inv_1 in H.
Qed.

Section matching.
Context (c : Z) (pre u post : list Z).

(** The buffer: the URI, and behind it [c]. *)
Let m : list Z := pre ++ u ++ c :: post.

Lemma strncmp_route r : route_ok c r ->
  strncmp_eq (uri r) 0 m (Z.of_nat (length pre)) (Z.to_nat (len r)) =
  Val (bool_decide (text r `prefix_of` u)).
Proof.
  intros [Hu Hl H0 Hc]. rewrite Hu, Hl, Nat2Z.id.
  apply (strncmp_prefix (text r) [] pre u c post H0 Hc).
Qed.

Lemma match_loop_ok meth routes : forall rs0 rs best n,
  elems routes = rs0 ++ rs -> Forall (route_ok c) (elems routes) -> wf SIZEOF_ROUTE routes ->
  match_loop routes meth m (Z.of_nat (length pre)) (Z.of_nat (length u)) (length rs)
    (Z.of_nat (length rs0)) best (Z.of_nat n) =
  Val (match List.filter (is_exact meth u) rs with
       | r :: _ => Some r
       | [] => longest_from best n (List.filter (is_prefix meth u) rs)
       end).
Proof.
  intros rs0 rs. revert rs0. induction rs as [|r rs IH]; intros rs0 best n He Hok Hwf; [done|].
  cbn [length match_loop].
  assert (array_get routes (Z.of_nat (length rs0)) = Val r) as ->.
  { unfold array_get. destruct routes as [h|]; [|by destruct rs0]. cbn [array_header res_opt mbind res_bind].
    replace (Z.of_nat (length rs0) <? 0) with false by zlia. rewrite Nat2Z.id. cbn [elems] in He.
    assert (take (Z.to_nat (sz h)) (slots h) !! length rs0 = Some r) as Hl
      by (rewrite He; by apply list_lookup_middle).
    apply lookup_take_Some in Hl as [-> _]. done. }
  cbn [mbind res_bind].
  assert (route_ok c r) as Hr.
  { rewrite He, Forall_app, Forall_cons in Hok. naive_solver. }
  assert (forall best n, match_loop routes meth m (Z.of_nat (length pre)) (Z.of_nat (length u)) (length rs)
    (Z.of_nat (length rs0) + 1) best (Z.of_nat n) = Val (match List.filter (is_exact meth u) rs with
       | r :: _ => Some r
       | [] => longest_from best n (List.filter (is_prefix meth u) rs)
       end)) as Hnext.
  { intros best' n'. specialize (IH (rs0 ++ [r]) best' n'). rewrite length_app in IH. cbn [length] in IH.
    replace (Z.of_nat (length rs0) + 1) with (Z.of_nat (length rs0 + 1)) by lia.
    apply IH; [by rewrite He; app_norm|done|done]. }
  cbn [List.filter]. unfold is_exact at 1, is_prefix at 1.
  destruct (bool_decide (method r = meth)); cbn [negb andb]; [|apply Hnext].
  pose proof (route_len c r Hr) as Hl. rewrite strncmp_route by done. cbn [mbind res_bind].
  destruct (match_kind r).
  - change (bool_decide (ROUTE_MATCH_EXACT = ROUTE_MATCH_EXACT)) with true.
    change (bool_decide (ROUTE_MATCH_EXACT = ROUTE_MATCH_PREFIX)) with false. cbn [andb].
    destruct (Z.eqb_spec (len r) (Z.of_nat (length u))) as [El|El].
    + assert (text r `prefix_of` u <-> text r = u) as Hp.
      { split; [|by intros ->]. intros [k Hk]. rewrite Hk in El. rewrite length_app in El.
        destruct k; [by rewrite app_nil_r in Hk|cbn in El; lia]. }
      rewrite (bool_decide_ext _ _ Hp). destruct (bool_decide (text r = u)); [done|apply Hnext].
    + rewrite (bool_decide_false (text r = u)) by (intros <-; lia). apply Hnext.
  - change (bool_decide (ROUTE_MATCH_PREFIX = ROUTE_MATCH_EXACT)) with false.
    change (bool_decide (ROUTE_MATCH_PREFIX = ROUTE_MATCH_PREFIX)) with true. cbn [andb].
    destruct (bool_decide (text r `prefix_of` u)); cbn [andb]; [|apply Hnext].
    cbn [longest_from]. rewrite Hl.
    replace (Z.of_nat n <? Z.of_nat (length (text r))) with (n <? length (text r))%nat.
    2: { destruct (Nat.ltb_spec n (length (text r))); zlia. }
    destruct (n <? length (text r))%nat; apply Hnext.
Qed.
End matching.

(** *** Building the table *)
Lemma strlen_ok t post : 0 ∉ t -> strlen (t ++ 0 :: post) = Val (Z.of_nat (length t)).
Proof.
  induction t as [|a t IH]; intros H0; cbn [app strlen length]; [done|].
  rewrite not_elem_of_cons in H0. destruct H0 as [Ha H0].
  replace (a =? 0) with false by zlia. rewrite IH by done. cbn. f_equal. lia.
Qed.

(** The route that add_route makes of a string. *)
Definition route_for (meth : http_method) (k : route_match) (t : list Z) (cb data : ptr) : route :=
  MkRoute meth k (t ++ [0]) (Z.of_nat (length t)) cb data.

Lemma text_route_for meth k t cb data : text (route_for meth k t cb data) = t.
Proof. unfold text. cbn. by rewrite Nat2Z.id, take_app_length. Qed.

Lemma route_for_ok c meth k t cb data : 0 ∉ t -> c ∉ t -> route_ok c (route_for meth k t cb data).
Proof.
  intros H0 Hc. pose proof (text_route_for meth k t cb data) as Ht.
  split; rewrite ?Ht; done.
Qed.

Lemma add_route_ok g routes meth k t cb data :
  0 ∉ t -> wf SIZEOF_ROUTE routes ->
  HEADER + (2 * array_size routes + 1) * SIZEOF_ROUTE < 2 ^ 64 ->
  exists routes', add_route (Some g) routes meth k (t ++ [0]) cb data = Val routes' /\
    wf SIZEOF_ROUTE routes' /\ elems routes' = elems routes ++ [route_for meth k t cb data].
Proof.
  intros H0 Hwf Hm. unfold add_route. rewrite (strlen_ok t []) by done. cbn [mbind res_bind].
  destruct (array_push_back_ok SIZEOF_ROUTE ltac:(unfold SIZEOF_ROUTE; lia) g routes
    (route_for meth k t cb data) Hwf Hm) as (r & H1 & H2 & H3 & _).
  by exists r.
Qed.

(** *** The choice, declaratively *)
Lemma filter_split {A} (f : A -> bool) l l1 x l2 : List.filter f l = l1 ++ x :: l2 ->
  exists k1 k2, l = k1 ++ x :: k2 /\ List.filter f k1 = l1 /\ List.filter f k2 = l2 /\ f x = true.
Proof.
  revert l1. induction l as [|y l IH]; intros l1; cbn [List.filter]; [by destruct l1|].
  destruct (f y) eqn:Hy.
  - destruct l1 as [|z l1].
    + intros [= <- <-]. exists [], l. by split_and!.
    + intros [= <- H]. destruct (IH _ H) as (k1 & k2 & -> & H1 & H2 & H3).
      exists (y :: k1), k2. cbn [List.filter]. rewrite Hy, H1. by split_and!.
  - intros H. destruct (IH _ H) as (k1 & k2 & -> & H1 & H2 & H3).
    exists (y :: k1), k2. cbn [List.filter]. rewrite Hy, H1. by split_and!.
Qed.

Lemma filter_Forall {A} (f : A -> bool) (P : A -> Prop) l :
  Forall P (List.filter f l) -> Forall (fun x => f x = true -> P x) l.
Proof.
  induction l as [|x l IH]; cbn [List.filter]; [constructor|].
  destruct (f x) eqn:Hx.
  - intros [HP H]%Forall_cons. constructor; auto.
  - intros H. constructor; [congruence|auto].
Qed.

Lemma filter_nil {A} (f : A -> bool) l : List.filter f l = [] -> Forall (fun x => f x = false) l.
Proof.
  intros H. induction l as [|x l IH]; [constructor|]. cbn [List.filter] in H.
  destruct (f x) eqn:Hx; [done|]. constructor; auto.
Qed.

(** [r] is the route for a request with method [meth] and URI [u]. *)
Definition chosen (meth : http_method) (u : list Z) (rs : list route) (o : option route) : Prop :=
  match o with
  | Some r => exists rs1 rs2, rs = rs1 ++ r :: rs2 /\
      ((is_exact meth u r = true /\ Forall (fun r' => is_exact meth u r' = false) rs1) \/
       (Forall (fun r' => is_exact meth u r' = false) rs /\ is_prefix meth u r = true /\
        (0 < length (text r))%nat /\
        Forall (fun r' => is_prefix meth u r' = true -> length (text r') < length (text r))%nat rs1 /\
        Forall (fun r' => is_prefix meth u r' = true -> length (text r') <= length (text r))%nat rs2))
  | None => Forall (fun r' => is_exact meth u r' = false) rs /\
      Forall (fun r' => is_prefix meth u r' = true -> text r' = []) rs
  end.

Lemma best_route_chosen meth u rs : chosen meth u rs (best_route meth u rs).
Proof.
  unfold best_route. destruct (List.filter (is_exact meth u) rs) as [|r es] eqn:He.
  - apply filter_nil in He.
    pose proof (longest_from_spec (List.filter (is_prefix meth u) rs) None 0) as Hl.
    destruct (longest_from _ _ _) as [r|].
    + destruct Hl as [[? _]|(l1 & l2 & Hs & Hn & H1 & H2)]; [done|].
      destruct (filter_split _ _ _ _ _ Hs) as (rs1 & rs2 & -> & <- & <- & Hr).
      exists rs1, rs2. split; [done|]. right.
      split_and!; [done|done|done|by apply filter_Forall|by apply filter_Forall].
    + destruct Hl as [_ Hl]. split; [done|]. apply filter_Forall.
      eapply Forall_impl; [exact Hl|]. cbn. intros r Hr. by apply nil_length_inv; lia.
  - destruct (filter_split _ _ [] _ _ He) as (rs1 & rs2 & -> & H1 & _ & Hr).
    exists rs1, rs2. split; [done|]. left. split; [done|]. by apply filter_nil.
Qed.
(** What match_route returns for a URI followed by [c]. *)
Lemma match_route_best routes meth c pre u post :
  wf SIZEOF_ROUTE routes -> Forall (route_ok c) (elems routes) ->
  match_route routes meth (pre ++ u ++ c :: post) (Z.of_nat (length pre)) (Z.of_nat (length u)) =
    Val (best_route meth u (elems routes)).
Proof.
  intros Hwf Hok.
  unfold match_route. rewrite (wf_size SIZEOF_ROUTE) by done. rewrite Nat2Z.id.
  exact (match_loop_ok c pre u post meth routes [] (elems routes) None 0 eq_refl Hok Hwf).
Qed.

End RouteSpec.

Module RouteThm.
Import Http Array ArraySpec Route RouteSpec.

(** match_route, for a URI in the request buffer that is followed by a
    character no route contains (the blank of the request line), returns the
    first route with the request's method and exactly this URI; if there is none,
    the first of the longest non-empty prefix routes with the method; and NULL if
    there is none either.  It reads no byte outside the route strings and the
    buffer. *)
Theorem match_route_correct routes meth c pre u post :
  wf SIZEOF_ROUTE routes -> Forall (route_ok c) (elems routes) ->
  exists o, match_route routes meth (pre ++ u ++ c :: post) (Z.of_nat (length pre))
      (Z.of_nat (length u)) = Val o /\
    chosen meth u (elems routes) o.
Proof.
  intros Hwf Hok. exists (best_route meth u (elems routes)).
  split; [by apply match_route_best|apply best_route_chosen].
Qed.

(** *** The routes of cask *)
Definition ex_routes : option (array_header_t route) :=
  Some (MkArray 3 4
    [route_for HTTP_METHOD_GET ROUTE_MATCH_EXACT (bytes_of "/") 1 11;
     route_for HTTP_METHOD_GET ROUTE_MATCH_PREFIX (bytes_of "/") 2 12;
     route_for HTTP_METHOD_POST ROUTE_MATCH_EXACT (bytes_of "/") 3 12;
     route_for HTTP_METHOD_GET ROUTE_MATCH_EXACT [] 0 0]).

Lemma ex_routes_ok : wf SIZEOF_ROUTE ex_routes /\ Forall (route_ok 32) (elems ex_routes).
Proof.
  split; [split_and!; by vm_compute|].
  change (elems ex_routes) with
    [route_for HTTP_METHOD_GET ROUTE_MATCH_EXACT (bytes_of "/") 1 11;
     route_for HTTP_METHOD_GET ROUTE_MATCH_PREFIX (bytes_of "/") 2 12;
     route_for HTTP_METHOD_POST ROUTE_MATCH_EXACT (bytes_of "/") 3 12].
  apply Forall_cons; split; [|apply Forall_cons; split; [|apply Forall_cons; split; [|constructor]]];
    apply route_for_ok; by_compute.
Qed.

Lemma match_route_correct_witness : exists o,
  match_route ex_routes HTTP_METHOD_GET (bytes_of "GET /7 HTTP/1.1") 4 2 = Val o.
Proof.
  destruct (match_route_correct ex_routes HTTP_METHOD_GET 32 (bytes_of "GET ") (bytes_of "/7")
    (bytes_of "HTTP/1.1")
    (proj1 ex_routes_ok) (proj2 ex_routes_ok)) as (o & H & _).
  by exists o.
Defined.
End RouteThm.
