(* ===== verification/Heap.v ===== *)
(** The memory in which the intrusive structures of the program live, and a
    separation logic for the fragments that work on it.

    The memory maps a structure's address and a member to the value of that
    member ([hload], [hstore]).  [heapProp] are the assertions about a part of
    the memory, made an instance of the bunched logics of the Iris proof mode,
    [hwp c Q] is total correctness of a fragment with the frame rule built in,
    and [hwp_sound] turns a proved triple into a statement about running the
    fragment.  The linked list and the red-black tree are verified with it. *)
From S2P Require Import Prelude.
From iris.proofmode Require Export proofmode environments.

#[export] Unset SsrRewrite.
#[global] Open Scope Z_scope.

(** The members of the structures that hold pointers to each other or are
    embedded in structures that do: struct list, struct rbnode, struct timer,
    struct event, struct rbtree. *)
Inductive field :=
  | Prev | Next
  | Color | Left | Right | Parent
  | Trigger | Interval | TimerFlags | TimerCb | TimerData
  | Fd | Events | EventFlags | EventCb | EventData
  | Root.

#[global] Instance field_eq_dec : EqDecision field.
Proof. solve_decision. Defined.

Definition field_index (f : field) : nat :=
  match f with
  | Prev => 0 | Next => 1 | Color => 2 | Left => 3 | Right => 4 | Parent => 5
  | Trigger => 6 | Interval => 7 | TimerFlags => 8 | TimerCb => 9 | TimerData => 10
  | Fd => 11 | Events => 12 | EventFlags => 13 | EventCb => 14 | EventData => 15
  | Root => 16
  end%nat.
Definition field_of_index (i : nat) : field :=
  nth i [Prev; Next; Color; Left; Right; Parent; Trigger; Interval; TimerFlags; TimerCb;
         TimerData; Fd; Events; EventFlags; EventCb; EventData; Root] Prev.

#[global] Instance field_countable : Countable field.
Proof. apply (inj_countable' field_index field_of_index). by intros []. Defined.

Abbreviation loc := (Z * field)%type.
#[global] Instance loc_eq_dec : EqDecision loc := prod_eq_dec.
#[global] Instance loc_countable : Countable loc := prod_countable.
Abbreviation heap := (@gmap loc loc_eq_dec loc_countable Z).

(** ** The primitives *)
Definition hload (l : loc) : cmd heap Z := fun h =>
  match h !! l with Some v => Val (v, h) | None => Stuck end.
Definition hstore (l : loc) (v : Z) : cmd heap unit := fun h =>
  match h !! l with Some _ => Val (tt, <[l := v]> h) | None => Stuck end.

(** ** Assertions *)
Record heapProp := HeapProp {
  hp_holds :> heap -> Prop;
  hp_mono : forall h1 h2, hp_holds h1 -> h1 ⊆ h2 -> hp_holds h2;
}.
Arguments hp_holds : simpl never.
Add Printing Constructor heapProp.

Section logic.
Inductive hp_equiv' (P Q : heapProp) : Prop := { hp_in : forall h, P h <-> Q h }.
#[local] Instance hp_equiv : Equiv heapProp := hp_equiv'.
#[local] Instance hp_equivalence : Equivalence (≡@{heapProp}).
Proof.
  split.
  - by split.
  - intros P Q [H]. split. naive_solver.
  - intros P Q R [H1] [H2]. split. naive_solver.
Qed.
Canonical Structure heapPropO := discreteO heapProp.

Record hp_entails (P Q : heapProp) : Prop := { hp_apply : forall h, P h -> Q h }.
#[local] Coercion hp_apply : hp_entails >-> Funclass.

Program Definition hp_pure (φ : Prop) : heapProp := {| hp_holds _ := φ |}.
Next Obligation. done. Qed.
Definition hp_emp : heapProp := hp_pure True.
Program Definition hp_and (P Q : heapProp) : heapProp := {| hp_holds h := P h /\ Q h |}.
Next Obligation. intros P Q ?? [??] ?. split; by eapply hp_mono. Qed.
Program Definition hp_or (P Q : heapProp) : heapProp := {| hp_holds h := P h \/ Q h |}.
Next Obligation. intros P Q ?? [?|?] ?; [left|right]; by eapply hp_mono. Qed.
Program Definition hp_impl (P Q : heapProp) : heapProp :=
  {| hp_holds h := forall h', h ⊆ h' -> P h' -> Q h' |}.
Next Obligation. intros P Q h1 h2 H ? h' ? ?. apply H; [by etrans|done]. Qed.
Program Definition hp_forall A (Φ : A -> heapProp) : heapProp :=
  {| hp_holds h := forall a, Φ a h |}.
Next Obligation. intros A Φ h1 h2 H ? a. by eapply hp_mono. Qed.
Program Definition hp_exist A (Φ : A -> heapProp) : heapProp :=
  {| hp_holds h := exists a, Φ a h |}.
Next Obligation. intros A Φ h1 h2 [a H] ?. exists a. by eapply hp_mono. Qed.
Program Definition hp_sep (P Q : heapProp) : heapProp :=
  {| hp_holds h := exists h1 h2, h = h1 ∪ h2 /\ h1 ##ₘ h2 /\ P h1 /\ Q h2 |}.
Next Obligation.
  intros P Q h h' (h1 & h2 & -> & Hd & HP & HQ) Hsub.
  assert (h1 ⊆ h') as H1 by (etrans; [|exact Hsub]; by apply map_union_subseteq_l).
  exists h1, (h' ∖ h1). split_and!.
  - by rewrite map_difference_union.
  - by apply map_disjoint_difference_r1.
  - done.
  - eapply hp_mono; [done|]. apply map_subseteq_spec. intros i x Hi.
    apply lookup_difference_Some. split.
    + eapply lookup_weaken; [|exact Hsub]. by apply lookup_union_Some_r.
    + by eapply (map_disjoint_Some_r h1 h2).
Qed.
Program Definition hp_wand (P Q : heapProp) : heapProp :=
  {| hp_holds h := forall h', h ##ₘ h' -> P h' -> Q (h ∪ h') |}.
Next Obligation.
  intros P Q h1 h2 H Hsub h' Hd HP. apply (hp_mono Q (h1 ∪ h')).
  - apply H; [|done]. by eapply map_disjoint_weaken_l.
  - by apply map_union_mono_r.
Qed.
Definition hp_persistently (P : heapProp) : heapProp := hp_pure (hp_entails hp_emp P).
Definition hp_later (P : heapProp) : heapProp := P.

Lemma hp_bi_mixin : BiMixin hp_entails hp_emp hp_pure hp_and hp_or hp_impl
  hp_forall hp_exist hp_sep hp_wand.
Proof.
  split.
  - split; [by intros P|]. intros P Q R H1 H2. split. intros h ?. by apply H2, H1.
  - intros P Q. split.
    + intros [H]. split; split; intros h; apply H.
    + intros [H1 H2]. split. intros h. split; [apply H1|apply H2].
  - intros n φ ψ H. split. by intros h.
  - intros n P P' [HP] Q Q' [HQ]. split. intros h. unfold hp_holds; cbn. naive_solver.
  - intros n P P' [HP] Q Q' [HQ]. split. intros h. unfold hp_holds; cbn. naive_solver.
  - intros n P P' [HP] Q Q' [HQ]. split. intros h. unfold hp_holds; cbn. naive_solver.
  - intros A n Φ Ψ H. split. intros h. unfold hp_holds; cbn.
    split; intros Ha a; [by apply (H a)|by apply (H a)].
  - intros A n Φ Ψ H. split. intros h. unfold hp_holds; cbn.
    split; intros [a Ha]; exists a; by apply (H a).
  - intros n P P' [HP] Q Q' [HQ]. split. intros h. unfold hp_holds; cbn. naive_solver.
  - intros n P P' [HP] Q Q' [HQ]. split. intros h. unfold hp_holds; cbn. naive_solver.
  - intros φ P ?. by split.
  - intros φ P H. split. intros h Hφ. by apply H.
  - intros P Q. split. by intros h [? ?].
  - intros P Q. split. by intros h [? ?].
  - intros P Q R H1 H2. split. intros h ?. split; [by apply H1|by apply H2].
  - intros P Q. split. intros h ?. by left.
  - intros P Q. split. intros h ?. by right.
  - intros P Q R H1 H2. split. intros h [?|?]; [by apply H1|by apply H2].
  - intros P Q R H. split. intros h HP h' Hsub HQ. apply H.
    split; [by eapply hp_mono|done].
  - intros P Q R H. split. intros h [HP HQ]. by apply (H h HP h).
  - intros A P Ψ H. split. intros h HP a. by apply H.
  - intros A Ψ a. split. intros h H. apply H.
  - intros A Ψ a. split. intros h H. by exists a.
  - intros A Φ Q H. split. intros h [a Ha]. by apply (H a).
  - intros P P' Q Q' H1 H2. split. intros h (h1 & h2 & -> & Hd & HP & HQ).
    exists h1, h2. split_and!; [done|done|by apply H1|by apply H2].
  - intros P. split. intros h HP. exists ∅, h.
    split_and!; [by rewrite (left_id_L ∅ (∪))| |done|done]. apply map_disjoint_empty_l.
  - intros P. split. intros h (h1 & h2 & -> & Hd & _ & HP). eapply hp_mono; [done|].
    by apply map_union_subseteq_r.
  - intros P Q. split. intros h (h1 & h2 & -> & Hd & HP & HQ). exists h2, h1.
    split_and!; [by apply map_union_comm|done|done|done].
  - intros P Q R. split. intros h (h12 & h3 & -> & Hd & (h1 & h2 & -> & Hd' & HP & HQ) & HR).
    apply map_disjoint_union_l in Hd as [Hd1 Hd2].
    exists h1, (h2 ∪ h3). split_and!; [by rewrite (assoc_L (∪))| |done|].
    + by apply map_disjoint_union_r.
    + by exists h2, h3.
  - intros P Q R H. split. intros h HP h' Hd HQ. apply H. by exists h, h'.
  - intros P Q R H. split. intros h (h1 & h2 & -> & Hd & HP & HQ). by apply H.
Qed.

Lemma hp_persistently_mixin : BiPersistentlyMixin hp_entails hp_emp hp_and hp_exist hp_sep
  hp_persistently.
Proof.
  eapply bi_persistently_mixin_discrete; [by intros n P Q| |done|apply hp_bi_mixin].
  intros A Φ H. destruct (H ∅ I) as [a Ha]. exists a. split. intros h _.
  eapply hp_mono; [done|]. apply map_empty_subseteq.
Qed.

Lemma hp_later_mixin : BiLaterMixin hp_entails hp_pure hp_or hp_impl hp_forall hp_exist hp_sep
  hp_persistently hp_later.
Proof. eapply bi_later_mixin_id; [done|apply hp_bi_mixin]. Qed.
End logic.

Canonical Structure heapPropI : bi :=
  {| bi_ofe_mixin := ofe_mixin_of heapProp;
     bi_bi_mixin := hp_bi_mixin; bi_bi_persistently_mixin := hp_persistently_mixin;
     bi_bi_later_mixin := hp_later_mixin |}.

#[global] Instance heapProp_affine : BiAffine heapPropI | 0.
Proof. intros P. by split. Qed.

(** ** Points-to and weakest preconditions *)
Program Definition pointsto (l : loc) (v : Z) : heapProp := {| hp_holds h := h !! l = Some v |}.
Next Obligation. cbn. intros l v h1 h2 H Hs. eapply lookup_weaken; [exact H|exact Hs]. Qed.

Notation "l ↦ v" := (pointsto l v) (at level 20, format "l  ↦  v") : bi_scope.

(** [c] terminates without undefined behaviour on every memory whose owned part
    satisfies the precondition, changes nothing but that part, and leaves one
    that satisfies [Q]. *)
Program Definition hwp {A} (c : cmd heap A) (Q : A -> heapProp) : heapProp :=
  {| hp_holds h := forall hf, h ##ₘ hf ->
       exists a h', c (h ∪ hf) = Val (a, h' ∪ hf) /\ h' ##ₘ hf /\ Q a h' |}.
Next Obligation.
  intros A c Q h1 h2 H Hsub hf Hd.
  assert (h1 ∪ (h2 ∖ h1) = h2) as E by by apply map_difference_union.
  assert (h1 ##ₘ h2 ∖ h1) as Hd' by by apply map_disjoint_difference_r1.
  rewrite <- E in Hd. apply map_disjoint_union_l in Hd as [Hd1 Hd2].
  destruct (H ((h2 ∖ h1) ∪ hf)) as (a & h' & Hc & Hd3 & HQ).
  { by apply map_disjoint_union_r. }
  apply map_disjoint_union_r in Hd3 as [Hd3 Hd4].
  exists a, (h' ∪ (h2 ∖ h1)). split_and!.
  - rewrite <- E at 1. by rewrite <- !(assoc_L (∪)).
  - by apply map_disjoint_union_l.
  - eapply hp_mono; [exact HQ|]. by apply map_union_subseteq_l.
Qed.

Section hwp_rules.
Implicit Types (P : heapProp).

Lemma hwp_ret {A : Type} (a : A) (Q : A -> heapProp) : Q a ⊢ hwp (mret a) Q.
Proof. split. intros h HQ hf Hd. by exists a, h. Qed.

Lemma hwp_bind {A B : Type} (c : cmd heap A) (k : A -> cmd heap B) (Q : B -> heapProp) :
  hwp c (fun a => hwp (k a) Q) ⊢ hwp (c ≫= k) Q.
Proof.
  split. intros h H hf Hd. destruct (H hf Hd) as (a & h' & Hc & Hd' & Hk).
  destruct (Hk hf Hd') as (b & h'' & Hc' & ?). exists b, h''.
  split; [|done]. unfold mbind, cmd_bind. by rewrite Hc.
Qed.

Lemma hwp_ext {A : Type} (c c' : cmd heap A) (Q : A -> heapProp) :
  (forall h, c h = c' h) -> hwp c' Q ⊢ hwp c Q.
Proof. intros Hc. split. intros h H hf Hd. rewrite Hc. by apply H. Qed.

Lemma hwp_wand {A} (c : cmd heap A) (Q R : A -> heapProp) :
  hwp c Q ⊢ (∀ a, Q a -∗ R a) -∗ hwp c R.
Proof.
  split. intros h H h2 Hd HQR hf Hdf. apply map_disjoint_union_l in Hdf as [Hd1 Hd2].
  destruct (H (h2 ∪ hf)) as (a & h' & Hc & Hd' & HQ); [by apply map_disjoint_union_r|].
  apply map_disjoint_union_r in Hd' as [Hd3 Hd4]. exists a, (h' ∪ h2). split_and!.
  - by rewrite <- !(assoc_L (∪)).
  - by apply map_disjoint_union_l.
  - rewrite map_union_comm by done. apply (HQR a); [by symmetry|done].
Qed.

Lemma hwp_load l v (Q : Z -> heapProp) : l ↦ v ⊢ (l ↦ v -∗ Q v) -∗ hwp (hload l) Q.
Proof.
  split. intros h H h2 Hd HQ hf Hdf. exists v, (h ∪ h2). split_and!.
  - unfold hload. by rewrite (lookup_union_Some_l (h ∪ h2) hf l v) by by apply lookup_union_Some_l.
  - done.
  - rewrite map_union_comm by done. apply HQ; [by symmetry|done].
Qed.

Lemma hwp_store l v w (Q : unit -> heapProp) : l ↦ v ⊢ (l ↦ w -∗ Q tt) -∗ hwp (hstore l w) Q.
Proof.
  split. intros h H h2 Hd HQ hf Hdf. apply map_disjoint_union_l in Hdf as [Hd1 Hd2].
  assert (forall h', h ##ₘ h' -> <[l:=w]> h ##ₘ h') as Hins.
  { intros h' Hh. apply map_disjoint_insert_l. split; [|done].
    eapply map_disjoint_Some_l; [exact Hh|exact H]. }
  exists tt, (<[l := w]> h ∪ h2). split_and!.
  - unfold hstore.
    rewrite (lookup_union_Some_l (h ∪ h2) hf l v) by by apply lookup_union_Some_l.
    by rewrite !insert_union_l.
  - apply map_disjoint_union_l. split; [by apply Hins|done].
  - rewrite map_union_comm by by apply Hins. apply HQ; [symmetry; by apply Hins|].
    unfold hp_holds; cbn. by rewrite lookup_insert_eq.
Qed.

Lemma hwp_loop {A B : Type} n (body : A -> cmd heap (A + B)) a (Q : B -> heapProp) :
  hwp (body a) (fun r => match r with inl a' => hwp (loop n body a') Q | inr b => Q b end) ⊢
  hwp (loop (S n) body a) Q.
Proof.
  cbn [loop]. iIntros "H". iApply hwp_bind. iApply (hwp_wand with "H").
  iIntros ([a'|b]) "H"; [done|]. by iApply hwp_ret.
Qed.

Lemma pointsto_ne l1 l2 v1 v2 : l1 ↦ v1 ⊢ l2 ↦ v2 -∗ ⌜l1 <> l2⌝.
Proof.
  split. intros h1 H1 h2 Hd H2. intros ->. unfold hp_holds in H1, H2; cbn in H1, H2.
  by eapply (map_disjoint_spec h1 h2).
Qed.

(** Adequacy, with a frame. *)
Lemma hwp_sound {A} (c : cmd heap A) P (Q : A -> heapProp) h hf :
  (P ⊢ hwp c Q) -> P h -> h ##ₘ hf ->
  exists a h', c (h ∪ hf) = Val (a, h' ∪ hf) /\ h' ##ₘ hf /\ Q a h'.
Proof. intros [H] HP Hd. exact (H h HP hf Hd). Qed.
End hwp_rules.

(** What a fragment does, as a statement about running it: from any memory with
    a part that satisfies [P] it terminates without undefined behaviour, leaves
    the rest of the memory alone, and makes that part satisfy [Q]. *)
Definition triple {A} (P : heapProp) (c : cmd heap A) (Q : A -> heapProp) : Prop :=
  forall h hf, P h -> h ##ₘ hf ->
    exists a h', c (h ∪ hf) = Val (a, h' ∪ hf) /\ h' ##ₘ hf /\ Q a h'.

Lemma triple_hwp {A} P (c : cmd heap A) Q : (P ⊢ hwp c Q) -> triple P c Q.
Proof. intros H h hf HP Hd. by eapply hwp_sound. Qed.

(** A triple on a memory that has nothing but its part. *)
Lemma triple_run {A} P (c : cmd heap A) Q h : triple P c Q -> P h ->
  exists a h', c h = Val (a, h') /\ Q a h'.
Proof.
  intros H HP. destruct (H h ∅ HP) as (a & h' & Hc & _ & HQ); [apply map_disjoint_empty_r|].
  exists a, h'. by rewrite !(right_id_L ∅ (∪)) in Hc.
Qed.

(** A loop whose body always goes on and keeps [P] never ends. *)
Lemma loop_forever {A B : Type} (body : A -> cmd heap (A + B)) (P : A -> heapProp) n :
  (forall a, P a ⊢ hwp (body a) (fun r => match r with inl a' => P a' | inr _ => False end)) ->
  forall a h, P a h -> loop n body a h = Timeout.
Proof.
  intros Hb. induction n as [|n IH]; intros a h HP; cbn [loop]; [done|].
  destruct (triple_run _ _ _ _ (triple_hwp _ _ _ (Hb a)) HP) as (r & h' & Hr & HQ).
  unfold mbind, cmd_bind. rewrite Hr. destruct r as [a'|b]; [by apply IH|].
  by destruct HQ.
Qed.

(** Concrete memories. *)
Definition owns (cells : list (loc * Z)) : heapProp := ([∗ list] c ∈ cells, fst c ↦ snd c)%I.

Lemma owns_holds cells : NoDup (fst <$> cells) -> owns cells (list_to_map cells).
Proof.
  induction cells as [|[l v] cells IH]; intros Hnd; cbn in *; [done|].
  apply NoDup_cons in Hnd as [Hl Hnd].
  exists {[l := v]}, (list_to_map cells). split_and!.
  - apply insert_union_singleton_l.
  - apply map_disjoint_singleton_l. by apply not_elem_of_list_to_map.
  - apply lookup_singleton_eq.
  - by apply IH.
Qed.

Lemma holds_of_cells P cells : NoDup (fst <$> cells) -> (owns cells ⊢ P) ->
  P (list_to_map cells).
Proof. intros Hnd [H]. by apply H, owns_holds. Qed.

(** ** Allocation

    [halloc locs] is a successful calloc: a block at an address above all that
    are in use, with the members [locs] says, all zero.  [hfree locs] gives
    members back; a member that is not there is a double free. *)
Definition fresh_ptr (h : heap) : ptr := map_fold (fun l _ m => Z.max (fst l) m) 0 h + 16.

Fixpoint hnew (ls : list loc) (h : heap) : heap :=
  match ls with [] => h | l :: ls => <[l := 0]> (hnew ls h) end.

Definition halloc (locs : ptr -> list loc) : cmd heap ptr := fun h =>
  let p := fresh_ptr h in Val (p, hnew (locs p) h).

Definition hdelete (l : loc) : cmd heap unit := fun h =>
  match h !! l with Some _ => Val (tt, delete l h) | None => Stuck end.

Fixpoint hfree (ls : list loc) : cmd heap unit :=
  match ls with
  | [] => mret tt
  | l :: ls => _ ← hdelete l; hfree ls
  end.

(** The members of a block are at its address or above, each once. *)
Definition block (locs : ptr -> list loc) : Prop :=
  forall p, NoDup (locs p) /\ Forall (fun l => p <= fst l) (locs p).

Lemma fresh_ptr_above h l v : h !! l = Some v -> fst l < fresh_ptr h.
Proof.
  unfold fresh_ptr. revert l v.
  apply (map_fold_weak_ind (fun m h => forall l v, h !! l = Some v -> fst l < m + 16)); [done|].
  intros l v h' m _ IH l' v'. destruct (decide (l = l')) as [->|Hne].
  - intros _. lia.
  - rewrite lookup_insert_ne by done. intros H. specialize (IH _ _ H). lia.
Qed.

Lemma fresh_ptr_pos h : 0 < fresh_ptr h.
Proof.
  unfold fresh_ptr.
  apply (map_fold_weak_ind (fun m h => 0 < m + 16)); [lia|]. intros. lia.
Qed.

Lemma hnew_union ls h : hnew ls h = hnew ls ∅ ∪ h.
Proof.
  induction ls as [|l ls IH]; cbn; [by rewrite (left_id_L ∅ (∪))|]. by rewrite IH, insert_union_l.
Qed.

Lemma hnew_disjoint ls (h : heap) : Forall (fun l => h !! l = None) ls -> hnew ls ∅ ##ₘ h.
Proof.
  induction 1 as [|l ls Hl _ IH]; cbn; [apply map_disjoint_empty_l|].
  by apply map_disjoint_insert_l.
Qed.

Lemma hnew_holds ls : NoDup ls -> ([∗ list] l ∈ ls, pointsto l 0)%I (hnew ls ∅).
Proof.
  induction 1 as [|l ls Hl Hnd IH]; [done|].
  assert (hnew ls ∅ !! l = None) as Hn.
  { clear -Hl. induction ls as [|l' ls IH]; cbn; [done|]. rewrite not_elem_of_cons in Hl.
    destruct Hl as [H1 H2]. rewrite lookup_insert_ne by congruence. by apply IH. }
  exists {[l := 0]}, (hnew ls ∅). split_and!.
  - cbn. by apply insert_union_singleton_l.
  - by apply map_disjoint_singleton_l.
  - apply lookup_singleton_eq.
  - done.
Qed.

Lemma hwp_alloc locs (Q : ptr -> heapProp) : block locs ->
  (∀ p, ⌜0 < p⌝ -∗ ([∗ list] l ∈ locs p, pointsto l 0) -∗ Q p) ⊢ hwp (halloc locs) Q.
Proof.
  intros Hb. split. intros h H hf Hd. unfold halloc. cbv zeta.
  set (p := fresh_ptr (h ∪ hf)).
  destruct (Hb p) as [Hnd Hge].
  assert (forall h' : heap, h' ⊆ h ∪ hf -> hnew (locs p) ∅ ##ₘ h') as Hdis.
  { intros h' Hsub. apply hnew_disjoint. eapply Forall_impl; [exact Hge|]. intros l Hl. cbn in Hl.
    destruct (h' !! l) as [v|] eqn:E; [|done].
    pose proof (fresh_ptr_above (h ∪ hf) l v (lookup_weaken _ _ _ _ E Hsub)). fold p in H0. lia. }
  assert (hnew (locs p) ∅ ##ₘ h) as Hd1 by by apply Hdis, map_union_subseteq_l.
  assert (hnew (locs p) ∅ ##ₘ hf) as Hd2 by by apply Hdis, map_union_subseteq_r.
  exists p, (hnew (locs p) ∅ ∪ h). split_and!.
  - by rewrite hnew_union, (assoc_L (∪)).
  - by apply map_disjoint_union_l.
  - rewrite map_union_comm by done.
    pose proof (H p ∅ (map_disjoint_empty_r _) (fresh_ptr_pos _)) as H'.
    rewrite (right_id_L ∅ (∪)) in H'. apply H'; [by symmetry|by apply hnew_holds].
Qed.

Lemma hwp_delete l v (Q : unit -> heapProp) : pointsto l v ⊢ Q tt -∗ hwp (hdelete l) Q.
Proof.
  split. intros h1 H h2 Hd HQ hf Hdf. apply map_disjoint_union_l in Hdf as [Hd1 Hd2].
  unfold hp_holds in H; cbn in H.
  pose proof (map_disjoint_Some_l h1 h2 l v Hd H) as H2.
  pose proof (map_disjoint_Some_l h1 hf l v Hd1 H) as Hf.
  exists tt, (delete l h1 ∪ h2). split_and!.
  - unfold hdelete. rewrite (lookup_union_Some_l (h1 ∪ h2) hf l v) by by apply lookup_union_Some_l.
    by rewrite !delete_union, (delete_id h2), (delete_id hf).
  - apply map_disjoint_union_l. split; [by apply map_disjoint_delete_l|done].
  - eapply hp_mono; [exact HQ|]. apply map_union_subseteq_r. by apply map_disjoint_delete_l.
Qed.

Lemma hwp_free ls (Q : unit -> heapProp) :
  ([∗ list] l ∈ ls, ∃ v, pointsto l v) ⊢ Q tt -∗ hwp (hfree ls) Q.
Proof.
  induction ls as [|l ls IH]; cbn [hfree].
  - iIntros "_ HQ". by iApply hwp_ret.
  - iIntros "[(%v & Hl) H] HQ". iApply hwp_bind. iApply (hwp_delete with "Hl").
    iApply (IH with "H HQ").
Qed.

(** A block that is given back at once leaves no trace. *)
Lemma hnew_lookup_None ls (h : heap) l : h !! l = None -> l ∉ ls -> hnew ls h !! l = None.
Proof.
  intros Hl. induction ls as [|l' ls IH]; cbn; [done|]. rewrite not_elem_of_cons. intros [H1 H2].
  rewrite lookup_insert_ne by congruence. by apply IH.
Qed.

Lemma hfree_hnew ls (h : heap) : NoDup ls -> Forall (fun l => h !! l = None) ls ->
  hfree ls (hnew ls h) = Val (tt, h).
Proof.
  induction 1 as [|l ls Hl Hnd IH]; intros Hh; cbn [hfree hnew]; [done|].
  apply Forall_cons in Hh as [Hl0 Hh]. unfold mbind, cmd_bind, hdelete. rewrite lookup_insert_eq.
  rewrite delete_insert_eq, delete_id by by apply hnew_lookup_None. by apply IH.
Qed.

Lemma halloc_hfree locs h : block locs ->
  halloc locs h = Val (fresh_ptr h, hnew (locs (fresh_ptr h)) h) /\
  hfree (locs (fresh_ptr h)) (hnew (locs (fresh_ptr h)) h) = Val (tt, h).
Proof.
  intros Hb. split; [done|]. destruct (Hb (fresh_ptr h)) as [Hnd Hge]. apply hfree_hnew; [done|].
  eapply Forall_impl; [exact Hge|]. intros l Hl. cbn in Hl. destruct (h !! l) eqn:E; [|done].
  apply fresh_ptr_above in E. lia.
Qed.


(** Symbolic execution in the proof mode. *)
Ltac h_load :=
  lazymatch goal with
  | |- envs_entails _ (hwp (hload ?l) _) =>
      iApply (hwp_load l with "[$]"); iIntros "?"
  end.
Ltac h_store :=
  lazymatch goal with
  | |- envs_entails _ (hwp (hstore ?l ?w) _) =>
      iApply (hwp_store l _ w with "[$]"); iIntros "?"
  end.
Ltac h_step :=
  lazymatch goal with
  | |- envs_entails _ (hwp (mbind _ _) _) => iApply hwp_bind
  | |- envs_entails _ (hwp (mret _) _) => iApply hwp_ret
  | |- envs_entails _ (hwp (hload _) _) => h_load
  | |- envs_entails _ (hwp (hstore _ _) _) => h_store
  end.
Ltac h_steps := repeat (h_step; cbn beta iota zeta).
(** Cancel the owned parts and the pure facts. *)
Ltac h_frame := iFrame; repeat (iSplit; [by iPureIntro|]); try by iPureIntro.
