(* ===== verification/Clist.v ===== *)
(** The intrusive circular doubly linked list of list.h.

    Module [Clist] has the macros and inline functions over the memory of
    Heap.v.  Module [ClistSpec] has the representation predicate [links], of
    which a list with head [h] and elements [xs] is [ring h xs], and the
    lemmas: adding and deleting are insertion into and removal from the list of
    elements, and a safe traversal may delete the element it visits.  Module
    [ClistThm] states them about running the code. *)
From S2P Require Import Prelude Heap.

Module Clist.

(** LIST_INIT_HEAD *)
Definition LIST_INIT_HEAD (head : ptr) : cmd heap unit :=
  _ ← hstore (head, Prev) head;
  hstore (head, Next) head.

(** LIST_HEAD and LIST_TAIL: the first and the last element, or NULL. *)
Definition LIST_HEAD (head : ptr) : cmd heap ptr :=
  n ← hload (head, Next);
  mret (if n =? head then NULL else n).
Definition LIST_TAIL (head : ptr) : cmd heap ptr :=
  p ← hload (head, Prev);
  mret (if p =? head then NULL else p).

Definition _list_add (node prev next : ptr) : cmd heap unit :=
  _ ← hstore (next, Prev) node;
  _ ← hstore (node, Next) next;
  _ ← hstore (node, Prev) prev;
  hstore (prev, Next) node.

Definition list_add (head node : ptr) : cmd heap unit :=
  n ← hload (head, Next);
  _list_add node head n.

Definition list_add_tail (head node : ptr) : cmd heap unit :=
  p ← hload (head, Prev);
  _list_add node p head.

Definition _list_del (prev next : ptr) : cmd heap unit :=
  _ ← hstore (next, Prev) prev;
  hstore (prev, Next) next.

Definition list_del (node : ptr) : cmd heap unit :=
  p ← hload (node, Prev);
  n ← hload (node, Next);
  _ ← _list_del p n;
  _ ← hstore (node, Next) NULL;
  hstore (node, Prev) NULL.

(** The loops, with their body; [fuel] bounds the iterations. *)
Definition list_for_each (fuel : nat) (head : ptr) (body : ptr -> cmd heap unit) : cmd heap unit :=
  p ← hload (head, Next);
  loop fuel (fun p =>
    if p =? head then mret (inr tt)
    else
      _ ← body p;
      p ← hload (p, Next);
      mret (inl p)) p.

Definition list_for_each_safe (fuel : nat) (head : ptr) (body : ptr -> cmd heap unit)
    : cmd heap unit :=
  p ← hload (head, Next);
  n ← hload (p, Next);
  loop fuel (fun '(p, n) =>
    if p =? head then mret (inr tt)
    else
      _ ← body p;
      n' ← hload (n, Next);
      mret (inl (n, n'))) (p, n).

End Clist.

Module ClistSpec.
Import Clist.

(** The links from [a] through the elements [l] to [b]: the [next] members of
    all but [b] and the [prev] members of all but [a]. *)
Fixpoint links (a : ptr) (l : list ptr) (b : ptr) : heapProp :=
  match l with
  | [] => (a, Next) ↦ b ∗ (b, Prev) ↦ a
  | x :: l => (a, Next) ↦ x ∗ (x, Prev) ↦ a ∗ links x l b
  end%I.

Definition ring (head : ptr) (xs : list ptr) : heapProp := links head xs head.

(** A node that is in no list. *)
Definition unlinked (x : ptr) : heapProp := (∃ n p, (x, Next) ↦ n ∗ (x, Prev) ↦ p)%I.

Lemma links_app a l1 x l2 b : links a (l1 ++ x :: l2) b ⊣⊢ links a l1 x ∗ links x l2 b.
Proof.
  revert a. induction l1 as [|y l1 IH]; intros a; cbn [app links].
  - by rewrite (assoc bi_sep).
  - by rewrite IH, <- !(assoc bi_sep).
Qed.

(** The last link can be taken out and replaced by one to another node. *)
Lemma links_last a l b : links a l b ⊢
  (default a (last l), Next) ↦ b ∗ (b, Prev) ↦ default a (last l) ∗
  (∀ y, (default a (last l), Next) ↦ y -∗ (y, Prev) ↦ default a (last l) -∗ links a l y).
Proof.
  destruct l as [|x l _] using rev_ind.
  - cbn. iIntros "[$ $]" (y) "$ $".
  - rewrite last_snoc. cbn [default]. rewrite links_app. cbn [links].
    iIntros "(H & $ & $)" (y) "H1 H2". rewrite links_app. cbn [links]. iFrame.
Qed.

(** And so can the first. *)
Lemma links_first a l b : links a l b ⊢
  (a, Next) ↦ default b (head l) ∗ (default b (head l), Prev) ↦ a ∗
  (∀ y, (y, Next) ↦ default b (head l) -∗ (default b (head l), Prev) ↦ y -∗ links y l b).
Proof.
  destruct l as [|x l]; cbn.
  - iIntros "[$ $]" (y) "$ $".
  - iIntros "($ & $ & H)" (y) "$ $". iFrame.
Qed.

Section operations.
Implicit Types Q : unit -> heapProp.

Lemma LIST_INIT_HEAD_ok head Q :
  unlinked head ⊢ (ring head [] -∗ Q tt) -∗ hwp (LIST_INIT_HEAD head) Q.
Proof.
  iIntros "(%n & %p & H1 & H2) HQ". unfold LIST_INIT_HEAD. h_steps. iApply "HQ".
  unfold ring. cbn. iFrame.
Qed.

Lemma _list_add_ok a l1 l2 b node Q :
  links a (l1 ++ l2) b ∗ unlinked node ⊢
  (links a (l1 ++ node :: l2) b -∗ Q tt) -∗
  hwp (_list_add node (default a (last l1)) (default b (head l2))) Q.
Proof.
  iIntros "[H (%n & %p & H1 & H2)] HQ". unfold _list_add.
  destruct l2 as [|x l2]; cbn [head default from_option id].
  - rewrite app_nil_r, (links_last a l1 b). iDestruct "H" as "(H3 & H4 & H)". h_steps.
    iApply "HQ". rewrite links_app. cbn [links]. iFrame. iApply ("H" with "[$] [$]").
  - rewrite links_app, (links_last a l1 x). iDestruct "H" as "[(H3 & H4 & H) H5]". h_steps.
    iApply "HQ". rewrite links_app. cbn [links]. iFrame. iApply ("H" with "[$] [$]").
Qed.

Lemma list_add_ok head xs node Q :
  ring head xs ∗ unlinked node ⊢ (ring head (node :: xs) -∗ Q tt) -∗ hwp (list_add head node) Q.
Proof.
  iIntros "[H Hn] HQ". unfold list_add, ring. rewrite (links_first head xs head) at 1.
  iDestruct "H" as "(H1 & H2 & H)". h_steps.
  iApply (_list_add_ok head [] xs head with "[-HQ] HQ"). iFrame "Hn". cbn [app].
  iApply ("H" with "[$] [$]").
Qed.

Lemma list_add_tail_ok head xs node Q :
  ring head xs ∗ unlinked node ⊢
  (ring head (xs ++ [node]) -∗ Q tt) -∗ hwp (list_add_tail head node) Q.
Proof.
  iIntros "[H Hn] HQ". unfold list_add_tail, ring. rewrite (links_last head xs head) at 1.
  iDestruct "H" as "(H1 & H2 & H)". h_steps.
  iApply (_list_add_ok head xs [] head with "[-HQ] HQ"). iFrame "Hn". rewrite app_nil_r.
  iApply ("H" with "[$] [$]").
Qed.

Lemma list_del_ok a l1 x l2 b Q :
  links a (l1 ++ x :: l2) b ⊢
  (links a (l1 ++ l2) b ∗ (x, Next) ↦ NULL ∗ (x, Prev) ↦ NULL -∗ Q tt) -∗ hwp (list_del x) Q.
Proof.
  rewrite links_app, (links_last a l1 x), (links_first x l2 b). unfold list_del, _list_del.
  iIntros "[(H1 & H2 & H) (H3 & H4 & H')] HQ".
  destruct l2 as [|y l2]; cbn [head default from_option id]; h_steps; iApply "HQ".
  - rewrite app_nil_r. iFrame. iApply ("H" with "[$] [$]").
  - iFrame. iDestruct ("H'" $! (default a (last l1)) with "[$] [$]") as "(H1 & H2 & H')".
    rewrite links_app. iFrame. iApply ("H" with "[$] [$]").
Qed.

Lemma LIST_HEAD_ok head xs (Q : ptr -> heapProp) :
  ring head xs ∗ ⌜head ∉ xs⌝ ⊢
  (ring head xs -∗ Q (default NULL (list.head xs))) -∗ hwp (LIST_HEAD head) Q.
Proof.
  iIntros "[H %Hne] HQ". unfold LIST_HEAD, ring.
  iDestruct (links_first with "H") as "(H1 & H2 & H)". h_steps.
  destruct xs as [|x xs]; cbn [list.head default from_option id].
  - rewrite Z.eqb_refl. iApply "HQ". iApply ("H" with "[$] [$]").
  - replace (x =? head) with false by (symmetry; apply Z.eqb_neq; set_solver).
    iApply "HQ". iApply ("H" with "[$] [$]").
Qed.

Lemma LIST_TAIL_ok head xs (Q : ptr -> heapProp) :
  ring head xs ∗ ⌜head ∉ xs⌝ ⊢
  (ring head xs -∗ Q (default NULL (last xs))) -∗ hwp (LIST_TAIL head) Q.
Proof.
  iIntros "[H %Hne] HQ". unfold LIST_TAIL, ring.
  iDestruct (links_last with "H") as "(H1 & H2 & H)". h_steps.
  destruct xs as [|x xs _] using rev_ind; [cbn|rewrite last_snoc]; cbn [default from_option id].
  - rewrite Z.eqb_refl. iApply "HQ". iApply ("H" with "[$] [$]").
  - replace (x =? head) with false by (symmetry; apply Z.eqb_neq; set_solver).
    iApply "HQ". iApply ("H" with "[$] [$]").
Qed.

(** ** Traversal *)

(** An element is not the head of its list. *)
Lemma links_cons_ne a x l b : links a (x :: l) b ⊢ ⌜x <> a⌝.
Proof.
  cbn [links]. rewrite (links_first x l b). iIntros "(H1 & _ & H2 & _)".
  iDestruct (pointsto_ne with "H1 H2") as %H. iPureIntro. congruence.
Qed.

(** Every list of links gives access to its first [next]. *)
Lemma links_next a l b : links a l b ⊢
  (a, Next) ↦ default b (head l) ∗ ((a, Next) ↦ default b (head l) -∗ links a l b).
Proof.
  rewrite links_first at 1. iIntros "(H1 & H2 & H)". iFrame. iIntros "H1".
  iApply ("H" with "[$] [$]").
Qed.

(** What a traversal of [xs] reads as the successor of the first element. *)
Definition second (head : ptr) (xs : list ptr) : ptr :=
  match xs with [] => head | _ :: xs => default head (list.head xs) end.

Lemma ring_second head xs : ring head xs ⊢
  (default head (list.head xs), Next) ↦ second head xs ∗
  ((default head (list.head xs), Next) ↦ second head xs -∗ ring head xs).
Proof.
  unfold ring. destruct xs as [|x xs]; cbn [list.head default from_option id second].
  - cbn [links]. iIntros "[$ $] $".
  - cbn [links]. rewrite (links_next x xs head) at 1. iIntros "($ & $ & $ & $)".
Qed.

(** A traversal that deletes each element it visits: the body is run once on
    every element, in order, and turns what is known of the element, [Φ], into
    [Ψ]; the list is empty in the end. *)
Lemma list_for_each_safe_ok head (Φ Ψ : ptr -> heapProp) (body : ptr -> cmd heap unit) xs fuel Q :
  (length xs < fuel)%nat ->
  (forall x xs' R, ring head (x :: xs') ∗ Φ x ⊢
     (ring head xs' ∗ Ψ x -∗ R tt) -∗ hwp (body x) R) ->
  ring head xs ∗ ([∗ list] x ∈ xs, Φ x) ⊢
  (ring head [] ∗ ([∗ list] x ∈ xs, Ψ x) -∗ Q tt) -∗
  hwp (list_for_each_safe fuel head body) Q.
Proof.
  intros Hf Hbody. unfold list_for_each_safe.
  (* The loop, entered with [p] the first node of what is left and [n] its successor. *)
  assert (forall xs fuel, (length xs < fuel)%nat ->
    ring head xs ∗ ([∗ list] x ∈ xs, Φ x) ⊢
    (ring head [] ∗ ([∗ list] x ∈ xs, Ψ x) -∗ Q tt) -∗
    hwp (loop fuel (fun '(p, n) =>
      if p =? head then mret (inr tt)
      else _ ← body p; n' ← hload (n, Next); mret (inl (n, n')))
      (default head (list.head xs), second head xs)) Q) as Hloop.
  { clear xs fuel Hf. intros xs. revert Q. induction xs as [|x xs IH]; intros Q [|fuel] Hf;
      try (cbn in Hf; lia); iIntros "[H HΦ] HQ"; iApply hwp_loop;
      cbn [list.head default from_option id second].
    - rewrite Z.eqb_refl. h_steps. iApply "HQ". iFrame.
    - iDestruct (links_cons_ne with "H") as %Hne. replace (x =? head) with false by zlia.
      h_step. iDestruct "HΦ" as "[Hx HΦ]". iApply (Hbody with "[$H $Hx]").
      iIntros "[H Hx]". h_step. iDestruct (ring_second with "H") as "[H1 H]". h_steps.
      iApply (IH with "[-HQ Hx]"); [cbn in Hf; lia| |].
      { iFrame "HΦ". iApply ("H" with "[$]"). }
      iIntros "[H HΨ]". iApply "HQ". iFrame. }
  iIntros "[H HΦ] HQ". iDestruct (links_next with "H") as "[H1 H]". h_step. h_step.
  iDestruct ("H" with "[$]") as "H". h_step. iDestruct (ring_second with "H") as "[H1 H]". h_step.
  iApply (Hloop with "[-HQ] HQ"); [done|]. iFrame. iApply ("H" with "[$]").
Qed.

End operations.
End ClistSpec.

Module ClistThm.
Import Clist ClistSpec.

(** list_add puts a node at the front of a list and list_add_tail at the
    end; neither touches any other memory. *)
Theorem list_add_correct head xs node :
  triple (ring head xs ∗ unlinked node)%I (list_add head node)
    (fun _ => ring head (node :: xs)) /\
  triple (ring head xs ∗ unlinked node)%I (list_add_tail head node)
    (fun _ => ring head (xs ++ [node])).
Proof.
  split; apply triple_hwp; iIntros "H";
    [iApply (list_add_ok with "H")|iApply (list_add_tail_ok with "H")]; by iIntros "H".
Qed.

(** list_del takes a node out of the list it is in, wherever it is, keeps
    the others in order and leaves the node with NULL links. *)
Theorem list_del_correct head l1 x l2 :
  triple (ring head (l1 ++ x :: l2)) (list_del x)
    (fun _ => ring head (l1 ++ l2) ∗ (x, Next) ↦ NULL ∗ (x, Prev) ↦ NULL)%I.
Proof. apply triple_hwp. iIntros "H". iApply (list_del_ok with "H"). by iIntros "H". Qed.

(** LIST_HEAD and LIST_TAIL return the first and the last element of a list,
    and NULL for the empty one. *)
Theorem list_ends_correct head xs : head ∉ xs ->
  triple (ring head xs) (LIST_HEAD head)
    (fun p => ⌜p = default NULL (list.head xs)⌝ ∗ ring head xs)%I /\
  triple (ring head xs) (LIST_TAIL head)
    (fun p => ⌜p = default NULL (last xs)⌝ ∗ ring head xs)%I.
Proof.
  intros Hne. split; apply triple_hwp; iIntros "H";
    [iApply (LIST_HEAD_ok head xs with "[$H]")|iApply (LIST_TAIL_ok head xs with "[$H]")];
    try done; iIntros "H"; by iFrame.
Qed.

(** list_for_each_safe, with a body that deletes the element it is given
    from the list, runs the body once on every element, in order, ends after the
    last one and leaves the list empty. *)
Theorem list_for_each_safe_correct head (Φ Ψ : ptr -> heapProp) body xs fuel :
  (forall x xs' R, ring head (x :: xs') ∗ Φ x ⊢
     (ring head xs' ∗ Ψ x -∗ R tt) -∗ hwp (body x) R) ->
  (length xs < fuel)%nat ->
  triple (ring head xs ∗ ([∗ list] x ∈ xs, Φ x))%I (list_for_each_safe fuel head body)
    (fun _ => ring head [] ∗ [∗ list] x ∈ xs, Ψ x)%I.
Proof.
  intros Hbody Hf. apply triple_hwp. iIntros "H".
  iApply (list_for_each_safe_ok head Φ Ψ body xs fuel with "H"); [done..|]. by iIntros "$".
Qed.

(** *** A list of two elements at addresses 16 and 32, headed at 1 *)
Definition ex_cells : list (loc * Z) :=
  [((1, Next), 16); ((16, Prev), 1); ((16, Next), 32); ((32, Prev), 16);
   ((32, Next), 1); ((1, Prev), 32)].
Definition ex_heap : heap := list_to_map ex_cells.

Lemma ex_ring : ring 1 [16; 32] ex_heap.
Proof.
  apply holds_of_cells; [by_compute|]. unfold ring, owns. cbn.
  iIntros "($ & $ & $ & $ & $ & $ & _)".
Qed.

Lemma list_ends_correct_witness : exists h1 h2,
  LIST_HEAD 1 ex_heap = Val (16, h1) /\ LIST_TAIL 1 ex_heap = Val (32, h2).
Proof.
  destruct (list_ends_correct 1 [16; 32] ltac:(by_compute)) as [H1 H2].
  destruct (triple_run _ _ _ _ H1 ex_ring) as (x & h1 & E1 & Hx).
  destruct (triple_run _ _ _ _ H2 ex_ring) as (y & h2 & E2 & Hy).
  exists h1, h2. destruct Hx as (? & ? & _ & _ & -> & _), Hy as (? & ? & _ & _ & -> & _). done.
Defined.

Lemma list_for_each_safe_correct_witness :
  exists h', list_for_each_safe 3 1 list_del ex_heap = Val (tt, h').
Proof.
  destruct (triple_run _ _ _ ex_heap (list_for_each_safe_correct 1 (fun _ => emp%I) (fun _ => emp%I)
    list_del [16; 32] 3
    ltac:(intros x xs' R; iIntros "[H _] HR"; iApply (list_del_ok 1 [] x xs' 1 with "H");
          iIntros "[H _]"; iApply "HR"; by iFrame)
    ltac:(cbn; lia))) as ([] & h' & H & _).
  - assert (ring 1 [16; 32] ⊢ (ring 1 [16; 32] ∗ [∗ list] _ ∈ [16; 32], emp)%I) as [Hp]
      by (by iIntros "$").
    apply Hp, ex_ring.
  - by exists h'.
Defined.
End ClistThm.
