(* ===== verification/Rbtree.v ===== *)
(** The intrusive red-black tree of rbtree.c, as written: parent pointers, one
    sentinel node for all leaves, rotations, and the two fix-up loops, over
    the memory of Heap.v.

    A node is the head of a larger structure whose remaining members, the
    payload, the tree moves as raw bytes and orders with a comparison function;
    [NodeType] is what the tree takes from its client.  The specification and
    the proofs are in RbtreeSpec.v. *)
From S2P Require Import Prelude Heap.

(** What rbtree_init is told about the nodes: the members behind struct rbnode
    up to [nodesz], and the comparison function [cmp]. *)
Class NodeType := {
  payload_fields : list field;
  node_cmp : ptr -> ptr -> cmd heap Z;
}.

Module Rbtree.

Definition RBBLK : Z := 0.
Definition RBRED : Z := 1.

(** &sentinel *)
Definition RBNIL : ptr := -1.

Section tree.
Context `{!NodeType}.
Variable t : ptr.

Definition rbtree_init : cmd heap unit := hstore (t, Root) RBNIL.

(** [x]'s place below its parent is given to [y]; [side] is the child the code
    compares with first. *)
Definition replace_child (side other : field) (x y : ptr) : cmd heap unit :=
  p ← hload (x, Parent);
  if negb (p =? NULL) then
    c ← hload (p, side);
    if x =? c then hstore (p, side) y else hstore (p, other) y
  else hstore (t, Root) y.

Definition rotate_left (x : ptr) : cmd heap unit :=
  y ← hload (x, Right);
  yl ← hload (y, Left);
  _ ← hstore (x, Right) yl;
  _ ← if: negb (yl =? RBNIL) then hstore (yl, Parent) x;
  _ ← if: negb (y =? RBNIL) then (p ← hload (x, Parent); hstore (y, Parent) p);
  _ ← replace_child Left Right x y;
  _ ← hstore (y, Left) x;
  if: negb (x =? RBNIL) then hstore (x, Parent) y.

Definition rotate_right (x : ptr) : cmd heap unit :=
  y ← hload (x, Left);
  yr ← hload (y, Right);
  _ ← hstore (x, Left) yr;
  _ ← if: negb (yr =? RBNIL) then hstore (yr, Parent) x;
  _ ← if: negb (y =? RBNIL) then (p ← hload (x, Parent); hstore (y, Parent) p);
  _ ← replace_child Right Left x y;
  _ ← hstore (y, Right) x;
  if: negb (x =? RBNIL) then hstore (x, Parent) y.

(** *** insert_fixup *)

(** The two branches of the loop body; the result is the new [x]. *)
Definition insert_left_case (x : ptr) : cmd heap ptr :=
  p ← hload (x, Parent);
  g ← hload (p, Parent);
  y ← hload (g, Right);
  yc ← hload (y, Color);
  if yc =? RBRED then
    _ ← hstore (p, Color) RBBLK;
    _ ← hstore (y, Color) RBBLK;
    _ ← hstore (g, Color) RBRED;
    mret g
  else
    pr ← hload (p, Right);
    x ← (if x =? pr then _ ← rotate_left p; mret p else mret x);
    p ← hload (x, Parent);
    _ ← hstore (p, Color) RBBLK;
    g ← hload (p, Parent);
    _ ← hstore (g, Color) RBRED;
    _ ← rotate_right g;
    mret x.

Definition insert_right_case (x : ptr) : cmd heap ptr :=
  p ← hload (x, Parent);
  g ← hload (p, Parent);
  y ← hload (g, Left);
  yc ← hload (y, Color);
  if yc =? RBRED then
    _ ← hstore (p, Color) RBBLK;
    _ ← hstore (y, Color) RBBLK;
    _ ← hstore (g, Color) RBRED;
    mret g
  else
    pl ← hload (p, Left);
    x ← (if x =? pl then _ ← rotate_right p; mret p else mret x);
    p ← hload (x, Parent);
    _ ← hstore (p, Color) RBBLK;
    g ← hload (p, Parent);
    _ ← hstore (g, Color) RBRED;
    _ ← rotate_left g;
    mret x.

Definition insert_fixup (fuel : nat) (x : ptr) : cmd heap unit :=
  _ ← loop fuel (fun x =>
    r ← hload (t, Root);
    if x =? r then mret (inr tt)
    else
      p ← hload (x, Parent);
      pc ← hload (p, Color);
      if negb (pc =? RBRED) then mret (inr tt)
      else
        g ← hload (p, Parent);
        gl ← hload (g, Left);
        x ← (if p =? gl then insert_left_case x else insert_right_case x);
        mret (inl x)) x;
  r ← hload (t, Root);
  hstore (r, Color) RBBLK.

(** The descent: the last node on the way, and the last comparison. *)
Definition find_parent (fuel : nat) (x : ptr) : cmd heap (ptr * Z) :=
  r ← hload (t, Root);
  loop fuel (fun '(cur, parent, c) =>
    if cur =? RBNIL then mret (inr (parent, c))
    else
      c ← node_cmp x cur;
      next ← hload (cur, if c <=? 0 then Left else Right);
      mret (inl (next, cur, c))) (r, NULL, 0).

Definition rbtree_insert (fuel : nat) (x : ptr) : cmd heap unit :=
  r ← find_parent fuel x;
  let '(parent, c) := r in
  _ ← hstore (x, Color) RBRED;
  _ ← hstore (x, Right) RBNIL;
  _ ← hstore (x, Left) RBNIL;
  _ ← hstore (x, Parent) parent;
  _ ← (if negb (parent =? NULL) then hstore (parent, if c <=? 0 then Left else Right) x
       else hstore (t, Root) x);
  insert_fixup fuel x.

(** *** delete_fixup *)

Definition delete_left_case (x : ptr) : cmd heap ptr :=
  p ← hload (x, Parent);
  w ← hload (p, Right);
  wc ← hload (w, Color);
  w ← (if wc =? RBRED then
         _ ← hstore (w, Color) RBBLK;
         _ ← hstore (p, Color) RBRED;
         _ ← rotate_left p;
         p ← hload (x, Parent);
         hload (p, Right)
       else mret w);
  wl ← hload (w, Left);
  wlc ← hload (wl, Color);
  wr ← hload (w, Right);
  wrc ← hload (wr, Color);
  if (wlc =? RBBLK) && (wrc =? RBBLK) then
    _ ← hstore (w, Color) RBRED;
    hload (x, Parent)
  else
    w ← (if wrc =? RBBLK then
           _ ← hstore (wl, Color) RBBLK;
           _ ← hstore (w, Color) RBRED;
           _ ← rotate_right w;
           p ← hload (x, Parent);
           hload (p, Right)
         else mret w);
    p ← hload (x, Parent);
    pc ← hload (p, Color);
    _ ← hstore (w, Color) pc;
    _ ← hstore (p, Color) RBBLK;
    wr ← hload (w, Right);
    _ ← hstore (wr, Color) RBBLK;
    _ ← rotate_left p;
    hload (t, Root).

Definition delete_right_case (x : ptr) : cmd heap ptr :=
  p ← hload (x, Parent);
  w ← hload (p, Left);
  wc ← hload (w, Color);
  w ← (if wc =? RBRED then
         _ ← hstore (w, Color) RBBLK;
         _ ← hstore (p, Color) RBRED;
         _ ← rotate_right p;
         p ← hload (x, Parent);
         hload (p, Left)
       else mret w);
  wr ← hload (w, Right);
  wrc ← hload (wr, Color);
  wl ← hload (w, Left);
  wlc ← hload (wl, Color);
  if (wrc =? RBBLK) && (wlc =? RBBLK) then
    _ ← hstore (w, Color) RBRED;
    hload (x, Parent)
  else
    w ← (if wlc =? RBBLK then
           _ ← hstore (wr, Color) RBBLK;
           _ ← hstore (w, Color) RBRED;
           _ ← rotate_left w;
           p ← hload (x, Parent);
           hload (p, Left)
         else mret w);
    p ← hload (x, Parent);
    pc ← hload (p, Color);
    _ ← hstore (w, Color) pc;
    _ ← hstore (p, Color) RBBLK;
    wl ← hload (w, Left);
    _ ← hstore (wl, Color) RBBLK;
    _ ← rotate_right p;
    hload (t, Root).

Definition delete_fixup (fuel : nat) (x : ptr) : cmd heap unit :=
  x ← loop fuel (fun x =>
    r ← hload (t, Root);
    if x =? r then mret (inr x)
    else
      xc ← hload (x, Color);
      if negb (xc =? RBBLK) then mret (inr x)
      else
        p ← hload (x, Parent);
        pl ← hload (p, Left);
        x ← (if x =? pl then delete_left_case x else delete_right_case x);
        mret (inl x)) x;
  hstore (x, Color) RBBLK.

(** memcpy(z+1, y+1, t->nodesz - sizeof(struct rbnode)) *)
Fixpoint copy_fields (fs : list field) (z y : ptr) : cmd heap unit :=
  match fs with
  | [] => mret tt
  | f :: fs =>
      v ← hload (y, f);
      _ ← hstore (z, f) v;
      copy_fields fs z y
  end.

(** The node to unlink: [z], or its successor when [z] has two children. *)
Definition node_to_unlink (fuel : nat) (z : ptr) : cmd heap ptr :=
  l ← hload (z, Left);
  r ← hload (z, Right);
  if (l =? RBNIL) || (r =? RBNIL) then mret z
  else
    loop fuel (fun y =>
      l ← hload (y, Left);
      if negb (l =? RBNIL) then mret (inl l) else mret (inr y)) r.

Definition rbtree_delete (fuel : nat) (z : ptr) : cmd heap unit :=
  y ← node_to_unlink fuel z;
  yl ← hload (y, Left);
  x ← (if negb (yl =? RBNIL) then mret yl else hload (y, Right));
  p ← hload (y, Parent);
  _ ← hstore (x, Parent) p;
  _ ← replace_child Left Right y x;
  _ ← if: negb (y =? z) then copy_fields payload_fields z y;
  yc ← hload (y, Color);
  if: yc =? RBBLK then delete_fixup fuel x.

(** *** Searches *)

(** rbtree_leftmost and rbtree_rightmost walk down one side. *)
Definition walk (side : field) (fuel : nat) (x : ptr) : cmd heap ptr :=
  if x =? RBNIL then mret NULL
  else
    loop fuel (fun '(x, next) =>
      if negb (next =? RBNIL) then
        n ← hload (next, side);
        mret (inl (next, n))
      else mret (inr x)) (x, x).
Definition rbtree_leftmost : nat -> ptr -> cmd heap ptr := walk Left.
Definition rbtree_rightmost : nat -> ptr -> cmd heap ptr := walk Right.

Definition rbtree_upper_bound (fuel : nat) (x : ptr) : cmd heap ptr :=
  r ← hload (t, Root);
  loop fuel (fun '(cur, best) =>
    if cur =? RBNIL then mret (inr best)
    else
      c ← node_cmp cur x;
      if 0 <? c then l ← hload (cur, Left); mret (inl (l, cur))
      else r ← hload (cur, Right); mret (inl (r, best))) (r, NULL).

End tree.
End Rbtree.
