(* ===== verification/RbtreeInv.v ===== *)
(** The trees that insertion and deletion compute: their entries in order, the
    red-black invariant, and the search order. *)
From stdpp Require Import sorting.
From S2P Require Import Prelude Heap Rbtree RbtreeSpec.
Import Rbtree.

(** ** Entries *)
Fixpoint entries (t : tree) : list (ptr * list Z) :=
  match t with
  | E => []
  | T _ l x v r => entries l ++ (x, v) :: entries r
  end.

(** The entries before and after the end of a path. *)
Fixpoint before (k : path) : list (ptr * list Z) :=
  match k with
  | [] => []
  | Fr L _ _ _ _ :: k => before k
  | Fr R _ x v s :: k => before k ++ entries s ++ [(x, v)]
  end.
Fixpoint after (k : path) : list (ptr * list Z) :=
  match k with
  | [] => []
  | Fr L _ x v s :: k => (x, v) :: entries s ++ after k
  | Fr R _ _ _ _ :: k => after k
  end.

Lemma entries_plug t k : entries (plug t k) = before k ++ entries t ++ after k.
Proof.
  revert t. induction k as [|[[] c x v s] k IH]; intros t.
  - cbn. by rewrite app_nil_r.
  - cbn [plug foldl]. fold (plug (plug1 t (Fr L c x v s)) k). rewrite IH. cbn. by app_norm.
  - cbn [plug foldl]. fold (plug (plug1 t (Fr R c x v s)) k). rewrite IH. cbn. by app_norm.
Qed.

Lemma entries_set_color c t : entries (set_color c t) = entries t.
Proof. by destruct t. Qed.

(** Rotations and recolourings keep the entries: both sides of an equation
    between nodes, in either orientation. *)
Ltac by_entries :=
  repeat match goal with d : dir |- _ => destruct d end;
  cbn [node entries opp plug1 fdir fcol fptr fval fsib kid addr val]; rewrite ?entries_set_color; app_norm; done.

Lemma entries_ifix n : forall t k, (length k < n)%nat -> t <> E ->
  entries (ifix t k) = before k ++ entries t ++ after k.
Proof.
  induction n as [|n IH]; intros t k Hn Ht; [lia|]. rewrite <- entries_plug.
  destruct k as [|[d1 c1 p v s] [|[d c g w u] k]]; cbn [ifix].
  - done.
  - by destruct (c1 =? RBRED).
  - destruct (c1 =? RBRED); [|done]. cbn [length] in Hn.
    destruct (color u =? RBRED).
    + rewrite IH by (lia || by destruct d). cbn [plug foldl plug1 fdir fcol fptr fval fsib].
      fold (plug (node d c (node d1 c1 t p v s) g w u) k). rewrite entries_plug.
      do 2 f_equal. by_entries.
    + cbn [plug foldl plug1 fdir fcol fptr fval fsib].
      fold (plug (node d c (node d1 c1 t p v s) g w u) k).
      destruct (decide (d1 = d)) as [->|Hd]; rewrite !entries_plug; do 2 f_equal; [by_entries|].
      assert (d1 = opp d) as -> by by destruct d, d1.
      destruct t as [|ct l x vx r]; [done|]. by_entries.
Qed.

(** ** The red-black invariant *)
Inductive rb : tree -> nat -> Prop :=
  | rb_leaf : rb E 0
  | rb_red l x v r n : color l = RBBLK -> color r = RBBLK -> rb l n -> rb r n ->
      rb (T RBRED l x v r) n
  | rb_black l x v r n : rb l n -> rb r n -> rb (T RBBLK l x v r) (S n).

Definition rb_ok (t : tree) : Prop := color t = RBBLK /\ exists n, rb t n.

Lemma rb_color t n : rb t n -> color t = RBBLK \/ color t = RBRED.
Proof. destruct 1; [by left|by right|by left]. Qed.

Lemma rb_node d a x v b n c : (c = RBRED -> color a = RBBLK /\ color b = RBBLK) ->
  c = RBBLK \/ c = RBRED -> rb a n -> rb b n ->
  rb (node d c a x v b) (if c =? RBRED then n else S n).
Proof.
  intros Hc [-> | ->] Ha Hb; destruct d; cbn [node]; try (by constructor);
    destruct (Hc eq_refl); by constructor.
Qed.

Lemma rb_node_red d a x v b n : color a = RBBLK -> color b = RBBLK -> rb a n -> rb b n ->
  rb (node d RBRED a x v b) n.
Proof. intros. destruct d; by constructor. Qed.
Lemma rb_node_black d a x v b n : rb a n -> rb b n -> rb (node d RBBLK a x v b) (S n).
Proof. intros. destruct d; by constructor. Qed.

Lemma rb_red_inv d t n : rb t n -> color t = RBRED ->
  color (kid d t) = RBBLK /\ rb (kid d t) n.
Proof. destruct 1; intros; try done. by destruct d. Qed.
Lemma rb_black_inv d t n : rb t (S n) -> color t = RBBLK -> rb (kid d t) n.
Proof. inversion 1; subst; [done|]. by destruct d. Qed.
Lemma rb_blacken t n : rb t n -> color t = RBRED -> rb (set_color RBBLK t) (S n).
Proof. destruct 1; intros; try done. by constructor. Qed.

Create HintDb rb.
#[export] Hint Resolve rb_node_red rb_node_black rb_blacken : rb.

(** The frame above is black (or there is none). *)
Definition black_top (k : path) : Prop :=
  match k with [] => True | f :: _ => fcol f = RBBLK end.

(** A path that expects a tree of black height [n] at its end. *)
Inductive rbk : path -> nat -> Prop :=
  | rbk_root n : rbk [] n
  | rbk_red d x v s k n : rb s n -> color s = RBBLK -> black_top k -> k <> [] -> rbk k n ->
      rbk (Fr d RBRED x v s :: k) n
  | rbk_black d x v s k n : rb s n -> rbk k (S n) -> rbk (Fr d RBBLK x v s :: k) n.

Lemma rbk_red_below k n : rbk k n -> Rep.red_below k.
Proof. induction 1; cbn; done. Qed.

(** Filling the hole; at the top the root may be red and is then painted. *)
Lemma rb_plug k n : rbk k n -> forall t, rb t n -> color t = RBBLK \/ black_top k ->
  exists m, rb (set_color RBBLK (plug t k)) m.
Proof.
  induction 1 as [n|d x v s k n Hs Hc Hb Hk _ IH|d x v s k n Hs _ IH]; intros t Ht Hcol.
  - cbn. destruct Ht; cbn; eexists; by constructor.
  - cbn [plug foldl]. apply IH.
    + destruct Hcol as [Hcol|]; [|done]. by apply rb_node_red.
    + by right.
  - cbn [plug foldl]. apply IH; [by apply rb_node_black|]. left. by destruct d.
Qed.

Lemma rb_ifix n : forall t k h, (length k < n)%nat -> rb t h -> color t = RBRED -> rbk k h ->
  exists m, rb (set_color RBBLK (ifix t k)) m.
Proof.
  induction n as [|n IH]; intros t k h Hn Ht Hc Hk; [lia|].
  assert (t <> E) as Hne by by intros ->.
  destruct Hk as [h|d1 p v s k1 h Hs Hcs Hb Hk1 Hk|d1 p v s k1 h Hs Hk].
  - by apply (rb_plug [] h (rbk_root h) t Ht); right.
  - destruct k1 as [|[d c g w u] k2]; [done|]. cbn in Hb. subst c.
    inversion Hk as [| |? ? ? ? ? ? Hu Hk2]; subst. cbn [ifix length] in *.
    change (RBRED =? RBRED) with true. cbn iota.
    destruct (Z.eqb_spec (color u) RBRED) as [Hcu|Hcu].
    + apply (IH _ k2 (S h)); [lia| |by destruct d|done].
      apply rb_node_red; [by destruct d1|by destruct u| |]; auto with rb.
    + assert (color u = RBBLK) as Hcu' by (by destruct (rb_color u h)).
      destruct (decide (d1 = d)) as [->|Hd]; apply (rb_plug k2 (S h) Hk2);
        try (left; by destruct d).
      * auto with rb.
      * destruct (rb_red_inv d t h Ht Hc), (rb_red_inv (opp d) t h Ht Hc). auto with rb.
  - replace (ifix t _) with (plug t (Fr d1 RBBLK p v s :: k1)) by done.
    apply (rb_plug _ h); [by constructor|done|by right].
Qed.

(** ** The fix-up of a deletion, as a function *)

(** What [delete_rest] makes of the parent [p] (colour [c]), whose child on
    side [d] is [t] and whose other child is [s]: with [true], the loop goes on
    from the result; with [false] it is done. *)
Definition drest (d : dir) (c : Z) (t : tree) (p : ptr) (v : list Z) (s : tree) : bool * tree :=
  let b := kid d s in
  let e := kid (opp d) s in
  if (color b =? RBBLK) && (color e =? RBBLK) then
    (true, node d c t p v (node d RBRED b (addr s) (val s) e))
  else if color e =? RBBLK then
    (false, node d c (node d RBBLK t p v (kid d b)) (addr b) (val b)
              (node d RBBLK (kid (opp d) b) (addr s) (val s) e))
  else
    (false, node d c (node d RBBLK t p v b) (addr s) (val s) (set_color RBBLK e)).

Fixpoint dfix (t : tree) (k : path) : tree :=
  match k with
  | [] => set_color RBBLK t
  | Fr d c p v s :: k' =>
      if color t =? RBBLK then
        if color s =? RBRED then
          let k'' := Fr d RBBLK (addr s) (val s) (kid (opp d) s) :: k' in
          match drest d RBRED t p v (kid d s) with
          | (true, t1) => plug (set_color RBBLK t1) k''
          | (false, t1) => set_color RBBLK (plug t1 k'')
          end
        else
          match drest d c t p v s with
          | (true, t1) => dfix t1 k'
          | (false, t1) => set_color RBBLK (plug t1 k')
          end
      else plug (set_color RBBLK t) k
  end.

Lemma plug_cons t f k : plug t (f :: k) = plug (plug1 t f) k.
Proof. done. Qed.

Lemma entries_drest d c t p v s : s <> E ->
  entries (snd (drest d c t p v s)) = entries (node d c t p v s).
Proof.
  intros Hs. destruct s as [|cs l w ww r]; [done|]. unfold drest.
  destruct d; cbn [kid opp].
  - destruct (color l =? RBBLK) eqn:El, (color r =? RBBLK); cbn [andb snd]; try by_entries.
    destruct l; [done|]. by_entries.
  - destruct (color r =? RBBLK) eqn:Er, (color l =? RBBLK); cbn [andb snd]; try by_entries.
    destruct r; [done|]. by_entries.
Qed.

(** The subtree at the end of the path is one black node short: it has black
    height [n] where [S n] is expected, unless painting its root black mends it. *)
Definition deficit (t : tree) (n : nat) : Prop :=
  (color t = RBBLK /\ rb t n) \/ (color t = RBRED /\ rb (set_color RBBLK t) (S n)).

Lemma rb_not_leaf t n : rb t (S n) -> t <> E.
Proof. by inversion 1. Qed.

(** One step of the fix-up, the sibling being black. *)
Lemma rb_drest d c t p v s n : rb t n -> rb s (S n) -> color s = RBBLK ->
  match drest d c t p v s with
  | (true, t1) => (c = RBBLK -> deficit t1 (S n)) /\ (c = RBRED -> deficit t1 n) /\ color t1 = c
  | (false, t1) =>
      (c = RBBLK -> rb t1 (S (S n))) /\ (c = RBRED -> rb t1 (S n)) /\ color t1 = c
  end.
Proof.
  intros Ht Hs Hc. unfold drest.
  pose proof (rb_black_inv d s n Hs Hc) as Hb. pose proof (rb_black_inv (opp d) s n Hs Hc) as He.
  destruct (Z.eqb_spec (color (kid d s)) RBBLK) as [Ecb|Ecb];
    destruct (Z.eqb_spec (color (kid (opp d) s)) RBBLK) as [Ece|Ece]; cbn [andb].
  - assert (rb (node d RBBLK t p v (node d RBRED (kid d s) (addr s) (val s) (kid (opp d) s))) (S n))
      as H by auto with rb.
    split_and!; [intros ->; left; by destruct d|intros ->; right|by destruct d].
    split; [by destruct d|]. by destruct d.
  - destruct (rb_color _ _ He) as [|Hce]; [done|].
    split_and!; [intros ->|intros ->|by destruct d]; auto 6 with rb.
    apply rb_node_red; auto 6 with rb; [by destruct d|by destruct (kid (opp d) s)].
  - destruct (rb_color _ _ Hb) as [|Hcb]; [done|].
    destruct (rb_red_inv d _ _ Hb Hcb) as [_ Hb1], (rb_red_inv (opp d) _ _ Hb Hcb) as [_ Hb2].
    split_and!; [intros ->|intros ->|by destruct d]; auto 6 with rb.
    apply rb_node_red; auto 6 with rb; by destruct d.
  - destruct (rb_color _ _ He) as [|Hce]; [done|].
    split_and!; [intros ->|intros ->|by destruct d]; auto 6 with rb.
    apply rb_node_red; auto 6 with rb; [by destruct d|by destruct (kid (opp d) s)].
Qed.

Lemma plug_black k n : rbk k n -> forall t, color t = RBBLK \/ k <> [] ->
  color (plug t k) = RBBLK.
Proof.
  induction 1 as [n|d x v s k n Hs Hc Hb Hk _ IH|d x v s k n Hs _ IH]; intros t Ht.
  - by destruct Ht.
  - rewrite plug_cons. apply IH. by right.
  - rewrite plug_cons. apply IH. left. by destruct d.
Qed.

Lemma set_color_same t : color t = RBBLK -> set_color RBBLK t = t.
Proof. destruct t; cbn; [done|]. by intros ->. Qed.

Lemma rb_ok_plug t k n : rb t n -> rbk k n -> color t = RBBLK -> rb_ok (plug t k).
Proof.
  intros Ht Hk Hc. split; [by apply (plug_black k n); [|left]|].
  destruct (rb_plug k n Hk t Ht (or_introl Hc)) as [m Hm]. exists m.
  rewrite set_color_same in Hm; [done|]. by apply (plug_black k n); [|left].
Qed.

Lemma rb_ok_set t k n : rb t n -> rbk k n -> color t = RBBLK \/ black_top k ->
  rb_ok (set_color RBBLK (plug t k)).
Proof.
  intros Ht Hk Hc. split; [by destruct (plug t k)|]. by apply (rb_plug k n).
Qed.

Lemma rb_ok_dfix k : forall t n, deficit t n -> rbk k (S n) -> rb_ok (dfix t k).
Proof.
  induction k as [|[d c p v s] k IH]; intros t n Ht Hk; cbn [dfix].
  { destruct Ht as [[Hc Ht]|[Hc Ht]]; (split; [by destruct t|]); [|by exists (S n)].
    exists n. by rewrite set_color_same. }
  destruct Ht as [[Hc Ht]|[Hc Ht]]; rewrite Hc.
  2: { change (RBRED =? RBBLK) with false. cbn iota.
       apply (rb_ok_plug _ _ (S n)); [done|done|by destruct t]. }
  change (RBBLK =? RBBLK) with true. cbn iota.
  inversion Hk as [|? ? ? ? ? ? Hs Hcs Hb Hne Hk'|? ? ? ? ? ? Hs Hk']; subst.
  - rewrite Hcs. change (RBBLK =? RBRED) with false. cbn iota.
    pose proof (rb_drest d RBRED t p v s n Ht Hs Hcs) as Hd.
    destruct (drest _ _ _ _ _ _) as [[] t1]; destruct Hd as (_ & Hd & Hct); specialize (Hd eq_refl).
    + by apply (IH t1 n).
    + apply (rb_ok_set t1 k (S n)); [done|done|by right].
  - destruct (rb_color s (S n) Hs) as [Hcs|Hcs]; rewrite Hcs.
    + change (RBBLK =? RBRED) with false. cbn iota.
      pose proof (rb_drest d RBBLK t p v s n Ht Hs Hcs) as Hd.
      destruct (drest _ _ _ _ _ _) as [[] t1]; destruct Hd as (Hd & _ & Hct); specialize (Hd eq_refl).
      * by apply (IH t1 (S n)).
      * apply (rb_ok_set t1 k (S (S n))); [done|done|by left].
    + change (RBRED =? RBRED) with true. cbn iota zeta.
      destruct (rb_red_inv d s _ Hs Hcs) as [Hcb Hb], (rb_red_inv (opp d) s _ Hs Hcs) as [Hce He].
      pose proof (rb_drest d RBRED t p v (kid d s) n Ht Hb Hcb) as Hd.
      assert (rbk (Fr d RBBLK (addr s) (val s) (kid (opp d) s) :: k) (S n)) as Hk2
        by by constructor.
      destruct (drest _ _ _ _ _ _) as [[] t1]; destruct Hd as (_ & Hd & Hct); specialize (Hd eq_refl).
      * destruct Hd as [[Hc1 _]|[_ Hd]]; [by rewrite Hct in Hc1|].
        apply (rb_ok_plug _ _ (S n)); [done|done|by destruct t1].
      * apply (rb_ok_set t1 _ (S n)); [done|done|by right].
Qed.

Lemma entries_plug_eq t t' k : entries t = entries t' -> entries (plug t k) = entries (plug t' k).
Proof. intros H. by rewrite !entries_plug, H. Qed.

Lemma entries_dfix k : forall t n, deficit t n -> rbk k (S n) ->
  entries (dfix t k) = entries (plug t k).
Proof.
  induction k as [|[d c p v s] k IH]; intros t n Ht Hk; cbn [dfix].
  { by rewrite entries_set_color. }
  assert (rb s (S n) /\ (c = RBRED -> color s = RBBLK) /\ (c = RBBLK \/ c = RBRED) /\
    (c = RBBLK -> rbk k (S (S n))) /\ (c = RBRED -> rbk k (S n) /\ black_top k))
    as (Hs & Hcs & Hcc & Hk1 & Hk2) by (inversion Hk; subst; split_and!; naive_solver).
  pose proof (rb_not_leaf s n Hs) as Hne.
  destruct Ht as [[Hc Ht]|[Hc Ht]]; rewrite Hc.
  2: { change (RBRED =? RBBLK) with false. cbn iota.
       apply entries_plug_eq. by destruct t. }
  change (RBBLK =? RBBLK) with true. cbn iota. rewrite (plug_cons t).
  destruct (Z.eqb_spec (color s) RBRED) as [Es|Es].
  - destruct (rb_red_inv d s _ Hs Es) as [Hcb Hb].
    pose proof (entries_drest d RBRED t p v (kid d s) (rb_not_leaf _ _ Hb)) as He.
    destruct (drest _ _ _ _ _ _) as [[] t1]; cbn [snd] in He;
      rewrite ?entries_set_color, plug_cons; apply entries_plug_eq;
      unfold plug1; cbn [fdir fcol fptr fval fsib].
    + destruct s as [|cs sl sx sv sr]; [done|].
      destruct d; cbn [node entries kid opp addr val] in *; rewrite entries_set_color, He;
        by app_norm.
    + destruct s as [|cs sl sx sv sr]; [done|].
      destruct d; cbn [node entries kid opp addr val] in *; rewrite He; by app_norm.
  - destruct (rb_color s _ Hs) as [Hcs'|]; [|done].
    pose proof (entries_drest d c t p v s Hne) as He.
    pose proof (rb_drest d c t p v s n Ht Hs Hcs') as Hd.
    destruct (drest _ _ _ _ _ _) as [[] t1]; cbn [snd] in He;
      [|rewrite entries_set_color; by apply entries_plug_eq].
    destruct Hd as (Hd1 & Hd2 & _). destruct Hcc as [-> | ->].
    + rewrite (IH t1 (S n)) by auto. by apply entries_plug_eq.
    + rewrite (IH t1 n) by naive_solver. by apply entries_plug_eq.
Qed.

(** ** Insertion *)
Section insert.
Context {NT : NodeType} {NO : NodeOrder}.

Lemma rbk_find_leaf v t : forall k n, rb t n -> rbk k n -> color t = RBBLK \/ black_top k ->
  (color t = RBRED -> k <> []) -> rbk (find_leaf v t k) 0.
Proof.
  induction t as [|c l IHl x w r IHr]; intros k n Ht Hk Hc Hroot; cbn [find_leaf].
  - by inversion Ht; subst.
  - inversion Ht as [|? ? ? ? ? Hcl Hcr Hl Hr|? ? ? ? ? Hl Hr]; subst.
    + destruct Hc as [|Hb]; [done|]. specialize (Hroot eq_refl).
      destruct (_ <=? _); [apply (IHl _ n)|apply (IHr _ n)]; try done; try by left.
      all: constructor; done.
    + destruct (_ <=? _); [eapply IHl|eapply IHr]; try done; try by right.
      all: by constructor.
Qed.

Lemma rb_ok_insert x v t : rb_ok t -> rb_ok (rb_insert x v t).
Proof.
  intros [Hc [n Ht]]. unfold rb_insert. split.
  - by destruct (ifix _ _).
  - apply (rb_ifix (S (length (find_leaf v t []))) _ _ 0); [lia| |done|].
    + by repeat constructor.
    + apply (rbk_find_leaf v t [] n); [done|constructor|by left|by rewrite Hc].
Qed.

(** ** Order *)
Definition le_key (e1 e2 : ptr * list Z) : Prop := node_key (snd e1) <= node_key (snd e2).
Definition ordered (t : tree) : Prop := StronglySorted le_key (entries t).

Lemma plug_find_leaf v t k : plug E (find_leaf v t k) = plug t k.
Proof.
  revert k. induction t as [|c l IHl x w r IHr]; intros k; cbn [find_leaf]; [done|].
  destruct (_ <=? _); [by rewrite IHl|by rewrite IHr].
Qed.

Definition smaller (v : list Z) (e : ptr * list Z) : Prop := node_key (snd e) < node_key v.
Definition not_smaller (v : list Z) (e : ptr * list Z) : Prop := node_key v <= node_key (snd e).

Lemma find_leaf_bounds v t : forall k, ordered t ->
  Forall (smaller v) (before k) -> Forall (not_smaller v) (after k) ->
  Forall (smaller v) (before (find_leaf v t k)) /\
  Forall (not_smaller v) (after (find_leaf v t k)).
Proof.
  unfold ordered. induction t as [|c l IHl x w r IHr]; intros k Ho Hb Ha; cbn [find_leaf]; [done|].
  cbn [entries] in Ho. apply StronglySorted_app in Ho as (Hlr & Hl & Hr).
  apply StronglySorted_cons in Hr as [Hwr Hr].
  destruct (Z.leb_spec (node_key v) (node_key w)) as [Hle|Hlt].
  - apply IHl; [done|done|]. cbn [after]. constructor; [done|]. apply Forall_app. split; [|done].
    eapply Forall_impl; [exact Hwr|]. unfold le_key, not_smaller. cbn. lia.
  - apply IHr; [done| |done]. cbn [before]. rewrite !Forall_app. split_and!; [done| |].
    + apply Forall_forall. intros e He. specialize (Hlr e (x, w) He ltac:(set_solver)).
      unfold le_key, smaller in *. cbn in *. lia.
    + by repeat constructor.
Qed.

(** Insertion adds the entry behind the smaller ones. *)
Lemma entries_insert x v t : ordered t ->
  exists l1 l2, entries t = l1 ++ l2 /\ entries (rb_insert x v t) = l1 ++ (x, v) :: l2 /\
    Forall (smaller v) l1 /\ Forall (not_smaller v) l2.
Proof.
  intros Ho. set (k := find_leaf v t []). exists (before k), (after k).
  destruct (find_leaf_bounds v t [] Ho) as [Hb Ha]; [constructor..|]. split_and!; [| |done|done].
  - pose proof (entries_plug E k) as He. unfold k in He. rewrite plug_find_leaf in He. done.
  - unfold rb_insert. fold k. rewrite entries_set_color.
    by rewrite (entries_ifix (S (length k))) by (done || lia).
Qed.

Lemma ordered_insert x v t : ordered t -> ordered (rb_insert x v t).
Proof.
  intros Ho. destruct (entries_insert x v t Ho) as (l1 & l2 & E1 & E2 & H1 & H2).
  unfold ordered in *. rewrite E1 in Ho. rewrite E2.
  apply StronglySorted_app in Ho as (Hlr & Hl & Hr).
  apply StronglySorted_app. rewrite !Forall_forall in *. split_and!; [|done|].
  - intros e1 e2 He1 [->|He2]%elem_of_cons; [|by apply Hlr].
    specialize (H1 _ He1). unfold le_key, smaller in *. cbn. lia.
  - apply StronglySorted_cons. split; [|done]. apply Forall_forall. intros e He. by apply H2.
Qed.
End insert.

(** ** Deletion *)

(** The leftmost node of a tree that is not a leaf: its parts, and the path to
    it from the root. *)
Fixpoint lmost (c : Z) (l : tree) (x : ptr) (v : list Z) (r : tree)
    : Z * ptr * list Z * tree * path :=
  match l with
  | E => (c, x, v, r, [])
  | T c' l' x' v' r' =>
      let '(cy, y, vy, ry, ext) := lmost c' l' x' v' r' in
      (cy, y, vy, ry, ext ++ [Fr L c x v r])
  end.

(** A node of colour [c] with at most one child [t] leaves the end of [k]. *)
Definition unlinked (c : Z) (t : tree) (k : path) : tree :=
  if c =? RBBLK then dfix t k else plug t k.

(** The tree without the entry [v] of the node at the end of [k]; and the node
    that is not in it any more, with its payload. *)
Definition delete_at (c : Z) (l : tree) (z : ptr) (v : list Z) (r : tree) (k : path)
    : tree * ptr * list Z :=
  match l, r with
  | E, _ => (unlinked c r k, z, v)
  | _, E => (unlinked c l k, z, v)
  | _, T c' l' x' v' r' =>
      let '(cy, y, vy, ry, ext) := lmost c' l' x' v' r' in
      (unlinked cy ry (ext ++ Fr R c z vy l :: k), y, vy)
  end.

Lemma plug_app t k1 k2 : plug t (k1 ++ k2) = plug (plug t k1) k2.
Proof. unfold plug. apply foldl_app. Qed.

Lemma before_app k1 k2 : before (k1 ++ k2) = before k2 ++ before k1.
Proof.
  induction k1 as [|[[] c x v s] k1 IH]; cbn; rewrite ?app_nil_r; [done..|].
  rewrite IH. by app_norm.
Qed.
Lemma after_app k1 k2 : after (k1 ++ k2) = after k1 ++ after k2.
Proof.
  induction k1 as [|[[] c x v s] k1 IH]; cbn; [done| |done]. rewrite IH. by app_norm.
Qed.

Lemma lmost_plug c l x v r cy y vy ry ext : lmost c l x v r = (cy, y, vy, ry, ext) ->
  plug (T cy E y vy ry) ext = T c l x v r.
Proof.
  revert c x v r cy y vy ry ext.
  induction l as [|c' l' IH x' v' r' _]; intros c x v r cy y vy ry ext; cbn [lmost].
  - by intros [= <- <- <- <- <-].
  - destruct (lmost c' l' x' v' r') as [[[[cy' y'] vy'] ry'] ext'] eqn:El.
    intros [= <- <- <- <- <-]. rewrite plug_app, (IH _ _ _ _ _ _ _ _ _ El). done.
Qed.

Lemma lmost_entries c l x v r cy y vy ry ext : lmost c l x v r = (cy, y, vy, ry, ext) ->
  entries (T c l x v r) = (y, vy) :: entries ry ++ after ext /\ before ext = [].
Proof.
  revert c x v r cy y vy ry ext.
  induction l as [|c2 l2 IH x2 v2 r2 _]; intros c x v r cy y vy ry ext; cbn [lmost].
  - intros [= <- <- <- <- <-]. cbn. by rewrite app_nil_r.
  - destruct (lmost c2 l2 x2 v2 r2) as [[[[cy2 y2] vy2] ry2] ext2] eqn:El.
    intros [= <- <- <- <- <-]. destruct (IH _ _ _ _ _ _ _ _ _ El) as [H1 H2].
    rewrite before_app, after_app, H2. split; [|done].
    change (entries (T c (T c2 l2 x2 v2 r2) x v r))
      with (entries (T c2 l2 x2 v2 r2) ++ (x, v) :: entries r).
    rewrite H1. cbn [before after]. rewrite app_nil_r. by app_norm.
Qed.

(** A valid tree, taken apart at a position. *)
Lemma rb_unplug k : forall t, rb_ok (plug t k) ->
  exists n, rb t n /\ rbk k n /\ (color t = RBBLK \/ black_top k /\ k <> []).
Proof.
  induction k as [|[d c p v s] k IH]; intros t Ht.
  - destruct Ht as [Hc [n Ht]]. exists n. split_and!; [done|constructor|by left].
  - rewrite plug_cons in Ht. destruct (IH _ Ht) as (n & Hn & Hk & Hc).
    unfold plug1 in *. cbn [fdir fcol fptr fval fsib] in *.
    assert (color (node d c t p v s) = c) as E by apply color_node. rewrite E in Hc.
    destruct (rb_color _ _ Hn) as [Hcc|Hcc]; rewrite E in Hcc; subst c.
    + destruct n as [|n]; [destruct d; inversion Hn|].
      pose proof (rb_black_inv d _ _ Hn E) as H1.
      pose proof (rb_black_inv (opp d) _ _ Hn E) as H2.
      exists n. split_and!; [by destruct d|constructor; [by destruct d|done]|right; done].
    + destruct (rb_red_inv d _ _ Hn E) as [Hc1 H1], (rb_red_inv (opp d) _ _ Hn E) as [Hc2 H2].
      destruct Hc as [|[Hb Hne]]; [done|].
      exists n. split_and!; [by destruct d| |left; by destruct d].
      constructor; try done; by destruct d.
Qed.

(** Unlinking a node that has at most one child. *)
Lemma unlink_deficit c l x v r k t : rb_ok (plug (T c l x v r) k) ->
  l = E /\ t = r \/ r = E /\ t = l ->
  (c = RBBLK /\ deficit t 0 /\ rbk k 1) \/ (c = RBRED /\ rb_ok (plug t k)).
Proof.
  intros Ht Hl. destruct (rb_unplug k _ Ht) as (n & Hn & Hk & Hc).
  inversion Hn as [|? ? ? ? ? Hcl Hcr Hnl Hnr|? ? ? ? n' Hnl Hnr]; subst; [right|left]; (split; [done|]).
  - apply (rb_ok_plug t k n); [|done|]; destruct Hl as [[_ ->]|[_ ->]]; done.
  - assert (n' = 0%nat /\ rb t 0) as [-> Hn0].
    { destruct Hl as [[-> ->]|[-> ->]]; [inversion Hnl|inversion Hnr]; by subst. }
    split; [|done]. destruct (rb_color t 0 Hn0); [by left|right]. split; [done|].
    by apply rb_blacken.
Qed.

Lemma rb_ok_unlinked c l x v r k t : rb_ok (plug (T c l x v r) k) ->
  l = E /\ t = r \/ r = E /\ t = l ->
  rb_ok (unlinked c t k) /\ entries (unlinked c t k) = before k ++ entries t ++ after k.
Proof.
  intros Ht Hl. unfold unlinked.
  destruct (unlink_deficit c l x v r k t Ht Hl) as [(-> & Hd & Hk)|[-> Hd]].
  - change (RBBLK =? RBBLK) with true. cbn iota. split; [by apply (rb_ok_dfix k t 0)|].
    rewrite (entries_dfix k t 0) by done. apply entries_plug.
  - change (RBRED =? RBBLK) with false. cbn iota. split; [done|apply entries_plug].
Qed.

(** Changing the payload of a node of a path. *)
Lemma rbk_value k1 d c x v v' s k2 n :
  rbk (k1 ++ Fr d c x v s :: k2) n -> rbk (k1 ++ Fr d c x v' s :: k2) n.
Proof.
  revert n. induction k1 as [|[d1 c1 x1 v1 s1] k1 IH]; intros n H; cbn [app] in *.
  - inversion H; subst; by constructor.
  - inversion H; subst; constructor; auto; by destruct k1.
Qed.

Lemma rb_ok_value t k1 d c x v v' s k2 :
  rb_ok (plug t (k1 ++ Fr d c x v s :: k2)) -> rb_ok (plug t (k1 ++ Fr d c x v' s :: k2)).
Proof.
  intros (n & Hn & Hk & Hc)%rb_unplug. pose proof (rbk_value _ _ _ _ _ v' _ _ _ Hk) as Hk'.
  destruct (rb_plug _ _ Hk' t Hn) as [m Hm].
  { destruct Hc as [|[Hb _]]; [by left|right]. by destruct k1. }
  assert (color (plug t (k1 ++ Fr d c x v' s :: k2)) = RBBLK) as Hcol.
  { apply (plug_black _ _ Hk'). destruct Hc as [|[_ Hne]]; [by left|right]. by destruct k1. }
  split; [done|]. exists m. by rewrite set_color_same in Hm.
Qed.

(** What deletion does to the entries: that of [z] goes.  But when [z] has two
    children the node that leaves is the next one, whose payload [z] gets. *)
Lemma delete_at_two c l z v r k t1 y vy : l <> E -> r <> E ->
  rb_ok (plug (T c l z v r) k) -> delete_at c l z v r k = (t1, y, vy) ->
  rb_ok t1 /\ exists es3, entries r ++ after k = (y, vy) :: es3 /\
    entries t1 = (before k ++ entries l) ++ (z, vy) :: es3.
Proof.
  intros Hl Hr Ht Hd. unfold delete_at in Hd.
  destruct l as [|cl ll xl vl rl]; [done|]. destruct r as [|c' l' x' v' r']; [done|].
  set (l := T cl ll xl vl rl) in *.
  destruct (lmost c' l' x' v' r') as [[[[cy y'] vy'] ry] ext] eqn:El. injection Hd as <- <- <-.
  pose proof (lmost_plug _ _ _ _ _ _ _ _ _ _ El) as Hp.
  assert (plug (T c l z v (T c' l' x' v' r')) k =
    plug (T cy E y' vy' ry) (ext ++ Fr R c z v l :: k)) as Hpl.
  { rewrite plug_app, Hp. done. }
  destruct (lmost_entries _ _ _ _ _ _ _ _ _ _ El) as [Her Hbe].
  rewrite Hpl in Ht. apply (rb_ok_value _ _ _ _ _ _ vy') in Ht.
  destruct (rb_ok_unlinked cy E y' vy' ry _ ry Ht ltac:(by left)) as [H1 H2].
  split; [done|]. exists (entries ry ++ after ext ++ after k). split; [rewrite Her; by app_norm|].
  rewrite H2, before_app, after_app, Hbe. cbn [before after]. by app_norm.
Qed.

Lemma delete_at_one c l z v r k t1 y vy : l = E \/ r = E ->
  rb_ok (plug (T c l z v r) k) -> delete_at c l z v r k = (t1, y, vy) ->
  y = z /\ vy = v /\ rb_ok t1 /\
  entries t1 = (before k ++ entries l) ++ entries r ++ after k.
Proof.
  intros Hlr Ht Hd. unfold delete_at in Hd.
  assert (exists t', (l = E /\ t' = r \/ r = E /\ t' = l) /\
    (t1, y, vy) = (unlinked c t' k, z, v)) as (t' & Hl & Heq).
  { destruct l as [|cl ll xl vl rl]; [exists r; by split; [left|]|].
    destruct Hlr as [| ->]; [done|]. eexists. split; [by right|done]. }
  injection Heq as -> -> ->.
  destruct (rb_ok_unlinked c l z v r k t' Ht Hl) as [H1 H2]. split_and!; [done..|].
  rewrite H2. destruct Hl as [[-> ->]|[-> ->]]; cbn [entries]; by app_norm.
Qed.

Lemma delete_at_ok c l z v r k t1 y vy :
  rb_ok (plug (T c l z v r) k) -> delete_at c l z v r k = (t1, y, vy) ->
  rb_ok t1 /\
  snd <$> entries t1 = (snd <$> before k ++ entries l) ++ (snd <$> entries r ++ after k).
Proof.
  intros Ht Hd. assert ((l = E \/ r = E) \/ (l <> E /\ r <> E)) as [Hlr|[Hl Hr]].
  { destruct l; [by left; left|]. destruct r; [by left; right|by right]. }
  - destruct (delete_at_one _ _ _ _ _ _ _ _ _ Hlr Ht Hd) as (_ & _ & H1 & ->).
    by rewrite fmap_app.
  - destruct (delete_at_two _ _ _ _ _ _ _ _ _ Hl Hr Ht Hd) as (H1 & es3 & H2 & ->).
    by rewrite H2, fmap_app.
Qed.

(** ** Order, of the payloads alone *)
Section payloads.
Context {NT : NodeType} {NO : NodeOrder}.

Definition key_le (v w : list Z) : Prop := node_key v <= node_key w.

Lemma ordered_payloads t : ordered t <-> StronglySorted key_le (snd <$> entries t).
Proof.
  unfold ordered. generalize (entries t). intros es. induction es as [|e es IH]; cbn.
  - split; constructor.
  - change (list_fmap _ _ _ es) with (snd <$> es).
    by rewrite !StronglySorted_cons, IH, Forall_fmap.
Qed.

Lemma sorted_remove (vs1 : list (list Z)) v vs2 :
  StronglySorted key_le (vs1 ++ v :: vs2) -> StronglySorted key_le (vs1 ++ vs2).
Proof.
  rewrite !StronglySorted_app, StronglySorted_cons. intros (H1 & H2 & _ & H3).
  split_and!; [|done..]. intros a b Ha Hb. apply H1; [done|]. by right.
Qed.
End payloads.
