(* ===== verification/RbtreeDel.v ===== *)
(** The deletion of rbtree.c: the fix-up loop computes [dfix] of RbtreeInv.v,
    and rbtree_delete takes the entry of its argument out of the tree, but the
    node that leaves the tree is the successor's when both children exist. *)
From S2P Require Import Prelude Heap Rbtree RbtreeSpec RbtreeInv.
Import Rbtree Rep.

Section delete.
Context {NT : NodeType} {NO : NodeOrder}.
Variable tr : ptr.

(** ** delete_fixup *)

(** The last rotation of an iteration that ends the loop. *)
Definition delete_last (d : dir) (x w : ptr) : cmd heap ptr :=
  p ← hload (x, Parent);
  pc ← hload (p, Color);
  _ ← hstore (w, Color) pc;
  _ ← hstore (p, Color) RBBLK;
  wr ← hload (w, child (opp d));
  _ ← hstore (wr, Color) RBBLK;
  _ ← rotate tr d p;
  hload (tr, Root).

(** The second part of an iteration, after a red sibling has been rotated away. *)
Definition delete_rest (d : dir) (x w : ptr) : cmd heap ptr :=
  wl ← hload (w, child d);
  wlc ← hload (wl, Color);
  wr ← hload (w, child (opp d));
  wrc ← hload (wr, Color);
  if (wlc =? RBBLK) && (wrc =? RBBLK) then
    _ ← hstore (w, Color) RBRED;
    hload (x, Parent)
  else
    w ← (if wrc =? RBBLK then
           _ ← hstore (wl, Color) RBBLK;
           _ ← hstore (w, Color) RBRED;
           _ ← rotate tr (opp d) w;
           p ← hload (x, Parent);
           hload (p, child (opp d))
         else mret w);
    delete_last d x w.

Definition delete_case (d : dir) (x : ptr) : cmd heap ptr :=
  p ← hload (x, Parent);
  w ← hload (p, child (opp d));
  wc ← hload (w, Color);
  w ← (if wc =? RBRED then
         _ ← hstore (w, Color) RBBLK;
         _ ← hstore (p, Color) RBRED;
         _ ← rotate tr d p;
         p ← hload (x, Parent);
         hload (p, child (opp d))
       else mret w);
  delete_rest d x w.

Lemma delete_left_dir x : delete_left_case tr x = delete_case L x.
Proof. reflexivity. Qed.
Lemma delete_right_dir x : delete_right_case tr x = delete_case R x.
Proof. reflexivity. Qed.

(** The parent pointer of the focus, which may be the sentinel. *)
Lemma load_parent_any t pp sp (Q : Z -> heapProp) : (t = E -> sp = pp) ->
  tree_rep t pp ⊢ sentinel_rep sp -∗ (tree_rep t pp -∗ sentinel_rep sp -∗ Q pp) -∗
  hwp (hload (addr t, Parent)) Q.
Proof.
  intros Ht. iIntros "H S HQ". destruct t as [|c l x v r].
  - rewrite (Ht eq_refl). iDestruct "S" as "(S1 & S2 & S3 & S4)". cbn [addr]. h_step.
    iApply ("HQ" with "H"). iFrame.
  - iApply (load_parent_ok with "H"); [done|]. iIntros "H". by iApply ("HQ" with "H S").
Qed.

(** Both nephews black: the sibling is recoloured. *)
Lemma delete_rest_black d t c p v cs b w ww e k sp (Q : ptr -> heapProp) :
  (t = E -> sp = p) -> color b = RBBLK -> color e = RBBLK ->
  focus tr t (Fr d c p v (node d cs b w ww e) :: k) ⊢ sentinel_rep sp -∗
  (focus tr (node d c t p v (node d RBRED b w ww e)) k -∗ sentinel_rep sp -∗ Q p) -∗
  hwp (delete_rest d (addr t) w) Q.
Proof.
  intros Ht Hb He. rewrite <- focus_up. unfold focus. cbn [path_rep top fptr].
  rewrite !tree_rep_node, !addr_node.
  iIntros "(Ht & Hp & ((%Hw & W1 & W2 & W3 & W4 & W5) & Hb & He) & Hk) S HQ". unfold delete_rest.
  h_step. h_step. h_step. iApply (load_color_ok with "Hb S"). iIntros "Hb S". rewrite Hb.
  h_step. h_step. h_step. iApply (load_color_ok with "He S"). iIntros "He S". rewrite He.
  change ((RBBLK =? RBBLK) && (RBBLK =? RBBLK)) with true. cbn iota. h_step. h_step.
  iApply (load_parent_any with "Ht S"); [done|]. iIntros "Ht S". iApply ("HQ" with "[-S] S").
  by iFrame.
Qed.

(** A red far nephew: the last rotation. *)
Lemma delete_last_ok d t c p v cs b w ww e k sp (Q : ptr -> heapProp) :
  (t = E -> sp = p) -> e <> E ->
  focus tr t (Fr d c p v (node d cs b w ww e) :: k) ⊢ sentinel_rep sp -∗
  (focus tr (node d c (node d RBBLK t p v b) w ww (set_color RBBLK e)) k -∗
   sentinel_rep sp -∗ hwp (hload (tr, Root)) Q) -∗
  hwp (delete_last d (addr t) w) Q.
Proof.
  intros Ht Hne. unfold focus. cbn [path_rep top fptr]. rewrite !tree_rep_node, !addr_node.
  iIntros "(Ht & (%Hp & P1 & P2 & P3 & P4 & P5) & ((%Hw & W1 & W2 & W3 & W4 & W5) & Hb & He) & Hk) S HQ".
  unfold delete_last. h_step.
  iApply (load_parent_any with "Ht S"); [done|]. iIntros "Ht S". do 8 h_step.
  h_step. iApply (store_color_ok with "He"); [done|]. iIntros "He". h_step.
  iApply (rotate_ok tr d RBBLK t p v c b w ww (set_color RBBLK e) k with "[-S HQ]").
  { unfold focus. rewrite !tree_rep_node, !addr_node.
    replace (addr (set_color RBBLK e)) with (addr e) by by destruct e. h_frame. }
  iIntros "H". iApply ("HQ" with "[H] S"). unfold focus. rewrite !tree_rep_node, !addr_node. h_frame.
Qed.

Lemma delete_rest_far d t c p v cs b w ww e k sp (Q : ptr -> heapProp) :
  (t = E -> sp = p) -> color e = RBRED ->
  focus tr t (Fr d c p v (node d cs b w ww e) :: k) ⊢ sentinel_rep sp -∗
  (focus tr (node d c (node d RBBLK t p v b) w ww (set_color RBBLK e)) k -∗
   sentinel_rep sp -∗ hwp (hload (tr, Root)) Q) -∗
  hwp (delete_rest d (addr t) w) Q.
Proof.
  intros Ht He. assert (e <> E) as Hne by by intros ->.
  unfold focus at 1. cbn [path_rep top fptr]. rewrite !tree_rep_node, !addr_node.
  iIntros "(Ht & Hp & ((%Hw & W1 & W2 & W3 & W4 & W5) & Hb & He) & Hk) S HQ". unfold delete_rest.
  h_step. h_step. h_step. iApply (load_color_ok with "Hb S"). iIntros "Hb S".
  h_step. h_step. h_step. iApply (load_color_ok with "He S"). iIntros "He S". rewrite He.
  change (RBRED =? RBBLK) with false. rewrite andb_false_r. h_step. h_step.
  iApply (delete_last_ok d t c p v cs b w ww e k with "[-S HQ] S HQ"); [done..|].
  unfold focus. cbn [path_rep top fptr]. rewrite !tree_rep_node, !addr_node. h_frame.
Qed.

(** A red near nephew and a black far one: first a rotation at the sibling. *)
Lemma delete_rest_near d t c p v cs cb b1 bx bv b2 w ww e k sp (Q : ptr -> heapProp) :
  (t = E -> sp = p) -> cb <> RBBLK -> color e = RBBLK ->
  focus tr t (Fr d c p v (node d cs (node d cb b1 bx bv b2) w ww e) :: k) ⊢ sentinel_rep sp -∗
  (focus tr (node d c (node d RBBLK t p v b1) bx bv (node d RBBLK b2 w ww e)) k -∗
   sentinel_rep sp -∗ hwp (hload (tr, Root)) Q) -∗
  hwp (delete_rest d (addr t) w) Q.
Proof.
  intros Ht Hcb He. unfold focus at 1. cbn [path_rep top fptr]. rewrite !tree_rep_node, !addr_node.
  iIntros "(Ht & Hp & ((%Hw & W1 & W2 & W3 & W4 & W5) & ((%Hb & B1 & B2) & Hb1 & Hb2) & He) & Hk) S HQ".
  unfold delete_rest. do 6 h_step. h_step. iApply (load_color_ok with "He S"). iIntros "He S".
  rewrite He. replace (cb =? RBBLK) with false by zlia.
  change (RBBLK =? RBBLK) with true. cbn [andb]. do 6 h_step.
  iApply (rotate_ok tr (opp d) RBRED e w ww RBBLK b2 bx bv b1 (Fr (opp d) c p v t :: k)
    with "[-S HQ]").
  { rewrite !node_opp. unfold focus. cbn [path_rep top fptr].
    rewrite (node_rep_flip d c), !tree_rep_node, !addr_node. h_frame. }
  iIntros "H". rewrite !node_opp.
  iEval (unfold focus; cbn [path_rep top fptr]; rewrite (node_rep_flip (opp d)), opp_opp) in "H".
  rewrite addr_node.
  iDestruct "H" as "(Hs & (%Hp & P1 & P2 & P3 & P4 & P5) & Ht & Hk)". h_step.
  iApply (load_parent_any with "Ht S"); [done|]. iIntros "Ht S". h_step.
  iApply (delete_last_ok d t c p v RBBLK b1 bx bv (node d RBRED b2 w ww e) k with "[-S HQ] S");
    [done|by destruct d| |].
  { unfold focus. cbn [path_rep top fptr]. rewrite addr_node. h_frame. }
  iIntros "H". iApply "HQ".
  by replace (set_color RBBLK (node d RBRED b2 w ww e)) with (node d RBBLK b2 w ww e) by by destruct d.
Qed.

(** A red sibling: it is rotated above the parent. *)
Lemma delete_case_red d t c p v b w ww e k sp (Q : ptr -> heapProp) :
  (t = E -> sp = p) ->
  focus tr t (Fr d c p v (node d RBRED b w ww e) :: k) ⊢ sentinel_rep sp -∗
  (focus tr t (Fr d RBRED p v b :: Fr d RBBLK w ww e :: k) -∗
   sentinel_rep sp -∗ hwp (delete_rest d (addr t) (addr b)) Q) -∗
  hwp (delete_case d (addr t)) Q.
Proof.
  intros Ht. unfold focus at 1. cbn [path_rep top fptr]. rewrite !tree_rep_node, !addr_node.
  iIntros "(Ht & (%Hp & P1 & P2 & P3 & P4 & P5) & ((%Hw & W1 & W2 & W3 & W4 & W5) & Hb & He) & Hk) S HQ".
  unfold delete_case. h_step. iApply (load_parent_any with "Ht S"); [done|]. iIntros "Ht S".
  do 4 h_step. change (RBRED =? RBRED) with true. cbn iota. do 6 h_step.
  iApply (rotate_ok tr d RBRED t p v RBBLK b w ww e k with "[-S HQ]").
  { unfold focus. rewrite !tree_rep_node, !addr_node. h_frame. }
  iIntros "H". rewrite <- !focus_up. iEval (unfold focus; cbn [path_rep top fptr]) in "H".
  iDestruct "H" as "(Ht & (_ & P1 & P2 & P3 & P4 & P5) & Hb & Hk)". h_step.
  iApply (load_parent_any with "Ht S"); [done|]. iIntros "Ht S". h_step.
  iApply ("HQ" with "[-S] S"). unfold focus. cbn [path_rep top fptr]. h_frame.
Qed.

Lemma delete_case_red_kids d t c p v s k sp (Q : ptr -> heapProp) :
  (t = E -> sp = p) -> s <> E -> color s = RBRED ->
  focus tr t (Fr d c p v s :: k) ⊢ sentinel_rep sp -∗
  (focus tr t (Fr d RBRED p v (kid d s) :: Fr d RBBLK (addr s) (val s) (kid (opp d) s) :: k) -∗
   sentinel_rep sp -∗ hwp (delete_rest d (addr t) (addr (kid d s))) Q) -∗
  hwp (delete_case d (addr t)) Q.
Proof.
  intros Ht Hs Hc.
  pose proof (delete_case_red d t c p v (kid d s) (addr s) (val s) (kid (opp d) s) k sp Q Ht) as H.
  pose proof (node_kids d s Hs) as Es. rewrite Hc in Es. symmetry in Es.
  rewrite Es in H. exact H.
Qed.

Lemma delete_case_black d t c p v s k sp (Q : ptr -> heapProp) :
  (t = E -> sp = p) -> color s <> RBRED ->
  focus tr t (Fr d c p v s :: k) ⊢ sentinel_rep sp -∗
  (focus tr t (Fr d c p v s :: k) -∗
   sentinel_rep sp -∗ hwp (delete_rest d (addr t) (addr s)) Q) -∗
  hwp (delete_case d (addr t)) Q.
Proof.
  intros Ht Hs. unfold focus at 1. cbn [path_rep top fptr].
  iIntros "(Ht & (%Hp & P1 & P2 & P3 & P4 & P5) & Hs & Hk) S HQ".
  unfold delete_case. h_step. iApply (load_parent_any with "Ht S"); [done|]. iIntros "Ht S".
  h_step. h_step. h_step. iApply (load_color_ok with "Hs S"). iIntros "Hs S".
  replace (color s =? RBRED) with false by zlia. h_step. h_step.
  iApply ("HQ" with "[-S] S"). unfold focus. cbn [path_rep top fptr]. h_frame.
Qed.
(** One iteration that goes on or ends, the sibling not being red. *)
Lemma delete_rest_ok d t c p v s k n sp (Q : ptr -> heapProp) :
  (t = E -> sp = p) -> rb s (S n) -> color s = RBBLK ->
  focus tr t (Fr d c p v s :: k) ⊢ sentinel_rep sp -∗
  match drest d c t p v s with
  | (true, t1) => focus tr t1 k -∗ sentinel_rep sp -∗ Q (addr t1)
  | (false, t1) => focus tr t1 k -∗ sentinel_rep sp -∗ hwp (hload (tr, Root)) Q
  end -∗
  hwp (delete_rest d (addr t) (addr s)) Q.
Proof.
  intros Ht Hs Hc. pose proof (rb_not_leaf s n Hs) as Hne.
  pose proof (node_kids d s Hne) as Es. unfold drest.
  pose proof (rb_black_inv (opp d) s n Hs Hc) as He.
  destruct (Z.eqb_spec (color (kid d s)) RBBLK) as [Ecb|Ecb];
    destruct (Z.eqb_spec (color (kid (opp d) s)) RBBLK) as [Ece|Ece]; cbn [andb].
  all: iIntros "H S HQ"; rewrite Es at 1.
  - iApply (delete_rest_black with "H S"); [done..|]. iIntros "H S". rewrite addr_node.
    iApply ("HQ" with "H S").
  - destruct (rb_color _ _ He) as [|Her]; [done|].
    iApply (delete_rest_far with "H S"); [done..|]. iIntros "H S". iApply ("HQ" with "H S").
  - assert (kid d s <> E) as Hb by by destruct (kid d s).
    rewrite (node_kids d (kid d s) Hb) at 1.
    iApply (delete_rest_near with "H S"); [done..|]. iIntros "H S". iApply ("HQ" with "H S").
  - destruct (rb_color _ _ He) as [|Her]; [done|].
    iApply (delete_rest_far with "H S"); [done..|]. iIntros "H S". iApply ("HQ" with "H S").
Qed.

(** One iteration of the loop and its test. *)
Definition delete_body (x : ptr) : cmd heap (ptr + ptr) :=
  r ← hload (tr, Root);
  if x =? r then mret (inr x)
  else
    xc ← hload (x, Color);
    if negb (xc =? RBBLK) then mret (inr x)
    else
      p ← hload (x, Parent);
      pl ← hload (p, Left);
      x ← (if x =? pl then delete_left_case tr x else delete_right_case tr x);
      mret (inl x).

(** The root is not the node at the end of a path, nor the sentinel. *)
Lemma path_root_nil f k p : path_rep tr (f :: k) p ⊢
  ∃ r, ⌜RBNIL <> r⌝ ∗ (tr, Root) ↦ r ∗ ((tr, Root) ↦ r -∗ path_rep tr (f :: k) p).
Proof.
  revert f p. induction k as [|f2 k IH]; intros [d c0 y v s] p; cbn [path_rep].
  - iIntros "((%Hy & H) & Hs & Hr)". iExists y. iFrame. iSplit; [iPureIntro; naive_solver|].
    iIntros "$". by iPureIntro.
  - iIntros "(Hy & Hs & Hk)". iDestruct (IH with "Hk") as (r) "($ & $ & H)".
    iFrame. iIntros "R". by iApply "H".
Qed.

Lemma root_ne t f k (Q : Z -> heapProp) :
  focus tr t (f :: k) ⊢ (∀ r, ⌜addr t <> r⌝ -∗ focus tr t (f :: k) -∗ Q r) -∗
  hwp (hload (tr, Root)) Q.
Proof.
  destruct t as [|c l x v r]; [|by apply load_root_ok].
  unfold focus. cbn [addr]. iIntros "[Ht Hk] HQ".
  iDestruct (path_root_nil with "Hk") as (r) "(%Hr & R & Hk)". h_step.
  iApply ("HQ" with "[//]"). iFrame. iApply ("Hk" with "[$]").
Qed.

(** The loop is left at the root or at a red node. *)
Lemma delete_body_stop t k sp (Q : ptr + ptr -> heapProp) : k = [] \/ color t = RBRED ->
  focus tr t k ⊢ sentinel_rep sp -∗ (focus tr t k -∗ sentinel_rep sp -∗ Q (inr (addr t))) -∗
  hwp (delete_body (addr t)) Q.
Proof.
  intros Hk. iIntros "H S HQ". unfold delete_body. h_step. destruct k as [|f k].
  - unfold focus. cbn [path_rep]. iDestruct "H" as "[Ht Hr]". h_step. rewrite Z.eqb_refl.
    h_step. iApply ("HQ" with "[-S] S"). iFrame.
  - destruct Hk as [|Hk]; [done|]. iApply (root_ne with "H"). iIntros (r Hr) "[Ht Hk]".
    replace (addr t =? r) with false by zlia. h_step.
    iApply (load_color_ok with "Ht S"). iIntros "Ht S". rewrite Hk.
    change (negb (RBRED =? RBBLK)) with true. cbn iota. h_step. iApply ("HQ" with "[-S] S"). iFrame.
Qed.

Lemma delete_body_go t d c p v s k sp (Q : ptr + ptr -> heapProp) :
  (t = E -> sp = p) -> color t = RBBLK -> s <> E ->
  focus tr t (Fr d c p v s :: k) ⊢ sentinel_rep sp -∗
  (focus tr t (Fr d c p v s :: k) -∗ sentinel_rep sp -∗
   hwp (delete_case d (addr t)) (fun x => Q (inl x))) -∗
  hwp (delete_body (addr t)) Q.
Proof.
  intros Ht Hc Hs. iIntros "H S HQ". unfold delete_body. h_step.
  iApply (root_ne with "H"). iIntros (r Hr) "[Ht Hk]".
  replace (addr t =? r) with false by zlia. h_step.
  iApply (load_color_ok with "Ht S"). iIntros "Ht S". rewrite Hc.
  change (negb (RBBLK =? RBBLK)) with false. cbn iota. h_step. cbn [path_rep top fptr].
  iDestruct "Hk" as "(((%Hp & %Hp') & P1 & P2 & P3 & P4 & P5) & Hs & Hk)".
  iAssert (⌜addr t <> addr s⌝)%I as %Hne.
  { destruct s as [|cs sl sx sv sr]; [done|]. cbn [tree_rep addr].
    iDestruct "Hs" as "[((%Hx & %Hx') & X & Hs) _]".
    iDestruct (tree_rep_ne with "Ht X") as %He; [done|]. iPureIntro. congruence. }
  iApply (load_parent_any with "Ht S"); [done|]. iIntros "Ht S".
  destruct d; cbn [child opp]; h_step; h_step; h_step;
    [rewrite Z.eqb_refl, delete_left_dir|rewrite (proj2 (Z.eqb_neq _ _) Hne), delete_right_dir].
  all: iApply (hwp_wand with "[-]"); [|iIntros (y) "H"; h_step; iApply "H"].
  all: iApply ("HQ" with "[-S] S"); unfold focus; cbn [path_rep top fptr]; h_frame.
Qed.

(** What the loop leaves: a position whose node is still to be painted black. *)
Definition left_at (t : tree) (Q : ptr -> heapProp) : heapProp :=
  (∀ t' k', ⌜plug (set_color RBBLK t') k' = t⌝ -∗ focus tr t' k' -∗
     (∃ sp, sentinel_rep sp) -∗ Q (addr t'))%I.

Lemma delete_loop_stop t k sp fuel (Q : ptr -> heapProp) : (0 < fuel)%nat ->
  k = [] \/ color t = RBRED ->
  focus tr t k ⊢ sentinel_rep sp -∗ left_at (plug (set_color RBBLK t) k) Q -∗
  hwp (loop fuel delete_body (addr t)) Q.
Proof.
  intros Hf Hk. destruct fuel as [|fuel]; [lia|]. iIntros "H S HQ". iApply hwp_loop.
  iApply (delete_body_stop with "H S"); [done|]. iIntros "H S".
  iApply ("HQ" with "[//] H"). iFrame.
Qed.

(** The last rotation sends the loop to the root. *)
Lemma delete_loop_root t k sp fuel (Q : ptr -> heapProp) : (0 < fuel)%nat ->
  focus tr t k ⊢ sentinel_rep sp -∗ left_at (set_color RBBLK (plug t k)) Q -∗
  hwp (hload (tr, Root)) (fun x => hwp (loop fuel delete_body x) Q).
Proof.
  intros Hf. rewrite focus_plug. iIntros "[Ht Hr] S HQ". cbn [path_rep]. h_step.
  iApply (delete_loop_stop (plug t k) [] with "[-S HQ] S HQ"); [done|by left|]. iFrame.
Qed.

Lemma delete_loop_ok k : forall t n sp fuel (Q : ptr -> heapProp),
  deficit t n -> rbk k (S n) -> (t = E -> sp = top k) -> (length k < fuel)%nat ->
  focus tr t k ⊢ sentinel_rep sp -∗ left_at (dfix t k) Q -∗
  hwp (loop fuel delete_body (addr t)) Q.
Proof.
  induction k as [|[d c p v s] k IH]; intros t n sp fuel Q Ht Hk Hsp Hf; cbn [dfix].
  { apply delete_loop_stop; [cbn in Hf; lia|by left]. }
  destruct Ht as [[Hc Ht]|[Hc Ht]]; rewrite Hc.
  2: { change (RBRED =? RBBLK) with false. cbn iota. apply delete_loop_stop; [lia|by right]. }
  change (RBBLK =? RBBLK) with true. cbn iota. cbn [top fptr length] in *.
  assert (rb s (S n) /\ (c = RBRED -> color s = RBBLK) /\ (c = RBBLK \/ c = RBRED) /\
    (c = RBBLK -> rbk k (S (S n))) /\ (c = RBRED -> rbk k (S n)))
    as (Hs & Hcs & Hcc & Hk1 & Hk2) by (inversion Hk; subst; split_and!; naive_solver).
  pose proof (rb_not_leaf s n Hs) as Hne. destruct fuel as [|fuel]; [lia|].
  iIntros "H S HQ". iApply hwp_loop. iApply (delete_body_go with "H S"); [done..|].
  iIntros "H S". destruct (Z.eqb_spec (color s) RBRED) as [Es|Es].
  - (* A red sibling: after its rotation one more step ends the loop. *)
    destruct (rb_red_inv d s _ Hs Es) as [Hcb Hb].
    iApply (delete_case_red_kids with "H S"); [done..|]. iIntros "H S".
    iApply (delete_rest_ok with "H S"); [done..|].
    pose proof (rb_drest d RBRED t p v (kid d s) n Ht Hb Hcb) as Hd.
    destruct (drest _ _ _ _ _ _) as [[] t1]; destruct Hd as (_ & _ & Hct); iIntros "H S".
    + iApply (delete_loop_stop with "H S HQ"); [lia|by right].
    + iApply (delete_loop_root with "H S HQ"). lia.
  - destruct (rb_color s _ Hs) as [Hcs'|]; [|done].
    iApply (delete_case_black with "H S"); [done..|]. iIntros "H S".
    iApply (delete_rest_ok with "H S"); [done..|].
    pose proof (rb_drest d c t p v s n Ht Hs Hcs') as Hd.
    destruct (drest _ _ _ _ _ _) as [[] t1] eqn:Er; iIntros "H S";
      [|iApply (delete_loop_root with "H S HQ"); lia].
    assert (t1 <> E) as Hne1.
    { unfold drest in Er. destruct (_ && _); [|by destruct (_ =? _)].
      injection Er as <-. by destruct d. }
    destruct Hd as (Hd1 & Hd2 & _). destruct Hcc as [-> | ->].
    + iApply (IH t1 (S n) with "H S HQ"); [by apply Hd1|by apply Hk1|done|lia].
    + iApply (IH t1 n with "H S HQ"); [by apply Hd2|by apply Hk2|done|lia].
Qed.

Lemma delete_fixup_ok t k n sp fuel (Q : unit -> heapProp) :
  deficit t n -> rbk k (S n) -> (t = E -> sp = top k) -> (length k < fuel)%nat ->
  focus tr t k ⊢ sentinel_rep sp -∗ (rbtree_rep tr (dfix t k) -∗ Q tt) -∗
  hwp (delete_fixup tr fuel (addr t)) Q.
Proof.
  intros Ht Hk Hsp Hf. iIntros "H S HQ". unfold delete_fixup. h_step.
  iApply (delete_loop_ok with "H S"); [done..|]. iIntros (t' k' <-) "H (%sp' & S)".
  iAssert (hwp (hstore (addr t', Color) RBBLK)
    (fun _ => focus tr (set_color RBBLK t') k' ∗ ∃ sp, sentinel_rep sp))%I
    with "[H S]" as "Hw".
  { unfold focus. iDestruct "H" as "[Ht Hk]".
    destruct t' as [|c' l x v r]; cbn [set_color addr].
    - iDestruct "S" as "(S1 & S2)". h_step. iFrame.
    - iApply (store_color_ok (T c' l x v r) with "Ht"); [done|]. iIntros "Ht". iFrame. }
  iApply (hwp_wand with "Hw"). iIntros ([]) "[H S]". iApply "HQ".
  rewrite focus_plug. unfold rbtree_rep. iFrame.
Qed.

(** ** rbtree_delete *)

(** A node outside the tree whose members are what it had inside. *)
Definition stale_node (c : Z) (y : ptr) (v : list Z) : heapProp :=
  (⌜y <> RBNIL /\ y <> NULL⌝ ∗ (y, Color) ↦ c ∗
   (∃ l r p, (y, Left) ↦ l ∗ (y, Right) ↦ r ∗ (y, Parent) ↦ p) ∗ payload_at y v)%I.

Definition unlink_node (y : ptr) : cmd heap ptr :=
  yl ← hload (y, Left);
  x ← (if negb (yl =? RBNIL) then mret yl else hload (y, Right));
  p ← hload (y, Parent);
  _ ← hstore (x, Parent) p;
  _ ← replace_child tr Left Right y x;
  mret x.

Lemma store_parent_any t pp sp p (Q : unit -> heapProp) :
  tree_rep t pp ⊢ sentinel_rep sp -∗
  (∀ sp', ⌜t = E -> sp' = p⌝ -∗ tree_rep t p -∗ sentinel_rep sp' -∗ Q tt) -∗
  hwp (hstore (addr t, Parent) p) Q.
Proof.
  iIntros "H S HQ". destruct t as [|c l x v r]; cbn [addr tree_rep].
  - iDestruct "S" as "(S1 & S2 & S3 & S4)". h_step. iApply ("HQ" with "[//] H"). iFrame.
  - iDestruct "H" as "[(Hx & H1 & H2 & H3 & H4 & H5) H]". h_step.
    iApply ("HQ" $! sp with "[%] [-S] S"); [done|]. iFrame.
Qed.

(** The node at the end of [k], which has at most one child, is unlinked. *)
Lemma unlink_node_ok c l y v r ch k sp (Q : ptr -> heapProp) :
  l = E /\ ch = r \/ r = E /\ ch = l ->
  focus tr (T c l y v r) k ⊢ sentinel_rep sp -∗
  (∀ sp', ⌜ch = E -> sp' = top k⌝ -∗ focus tr ch k -∗ sentinel_rep sp' -∗ stale_node c y v -∗
     Q (addr ch)) -∗
  hwp (unlink_node y) Q.
Proof.
  intros Hch. unfold focus. cbn [tree_rep addr].
  iIntros "[(((%Hy & %Hy') & Y1 & Y2 & Y3 & Y4 & Y5) & Hl & Hr) Hk] S HQ".
  unfold unlink_node. h_step. h_step. cbn [child opp] in *. h_step.
  iAssert (hwp (if negb (addr l =? RBNIL) then mret (addr l) else hload (y, Right))
    (fun x => ⌜x = addr ch⌝ ∗ (y, Right) ↦ addr r ∗ tree_rep ch y))%I
    with "[Hl Hr Y3]" as "Hw".
  { destruct Hch as [[-> ->]|[-> ->]].
    - cbn [addr]. change (negb (RBNIL =? RBNIL)) with false. cbn iota. h_step. by iFrame.
    - destruct l as [|cl ll lx lv lr]; cbn [addr].
      + change (negb (RBNIL =? RBNIL)) with false. cbn iota. h_step. by iFrame.
      + cbn [tree_rep]. iDestruct "Hl" as "[((%Hx & %Hx') & X) Hl]".
        replace (negb (lx =? RBNIL)) with true by zlia. h_step. h_frame. }
  iApply (hwp_wand with "Hw"). iIntros (x) "(-> & Y3 & Hch)". h_step. h_step. h_step.
  iApply (store_parent_any with "Hch S"). iIntros (sp') "%Hsp Hch S". h_step.
  iApply (replace_child_ok tr L y (addr ch) k with "Hk [$] Y1"); [done|]. iIntros "Y4 Y1 Hk". h_step.
  iApply ("HQ" with "[//] [$] S"). unfold stale_node. h_frame.
Qed.

(** The fix-up that follows. *)
Lemma unlink_fixup_ok c ch k sp y v fuel (Q : unit -> heapProp) :
  (c = RBBLK -> deficit ch 0 /\ rbk k 1) -> (ch = E -> sp = top k) -> (length k < fuel)%nat ->
  focus tr ch k ⊢ sentinel_rep sp -∗ stale_node c y v -∗
  (rbtree_rep tr (unlinked c ch k) -∗ stale_node c y v -∗ Q tt) -∗
  hwp (yc ← hload (y, Color); if: yc =? RBBLK then delete_fixup tr fuel (addr ch)) Q.
Proof.
  intros Hc Hsp Hf. iIntros "H S (%Hy & Y1 & Y) HQ". h_step. h_step. unfold unlinked.
  destruct (Z.eqb_spec c RBBLK) as [->|Hne]; cbn [when].
  - destruct (Hc eq_refl) as [Hd Hk].
    iApply (delete_fixup_ok with "H S"); [done..|]. iIntros "H". iApply ("HQ" with "H"). h_frame.
  - h_step. iApply ("HQ" with "[H S]"); [|h_frame]. unfold rbtree_rep. rewrite focus_plug. iFrame.
Qed.

(** memcpy of the payload. *)
Lemma copy_fields_ok fs z y v w (Q : unit -> heapProp) :
  ([∗ list] f;a ∈ fs;v, (z, f) ↦ a) ⊢ ([∗ list] f;a ∈ fs;w, (y, f) ↦ a) -∗
  (([∗ list] f;a ∈ fs;w, (z, f) ↦ a) -∗ ([∗ list] f;a ∈ fs;w, (y, f) ↦ a) -∗ Q tt) -∗
  hwp (copy_fields fs z y) Q.
Proof.
  revert v w Q. induction fs as [|f fs IH]; intros v w Q; iIntros "Hz Hy HQ"; cbn [copy_fields].
  - h_step. iDestruct (big_sepL2_nil_inv_l with "Hy") as %->. by iApply ("HQ" with "[] Hy").
  - iDestruct (big_sepL2_cons_inv_l with "Hz") as (a v') "(-> & Hz1 & Hz)".
    iDestruct (big_sepL2_cons_inv_l with "Hy") as (b w') "(-> & Hy1 & Hy)".
    h_step. iApply (hwp_load with "Hy1"). iIntros "Hy1".
    h_step. iApply (hwp_store with "Hz1"). iIntros "Hz1".
    iApply (IH with "Hz Hy"). iIntros "Hz Hy".
    iApply ("HQ" with "[Hz Hz1] [Hy Hy1]"); iFrame.
Qed.

(** The payload of a node above a position. *)
Lemma top_app_val ext d c z v v' s k :
  top (ext ++ Fr d c z v s :: k) = top (ext ++ Fr d c z v' s :: k).
Proof. by destruct ext. Qed.

Lemma path_payload ext d c z v s k p :
  path_rep tr (ext ++ Fr d c z v s :: k) p ⊢
  ⌜z <> RBNIL⌝ ∗ payload_at z v ∗
  (∀ v', payload_at z v' -∗ path_rep tr (ext ++ Fr d c z v' s :: k) p).
Proof.
  revert p. induction ext as [|[d1 c1 x1 v1 s1] ext IH]; intros p; cbn [app path_rep].
  - iIntros "(((%Hz & %Hz') & Z1 & Z2 & Z3 & Z4 & Z5) & Hs & Hk)". iSplit; [done|].
    iSplitL "Z5"; [done|]. iIntros (v') "Z5". h_frame.
  - iIntros "(Hx & Hs & Hk)". iDestruct (IH with "Hk") as "($ & $ & H)".
    iIntros (v') "Hv". rewrite (top_app_val ext d c z v v'). iFrame. by iApply "H".
Qed.

(** The search for the leftmost node. *)
Definition lmost_body (y : ptr) : cmd heap (ptr + ptr) :=
  l ← hload (y, Left);
  if negb (l =? RBNIL) then mret (inl l) else mret (inr y).

Lemma lmost_loop_ok l : forall c x v r pp cy y vy ry ext fuel (Q : ptr -> heapProp),
  lmost c l x v r = (cy, y, vy, ry, ext) -> (height l < fuel)%nat ->
  tree_rep (T c l x v r) pp ⊢ (tree_rep (T c l x v r) pp -∗ Q y) -∗
  hwp (loop fuel lmost_body x) Q.
Proof.
  induction l as [|c' l' IH x' v' r' _]; intros c x v r pp cy y vy ry ext [|fuel] Q;
    cbn [lmost height]; try lia; intros El Hf; iIntros "H HQ"; iApply hwp_loop;
    cbn [tree_rep addr]; iDestruct "H" as "[(Hx & X1 & X2 & X3) [Hl Hr]]";
    cbn [child opp]; unfold lmost_body; h_step; h_step.
  - injection El as <- <- <- <- <-. change (negb (RBNIL =? RBNIL)) with false. cbn iota.
    h_step. iApply "HQ". h_frame.
  - destruct (lmost c' l' x' v' r') as [[[[cy' y'] vy'] ry'] ext'] eqn:El'.
    injection El as <- <- <- <- <-.
    iAssert (⌜x' <> RBNIL⌝)%I as %Hx'.
    { cbn [tree_rep]. by iDestruct "Hl" as "[((%Hx' & _) & _) _]". }
    replace (negb (x' =? RBNIL)) with true by zlia. h_step.
    iApply (IH with "Hl"); [done|lia|]. iIntros "Hl". iApply "HQ". h_frame.
Qed.

Lemma node_to_unlink_unfold fuel z : node_to_unlink fuel z =
  (l ← hload (z, Left);
   r ← hload (z, Right);
   if (l =? RBNIL) || (r =? RBNIL) then mret z else loop fuel lmost_body r).
Proof. reflexivity. Qed.

Lemma rbtree_delete_unfold fuel z : forall h, rbtree_delete tr fuel z h =
  (y ← node_to_unlink fuel z;
   x ← unlink_node y;
   _ ← if: negb (y =? z) then copy_fields payload_fields z y;
   yc ← hload (y, Color);
   if: yc =? RBBLK then delete_fixup tr fuel x) h.
Proof.
  intros h. unfold rbtree_delete, unlink_node, mbind, cmd_bind.
  repeat (case_match; try done; simplify_eq/=).
Qed.


Lemma height_plug t k : (height t + length k <= height (plug t k))%nat.
Proof.
  revert t. induction k as [|[d c x v s] k IH]; intros t; [cbn; lia|]. rewrite plug_cons.
  specialize (IH (plug1 t (Fr d c x v s))). destruct d; cbn [plug1 node height fdir fcol fptr fval fsib length] in *; lia.
Qed.

(** The two halves of the deletion of the node [y], at the end of [k], that has
    at most one child [ch]. *)
Lemma unlink_at_ok c l y v r ch k fuel (copy : cmd heap unit) t (R : heapProp) (Q : unit -> heapProp) :
  l = E /\ ch = r \/ r = E /\ ch = l -> rb_ok (plug (T c l y v r) k) ->
  (length k < fuel)%nat ->
  rbtree_rep tr (plug (T c l y v r) k) ⊢
  (∀ sp, focus tr ch k -∗ sentinel_rep sp -∗ stale_node c y v -∗
     hwp copy (fun _ => ∃ k', ⌜top k' = top k /\ length k' = length k /\
          (rbk k 1 -> rbk k' 1) /\ unlinked c ch k' = t⌝ ∗
        focus tr ch k' ∗ sentinel_rep sp ∗ stale_node c y v ∗ R)) -∗
  (rbtree_rep tr t -∗ stale_node c y v -∗ R -∗ Q tt) -∗
  hwp (x ← unlink_node y;
       _ ← copy;
       yc ← hload (y, Color);
       if: yc =? RBBLK then delete_fixup tr fuel x) Q.
Proof.
  intros Hch Hrb Hf. unfold rbtree_rep at 1. rewrite <- focus_plug.
  iIntros "[H (%sp & S)] Hcopy HQ". h_step.
  iApply (unlink_node_ok with "H S"); [exact Hch|]. iIntros (sp' Hsp) "H S Y". h_step.
  iDestruct ("Hcopy" with "H S Y") as "Hw". iApply (hwp_wand with "Hw").
  iIntros (_) "(%k' & (%Ht & %Hl & %Hk & <-) & H & S & Y & R)".
  iApply (unlink_fixup_ok with "H S Y").
  - intros ->. destruct (unlink_deficit _ _ _ _ _ _ _ Hrb Hch) as [(_ & Hd & Hk1)|[? _]]; [|done].
    split; [done|by apply Hk].
  - by rewrite Ht.
  - lia.
  - iIntros "H Y". iApply ("HQ" with "H Y R").
Qed.

Lemma path_ne ext d c z v s k p y cy :
  path_rep tr (ext ++ Fr d c z v s :: k) p ⊢ (y, Color) ↦ cy -∗ ⌜y <> z⌝.
Proof.
  revert p. induction ext as [|[d1 c1 x1 v1 s1] ext IH]; intros p; cbn [app path_rep].
  - iIntros "((_ & Z & _) & _) Y". iDestruct (pointsto_ne with "Y Z") as %He.
    iPureIntro. congruence.
  - iIntros "(_ & _ & Hk) Y". iApply (IH with "Hk Y").
Qed.

Lemma addr_neq_nil t pp : t <> E -> tree_rep t pp ⊢ ⌜addr t <> RBNIL⌝.
Proof.
  destruct t as [|c l x v r]; [done|]. intros _. cbn [tree_rep addr].
  by iIntros "[((%Hx & _) & _) _]".
Qed.

Lemma unlink_one_ok c l z v r k fuel (Q : ptr -> heapProp) : l = E \/ r = E ->
  rbtree_rep tr (plug (T c l z v r) k) ⊢
  (rbtree_rep tr (plug (T c l z v r) k) -∗ Q z) -∗ hwp (node_to_unlink fuel z) Q.
Proof.
  intros Hlr. unfold rbtree_rep. rewrite <- focus_plug. unfold focus. cbn [tree_rep addr].
  iIntros "[[((%Hz & Z1 & Z2 & Z3 & Z4 & Z5) & Hl & Hr) Hk] S] HQ".
  unfold node_to_unlink. cbn [child opp]. do 4 h_step.
  replace ((addr l =? RBNIL) || (addr r =? RBNIL)) with true
    by (by destruct Hlr as [-> | ->]; rewrite ?orb_true_r).
  h_step. iApply "HQ". h_frame.
Qed.

Lemma unlink_two_ok c l z v c' l' x' v' r' cy y vy ry ext k fuel (Q : ptr -> heapProp) :
  l <> E -> lmost c' l' x' v' r' = (cy, y, vy, ry, ext) -> (height l' < fuel)%nat ->
  rbtree_rep tr (plug (T c l z v (T c' l' x' v' r')) k) ⊢
  (rbtree_rep tr (plug (T c l z v (T c' l' x' v' r')) k) -∗ Q y) -∗ hwp (node_to_unlink fuel z) Q.
Proof.
  intros Hl El Hf. unfold rbtree_rep. rewrite <- focus_plug. unfold focus.
  set (r := T c' l' x' v' r'). cbn [tree_rep addr].
  iIntros "[[((%Hz & Z1 & Z2 & Z3 & Z4 & Z5) & Hl & Hr) Hk] S] HQ".
  rewrite node_to_unlink_unfold. cbn [child opp]. do 4 h_step.
  iDestruct (addr_neq_nil with "Hl") as %H1; [done|].
  iDestruct (addr_neq_nil with "Hr") as %H2; [done|].
  replace ((addr l =? RBNIL) || (addr r =? RBNIL)) with false by zlia.
  iApply (lmost_loop_ok with "Hr"); [done..|]. iIntros "Hr". iApply "HQ". h_frame.
Qed.

(** A node with at most one child leaves the tree. *)
Lemma delete_one_ok c l z v r k ch fuel (Q : unit -> heapProp) :
  l = E /\ ch = r \/ r = E /\ ch = l -> rb_ok (plug (T c l z v r) k) ->
  (height (plug (T c l z v r) k) < fuel)%nat ->
  rbtree_rep tr (plug (T c l z v r) k) ⊢
  (rbtree_rep tr (unlinked c ch k) -∗ stale_node c z v -∗ Q tt) -∗
  hwp (rbtree_delete tr fuel z) Q.
Proof.
  intros Hch Hrb Hf. pose proof (height_plug (T c l z v r) k) as Hsz. cbn [height] in Hsz.
  iIntros "H HQ". iApply hwp_ext; [apply rbtree_delete_unfold|]. h_step.
  iApply (unlink_one_ok with "H"); [by destruct Hch as [[? _]|[? _]]; [left|right]|]. iIntros "H".
  rewrite Z.eqb_refl. cbn [negb when].
  iApply (unlink_at_ok _ _ _ _ _ ch _ _ (mret tt) _ emp%I with "H [] [HQ]"); [done|done|lia|..].
  - iIntros (sp) "H S Y". h_step. iExists k. by iFrame.
  - iIntros "H Y _". iApply ("HQ" with "H Y").
Qed.

(** A node with two children gets the payload of the next one, which leaves. *)
Lemma delete_two_ok c l z v c' l' x' v' r' cy y vy ry ext k fuel (Q : unit -> heapProp) :
  l <> E -> lmost c' l' x' v' r' = (cy, y, vy, ry, ext) ->
  rb_ok (plug (T c l z v (T c' l' x' v' r')) k) ->
  (height (plug (T c l z v (T c' l' x' v' r')) k) < fuel)%nat ->
  rbtree_rep tr (plug (T c l z v (T c' l' x' v' r')) k) ⊢
  (rbtree_rep tr (unlinked cy ry (ext ++ Fr R c z vy l :: k)) -∗ stale_node cy y vy -∗ Q tt) -∗
  hwp (rbtree_delete tr fuel z) Q.
Proof.
  intros Hl El Hrb Hf. pose proof (lmost_plug _ _ _ _ _ _ _ _ _ _ El) as Hp.
  pose proof (height_plug (T c l z v (T c' l' x' v' r')) k) as Hsz. cbn [height] in Hsz.
  set (K := ext ++ Fr R c z v l :: k).
  assert (plug (T c l z v (T c' l' x' v' r')) k = plug (T cy E y vy ry) K) as Hpl
    by by unfold K; rewrite plug_app, Hp.
  pose proof (height_plug (T cy E y vy ry) K) as HszK.
  iIntros "H HQ". iApply hwp_ext; [apply rbtree_delete_unfold|]. h_step.
  iApply (unlink_two_ok with "H"); [done..|lia|]. iIntros "H".
  rewrite Hpl in *.
  iApply (unlink_at_ok _ _ _ _ _ ry K _ _ _ emp%I with "H [] [HQ]"); [by left|done|lia|..].
  2: { iIntros "H Y _". iApply ("HQ" with "H Y"). }
  iIntros (sp) "[Ht Hk] S (%Hy & Y1 & Y & Yv)". unfold K at 2.
  iDestruct (path_ne with "Hk Y1") as %Hne. replace (negb (y =? z)) with true by zlia. cbn [when].
  iDestruct (path_payload with "Hk") as "(%Hz & Zv & Hk)".
  iApply (copy_fields_ok with "Zv Yv"). iIntros "Zv Yv".
  iExists (ext ++ Fr R c z vy l :: k). iDestruct ("Hk" with "Zv") as "Hk". unfold focus.
  iEval (unfold K; rewrite (top_app_val ext R c z v vy l k)) in "Ht". h_frame. iPureIntro. split_and!.
  - by unfold K; apply top_app_val.
  - unfold K. by rewrite !length_app.
  - apply rbk_value.
  - done.
  - by destruct Hy.
  - by destruct Hy.
Qed.

(** rbtree_delete computes [delete_at] on a valid tree, and what it unlinks is
    the node that [delete_at] names. *)
Lemma delete_ok c l z v r k t1 y vy fuel (Q : unit -> heapProp) :
  rb_ok (plug (T c l z v r) k) -> delete_at c l z v r k = (t1, y, vy) ->
  (height (plug (T c l z v r) k) < fuel)%nat ->
  rbtree_rep tr (plug (T c l z v r) k) ⊢
  (rbtree_rep tr t1 -∗ (∃ cy, stale_node cy y vy) -∗ Q tt) -∗
  hwp (rbtree_delete tr fuel z) Q.
Proof.
  intros Hrb Hd Hf. iIntros "H HQ". unfold delete_at in Hd.
  destruct l as [|cl ll xl vl rl]; [|destruct r as [|c' l' x' v' r']].
  - injection Hd as <- <- <-. iApply (delete_one_ok with "H"); [by left|done..|].
    iIntros "H Y". iApply ("HQ" with "H [$]").
  - injection Hd as <- <- <-. iApply (delete_one_ok with "H"); [by right|done..|].
    iIntros "H Y". iApply ("HQ" with "H [$]").
  - destruct (lmost c' l' x' v' r') as [[[[cy y'] vy'] ry] ext] eqn:El. injection Hd as <- <- <-.
    iApply (delete_two_ok with "H"); [done..|]. iIntros "H Y". iApply ("HQ" with "H [$]").
Qed.
End delete.
