(* ===== verification/RbtreeSearch.v ===== *)
(** Positions in a tree by entry, and the searches of rbtree.c: the first and
    the last node of a tree and the first one above a key; the height of a valid
    tree. *)
From stdpp Require Import sorting.
From S2P Require Import Prelude Heap Rbtree RbtreeSpec RbtreeInv.
Import Rbtree Rep.

(** ** Positions *)

(** Every entry is the root of a subtree at the end of some path. *)
Lemma entries_position t : forall k es1 z v es2, entries t = es1 ++ (z, v) :: es2 ->
  exists c l r k', plug t k = plug (T c l z v r) k' /\
    before k' ++ entries l = before k ++ es1 /\ entries r ++ after k' = es2 ++ after k.
Proof.
  induction t as [|c l IHl x w r IHr]; intros k es1 z v es2 He; cbn [entries] in He.
  { by destruct es1. }
  apply app_eq_inv in He as [(es & Hl & Hr)|(es & Hl & Hr)].
  - destruct es as [|e es].
    + rewrite app_nil_r in Hl. injection Hr as -> -> ->. exists c, l, r, k. by subst es1.
    + injection Hr as <- ->.
      destruct (IHl (Fr L c x w r :: k) es1 z v es Hl) as (c' & l' & r' & k' & E & H1 & H2).
      exists c', l', r', k'. split_and!; [done|done|rewrite H2; cbn [after]; by app_norm].
  - destruct es as [|e es].
    + rewrite app_nil_r in Hl. injection Hr as <- <- <-. exists c, l, r, k. by subst es1.
    + injection Hr as <- Hr.
      destruct (IHr (Fr R c x w l :: k) es z v es2 Hr) as (c' & l' & r' & k' & E & H1 & H2).
      exists c', l', r', k'. split_and!; [done|rewrite H1; subst; cbn [before]; by app_norm|done].
Qed.

Lemma position t es1 z v es2 : entries t = es1 ++ (z, v) :: es2 ->
  exists c l r k, t = plug (T c l z v r) k /\
    before k ++ entries l = es1 /\ entries r ++ after k = es2.
Proof.
  intros He. destruct (entries_position t [] _ _ _ _ He) as (c & l & r & k & Et & H1 & H2).
  exists c, l, r, k. cbn [before after app] in *. rewrite app_nil_r in H2. done.
Qed.

Lemma entries_at c l z v r k : entries (plug (T c l z v r) k) =
  (before k ++ entries l) ++ (z, v) :: entries r ++ after k.
Proof. rewrite entries_plug. cbn [entries]. by app_norm. Qed.

(** The payload of a node has no part in the red-black invariant. *)
Lemma rb_ok_payload c l z v v' r k : rb_ok (plug (T c l z v r) k) -> rb_ok (plug (T c l z v' r) k).
Proof.
  intros (n & Hn & Hk & Hc)%rb_unplug.
  assert (rb (T c l z v' r) n) as Hn' by by inversion Hn; subst; constructor.
  cbn [color] in Hc. assert (color (plug (T c l z v' r) k) = RBBLK) as Hcol.
  { apply (plug_black _ _ Hk). destruct Hc as [|[_ Hne]]; [by left|by right]. }
  split; [done|]. destruct (rb_plug _ _ Hk _ Hn') as [m Hm].
  { destruct Hc as [|[Hb _]]; [by left|by right]. }
  exists m. by rewrite set_color_same in Hm.
Qed.

Lemma height_payload c l z v v' r k :
  height (plug (T c l z v' r) k) = height (plug (T c l z v r) k).
Proof.
  cut (forall t t', height t = height t' -> height (plug t k) = height (plug t' k)); [intros H; by apply H|].
  induction k as [|[d c1 x w s] k IH]; intros t t' Ht; [done|]. rewrite !plug_cons. apply IH.
  destruct d; cbn; lia.
Qed.

Lemma height_entries t : (height t <= length (entries t))%nat.
Proof. induction t as [|c l IHl x v r IHr]; cbn; [done|]. rewrite length_app. cbn. lia. Qed.

(** The first entry belongs to a node without a left child. *)
Lemma first_position t y vy es : rb_ok t -> entries t = (y, vy) :: es ->
  exists cy ry k t1, t = plug (T cy E y vy ry) k /\
    delete_at cy E y vy ry k = (t1, y, vy) /\ rb_ok t1 /\ entries t1 = es.
Proof.
  intros Ht He. destruct t as [|c l x v r]; [done|].
  destruct (lmost c l x v r) as [[[[cy y'] vy'] ry] ext] eqn:El.
  pose proof (lmost_plug _ _ _ _ _ _ _ _ _ _ El) as Hp.
  destruct (lmost_entries _ _ _ _ _ _ _ _ _ _ El) as [Hes Hb].
  rewrite He in Hes. injection Hes as <- <- ->. rewrite <- Hp in Ht.
  destruct (rb_ok_unlinked cy E y vy ry ext ry Ht ltac:(by left)) as [H1 H2].
  exists cy, ry, ext, (unlinked cy ry ext). split_and!; [done|done|done|].
  by rewrite H2, Hb.
Qed.

(** The tree with the payload of one node changed. *)
Section payload.
Context {NT : NodeType} {NO : NodeOrder}.
Variable tr : ptr.

Lemma focus_payload c l z v r k : rbtree_rep tr (plug (T c l z v r) k) ⊢
  ⌜z <> RBNIL /\ z <> NULL⌝ ∗ payload_at z v ∗
  (∀ v', payload_at z v' -∗ rbtree_rep tr (plug (T c l z v' r) k)).
Proof.
  unfold rbtree_rep. iIntros "[H S]". iEval (rewrite <- focus_plug; unfold focus; cbn [tree_rep addr]) in "H".
  iDestruct "H" as "[((%Hz & Z1 & Z2 & Z3 & Z4 & Z5) & Hl & Hr) Hk]". iSplit; [done|].
  iSplitL "Z5"; [done|]. iIntros (v') "Z5". iFrame "S". rewrite <- focus_plug.
  unfold focus. cbn [tree_rep addr]. h_frame.
Qed.
End payload.

(** ** rbtree_leftmost and rbtree_rightmost *)
Definition outermost (d : dir) (es : list (ptr * list Z)) : option (ptr * list Z) :=
  match d with L => head es | R => last es end.

Definition node_or_null (o : option (ptr * list Z)) : ptr := from_option fst NULL o.

Lemma leaf_or t : t = E \/ t <> E.
Proof. destruct t; [by left|by right]. Qed.

Lemma entries_nil t : entries t = [] -> t = E.
Proof. destruct t as [|c l x v r]; [done|]. cbn. by destruct (entries l). Qed.

Lemma outermost_Some d t : t <> E -> is_Some (outermost d (entries t)).
Proof.
  intros Ht. assert (entries t <> []) as Hne by (intros H; by apply entries_nil in H).
  destruct d; cbn; [by destruct (entries t)|]. apply not_eq_None_Some.
  by rewrite last_None.
Qed.

(** The outermost entry of a tree comes from its outermost subtree that is not
    a leaf. *)
Lemma outermost_node d c a x v b : outermost d (entries (node d c a x v b)) =
  match a with E => Some (x, v) | _ => outermost d (entries a) end.
Proof.
  assert (forall o : option (ptr * list Z), (a <> E -> is_Some o) ->
    match a with E => Some (x, v) | _ => o end =
    match a with E => Some (x, v) | _ => match o with Some e => Some e | None => Some (x, v) end end)
    as Ho.
  { intros [o|] H; destruct a; try done. by destruct (H ltac:(done)). }
  rewrite Ho by apply outermost_Some. clear Ho.
  destruct d; cbn [node entries outermost].
  - destruct a as [|ca al ax av ar]; [done|]. cbn [entries]. by destruct (entries al).
  - rewrite last_app, last_cons. destruct a as [|ca al ax av ar]; [done|].
    by destruct (last (entries (T ca al ax av ar))).
Qed.

Section search.
Context {NT : NodeType} {NO : NodeOrder}.
Variable tr : ptr.

Definition walk_body (side : field) : ptr * ptr -> cmd heap (ptr * ptr + ptr) :=
  fun '(x, next) =>
    if negb (next =? RBNIL) then
      n ← hload (next, side);
      mret (inl (next, n))
    else mret (inr x).

Lemma walk_loop_ok d t : forall pp x0 fuel (Q : ptr -> heapProp), (height t < fuel)%nat ->
  tree_rep t pp ⊢
  (tree_rep t pp -∗ Q (from_option fst x0 (outermost d (entries t)))) -∗
  hwp (loop fuel (walk_body (child d)) (x0, addr t)) Q.
Proof.
  (* Induction on the subtree on side [d]. *)
  assert (forall n t, (height t < n)%nat -> forall pp x0 fuel (Q : ptr -> heapProp),
    (height t < fuel)%nat ->
    tree_rep t pp ⊢
    (tree_rep t pp -∗ Q (from_option fst x0 (outermost d (entries t)))) -∗
    hwp (loop fuel (walk_body (child d)) (x0, addr t)) Q) as H; [|by apply (H (S (height t))); lia].
  clear t. induction n as [|n IH]; intros t Hn pp x0 [|fuel] Q Hf; try lia.
  destruct (leaf_or t) as [->|Hne]; iIntros "H HQ"; iApply hwp_loop; unfold walk_body at 1.
  - cbn [addr]. change (negb (RBNIL =? RBNIL)) with false. cbn iota. h_step.
    replace (from_option fst x0 (outermost d (entries E))) with x0 by by destruct d.
    by iApply "HQ".
  - pose proof (node_kids d t Hne) as Et. set (a := kid d t) in *. set (b := kid (opp d) t) in *.
    assert (height t = S (Nat.max (height a) (height b))) as Hs by (rewrite Et; destruct d; cbn; lia).
    rewrite Et, outermost_node, tree_rep_node, addr_node.
    iDestruct "H" as "[((%Hx & %Hx') & X1 & X2 & X3 & X4 & X5) [Ha Hb]]".
    replace (negb (addr t =? RBNIL)) with true by zlia. h_step. h_step. h_step.
    iApply (IH with "Ha"); [lia..|]. iIntros "Ha".
    replace (match a with E => Some (addr t, val t) | _ => outermost d (entries a) end)
      with (match outermost d (entries a) with None => Some (addr t, val t) | o => o end).
    2: { destruct (leaf_or a) as [->|Ha]; [by destruct d|].
         destruct (outermost_Some d a Ha) as [e ->]. by destruct a. }
    destruct (outermost d (entries a)) as [e|]; cbn [from_option]; iApply "HQ"; h_frame.
Qed.

Lemma walk_ok d t pp fuel (Q : ptr -> heapProp) : (height t < fuel)%nat ->
  tree_rep t pp ⊢
  (tree_rep t pp -∗ Q (node_or_null (outermost d (entries t)))) -∗
  hwp (walk (child d) fuel (addr t)) Q.
Proof.
  intros Hf. iIntros "H HQ". unfold walk. destruct (leaf_or t) as [->|Hne].
  - cbn [addr]. rewrite Z.eqb_refl. h_step.
    replace NULL with (node_or_null (outermost d (entries E))) by by destruct d. by iApply "HQ".
  - iAssert (⌜addr t <> RBNIL⌝)%I as %Hx.
    { destruct t; [done|]. cbn [tree_rep addr]. by iDestruct "H" as "[((%Hx & _) & _) _]". }
    replace (addr t =? RBNIL) with false by zlia.
    iApply (walk_loop_ok d t pp (addr t) with "H"); [done|]. iIntros "H".
    destruct (outermost_Some d t Hne) as [e ->]. by iApply "HQ".
Qed.

(** ** rbtree_upper_bound *)

(** The first entry whose key is above that of [v]. *)
Definition above (v : list Z) (e : ptr * list Z) : bool := node_key v <? node_key (snd e).
Definition first_above (v : list Z) (es : list (ptr * list Z)) : option (ptr * list Z) :=
  head (filter (fun e => above v e) es).

Lemma first_above_app_Some v es1 es2 : Forall (fun e => ~ above v e) es1 ->
  first_above v (es1 ++ es2) = first_above v es2.
Proof.
  intros H. unfold first_above. rewrite filter_app.
  replace (filter (fun e => above v e) es1) with (@nil (ptr * list Z)); [done|].
  induction H as [|e es1 He _ IH]; [done|]. by rewrite filter_cons_False.
Qed.

Lemma first_above_app v es1 e es2 : above v e ->
  first_above v (es1 ++ e :: es2) = Some (default e (first_above v es1)).
Proof.
  intros He. unfold first_above. rewrite filter_app, filter_cons_True by done.
  by destruct (filter _ es1).
Qed.

Definition ub_body (x : ptr) : ptr * ptr -> cmd heap (ptr * ptr + ptr) :=
  fun '(cur, best) =>
    if cur =? RBNIL then mret (inr best)
    else
      c ← node_cmp cur x;
      if 0 <? c then l ← hload (cur, Left); mret (inl (l, cur))
      else r ← hload (cur, Right); mret (inl (r, best)).

Lemma ub_loop_ok x v t : forall pp best fuel (Q : ptr -> heapProp),
  ordered t -> (height t < fuel)%nat ->
  tree_rep t pp ⊢ payload_at x v -∗
  (tree_rep t pp -∗ payload_at x v -∗ Q (from_option fst best (first_above v (entries t)))) -∗
  hwp (loop fuel (ub_body x) (addr t, best)) Q.
Proof.
  induction t as [|c l IHl y w r IHr]; intros pp best [|fuel] Q Ho Hf; try (cbn in Hf; lia);
    iIntros "H Hx HQ"; iApply hwp_loop; unfold ub_body at 1; cbn [addr].
  - rewrite Z.eqb_refl. h_step. iApply ("HQ" with "H Hx").
  - unfold ordered in *. cbn [entries height] in *. apply StronglySorted_app in Ho as (Hlr & Hl & Hr).
    apply StronglySorted_cons in Hr as [Hwr Hr].
    cbn [tree_rep]. iDestruct "H" as "[((%Hy & %Hy') & Y1 & Y2 & Y3 & Y4 & Y5) [Hl Hr]]".
    replace (y =? RBNIL) with false by zlia. h_step.
    iApply (node_cmp_ok y x w v with "[$Hx $Y5]"). iIntros (c') "%Hc [Y5 Hx]".
    cbn [child opp].
    assert (above v (y, w) = (0 <? c')) as Hab.
    { unfold above. cbn [snd]. destruct (Z.leb_spec c' 0), (Z.leb_spec (node_key w) (node_key v)); zlia. }
    destruct (0 <? c'); h_step; h_step; h_step.
    + iApply (IHl with "Hl Hx"); [done|lia|]. iIntros "Hl Hx".
      rewrite (first_above_app v (entries l) (y, w)) by by rewrite Hab.
      iDestruct ("HQ" with "[-Hx] Hx") as "HQ"; [h_frame|].
      by destruct (first_above v (entries l)).
    + iApply (IHr with "Hr Hx"); [done|lia|]. iIntros "Hr Hx".
      rewrite (cons_middle (y, w)), (assoc_L (++)).
      rewrite (first_above_app_Some v (entries l ++ [(y, w)])).
      * iApply ("HQ" with "[-Hx] Hx"). h_frame.
      * apply Forall_app. split; [|constructor; [rewrite Hab; by intros []|done]].
        apply Forall_forall. intros e He.
        specialize (Hlr e (y, w) He ltac:(set_solver)). unfold above, le_key in *. cbn in *.
        rewrite Is_true_true. intros H. zlia.
Qed.

Lemma upper_bound_ok x v t fuel (Q : ptr -> heapProp) : ordered t -> (height t < fuel)%nat ->
  rbtree_rep tr t ⊢ payload_at x v -∗
  (rbtree_rep tr t -∗ payload_at x v -∗ Q (node_or_null (first_above v (entries t)))) -∗
  hwp (rbtree_upper_bound tr fuel x) Q.
Proof.
  intros Ho Hf. unfold rbtree_rep, focus. cbn [path_rep top].
  iIntros "[[Ht Hr] S] Hx HQ". unfold rbtree_upper_bound. do 2 h_step.
  iApply (ub_loop_ok x v with "Ht Hx"); [done..|]. iIntros "Ht Hx".
  iApply ("HQ" with "[-Hx] Hx"). iFrame.
Qed.
End search.

(** ** Height *)
Lemma rb_height t n : rb t n ->
  (height t <= 2 * n + (if (color t =? RBRED)%Z then 1 else 0))%nat /\ (2 ^ n <= S (length (entries t)))%nat.
Proof.
  induction 1 as [|l x v r n Hcl Hcr _ [IHl Hl] _ [IHr Hr]|l x v r n _ [IHl Hl] _ [IHr Hr]];
    cbn [height entries color]; rewrite ?length_app; cbn [length].
  - cbn. lia.
  - rewrite Hcl in IHl. rewrite Hcr in IHr. change (RBBLK =? RBRED) with false in *.
    change (RBRED =? RBRED) with true. cbn iota in *. lia.
  - change (RBBLK =? RBRED) with false. cbn iota. rewrite Nat.pow_succ_r'.
    split; [|lia].
    destruct (color l =? RBRED), (color r =? RBRED); lia.
Qed.

(** The loops of a valid tree with [n] entries run at most [iterations n] times. *)
Definition iterations (n : nat) : nat := S (2 * Nat.log2 (S n)).

Lemma rb_ok_height t : rb_ok t -> (height t < iterations (length (entries t)))%nat.
Proof.
  intros [Hc [n Ht]]. destruct (rb_height t n Ht) as [H1 H2]. rewrite Hc in H1.
  change (RBBLK =? RBRED) with false in H1. cbn iota in H1.
  apply Nat.log2_le_mono in H2. rewrite Nat.log2_pow2 in H2 by lia. unfold iterations. lia.
Qed.
