(* ===== verification/Timer.v ===== *)
(** The timers of event.c: struct timer is the client of the red-black tree,
    ordered by its trigger time.

    Module [Timer] has the operations on the memory, which holds a timer's
    members at its address; the clock's readings are arguments.  run_timers, whose
    callbacks reach everything, is in Event.v.  The specifications are in
    TimerSpec.v. *)
From S2P Require Import Prelude Heap Rbtree.

Module Timer.
Import Rbtree.

Definition TIMER_FLAG_ACTIVE : Z := Z.shiftl 1 0.
Definition TIMER_FLAG_ONESHOT : Z := Z.shiftl 1 1.

(** What clock_gettime answers: its result and the two members of timespec. *)
Record timespec := MkTimespec { ret : Z; tv_sec : Z; tv_nsec : Z }.

Definition get_time (ts : timespec) : Z :=
  if ret ts <? 0 then 0
  else u64 (u64 (u64 (tv_sec ts) * 1000000000) + u64 (tv_nsec ts)).

Definition timer_cmp (a b : ptr) : cmd heap Z :=
  ta ← hload (a, Trigger);
  tb ← hload (b, Trigger);
  mret (if ta <? tb then -1 else if ta =? tb then 0 else 1).

(** The members of struct timer behind its node. *)
#[export] Instance timer_node : NodeType := {
  payload_fields := [Trigger; Interval; TimerFlags; TimerCb; TimerData];
  node_cmp := timer_cmp;
}.

Definition is_active (flags : Z) : bool := negb (Z.land flags TIMER_FLAG_ACTIVE =? 0).
Definition is_oneshot (flags : Z) : bool := negb (Z.land flags TIMER_FLAG_ONESHOT =? 0).
Definition activated (flags : Z) : Z := Z.lor flags TIMER_FLAG_ACTIVE.
Definition deactivated (flags : Z) : Z := Z.land flags (Z.lnot TIMER_FLAG_ACTIVE).

(** *t = make_timer(interval, mode, cb, data): the node is zeroed too. *)
Definition make_timer (t : ptr) (interval mode : Z) (cb data : ptr) : cmd heap unit :=
  _ ← hstore (t, Color) 0;
  _ ← hstore (t, Left) NULL;
  _ ← hstore (t, Right) NULL;
  _ ← hstore (t, Parent) NULL;
  _ ← hstore (t, Trigger) 0;
  _ ← hstore (t, Interval) interval;
  _ ← hstore (t, TimerFlags) mode;
  _ ← hstore (t, TimerCb) cb;
  hstore (t, TimerData) data.

(** The interval is in milliseconds, the clock in nanoseconds. *)
Definition trigger_at (now interval : Z) : Z := u64 (now + u64 (interval * 1000000)).

Definition update_trigger (now : Z) (t : ptr) : cmd heap unit :=
  i ← hload (t, Interval);
  hstore (t, Trigger) (trigger_at now i).

Section base.
(** &base->timers *)
Variable tr : ptr.

Definition add_timer (now : Z) (fuel : nat) (t : ptr) : cmd heap Z :=
  fl ← hload (t, TimerFlags);
  if is_active fl then mret ERR
  else
    _ ← update_trigger now t;
    fl ← hload (t, TimerFlags);
    _ ← hstore (t, TimerFlags) (activated fl);
    _ ← rbtree_insert tr fuel t;
    mret OK.

Definition del_timer (fuel : nat) (t : ptr) : cmd heap Z :=
  fl ← hload (t, TimerFlags);
  if is_active fl then
    _ ← rbtree_delete tr fuel t;
    fl ← hload (t, TimerFlags);
    _ ← hstore (t, TimerFlags) (deactivated fl);
    mret OK
  else mret ERR.

End base.
End Timer.
