(* ===== verification/TimerSpec.v ===== *)
(** Specifications of the timers.

    A timer's payload is the list [trigger; interval; flags; callback; data].
    The tree of a base is ordered by the triggers ([timer_order]); the theorems
    say what adding, deleting and running timers do to its entries. *)
From stdpp Require Import sorting.
From S2P Require Import Prelude Heap Rbtree RbtreeSpec RbtreeInv RbtreeDel RbtreeSearch Timer.
Import Rbtree Rep Timer.

(** struct timer without its node. *)
Record timer := MkTimer { trigger : Z; interval : Z; flags : Z; cb : ptr; data : ptr }.
Definition members (m : timer) : list Z := [trigger m; interval m; flags m; cb m; data m].

Definition with_trigger (w : Z) (m : timer) : timer :=
  MkTimer w (interval m) (flags m) (cb m) (data m).
Definition with_flags (fl : Z) (m : timer) : timer :=
  MkTimer (trigger m) (interval m) fl (cb m) (data m).

#[export] Program Instance timer_order : NodeOrder := {
  node_key v := default 0 (head v);
}.
Next Obligation.
  intros a b va vb Q. iIntros "[Ha Hb] HQ". unfold node_cmp; cbn [timer_node]. unfold timer_cmp.
  cbn [payload_fields timer_node].
  iDestruct (big_sepL2_cons_inv_l with "Ha") as (ta va') "(-> & A & Ha)".
  iDestruct (big_sepL2_cons_inv_l with "Hb") as (tb vb') "(-> & B & Hb)". cbn [head default from_option id].
  h_steps. iApply ("HQ" with "[%]").
  - destruct (Z.ltb_spec ta tb); [zlia|]. destruct (Z.eqb_spec ta tb); zlia.
  - iFrame.
Qed.

(** The members of a timer, as its payload. *)
Lemma timer_payload x m : payload_at x (members m) ⊣⊢
  (x, Trigger) ↦ trigger m ∗ (x, Interval) ↦ interval m ∗ (x, TimerFlags) ↦ flags m ∗
  (x, TimerCb) ↦ cb m ∗ (x, TimerData) ↦ data m.
Proof.
  unfold payload_at; cbn [timer_node timer_order payload_fields members]. cbn.
  iSplit; [iIntros "($ & $ & $ & $ & $ & _)"|iIntros "($ & $ & $ & $ & $)"].
Qed.

Lemma payload_members x v : payload_at x v ⊢ ⌜exists m, v = members m⌝.
Proof.
  unfold payload_at; cbn [timer_node timer_order payload_fields]. iIntros "H".
  iDestruct (big_sepL2_length with "H") as %Hl.
  destruct v as [|a [|b [|c [|d [|e [|]]]]]]; try done. iPureIntro. by exists (MkTimer a b c d e).
Qed.

(** The tests of the flag words. *)
Lemma active_activated fl : is_active (activated fl) = true.
Proof.
  unfold is_active, activated. destruct (Z.eqb_spec (Z.land (Z.lor fl TIMER_FLAG_ACTIVE) TIMER_FLAG_ACTIVE) 0) as [H|]; [|done].
  assert (Z.testbit (Z.land (Z.lor fl TIMER_FLAG_ACTIVE) TIMER_FLAG_ACTIVE) 0 = false) as Hb
    by by rewrite H.
  rewrite Z.land_spec, Z.lor_spec in Hb. by rewrite orb_true_r in Hb.
Qed.

Lemma active_deactivated fl : is_active (deactivated fl) = false.
Proof.
  unfold is_active, deactivated. rewrite <- Z.land_assoc.
  rewrite (Z.land_comm (Z.lnot _)), Z.land_lnot_diag, Z.land_0_r. done.
Qed.

Lemma oneshot_activated fl : is_oneshot (activated fl) = is_oneshot fl.
Proof.
  unfold is_oneshot, activated. by rewrite Z.land_lor_distr_l, Z.lor_0_r.
Qed.

Section specs.
Variable tr : ptr.

(** A timer outside the tree: its node is left over, or zeroed. *)
Definition loose_timer (x : ptr) (m : timer) : heapProp := free_node x (members m).

Lemma stale_loose c x m : stale_node c x (members m) ⊢ loose_timer x m.
Proof.
  unfold stale_node, loose_timer, free_node. iIntros "($ & X & (%l & %r & %p & X1 & X2 & X3) & $)".
  iFrame.
Qed.

Lemma make_timer_ok x m i mode c d (Q : unit -> heapProp) :
  loose_timer x m ⊢ (loose_timer x (MkTimer 0 i mode c d) -∗ Q tt) -∗
  hwp (make_timer x i mode c d) Q.
Proof.
  unfold loose_timer, free_node. rewrite !timer_payload. cbn [trigger interval flags cb data].
  iIntros "(%Hx & (%c0 & %l & %r & %p & X1 & X2 & X3 & X4) & X5 & X6 & X7 & X8 & X9) HQ".
  unfold make_timer. h_steps. iApply "HQ". h_frame.
Qed.

(** add_timer: a timer that is not active is entered with its trigger set to
    its interval from now. *)
Definition armed (now : Z) (m : timer) : timer :=
  with_flags (activated (flags m)) (with_trigger (trigger_at now (interval m)) m).

Lemma add_timer_ok now fuel x m t (Q : Z -> heapProp) :
  is_active (flags m) = false -> rb_ok t -> (height t < fuel)%nat ->
  rbtree_rep tr t ⊢ loose_timer x m -∗
  (rbtree_rep tr (rb_insert x (members (armed now m)) t) -∗ Q OK) -∗
  hwp (add_timer tr now fuel x) Q.
Proof.
  intros Ha [Hc _] Hf. unfold loose_timer, free_node. rewrite timer_payload.
  iIntros "H (%Hx & X0 & X1 & X2 & X3 & X4 & X5) HQ". unfold add_timer. h_step. h_step.
  rewrite Ha. unfold update_trigger. h_steps.
  iApply (insert_ok tr x (members (armed now m)) with "H [-HQ]"); [done|by rewrite Hc| |].
  - unfold free_node. rewrite timer_payload. h_frame.
  - iIntros "H". h_step. by iApply "HQ".
Qed.

Lemma add_active_ok now fuel x m (Q : Z -> heapProp) : is_active (flags m) = true ->
  loose_timer x m ⊢ (loose_timer x m -∗ Q ERR) -∗ hwp (add_timer tr now fuel x) Q.
Proof.
  intros Ha. unfold loose_timer, free_node. rewrite timer_payload.
  iIntros "(%Hx & X0 & X1 & X2 & X3 & X4 & X5) HQ". unfold add_timer. h_step. h_step.
  rewrite Ha. h_step. iApply "HQ". h_frame.
Qed.

(** del_timer on a timer that is in no tree changes nothing. *)
Lemma del_inactive_ok fuel x m (Q : Z -> heapProp) : is_active (flags m) = false ->
  payload_at x (members m) ⊢ (payload_at x (members m) -∗ Q ERR) -∗ hwp (del_timer tr fuel x) Q.
Proof.
  intros Ha. rewrite timer_payload. iIntros "(X1 & X2 & X3 & X4 & X5) HQ". unfold del_timer.
  h_step. h_step. rewrite Ha. h_step. iApply "HQ". iFrame.
Qed.

(** On an active one in the tree it calls rbtree_delete, then clears the flag
    in whatever the node's payload is now. *)
Lemma del_timer_start c l z m r k t1 y vy fuel (Q : Z -> heapProp) :
  is_active (flags m) = true ->
  rb_ok (plug (T c l z (members m) r) k) -> delete_at c l z (members m) r k = (t1, y, vy) ->
  (height (plug (T c l z (members m) r) k) < fuel)%nat ->
  rbtree_rep tr (plug (T c l z (members m) r) k) ⊢
  (rbtree_rep tr t1 -∗ (∃ cy, stale_node cy y vy) -∗
   hwp (fl ← hload (z, TimerFlags); _ ← hstore (z, TimerFlags) (deactivated fl); mret OK) Q) -∗
  hwp (del_timer tr fuel z) Q.
Proof.
  intros Ha Hrb Hd Hf. iIntros "H HQ". unfold del_timer. h_step.
  iDestruct (focus_payload with "H") as "(%Hz & Zv & H)". rewrite timer_payload.
  iDestruct "Zv" as "(Z1 & Z2 & Z3 & Z4 & Z5)". h_step. rewrite Ha.
  iDestruct ("H" $! (members m) with "[-HQ]") as "H"; [rewrite timer_payload; iFrame|]. h_step.
  iApply (delete_ok with "H"); [done..|]. iIntros "H Y". iApply ("HQ" with "H Y").
Qed.

(** With at most one child the timer leaves the tree. *)
Lemma del_timer_ok c l z m r k t1 fuel (Q : Z -> heapProp) :
  is_active (flags m) = true ->
  rb_ok (plug (T c l z (members m) r) k) ->
  delete_at c l z (members m) r k = (t1, z, members m) ->
  (height (plug (T c l z (members m) r) k) < fuel)%nat ->
  rbtree_rep tr (plug (T c l z (members m) r) k) ⊢
  (rbtree_rep tr t1 -∗ loose_timer z (with_flags (deactivated (flags m)) m) -∗ Q OK) -∗
  hwp (del_timer tr fuel z) Q.
Proof.
  intros Ha Hrb Hd Hf. iIntros "H HQ". iApply (del_timer_start with "H"); [done..|].
  iIntros "H (%cy & Y)". iDestruct (stale_loose with "Y") as "Y".
  unfold loose_timer, free_node. rewrite !timer_payload.
  iDestruct "Y" as "(%Hz & Z0 & Z1 & Z2 & Z3 & Z4 & Z5)". h_steps.
  iApply ("HQ" with "H"). h_frame.
Qed.

(** With two children it stays: the next timer leaves the tree, its payload is
    in the node of the deleted one, and it is there that the flag is cleared. *)
Lemma del_timer_two_ok c l z m r k fuel (Q : Z -> heapProp) :
  l <> E -> r <> E -> is_active (flags m) = true ->
  rb_ok (plug (T c l z (members m) r) k) ->
  (height (plug (T c l z (members m) r) k) < fuel)%nat ->
  rbtree_rep tr (plug (T c l z (members m) r) k) ⊢
  (∀ t' y my es1 es3,
     ⌜entries (plug (T c l z (members m) r) k) =
        es1 ++ (z, members m) :: (y, members my) :: es3 /\
      rb_ok t' /\
      entries t' = es1 ++ (z, members (with_flags (deactivated (flags my)) my)) :: es3⌝ -∗
     rbtree_rep tr t' -∗ loose_timer y my -∗ Q OK) -∗
  hwp (del_timer tr fuel z) Q.
Proof.
  intros Hl Hr Ha Hrb Hf.
  destruct (delete_at c l z (members m) r k) as [[t1 y] vy] eqn:Hd.
  destruct (delete_at_two _ _ _ _ _ _ _ _ _ Hl Hr Hrb Hd) as (Hrb1 & es3 & He & He1).
  iIntros "H HQ". iApply (del_timer_start with "H"); [done..|]. iIntros "H (%cy & Y)".
  iAssert (⌜exists my, vy = members my⌝)%I as %[my ->].
  { iDestruct "Y" as "(_ & _ & _ & Y)". by iApply payload_members. }
  iDestruct (stale_loose with "Y") as "Y".
  destruct (position _ _ _ _ _ He1) as (c1 & l1 & r1 & k1 & -> & Hb & Hk).
  iDestruct (focus_payload with "H") as "(%Hz & Zv & H)". rewrite (timer_payload z my).
  iDestruct "Zv" as "(Z1 & Z2 & Z3 & Z4 & Z5)". h_steps.
  iApply ("HQ" $! (plug (T c1 l1 z (members (with_flags (deactivated (flags my)) my)) r1) k1)
    y my _ es3 with "[%] [-Y] Y").
  - split_and!; [by rewrite entries_at, He|by eapply rb_ok_payload|]. by rewrite entries_at, Hb, Hk.
  - iApply "H". rewrite timer_payload. iFrame.
Qed.

End specs.

(** ** What becomes of the tree *)

(** Timer [m] of [c] is in [t] at a node with at most one child, whose removal leaves
    [t1]. *)
Definition removable (c : ptr) (m : timer) (t t1 : tree) : Prop :=
  exists col l r k, t = plug (T col l c (members m) r) k /\ (l = E \/ r = E) /\
    delete_at col l c (members m) r k = (t1, c, members m).

Lemma removable_entries c m t t1 : rb_ok t -> removable c m t t1 ->
  rb_ok t1 /\ exists es1 es2, entries t = es1 ++ (c, members m) :: es2 /\ entries t1 = es1 ++ es2.
Proof.
  intros Hrb (col & l & r & k & -> & Hlr & Hd).
  destruct (delete_at_one _ _ _ _ _ _ _ _ _ Hlr Hrb Hd) as (_ & _ & Hrb1 & He).
  split; [done|]. eexists _, _. by rewrite entries_at.
Qed.

Lemma ordered_removable c m t t1 : rb_ok t -> ordered t -> removable c m t t1 -> ordered t1.
Proof.
  intros Hrb Ho Hr. destruct (removable_entries c m t t1 Hrb Hr) as (_ & es1 & es2 & He & He1).
  unfold ordered in *. rewrite He in Ho. rewrite He1.
  apply StronglySorted_app in Ho as (H12 & H1 & H2). apply StronglySorted_cons in H2 as [_ H2].
  apply StronglySorted_app. split_and!; [|done|done].
  intros a b Ha Hb. apply H12; [done|]. by right.
Qed.

(** Timers [es] are taken out, one after the other. *)
Inductive swept : list (ptr * list Z) -> tree -> tree -> Prop :=
  | swept_nil t : swept [] t t
  | swept_cons c m es t t1 t' : removable c m t t1 -> swept es t1 t' -> swept ((c, members m) :: es) t t'.

(** What is done to the timers: [m] of [c] is put in, or taken out from a node with at
    most one child. *)
Inductive timer_op := Arm (c : ptr) (m : timer) | Disarm (c : ptr) (m : timer).
Inductive retimed : list timer_op -> tree -> tree -> Prop :=
  | retimed_nil t : retimed [] t t
  | retimed_arm c m ops t t' :
      retimed ops (rb_insert c (members m) t) t' -> retimed (Arm c m :: ops) t t'
  | retimed_disarm c m ops t t1 t' :
      removable c m t t1 -> retimed ops t1 t' -> retimed (Disarm c m :: ops) t t'.
