(* ===== verification/RbtreeThm.v ===== *)
(** The theorems on the red-black tree, as statements about running rbtree.c
    ([triple] of Heap.v), and the memories at which they are instantiated: trees
    of timers. *)
From stdpp Require Import sorting.
From S2P Require Import Prelude Heap Rbtree RbtreeSpec RbtreeInv RbtreeDel RbtreeSearch.
From S2P Require Import Timer TimerSpec.
Import Rbtree Rep.

(** ** Concrete memories *)
Module Cells.
Section cells.
Context {NT : NodeType} {NO : NodeOrder}.

Definition payload_cells (x : ptr) (v : list Z) : list (loc * Z) :=
  zip ((fun f => (x, f)) <$> payload_fields) v.

Fixpoint tree_cells (t : tree) (pp : ptr) : list (loc * Z) :=
  match t with
  | E => []
  | T c l x v r =>
      ((x, Color), c) :: ((x, Left), addr l) :: ((x, Right), addr r) :: ((x, Parent), pp) ::
      payload_cells x v ++ tree_cells l x ++ tree_cells r x
  end.

(** [sp] is what the sentinel has for a parent. *)
Definition rbtree_cells (tr sp : ptr) (t : tree) : list (loc * Z) :=
  ((tr, Root), addr t) :: ((RBNIL, Color), RBBLK) :: ((RBNIL, Left), RBNIL) ::
  ((RBNIL, Right), RBNIL) :: ((RBNIL, Parent), sp) :: tree_cells t NULL.

Definition node_cells (x : ptr) (v : list Z) : list (loc * Z) :=
  ((x, Color), 0) :: ((x, Left), NULL) :: ((x, Right), NULL) :: ((x, Parent), NULL) ::
  payload_cells x v.

(** Every node has an address of its own and a whole payload. *)
Definition well_placed (x : ptr) (v : list Z) : Prop :=
  (x <> RBNIL /\ x <> NULL) /\ length v = length payload_fields.

Lemma owns_app l1 l2 : owns (l1 ++ l2) ⊣⊢ owns l1 ∗ owns l2.
Proof. unfold owns. by rewrite big_sepL_app. Qed.

Lemma owns_payload x v : length v = length payload_fields ->
  owns (payload_cells x v) ⊢ payload_at x v.
Proof.
  unfold payload_cells, payload_at, owns. generalize payload_fields. intros fs.
  revert v. induction fs as [|f fs IH]; intros [|w v] Hl; try done; cbn in *.
  iIntros "[$ H]". iApply (IH with "H"). lia.
Qed.

Lemma owns_tree t pp : Forall (fun e => well_placed (fst e) (snd e)) (entries t) ->
  owns (tree_cells t pp) ⊢ tree_rep t pp.
Proof.
  revert pp. induction t as [|c l IHl x v r IHr]; intros pp; cbn [entries tree_cells tree_rep].
  { by iIntros. }
  rewrite Forall_app, Forall_cons. intros (Hl & [Hx Hv] & Hr).
  iIntros "(C1 & C2 & C3 & C4 & H)". rewrite !owns_app. iDestruct "H" as "(H1 & H2 & H3)".
  cbn [fst snd] in *. iFrame "C1 C2 C3 C4".
  iDestruct (owns_payload with "H1") as "$"; [done|].
  iDestruct (IHl with "H2") as "$"; [done|]. iDestruct (IHr with "H3") as "$"; [done|].
  by iPureIntro.
Qed.

Lemma owns_rbtree tr sp t : Forall (fun e => well_placed (fst e) (snd e)) (entries t) ->
  owns (rbtree_cells tr sp t) ⊢ rbtree_rep tr t.
Proof.
  intros Ht. unfold rbtree_cells, rbtree_rep, focus. cbn [path_rep top].
  iIntros "($ & C1 & C2 & C3 & C4 & H)". cbn [fst snd].
  iDestruct (owns_tree with "H") as "$"; [done|]. iExists sp. unfold sentinel_rep. iFrame.
Qed.

Lemma owns_node x v : well_placed x v -> owns (node_cells x v) ⊢ free_node x v.
Proof.
  intros [Hx Hv]. iIntros "(C1 & C2 & C3 & C4 & H)". unfold free_node. cbn [fst snd].
  iFrame "C1 C2 C3 C4". iDestruct (owns_payload with "H") as "$"; [done|]. by iPureIntro.
Qed.
End cells.
End Cells.

(** ** The theorems *)
Module RbtreeThm.
Section thms.
Context {NT : NodeType} {NO : NodeOrder}.

(** C39: rbtree_insert terminates without undefined behaviour on every valid
    search tree, its loops running at most 2 log2(n+1) + 1 times for n entries,
    and leaves a valid search tree (root and leaves black, no red node with a red
    child, equally many black nodes on all paths, keys in order) whose entries
    are the old ones with the new one behind those with smaller keys and before
    those with the same key or a larger one. *)
Theorem rbtree_insert_correct tr x v t fuel :
  rb_ok t -> ordered t -> (iterations (length (entries t)) <= fuel)%nat ->
  triple (rbtree_rep tr t ∗ free_node x v)%I (rbtree_insert tr fuel x)
    (fun _ => ∃ t' l1 l2, rbtree_rep tr t' ∗
       ⌜rb_ok t' /\ ordered t' /\ entries t = l1 ++ l2 /\ entries t' = l1 ++ (x, v) :: l2 /\
        Forall (smaller v) l1 /\ Forall (not_smaller v) l2⌝)%I.
Proof.
  intros Hrb Ho Hf. pose proof (rb_ok_height t Hrb). apply triple_hwp. iIntros "[H X]".
  iApply (insert_ok with "H X"); [lia|by rewrite (proj1 Hrb)|]. iIntros "H".
  destruct (entries_insert x v t Ho) as (l1 & l2 & H1 & H2 & H3 & H4).
  iExists _, l1, l2. iFrame. iPureIntro.
  split_and!; [by apply rb_ok_insert|by apply ordered_insert|done..].
Qed.

(** C40: rbtree_delete on any node of a valid tree terminates without undefined
    behaviour, within the same bound, and leaves a valid tree from which exactly
    the payload of the deleted node is gone; the others keep their order. *)
Theorem rbtree_delete_correct tr z v es1 es2 t fuel :
  rb_ok t -> entries t = es1 ++ (z, v) :: es2 -> (iterations (length (entries t)) <= fuel)%nat ->
  triple (rbtree_rep tr t) (rbtree_delete tr fuel z)
    (fun _ => ∃ t' cy y vy, rbtree_rep tr t' ∗ stale_node cy y vy ∗
       ⌜rb_ok t' /\ snd <$> entries t' = (snd <$> es1) ++ (snd <$> es2) /\
        (ordered t -> ordered t')⌝)%I.
Proof.
  intros Hrb He Hf. pose proof (rb_ok_height t Hrb). apply triple_hwp. iIntros "H".
  destruct (position t es1 z v es2 He) as (c & l & r & k & -> & <- & <-).
  destruct (delete_at c l z v r k) as [[t1 y] vy] eqn:Hd.
  clear He. iApply (delete_ok with "H"); [done..|lia|]. iIntros "H (%cy & Y)".
  iExists t1, cy, y, vy. iFrame. iPureIntro.
  destruct (delete_at_ok _ _ _ _ _ _ _ _ _ Hrb Hd) as [Hrb1 Hdel].
  split_and!; [done|done|].
  rewrite !ordered_payloads, entries_at, Hdel, (fmap_app snd (before k ++ entries l)).
  apply sorted_remove.
Qed.

(** deleting a node with two children does not take the node out of the
    tree: the next node leaves it, and the address of the deleted one stays in
    the tree with the payload of the next. *)
Theorem rbtree_delete_keeps_node tr c l z v r k fuel :
  l <> E -> r <> E -> let t := plug (T c l z v r) k in
  rb_ok t -> (iterations (length (entries t)) <= fuel)%nat ->
  triple (rbtree_rep tr t) (rbtree_delete tr fuel z)
    (fun _ => ∃ t' cy y vy es1 es3, rbtree_rep tr t' ∗ stale_node cy y vy ∗
       ⌜rb_ok t' /\ entries t = es1 ++ (z, v) :: (y, vy) :: es3 /\
        entries t' = es1 ++ (z, vy) :: es3⌝)%I.
Proof.
  intros Hl Hr t Hrb Hf. pose proof (rb_ok_height t Hrb). subst t. apply triple_hwp. iIntros "H".
  destruct (delete_at c l z v r k) as [[t1 y] vy] eqn:Hd.
  iApply (delete_ok with "H"); [done..|lia|]. iIntros "H (%cy & Y)".
  destruct (delete_at_two _ _ _ _ _ _ _ _ _ Hl Hr Hrb Hd) as (Hrb1 & es3 & H1 & H2).
  iExists t1, cy, y, vy, _, es3. iFrame. iPureIntro. split_and!; [done| |done].
  by rewrite entries_at, H1.
Qed.

(** on a valid tree rbtree_leftmost and rbtree_rightmost return the nodes
    with the first and the last entry, NULL when the tree is empty, and change
    nothing. *)
Theorem rbtree_ends_correct tr t fuel : rb_ok t -> (iterations (length (entries t)) <= fuel)%nat ->
  triple (rbtree_rep tr t) (rbtree_leftmost fuel (addr t))
    (fun x => ⌜x = from_option fst NULL (head (entries t))⌝ ∗ rbtree_rep tr t)%I /\
  triple (rbtree_rep tr t) (rbtree_rightmost fuel (addr t))
    (fun x => ⌜x = from_option fst NULL (last (entries t))⌝ ∗ rbtree_rep tr t)%I.
Proof.
  intros Hrb Hf. pose proof (rb_ok_height t Hrb).
  split; apply triple_hwp; iIntros "[[Ht Hr] S]";
    [iApply (walk_ok L with "Ht")|iApply (walk_ok R with "Ht")]; try lia; iIntros "Ht"; by iFrame.
Qed.

(** rbtree_upper_bound returns the node with the first entry whose key is
    above that of the node it is given, NULL when there is none, and changes
    nothing. *)
Theorem rbtree_upper_bound_correct tr x v t fuel :
  rb_ok t -> ordered t -> (iterations (length (entries t)) <= fuel)%nat ->
  triple (rbtree_rep tr t ∗ payload_at x v)%I (rbtree_upper_bound tr fuel x)
    (fun y => ⌜exists es1 es2, entries t = es1 ++ es2 /\
                Forall (fun e => node_key (snd e) <= node_key v) es1 /\
                match es2 with
                | [] => y = NULL
                | e :: _ => y = fst e /\ node_key v < node_key (snd e)
                end⌝ ∗ rbtree_rep tr t ∗ payload_at x v)%I.
Proof.
  intros Hrb Ho Hf. pose proof (rb_ok_height t Hrb). apply triple_hwp. iIntros "[H X]".
  iApply (upper_bound_ok with "H X"); [done|lia|]. iIntros "H X". iFrame. iPureIntro.
  clear. induction (entries t) as [|e es IH].
  - exists [], []. by split_and!.
  - unfold first_above. destruct (above v e) eqn:He.
    + rewrite filter_cons_True by by rewrite He. exists [], (e :: es). unfold above in He.
      split_and!; try done. cbn. zlia.
    + rewrite filter_cons_False by by rewrite He; intros []. destruct IH as (es1 & es2 & -> & H1 & H2).
      exists (e :: es1), es2. split_and!; [done| |done]. constructor; [|done].
      unfold above in He. zlia.
Qed.
End thms.

(** *** Three timers, 100, 200 and 300, in a tree at address 1 *)
Import Timer Cells.

Definition ex_timer (x : ptr) (trigger : Z) : list Z := members (MkTimer trigger 5000 3 7 x).
Definition ex_tree : tree :=
  T RBBLK (T RBRED E 16 (ex_timer 16 100) E) 32 (ex_timer 32 200) (T RBRED E 48 (ex_timer 48 300) E).
Definition ex_heap : heap := list_to_map (rbtree_cells 1 NULL ex_tree ++ node_cells 64 (ex_timer 64 250)).

Lemma ex_rb_ok : rb_ok ex_tree.
Proof. split; [done|]. exists 1%nat. repeat constructor. Qed.

Lemma ex_ordered : ordered ex_tree.
Proof. unfold ordered. cbn. repeat constructor. all: unfold le_key; cbn; lia. Qed.

Lemma ex_placed : Forall (fun e => well_placed (fst e) (snd e)) (entries ex_tree).
Proof. repeat constructor; done. Qed.

(** The whole memory, and the parts of it that the theorems speak of. *)
Lemma ex_holds : (rbtree_rep 1 ex_tree ∗ free_node 64 (ex_timer 64 250))%I ex_heap.
Proof.
  unfold ex_heap. apply holds_of_cells; [by_compute|]. rewrite owns_app.
  rewrite owns_rbtree by apply ex_placed. by rewrite owns_node by by repeat constructor.
Qed.

Lemma ex_holds_tree : rbtree_rep 1 ex_tree ex_heap.
Proof.
  assert ((rbtree_rep 1 ex_tree ∗ free_node 64 (ex_timer 64 250))%I ⊢ rbtree_rep 1 ex_tree) as [H]
    by iIntros "[$ _]".
  apply H, ex_holds.
Qed.

Lemma rbtree_insert_correct_witness :
  exists h', rbtree_insert 1 5 64 ex_heap = Val (tt, h').
Proof.
  destruct (triple_run _ _ _ _ (rbtree_insert_correct 1 64 (ex_timer 64 250) ex_tree 5
    ex_rb_ok ex_ordered ltac:(vm_compute; lia)) ex_holds) as ([] & h' & H & _).
  by exists h'.
Defined.

Lemma rbtree_delete_correct_witness :
  exists h', rbtree_delete 1 5 16 ex_heap = Val (tt, h').
Proof.
  destruct (triple_run _ _ _ _ (rbtree_delete_correct 1 16 (ex_timer 16 100) []
    [(32, ex_timer 32 200); (48, ex_timer 48 300)] ex_tree 5
    ex_rb_ok eq_refl ltac:(vm_compute; lia)) ex_holds_tree) as ([] & h' & H & _).
  by exists h'.
Defined.

Lemma rbtree_delete_keeps_node_witness :
  exists h', rbtree_delete 1 5 32 ex_heap = Val (tt, h').
Proof.
  destruct (triple_run _ _ _ _ (rbtree_delete_keeps_node 1 RBBLK
    (T RBRED E 16 (ex_timer 16 100) E) 32 (ex_timer 32 200) (T RBRED E 48 (ex_timer 48 300) E) [] 5
    ltac:(done) ltac:(done) ex_rb_ok ltac:(vm_compute; lia)) ex_holds_tree) as ([] & h' & H & _).
  by exists h'.
Defined.

Lemma rbtree_ends_correct_witness :
  exists h1 h2, rbtree_leftmost 5 32 ex_heap = Val (16, h1) /\
    rbtree_rightmost 5 32 ex_heap = Val (48, h2).
Proof.
  destruct (rbtree_ends_correct 1 ex_tree 5 ex_rb_ok ltac:(vm_compute; lia)) as [H1 H2].
  destruct (triple_run _ _ _ _ H1 ex_holds_tree) as (x & h1 & E1 & Hx).
  destruct (triple_run _ _ _ _ H2 ex_holds_tree) as (y & h2 & E2 & Hy).
  exists h1, h2. destruct Hx as (? & ? & _ & _ & -> & _), Hy as (? & ? & _ & _ & -> & _). done.
Defined.

Lemma rbtree_upper_bound_correct_witness :
  exists y h', rbtree_upper_bound 1 5 64 ex_heap = Val (y, h').
Proof.
  assert ((rbtree_rep 1 ex_tree ∗ payload_at 64 (ex_timer 64 250))%I ex_heap) as Hh.
  { assert ((rbtree_rep 1 ex_tree ∗ free_node 64 (ex_timer 64 250))%I ⊢
      (rbtree_rep 1 ex_tree ∗ payload_at 64 (ex_timer 64 250))%I) as [Hp]
      by by (iIntros "[$ (_ & _ & $)]").
    apply Hp, ex_holds. }
  destruct (triple_run _ _ _ _ (rbtree_upper_bound_correct 1 64 (ex_timer 64 250) ex_tree 5
    ex_rb_ok ex_ordered ltac:(vm_compute; lia)) Hh) as (y & h' & H & _).
  by exists y, h'.
Defined.
End RbtreeThm.
