(* ===== verification/Sentinel.v ===== *)
(** The sentinel of rbtree.c, which all the trees of a process share.

    It is one static variable, and rbtree_delete stores into its parent member between
    the unlinking of a leaf and the fix-up that follows.  [begin_delete] and [end_delete]
    are these two halves.  Module [SentinelThm]: a deletion in another tree between the
    two, as another worker's thread may do it, makes the first one dereference NULL. *)
From S2P Require Import Prelude Heap Rbtree RbtreeSpec RbtreeInv RbtreeDel.
From S2P Require Import RbtreeSearch Timer TimerSpec RbtreeThm.
Import Rbtree Rep.

Section halves.
Context {NT : NodeType} {NO : NodeOrder}.

(** rbtree_delete up to the fix-up: the node that takes the place of the unlinked one,
    and the color of that one. *)
Definition begin_delete (t : ptr) (fuel : nat) (z : ptr) : cmd heap (ptr * Z) :=
  y ← node_to_unlink fuel z;
  yl ← hload (y, Left);
  x ← (if negb (yl =? RBNIL) then mret yl else hload (y, Right));
  p ← hload (y, Parent);
  _ ← hstore (x, Parent) p;
  _ ← replace_child t Left Right y x;
  _ ← if: negb (y =? z) then copy_fields payload_fields z y;
  yc ← hload (y, Color);
  mret (x, yc).

Definition end_delete (t : ptr) (fuel : nat) (r : ptr * Z) : cmd heap unit :=
  let (x, yc) := r in if: yc =? RBBLK then delete_fixup t fuel x.

Lemma delete_halves t fuel z h :
  rbtree_delete t fuel z h = (r ← begin_delete t fuel z; end_delete t fuel r) h.
Proof.
  unfold rbtree_delete, begin_delete, end_delete, mbind, cmd_bind.
  repeat (case_match; try done; simplify_eq/=).
Qed.

Lemma begin_unfold t fuel z h : begin_delete t fuel z h =
  (y ← node_to_unlink fuel z;
   x ← unlink_node t y;
   _ ← if: negb (y =? z) then copy_fields payload_fields z y;
   yc ← hload (y, Color);
   mret (x, yc)) h.
Proof.
  unfold begin_delete, unlink_node, mbind, cmd_bind.
  repeat (case_match; try done; simplify_eq/=).
Qed.

(** ** The two halves on a leaf *)
Lemma unlink_leaf_ok t c z v k sp fuel (Q : ptr -> heapProp) :
  focus t (T c E z v E) k ⊢ sentinel_rep sp -∗
  (focus t (T c E z v E) k -∗ sentinel_rep sp -∗ Q z) -∗ hwp (node_to_unlink fuel z) Q.
Proof.
  unfold focus. cbn [tree_rep addr]. iIntros "[((%Hz & Z1 & Z2 & Z3 & Z4) & Hl) Hk] S HQ".
  unfold node_to_unlink. cbn [child opp]. do 4 h_step. rewrite Z.eqb_refl. cbn [orb]. h_step.
  iApply ("HQ" with "[-S] S"). h_frame.
Qed.

Lemma begin_leaf_ok t c z v k sp fuel (Q : ptr * Z -> heapProp) :
  focus t (T c E z v E) k ⊢ sentinel_rep sp -∗
  (focus t E k -∗ sentinel_rep (top k) -∗ stale_node c z v -∗ Q (RBNIL, c)) -∗
  hwp (begin_delete t fuel z) Q.
Proof.
  iIntros "H S HQ". iApply hwp_ext; [apply begin_unfold|]. h_step.
  iApply (unlink_leaf_ok with "H S"). iIntros "H S". h_step.
  iApply (unlink_node_ok _ _ _ _ _ _ E with "H S"); [by left|]. iIntros (sp' Hsp) "H S (%Hz & Y1 & Y)".
  rewrite (Hsp eq_refl), Z.eqb_refl. cbn [negb when addr]. repeat h_step.
  iApply ("HQ" with "H S"). h_frame.
Qed.

(** The fix-up of a tree that has become empty, which leaves the sentinel as it is. *)
Lemma end_empty_ok t c sp fuel (Q : unit -> heapProp) : (0 < fuel)%nat ->
  focus t E [] ⊢ sentinel_rep sp -∗ (focus t E [] -∗ sentinel_rep sp -∗ Q tt) -∗
  hwp (end_delete t fuel (RBNIL, c)) Q.
Proof.
  intros Hf. destruct fuel as [|fuel]; [lia|]. unfold focus. cbn [tree_rep path_rep top addr end_delete].
  iIntros "[E R] S HQ". destruct (c =? RBBLK); cbn [when]; [|h_step; iApply ("HQ" with "[$] S")].
  unfold delete_fixup. h_step. iApply hwp_loop. h_step. h_step. rewrite Z.eqb_refl. cbn [orb]. h_step.
  iDestruct "S" as "[S1 S]". h_step. iApply ("HQ" with "[$] [$]").
Qed.

(** A deletion of the only node sets the sentinel's parent to NULL. *)
Lemma delete_only_ok t c z v sp fuel (Q : unit -> heapProp) : (0 < fuel)%nat ->
  focus t (T c E z v E) [] ⊢ sentinel_rep sp -∗
  (focus t E [] -∗ sentinel_rep NULL -∗ stale_node c z v -∗ Q tt) -∗
  hwp (rbtree_delete t fuel z) Q.
Proof.
  intros Hf. iIntros "H S HQ". iApply hwp_ext; [apply delete_halves|]. h_step.
  iApply (begin_leaf_ok with "H S"). iIntros "H S Y". iApply (end_empty_ok with "H S"); [done|].
  iIntros "H S". iApply ("HQ" with "H S Y").
Qed.
End halves.

(** ** No command of the tree makes memory *)
Definition makes_none {A} (c : cmd heap A) : Prop := forall h a h' l,
  c h = Val (a, h') -> h !! l = None -> h' !! l = None.

Section rules.
Context {A B : Type}.

Lemma makes_none_ret (a : A) : makes_none (mret a).
Proof. by intros h b h' l [= <- <-]. Qed.

Lemma makes_none_bind (c : cmd heap A) (k : A -> cmd heap B) :
  makes_none c -> (forall a, makes_none (k a)) -> makes_none (c ≫= k).
Proof.
  intros Hc Hk h b h' l H Hl. unfold mbind, cmd_bind in H.
  destruct (c h) as [[a h1]| | | |] eqn:E; [|done..]. eapply Hk; [exact H|]. by eapply Hc.
Qed.

Lemma makes_none_load l : makes_none (hload l).
Proof. intros h b h' l'. unfold hload. by destruct (h !! l); intros [= <- <-]. Qed.

Lemma makes_none_store l v : makes_none (hstore l v).
Proof.
  intros h b h' l'. unfold hstore. destruct (h !! l) eqn:E; intros [= <- <-] Hl.
  rewrite lookup_insert_ne; [done|]. intros ->. by rewrite Hl in E.
Qed.

Lemma makes_none_loop n (body : A -> cmd heap (A + B)) : (forall a, makes_none (body a)) ->
  forall a, makes_none (loop n body a).
Proof.
  intros Hb. induction n as [|n IH]; intros a; [done|]. cbn [loop].
  intros h b h' l H Hl. unfold mbind, cmd_bind in H.
  destruct (body a h) as [[[a'|b'] h1]| | | |] eqn:E; [| |done..].
  - eapply IH; [exact H|]. by eapply Hb.
  - injection H as <- <-. by eapply Hb.
Qed.
End rules.

Create HintDb cells discriminated.
#[export] Hint Resolve makes_none_ret makes_none_load makes_none_store : cells.

(** Take a command apart as it is written. *)
Ltac makes :=
  repeat (intros; cbv zeta;
    lazymatch goal with
    | |- makes_none (mbind _ _) => apply makes_none_bind
    | |- makes_none (when ?b _) => destruct b; cbn [when]
    | |- makes_none (loop _ _ _) => apply makes_none_loop
    | |- makes_none (match ?x with _ => _ end) => destruct x
    | |- makes_none _ => solve [auto with cells]
    end).

Section tree.
Context {NT : NodeType} {NO : NodeOrder} (t : ptr).

Lemma makes_none_replace d d' x y : makes_none (replace_child t d d' x y).
Proof. unfold replace_child. makes. Qed.
#[local] Hint Resolve makes_none_replace : cells.

Lemma makes_none_rotate_left x : makes_none (rotate_left t x).
Proof. unfold rotate_left. makes. Qed.
Lemma makes_none_rotate_right x : makes_none (rotate_right t x).
Proof. unfold rotate_right. makes. Qed.
#[local] Hint Resolve makes_none_rotate_left makes_none_rotate_right : cells.

Lemma makes_none_left_case x : makes_none (delete_left_case t x).
Proof. unfold delete_left_case. makes. Qed.
Lemma makes_none_right_case x : makes_none (delete_right_case t x).
Proof. unfold delete_right_case. makes. Qed.
#[local] Hint Resolve makes_none_left_case makes_none_right_case : cells.

Lemma makes_none_delete_fixup fuel x : makes_none (delete_fixup t fuel x).
Proof. unfold delete_fixup. makes. Qed.

Lemma makes_none_copy fs z y : makes_none (copy_fields fs z y).
Proof. induction fs; cbn [copy_fields]; makes. Qed.

Lemma makes_none_unlink fuel z : makes_none (node_to_unlink fuel z).
Proof. unfold node_to_unlink. makes. Qed.
#[local] Hint Resolve makes_none_delete_fixup makes_none_copy makes_none_unlink : cells.

Lemma makes_none_begin fuel z : makes_none (begin_delete t fuel z).
Proof. unfold begin_delete. makes. Qed.
Lemma makes_none_delete fuel z : makes_none (rbtree_delete t fuel z).
Proof. unfold rbtree_delete. makes. Qed.
End tree.

(** ** The fix-up of a sentinel whose parent is NULL *)
Section fixup.
Context {NT : NodeType} {NO : NodeOrder}.

Lemma fixup_null t f k fuel h : (0 < fuel)%nat ->
  (focus t E (f :: k) ∗ sentinel_rep NULL)%I h -> h !! (NULL, Left) = None ->
  delete_fixup t fuel RBNIL h = Stuck.
Proof.
  intros Hf HP Hnull.
  assert ((focus t E (f :: k) ∗ sentinel_rep NULL)%I ⊢
    ∃ r, ⌜RBNIL <> r⌝ ∧ (t, Root) ↦ r ∧ (RBNIL, Color) ↦ RBBLK ∧ (RBNIL, Parent) ↦ NULL) as [Hh].
  { unfold focus. iIntros "[[_ Hk] (S1 & _ & _ & S4)]".
    iDestruct (path_root_nil with "Hk") as (r) "(%Hr & R & _)". iExists r.
    iSplit; [done|]. iSplit; [iFrame|]. iSplit; iFrame. }
  destruct (Hh h HP) as (r & Hr & H1 & H2 & H3). cbv [hp_holds pointsto] in H1, H2, H3.
  destruct fuel as [|fuel]; [lia|]. unfold delete_fixup. cbn [loop].
  unfold mbind, cmd_bind, hload at 1. rewrite H1. replace (RBNIL =? r) with false by (by symmetry; apply Z.eqb_neq).
  unfold hload at 1. rewrite H2. cbn [negb Z.eqb]. change (RBBLK =? RBBLK) with true. cbn [negb].
  unfold hload at 1. rewrite H3. unfold hload at 1. by rewrite Hnull.
Qed.
End fixup.

(** Two trees and the one sentinel. *)
Definition two_trees `{NodeOrder} (ta : ptr) (a : tree) (tb : ptr) (b : tree) : heapProp :=
  (focus ta a [] ∗ focus tb b [] ∗ ∃ sp, sentinel_rep sp)%I.

Section two.
Context {NT : NodeType} {NO : NodeOrder} (ta tb : ptr) (k : path) (z zb : ptr) (v vb : list Z) (cb : Z).
Context (fuel : nat).
Let a : tree := plug (T RBBLK E z v E) k.
Let b : tree := T cb E zb vb E.
Hypothesis (Ha : rb_ok a) (Hfuel : (height a < fuel)%nat).

Lemma delete_first_ok sp (Q : unit -> heapProp) :
  focus ta a [] ⊢ sentinel_rep sp -∗ (∀ sp', sentinel_rep sp' -∗ Q tt) -∗
  hwp (rbtree_delete ta fuel z) Q.
Proof.
  iIntros "A S HQ". iApply (delete_ok with "[A S]"); [done|reflexivity|done| |].
  - unfold rbtree_rep. iFrame.
  - iIntros "[_ (%sp' & S)] _". iApply ("HQ" with "S").
Qed.

Lemma one_then_other h : two_trees ta a tb b h ->
  (exists h', (_ ← rbtree_delete ta fuel z; rbtree_delete tb fuel zb) h = Val (tt, h')) /\
  (exists h', (_ ← rbtree_delete tb fuel zb; rbtree_delete ta fuel z) h = Val (tt, h')).
Proof.
  intros Hh. split.
  - destruct (triple_run (two_trees ta a tb b) (_ ← rbtree_delete ta fuel z; rbtree_delete tb fuel zb)
      (fun _ => emp)%I h) as ([] & h' & H & _); [|done|by exists h'].
    apply triple_hwp. iIntros "(A & B & (%sp & S))". h_step. iApply (delete_first_ok with "A S").
    iIntros (sp') "S". iApply (delete_only_ok with "B S"); [lia|]. by iIntros.
  - destruct (triple_run (two_trees ta a tb b) (_ ← rbtree_delete tb fuel zb; rbtree_delete ta fuel z)
      (fun _ => emp)%I h) as ([] & h' & H & _); [|done|by exists h'].
    apply triple_hwp. iIntros "(A & B & (%sp & S))". h_step.
    iApply (delete_only_ok with "B S"); [lia|]. iIntros "_ S _".
    iApply (delete_first_ok with "A S"). by iIntros.
Qed.

(** What the other deletion leaves between the two halves of the first. *)
Lemma in_between h : two_trees ta a tb b h ->
  exists h', (r ← begin_delete ta fuel z; _ ← rbtree_delete tb fuel zb; mret r) h = Val ((RBNIL, RBBLK), h') /\
    (focus ta E k ∗ sentinel_rep NULL)%I h'.
Proof.
  intros Hh. destruct (triple_run (two_trees ta a tb b)
    (r ← begin_delete ta fuel z; _ ← rbtree_delete tb fuel zb; mret r)
    (fun r => ⌜r = (RBNIL, RBBLK)⌝ ∧ focus ta E k ∗ sentinel_rep NULL)%I h) as (r & h' & H & Hr & HP); [|done|].
  - apply triple_hwp. iIntros "(A & B & (%sp & S))". h_step. subst a. rewrite <- focus_plug.
    iApply (begin_leaf_ok with "A S"). iIntros "A S _". h_step.
    iApply (delete_only_ok with "B S"); [lia|]. iIntros "_ S _". h_step. iSplit; [done|]. iFrame.
  - exists h'. rewrite H. by rewrite (Hr : r = _).
Qed.

Lemma makes_none_between : makes_none (r ← begin_delete ta fuel z; _ ← rbtree_delete tb fuel zb; mret r).
Proof. makes; auto using makes_none_begin, makes_none_delete with cells. Qed.
End two.

Module SentinelThm.

(** C23: Two workers whose timers are in trees of their own share the sentinel of
    rbtree.c, and no lock guards it.  Whenever the first thread deletes a black leaf below
    the root and the second one deletes the only node of its tree, both deletions succeed
    one after the other, in either order; but when the second comes between the unlinking
    and the fix-up of the first, it has set the sentinel's parent to NULL, and the fix-up
    dereferences it. *)
Theorem sentinel_race {NT : NodeType} {NO : NodeOrder} ta tb k z v zb vb cb fuel h :
  k <> [] -> rb_ok (plug (T RBBLK E z v E) k) ->
  (iterations (length (entries (plug (T RBBLK E z v E) k))) <= fuel)%nat ->
  two_trees ta (plug (T RBBLK E z v E) k) tb (T cb E zb vb E) h -> h !! (NULL, Left) = None ->
  (forall h', rbtree_delete ta fuel z h' = (r ← begin_delete ta fuel z; end_delete ta fuel r) h') /\
  (exists h', (_ ← rbtree_delete ta fuel z; rbtree_delete tb fuel zb) h = Val (tt, h')) /\
  (exists h', (_ ← rbtree_delete tb fuel zb; rbtree_delete ta fuel z) h = Val (tt, h')) /\
  (r ← begin_delete ta fuel z; _ ← rbtree_delete tb fuel zb; end_delete ta fuel r) h = Stuck.
Proof.
  intros Hk Ha Hf Hh Hnull. pose proof (rb_ok_height _ Ha).
  assert (height (plug (T RBBLK E z v E) k) < fuel)%nat as Hfuel by lia.
  split; [apply delete_halves|].
  destruct (one_then_other ta tb k z zb v vb cb fuel Ha Hfuel h Hh) as [H1 H2]. split; [exact H1|]. split; [exact H2|].
  destruct (in_between ta tb k z zb v vb cb fuel Hfuel h Hh) as (h' & Hrun & HP).
  pose proof (makes_none_between ta tb z zb fuel h _ h' _ Hrun Hnull) as Hn.
  destruct k as [|f k]; [done|]. pose proof (fixup_null ta f k fuel h' ltac:(lia) HP Hn) as Hs.
  unfold mbind, cmd_bind, mret, cmd_ret in Hrun |- *.
  destruct (begin_delete ta fuel z h) as [[r h1]| | | |]; [|done..].
  destruct (rbtree_delete tb fuel zb h1) as [[[] h2]| | | |]; [|done..].
  injection Hrun as -> ->. exact Hs.
Qed.

(** *** Timers of two workers, all black: 100, 200 and 300 in the tree at 1, 50 in the
    tree at 2 *)
Import Timer Cells.
Definition ex_path : path :=
  [Fr L RBBLK 32 (RbtreeThm.ex_timer 32 200) (T RBBLK E 48 (RbtreeThm.ex_timer 48 300) E)].
Definition ex_first : tree := plug (T RBBLK E 16 (RbtreeThm.ex_timer 16 100) E) ex_path.
Definition ex_second : tree := T RBBLK E 64 (RbtreeThm.ex_timer 64 50) E.
Definition ex_cells : list (loc * Z) :=
  rbtree_cells 1 NULL ex_first ++ ((2, Root), 64) :: tree_cells ex_second NULL.

Lemma ex_two_hold : two_trees 1 ex_first 2 ex_second (list_to_map ex_cells).
Proof.
  apply holds_of_cells; [by_compute|]. unfold ex_cells. rewrite owns_app. unfold two_trees.
  rewrite owns_rbtree by by repeat constructor.
  iIntros "[[$ $] (R & T)]". unfold focus. cbn [path_rep top fst snd]. iFrame "R".
  iApply (owns_tree with "T"). by repeat constructor.
Qed.

Lemma sentinel_race_witness : two_trees 1 ex_first 2 ex_second (list_to_map ex_cells) /\
  (r ← begin_delete 1 5 16; _ ← rbtree_delete 2 5 64; end_delete 1 5 r) (list_to_map ex_cells) = Stuck.
Proof.
  split; [apply ex_two_hold|].
  refine (proj2 (proj2 (proj2 (sentinel_race 1 2 ex_path 16 (RbtreeThm.ex_timer 16 100) 64 (RbtreeThm.ex_timer 64 50)
    RBBLK 5 _ _ _ _ ex_two_hold _)))); [done| |vm_compute; lia|by vm_compute].
  split; [done|]. exists 2%nat. repeat constructor.
Defined.
End SentinelThm.
