(* ===== verification/World.v ===== *)
(** The state that the handlers of a running server work on, and the logic for
    them.

    A [world] is the memory of Heap.v (lists, timers, events) and the rest: the
    other members of connections and workers, the database, the globals of
    struct cask, what the system calls to come will answer ([os]) and the ones
    made so far ([trace]).  [sent_on] reads from these what
    has been sent on a descriptor.  A fragment on the memory or on the database
    runs in a world by [on_heap] and [on_db].  [wwp] extends the weakest
    precondition of Heap.v: the memory is owned in parts, the rest is known as a
    whole. *)
From S2P Require Import Prelude Buffer Http Request Heap Timer.
From S2P Require Db.
Import Request.

(** ** What the outside answers *)

(** EAGAIN and EWOULDBLOCK, which are the same number on Linux. *)
Definition EAGAIN : Z := 11.

(** recv: an error, or the bytes received (none at the end of the stream). *)
Inductive recv_result := RecvErr (errno : Z) | RecvData (bs : list Z).

(** The other end has been closed.  send without MSG_NOSIGNAL and write then also raise
    SIGPIPE, which the server does not handle: the process ends. *)
Definition EPIPE : Z := 32.

(** send: an error, or how many bytes were taken. *)
Inductive send_result := SendErr (errno : Z) | Sent (n : nat).

(** write on a blocking socket, of a few bytes: all of them are taken, an error, or no
    return, because the other end does not read. *)
Inductive write_result := Wrote | WriteErr (errno : Z) | WriteWaits.

(** The answers to come, one list per call; past its end a list answers with
    the value after the colon: recv and send: EAGAIN; epoll_ctl, fcntl,
    setsockopt, bind, listen, pthread_create: 0; accept, socket, epoll_create1:
    descriptor 3; realloc: a block of zeros; calloc: success; clock_gettime: 0; write: all
    is taken. *)
Record os := MkOs {
  recvs : list recv_result;
  sends : list send_result;
  ctls : list Z;
  allocs : list Buffer.alloc;
  callocs : list bool;
  clock : list Timer.timespec;
  accepts : list Z;
  fcntls : list Z;
  sockets : list Z;
  setups : list Z;
  epolls : list Z;
  threads : list Z;
  writes : list write_result;
}.

(** What main gives back at the end. *)
Inductive resource := AddrInfo | WorkerLock | SockPath | IndexMap | Database.

(** The calls that act on the outside, with the answer where it matters. *)
Inductive sys :=
  | EpollAdd (fd events : Z) (data : ptr) (ret : Z)
  | EpollDel (fd ret : Z)
  | SysSend (fd : Z) (bs : list Z)
  | SysClose (fd : Z)
  | ThreadStart (w : ptr)
  | Release (what : resource).

(** ** Structures *)
Inductive connection_state :=
  | CONNECTION_STATE_IN | CONNECTION_STATE_OUT
  | CONNECTION_STATE_CLOSED | CONNECTION_STATE_ERROR.

(** struct connection without its list node, event and timer, which are in the
    memory at the same address. *)
Record connection := MkConn {
  c_worker : ptr;
  c_fd : Z;
  c_state : connection_state;
  c_flags : Z;
  c_buffer : Buffer.buffer_t;
  c_write_bytes : Z;
  c_req : request;
}.

Definition set_c_state (s : connection_state) (c : connection) : connection :=
  MkConn (c_worker c) (c_fd c) s (c_flags c) (c_buffer c) (c_write_bytes c) (c_req c).
Definition set_c_buffer (b : Buffer.buffer_t) (c : connection) : connection :=
  MkConn (c_worker c) (c_fd c) (c_state c) (c_flags c) b (c_write_bytes c) (c_req c).
Definition set_c_write_bytes (n : Z) (c : connection) : connection :=
  MkConn (c_worker c) (c_fd c) (c_state c) (c_flags c) (c_buffer c) n (c_req c).
Definition set_c_req (r : request) (c : connection) : connection :=
  MkConn (c_worker c) (c_fd c) (c_state c) (c_flags c) (c_buffer c) (c_write_bytes c) r.
Definition set_c_flags (fl : Z) (c : connection) : connection :=
  MkConn (c_worker c) (c_fd c) (c_state c) fl (c_buffer c) (c_write_bytes c) (c_req c).

(** struct worker without its list node and its event, which are in the memory
    at the same address, and the head of its list of connections, [conns_head]. *)
Record worker := MkWorker {
  w_id : Z;
  w_sock : Z;
  w_running : bool;
  w_num_conns : Z;
  w_base : ptr;
}.

Definition set_num_conns (n : Z) (w : worker) : worker :=
  MkWorker (w_id w) (w_sock w) (w_running w) n (w_base w).
Definition set_running (b : bool) (w : worker) : worker :=
  MkWorker (w_id w) (w_sock w) b (w_num_conns w) (w_base w).

(** &worker->conns *)
Definition conns_head (w : ptr) : ptr := w + 8.

(** worker_lock: a mutex that is free, held, or has been destroyed. *)
Inductive mutex := MutexFree | MutexHeld | MutexDestroyed.

(** Everything but the memory. *)
Record rest := MkRest {
  conns : gmap ptr connection;
  workers : gmap ptr worker;
  num_workers : Z;
  current_id : Z;
  worker_lock : mutex;
  outside : os;
  trace : list sys;
  store : Db.Db.db;
}.

Definition set_conns (m : gmap ptr connection) (r : rest) : rest :=
  MkRest m (workers r) (num_workers r) (current_id r) (worker_lock r) (outside r) (trace r) (store r).
Definition set_workers (m : gmap ptr worker) (r : rest) : rest :=
  MkRest (conns r) m (num_workers r) (current_id r) (worker_lock r) (outside r) (trace r) (store r).
Definition set_num_workers (n : Z) (r : rest) : rest :=
  MkRest (conns r) (workers r) n (current_id r) (worker_lock r) (outside r) (trace r) (store r).
Definition set_current_id (n : Z) (r : rest) : rest :=
  MkRest (conns r) (workers r) (num_workers r) n (worker_lock r) (outside r) (trace r) (store r).
Definition set_worker_lock (b : mutex) (r : rest) : rest :=
  MkRest (conns r) (workers r) (num_workers r) (current_id r) b (outside r) (trace r) (store r).
Definition set_outside (o : os) (r : rest) : rest :=
  MkRest (conns r) (workers r) (num_workers r) (current_id r) (worker_lock r) o (trace r) (store r).
Definition set_store (d : Db.Db.db) (r : rest) : rest :=
  MkRest (conns r) (workers r) (num_workers r) (current_id r) (worker_lock r) (outside r) (trace r) d.
Definition made (s : sys) (r : rest) : rest :=
  MkRest (conns r) (workers r) (num_workers r) (current_id r) (worker_lock r) (outside r)
    (trace r ++ [s]) (store r).

Record world := World { memory : heap; others : rest }.

(** ** Fragments *)
Definition on_heap {A} (c : cmd heap A) : cmd world A := fun w =>
  match c (memory w) with
  | Val (a, h) => Val (a, World h (others w))
  | Stuck => Stuck
  | Timeout => Timeout
  | Blocked => Blocked
  | Killed => Killed
  end.

Definition on_rest {A} (c : cmd rest A) : cmd world A := fun w =>
  match c (others w) with
  | Val (a, r) => Val (a, World (memory w) r)
  | Stuck => Stuck
  | Timeout => Timeout
  | Blocked => Blocked
  | Killed => Killed
  end.

Definition on_db {A} (c : cmd Db.Db.db A) : cmd world A := on_rest (fun r =>
  match c (store r) with
  | Val (a, d) => Val (a, set_store d r)
  | Stuck => Stuck
  | Timeout => Timeout
  | Blocked => Blocked
  | Killed => Killed
  end).

(** The next answer of one of the lists. *)
Definition pop_recv (o : os) : recv_result * os :=
  match recvs o with
  | [] => (RecvErr EAGAIN, o)
  | x :: l => (x, MkOs l (sends o) (ctls o) (allocs o) (callocs o) (clock o) (accepts o)
                   (fcntls o) (sockets o) (setups o) (epolls o) (threads o) (writes o))
  end.
Definition pop_send (o : os) : send_result * os :=
  match sends o with
  | [] => (SendErr EAGAIN, o)
  | x :: l => (x, MkOs (recvs o) l (ctls o) (allocs o) (callocs o) (clock o) (accepts o)
                   (fcntls o) (sockets o) (setups o) (epolls o) (threads o) (writes o))
  end.
Definition pop_ctl (o : os) : Z * os :=
  match ctls o with
  | [] => (0, o)
  | x :: l => (x, MkOs (recvs o) (sends o) l (allocs o) (callocs o) (clock o) (accepts o)
                   (fcntls o) (sockets o) (setups o) (epolls o) (threads o) (writes o))
  end.
Definition pop_alloc (o : os) : Buffer.alloc * os :=
  match allocs o with
  | [] => (Some (fun _ => 0), o)
  | x :: l => (x, MkOs (recvs o) (sends o) (ctls o) l (callocs o) (clock o) (accepts o)
                   (fcntls o) (sockets o) (setups o) (epolls o) (threads o) (writes o))
  end.
Definition pop_calloc (o : os) : bool * os :=
  match callocs o with
  | [] => (true, o)
  | x :: l => (x, MkOs (recvs o) (sends o) (ctls o) (allocs o) l (clock o) (accepts o)
                   (fcntls o) (sockets o) (setups o) (epolls o) (threads o) (writes o))
  end.
Definition pop_clock (o : os) : Timer.timespec * os :=
  match clock o with
  | [] => (Timer.MkTimespec 0 0 0, o)
  | x :: l => (x, MkOs (recvs o) (sends o) (ctls o) (allocs o) (callocs o) l (accepts o)
                   (fcntls o) (sockets o) (setups o) (epolls o) (threads o) (writes o))
  end.
Definition pop_accept (o : os) : Z * os :=
  match accepts o with
  | [] => (3, o)
  | x :: l => (x, MkOs (recvs o) (sends o) (ctls o) (allocs o) (callocs o) (clock o) l
                   (fcntls o) (sockets o) (setups o) (epolls o) (threads o) (writes o))
  end.
Definition pop_fcntl (o : os) : Z * os :=
  match fcntls o with
  | [] => (0, o)
  | x :: l => (x, MkOs (recvs o) (sends o) (ctls o) (allocs o) (callocs o) (clock o) (accepts o)
                   l (sockets o) (setups o) (epolls o) (threads o) (writes o))
  end.
Definition pop_socket (o : os) : Z * os :=
  match sockets o with
  | [] => (3, o)
  | x :: l => (x, MkOs (recvs o) (sends o) (ctls o) (allocs o) (callocs o) (clock o) (accepts o)
                   (fcntls o) l (setups o) (epolls o) (threads o) (writes o))
  end.
Definition pop_setup (o : os) : Z * os :=
  match setups o with
  | [] => (0, o)
  | x :: l => (x, MkOs (recvs o) (sends o) (ctls o) (allocs o) (callocs o) (clock o) (accepts o)
                   (fcntls o) (sockets o) l (epolls o) (threads o) (writes o))
  end.
Definition pop_epoll (o : os) : Z * os :=
  match epolls o with
  | [] => (3, o)
  | x :: l => (x, MkOs (recvs o) (sends o) (ctls o) (allocs o) (callocs o) (clock o) (accepts o)
                   (fcntls o) (sockets o) (setups o) l (threads o) (writes o))
  end.
Definition pop_thread (o : os) : Z * os :=
  match threads o with
  | [] => (0, o)
  | x :: l => (x, MkOs (recvs o) (sends o) (ctls o) (allocs o) (callocs o) (clock o) (accepts o)
                   (fcntls o) (sockets o) (setups o) (epolls o) l (writes o))
  end.
Definition pop_write (o : os) : write_result * os :=
  match writes o with
  | [] => (Wrote, o)
  | x :: l => (x, MkOs (recvs o) (sends o) (ctls o) (allocs o) (callocs o) (clock o) (accepts o)
                   (fcntls o) (sockets o) (setups o) (epolls o) (threads o) l)
  end.

Definition ask {A} (pop : os -> A * os) : cmd world A := on_rest (fun r =>
  let (a, o) := pop (outside r) in Val (a, set_outside o r)).
Definition tell (s : sys) : cmd world unit := on_rest (modify (made s)).

(** close(fd) *)
Definition close (fd : Z) : cmd world unit := tell (SysClose fd).

(** A member of the connection or worker at an address; there must be one. *)
Definition conn (c : ptr) : cmd world connection := on_rest (fun r =>
  match conns r !! c with Some x => Val (x, r) | None => Stuck end).
Definition set_conn (c : ptr) (f : connection -> connection) : cmd world unit := on_rest (fun r =>
  match conns r !! c with Some x => Val (tt, set_conns (<[c := f x]> (conns r)) r) | None => Stuck end).
Definition worker_at (w : ptr) : cmd world worker := on_rest (fun r =>
  match workers r !! w with Some x => Val (x, r) | None => Stuck end).
Definition set_worker (w : ptr) (f : worker -> worker) : cmd world unit := on_rest (fun r =>
  match workers r !! w with Some x => Val (tt, set_workers (<[w := f x]> (workers r)) r) | None => Stuck end).

(** ** What has been sent on a descriptor *)
Definition sent_by (fd : Z) (s : sys) : option (list Z) :=
  match s with SysSend fd' bs => if fd' =? fd then Some bs else None | _ => None end.
Definition pieces_on (fd : Z) (tr : list sys) : list (list Z) := omap (sent_by fd) tr.
Definition sent_on (fd : Z) (tr : list sys) : list Z := concat (pieces_on fd tr).

Lemma sent_on_app fd tr1 tr2 : sent_on fd (tr1 ++ tr2) = sent_on fd tr1 ++ sent_on fd tr2.
Proof. unfold sent_on, pieces_on. by rewrite omap_app, concat_app. Qed.

Lemma pieces_on_app fd tr1 tr2 : pieces_on fd (tr1 ++ tr2) = pieces_on fd tr1 ++ pieces_on fd tr2.
Proof. apply omap_app. Qed.

Lemma pieces_on_pieces fd pieces : pieces_on fd (SysSend fd <$> pieces) = pieces.
Proof.
  unfold pieces_on. induction pieces as [|p pieces IH]; [done|]. cbn. rewrite Z.eqb_refl. by rewrite IH.
Qed.

Lemma sent_on_pieces fd pieces : sent_on fd (SysSend fd <$> pieces) = concat pieces.
Proof. unfold sent_on. by rewrite pieces_on_pieces. Qed.

Arguments sent_on : simpl never.

(** ** Running the primitives *)
Section running.
Implicit Types (h : heap) (r : rest).

Lemma bind_run {S A B} (c : cmd S A) (k : A -> cmd S B) s a s' :
  c s = Val (a, s') -> (c ≫= k) s = k a s'.
Proof. intros H. unfold mbind, cmd_bind. by rewrite H. Qed.

Lemma ask_run {A} (pop : os -> A * os) h r a o : pop (outside r) = (a, o) ->
  ask pop (World h r) = Val (a, World h (set_outside o r)).
Proof. intros H. unfold ask, on_rest. cbn [others memory]. by rewrite H. Qed.

Lemma conn_run c x h r : conns r !! c = Some x -> conn c (World h r) = Val (x, World h r).
Proof. intros H. unfold conn, on_rest. cbn [others memory]. by rewrite H. Qed.

Lemma set_conn_run c f x h r : conns r !! c = Some x ->
  set_conn c f (World h r) = Val (tt, World h (set_conns (<[c := f x]> (conns r)) r)).
Proof. intros H. unfold set_conn, on_rest. cbn [others memory]. by rewrite H. Qed.

Lemma tell_run s h r : tell s (World h r) = Val (tt, World h (made s r)).
Proof. done. Qed.

Lemma liftr_run {S A} (m : res A) (s : S) a : m = Val a -> liftr m s = Val (a, s).
Proof. by intros ->. Qed.

Lemma ret_run {S A} (a : A) (s : S) : (mret a : cmd S A) s = Val (a, s).
Proof. done. Qed.
End running.

(** Run the first command of a sequence whose result is known. *)
Ltac run_first :=
  first [eapply conn_run | eapply set_conn_run | eapply ask_run | eapply tell_run
        | eapply liftr_run | eapply ret_run].
Ltac run_step := etransitivity; [eapply bind_run; run_first; eauto|]; cbv beta.

(** ** The weakest precondition *)
Program Definition wwp {A} (c : cmd world A) (Q : A -> rest -> heapProp) (r : rest) : heapProp :=
  {| hp_holds h := forall hf, h ##ₘ hf ->
       exists a h' r', c (World (h ∪ hf) r) = Val (a, World (h' ∪ hf) r') /\ h' ##ₘ hf /\ Q a r' h' |}.
Next Obligation.
  intros A c Q r h1 h2 H Hsub hf Hd.
  assert (h1 ∪ (h2 ∖ h1) = h2) as E by by apply map_difference_union.
  assert (h1 ##ₘ h2 ∖ h1) as Hd' by by apply map_disjoint_difference_r1.
  rewrite <- E in Hd. apply map_disjoint_union_l in Hd as [Hd1 Hd2].
  destruct (H ((h2 ∖ h1) ∪ hf)) as (a & h' & r' & Hc & Hd3 & HQ).
  { by apply map_disjoint_union_r. }
  apply map_disjoint_union_r in Hd3 as [Hd3 Hd4].
  exists a, (h' ∪ (h2 ∖ h1)), r'. split_and!.
  - rewrite <- E at 1. by rewrite <- !(assoc_L (∪)).
  - by apply map_disjoint_union_l.
  - eapply hp_mono; [exact HQ|]. by apply map_union_subseteq_l.
Qed.

Section wwp_rules.
Implicit Types r : rest.

Lemma wwp_ret {A : Type} (a : A) (Q : A -> rest -> heapProp) r : Q a r ⊢ wwp (mret a) Q r.
Proof. split. intros h HQ hf Hd. by exists a, h, r. Qed.

(** A command whose result is known, whatever the memory. *)
Lemma wwp_goes_to {A : Type} (c : cmd world A) (a : A) r' (Q : A -> rest -> heapProp) r :
  (forall h, c (World h r) = Val (a, World h r')) -> Q a r' ⊢ wwp c Q r.
Proof. intros H. split. intros h HQ hf Hd. by exists a, h, r'. Qed.

Lemma wwp_bind {A B : Type} (c : cmd world A) (k : A -> cmd world B) (Q : B -> rest -> heapProp) r :
  wwp c (fun a r' => wwp (k a) Q r') r ⊢ wwp (c ≫= k) Q r.
Proof.
  split. intros h H hf Hd. destruct (H hf Hd) as (a & h' & r' & Hc & Hd' & Hk).
  destruct (Hk hf Hd') as (b & h'' & r'' & Hc' & ?). exists b, h'', r''.
  split; [|done]. unfold mbind, cmd_bind. by rewrite Hc.
Qed.

Lemma wwp_wand {A} (c : cmd world A) (Q R : A -> rest -> heapProp) r :
  wwp c Q r ⊢ (∀ a r', Q a r' -∗ R a r') -∗ wwp c R r.
Proof.
  split. intros h H h2 Hd HQR hf Hdf. apply map_disjoint_union_l in Hdf as [Hd1 Hd2].
  destruct (H (h2 ∪ hf)) as (a & h' & r' & Hc & Hd' & HQ); [by apply map_disjoint_union_r|].
  apply map_disjoint_union_r in Hd' as [Hd3 Hd4]. exists a, (h' ∪ h2), r'. split_and!.
  - by rewrite <- !(assoc_L (∪)).
  - by apply map_disjoint_union_l.
  - rewrite map_union_comm by done. apply (HQR a r'); [by symmetry|done].
Qed.

Lemma wwp_heap {A} (c : cmd heap A) (Q : A -> rest -> heapProp) r :
  hwp c (fun a => Q a r) ⊢ wwp (on_heap c) Q r.
Proof.
  split. intros h H hf Hd. destruct (H hf Hd) as (a & h' & Hc & Hd' & HQ).
  exists a, h', r. unfold on_heap. cbn. by rewrite Hc.
Qed.

Lemma wwp_rest {A} (c : cmd rest A) (Q : A -> rest -> heapProp) r a r' :
  c r = Val (a, r') -> Q a r' ⊢ wwp (on_rest c) Q r.
Proof.
  intros Hc. split. intros h H hf Hd. exists a, h, r'. unfold on_rest. cbn. by rewrite Hc.
Qed.

Lemma wwp_ask {A} (pop : os -> A * os) (Q : A -> rest -> heapProp) r :
  (let (a, o) := pop (outside r) in Q a (set_outside o r)) ⊢ wwp (ask pop) Q r.
Proof.
  unfold ask. destruct (pop (outside r)) as [a o] eqn:E. apply wwp_rest. by rewrite E.
Qed.

Lemma wwp_tell s (Q : unit -> rest -> heapProp) r : Q tt (made s r) ⊢ wwp (tell s) Q r.
Proof. by apply wwp_rest. Qed.

Lemma wwp_conn c x (Q : connection -> rest -> heapProp) r : conns r !! c = Some x ->
  Q x r ⊢ wwp (conn c) Q r.
Proof. intros Hx. apply wwp_rest. by rewrite Hx. Qed.

Lemma wwp_set_conn c x f (Q : unit -> rest -> heapProp) r : conns r !! c = Some x ->
  Q tt (set_conns (<[c := f x]> (conns r)) r) ⊢ wwp (set_conn c f) Q r.
Proof. intros Hx. apply wwp_rest. by rewrite Hx. Qed.

Lemma wwp_worker w x (Q : worker -> rest -> heapProp) r : workers r !! w = Some x ->
  Q x r ⊢ wwp (worker_at w) Q r.
Proof. intros Hx. apply wwp_rest. by rewrite Hx. Qed.

Lemma wwp_set_worker w x f (Q : unit -> rest -> heapProp) r : workers r !! w = Some x ->
  Q tt (set_workers (<[w := f x]> (workers r)) r) ⊢ wwp (set_worker w f) Q r.
Proof. intros Hx. apply wwp_rest. by rewrite Hx. Qed.

Lemma wwp_loop {A B : Type} n (body : A -> cmd world (A + B)) a (Q : B -> rest -> heapProp) r :
  wwp (body a) (fun x r' => match x with inl a' => wwp (loop n body a') Q r' | inr b => Q b r' end) r ⊢
  wwp (loop (S n) body a) Q r.
Proof.
  cbn [loop]. iIntros "H". iApply wwp_bind. iApply (wwp_wand with "H").
  iIntros ([a'|b] r') "H"; [done|]. by iApply wwp_ret.
Qed.
End wwp_rules.

(** What a fragment does, as a statement about running it. *)
Definition wtriple {A} (P : heapProp) (r : rest) (c : cmd world A) (Q : A -> rest -> heapProp) : Prop :=
  forall h hf, P h -> h ##ₘ hf ->
    exists a h' r', c (World (h ∪ hf) r) = Val (a, World (h' ∪ hf) r') /\ h' ##ₘ hf /\ Q a r' h'.

Lemma wtriple_wwp {A} P r (c : cmd world A) Q : (P ⊢ wwp c Q r) -> wtriple P r c Q.
Proof. intros [H] h hf HP Hd. by apply (H h HP hf). Qed.

Lemma wtriple_run {A} P r (c : cmd world A) Q h : wtriple P r c Q -> P h ->
  exists a h' r', c (World h r) = Val (a, World h' r') /\ Q a r' h'.
Proof.
  intros H HP. destruct (H h ∅ HP) as (a & h' & r' & Hc & _ & HQ); [apply map_disjoint_empty_r|].
  exists a, h', r'. by rewrite !(right_id_L ∅ (∪)) in Hc.
Qed.

(** A loop whose body always goes on and keeps [P] never ends. *)
Lemma wloop_forever {A B : Type} (body : A -> cmd world (A + B)) (P : A -> rest -> heapProp) n :
  (forall a r, P a r ⊢
     wwp (body a) (fun x r' => match x with inl a' => P a' r' | inr _ => False end) r) ->
  forall a r h, P a r h -> loop n body a (World h r) = Timeout.
Proof.
  intros Hb. induction n as [|n IH]; intros a r h HP; cbn [loop]; [done|].
  destruct (wtriple_run _ _ _ _ _ (wtriple_wwp _ _ _ _ (Hb a r)) HP) as (x & h' & r' & Hr & HQ).
  unfold mbind, cmd_bind. rewrite Hr. destruct x as [a'|b]; [by apply IH|].
  by destruct HQ.
Qed.

(** Symbolic execution. *)
Ltac w_step :=
  lazymatch goal with
  | |- envs_entails _ (wwp (mbind _ _) _ _) => iApply wwp_bind
  | |- envs_entails _ (wwp (mret _) _ _) => iApply wwp_ret
  | |- envs_entails _ (wwp (on_heap _) _ _) => iApply wwp_heap
  | |- envs_entails _ (wwp (ask _) _ _) => iApply wwp_ask
  | |- envs_entails _ (wwp (tell _) _ _) => iApply wwp_tell
  | |- envs_entails _ (wwp (close _) _ _) => iApply wwp_tell
  | |- envs_entails _ (wwp (conn _) _ _) => iApply wwp_conn; [eassumption|]
  | |- envs_entails _ (wwp (worker_at _) _ _) => iApply wwp_worker; [eassumption|]
  | |- envs_entails _ (wwp (set_conn _ _) _ _) => iApply wwp_set_conn; [eassumption|]
  | |- envs_entails _ (wwp (set_worker _ _) _ _) => iApply wwp_set_worker; [eassumption|]
  end.
