(* ===== verification/Event.v ===== *)
(** The event loop of event.c: descriptors registered with epoll, timers, and
    one iteration that runs the expired timers and then the ready descriptors.

    Module [Event] has the operations.  A struct event_base at [base] has its
    epollfd at [(base, Fd)] and its tree of timers at [base]; a struct event has
    its members at its address.  What epoll_wait answers and the functions that
    callbacks call are arguments. *)
From S2P Require Import Prelude Heap Rbtree Timer World.

Module Event.
Import Rbtree Timer.

Definition EVENT_FLAG_ACTIVE : Z := Z.shiftl 1 0.
Definition MAX_IO_EVENTS : Z := 64.

Definition EPOLLIN : Z := 1.
Definition EPOLLOUT : Z := 4.
Definition EPOLLET : Z := 2 ^ 31.

Definition event_active (flags : Z) : bool := negb (Z.land flags EVENT_FLAG_ACTIVE =? 0).

(** *e = make_event(fd, events, cb, data) *)
Definition make_event (e : ptr) (fd events : Z) (cb data : ptr) : cmd heap unit :=
  _ ← hstore (e, Fd) fd;
  _ ← hstore (e, Events) events;
  _ ← hstore (e, EventFlags) 0;
  _ ← hstore (e, EventCb) cb;
  hstore (e, EventData) data.

Definition add_event (base e : ptr) : cmd world Z :=
  events ← on_heap (hload (e, Events));
  _ ← on_heap (hload (base, Fd));
  fd ← on_heap (hload (e, Fd));
  ret ← ask pop_ctl;
  _ ← tell (EpollAdd fd events e ret);
  if negb (ret =? 0) then mret ERR
  else
    fl ← on_heap (hload (e, EventFlags));
    _ ← on_heap (hstore (e, EventFlags) (Z.lor fl EVENT_FLAG_ACTIVE));
    mret OK.

Definition del_event (base e : ptr) : cmd world Z :=
  _ ← on_heap (hload (base, Fd));
  fd ← on_heap (hload (e, Fd));
  ret ← ask pop_ctl;
  _ ← tell (EpollDel fd ret);
  if negb (ret =? 0) then mret ERR
  else
    fl ← on_heap (hload (e, EventFlags));
    _ ← on_heap (hstore (e, EventFlags) (Z.land fl (Z.lnot EVENT_FLAG_ACTIVE)));
    mret OK.

Definition now : cmd world Z := ts ← ask pop_clock; mret (get_time ts).

(** add_timer and del_timer of Timer.v; the clock is read when a trigger is set. *)
Definition add_timer (fuel : nat) (base t : ptr) : cmd world Z :=
  fl ← on_heap (hload (t, TimerFlags));
  if is_active fl then mret ERR
  else
    time ← now;
    on_heap (Timer.add_timer base time fuel t).

Definition del_timer (fuel : nat) (base t : ptr) : cmd world Z :=
  on_heap (Timer.del_timer base fuel t).

(** One iteration of the loop of run_timers. *)
Definition run_timer (call : ptr -> ptr -> cmd world unit) (fuel : nat) (base : ptr) (time : Z)
    : cmd world (unit + unit) :=
  r ← on_heap (hload (base, Root));
  t ← on_heap (rbtree_leftmost fuel r);
  if t =? NULL then mret (inr tt)
  else
    trigger ← on_heap (hload (t, Trigger));
    if trigger <=? time then
      fl ← on_heap (hload (t, TimerFlags));
      _ ← (if is_active fl then
             _ ← (if is_oneshot fl then _ ← del_timer fuel base t; mret tt
                  else time ← now; on_heap (update_trigger time t));
             cb ← on_heap (hload (t, TimerCb));
             data ← on_heap (hload (t, TimerData));
             call cb data
           else _ ← del_timer fuel base t; mret tt);
      mret (inl tt)
    else mret (inr tt).

(** [call cb data] runs a timer's callback. *)
Definition run_timers (call : ptr -> ptr -> cmd world unit) (fuel : nat) (base : ptr)
    : cmd world unit :=
  time ← now;
  loop fuel (fun _ => run_timer call fuel base time) tt.

(** The loop of run_io over the [n] events that epoll_wait has stored, each a
    set of flags and the pointer registered with the descriptor. *)
Fixpoint run_events (call : ptr -> Z -> Z -> ptr -> cmd world unit) (n : nat)
    (evs : list (Z * ptr)) : cmd world unit :=
  match n with
  | O => mret tt
  | S n =>
      match evs with
      | [] => stuck
      | (flags, e) :: evs =>
          cb ← on_heap (hload (e, EventCb));
          fd ← on_heap (hload (e, Fd));
          data ← on_heap (hload (e, EventData));
          _ ← call cb fd flags data;
          run_events call n evs
      end
  end.

(** [n] is the result of epoll_wait. *)
Definition run_io (call : ptr -> Z -> Z -> ptr -> cmd world unit) (base : ptr) (n : Z)
    (evs : list (Z * ptr)) : cmd world Z :=
  _ ← on_heap (hload (base, Fd));
  if negb (n =? 0) then _ ← run_events call (Z.to_nat n) evs; mret OK
  else if n <? 0 then mret ERR
  else mret OK.

Definition event_base_iter (call_timer : ptr -> ptr -> cmd world unit)
    (call_event : ptr -> Z -> Z -> ptr -> cmd world unit) (fuel : nat) (base : ptr) (n : Z)
    (evs : list (Z * ptr)) : cmd world Z :=
  _ ← run_timers call_timer fuel base;
  run_io call_event base n evs.

(** struct event_base *)
Definition base_members (base : ptr) : list loc := [(base, Fd); (base, Root)].

Definition create_event_base : cmd world ptr :=
  ok ← ask pop_calloc;
  if (ok : bool) then
    base ← on_heap (halloc base_members);
    _ ← on_heap (rbtree_init base);
    epollfd ← ask pop_epoll;
    _ ← if: 0 <=? epollfd then on_heap (hstore (base, Fd) epollfd);
    mret base
  else mret NULL.

Definition destroy_event_base (base : ptr) : cmd world unit :=
  epollfd ← on_heap (hload (base, Fd));
  _ ← if: 0 <=? epollfd then close epollfd;
  on_heap (hfree (base_members base)).

End Event.
