(* ===== verification/EventSpec.v ===== *)
(** Lemmas on the event loop: what run_timers does with the timers that are due, and
    creating and destroying an event base.  Module [EventThm] has the theorems on
    their failures. *)
From stdpp Require Import sorting.
From S2P Require Import Prelude Heap Rbtree RbtreeSpec RbtreeInv RbtreeDel RbtreeSearch.
From S2P Require Import Timer TimerSpec World Event.
Import Rbtree Rep Timer.

(** Memory operations inside a handler. *)
Ltac wh_step := first [w_step | h_step].

Definition oneshot_timer (e : ptr * list Z) : Prop :=
  exists m, snd e = members m /\ is_active (flags m) = true /\ is_oneshot (flags m) = true.

Lemma wwp_now (Q : Z -> rest -> heapProp) r :
  (let (ts, o) := pop_clock (outside r) in Q (get_time ts) (set_outside o r)) ⊢ wwp Event.now Q r.
Proof.
  iIntros "H". unfold Event.now. w_step. w_step. destruct (pop_clock (outside r)) as [ts o]. by w_step.
Qed.

Section run.
Variable base : ptr.
Variable call : ptr -> ptr -> cmd world unit.
Variable time : Z.

(** The entries of the tree at the start, and what the callbacks of the timers in
    [done], called in this order, have made of the rest of the world and of the
    timers, which are theirs. *)
Variable all : list (ptr * list Z).
Variable I : list (ptr * list Z) -> rest -> heapProp.
Hypothesis call_ok : forall done x m later r (R : unit -> rest -> heapProp),
  all = done ++ (x, members m) :: later ->
  loose_timer x (with_flags (deactivated (flags m)) m) ∗ I done r ⊢
  (∀ r', I (done ++ [(x, members m)]) r' -∗ R tt r') -∗ wwp (call (cb m) (data m)) R r.

(** The first timer of the tree, as the loop sees it. *)
Lemma run_first fuel t y m es r (Q : unit + unit -> rest -> heapProp) :
  (height t < fuel)%nat -> entries t = (y, members m) :: es -> rb_ok t ->
  rbtree_rep base t ⊢
  (rbtree_rep base t -∗
   wwp (if trigger m <=? time then
          _ ← (if is_active (flags m) then
             _ ← (if is_oneshot (flags m) then _ ← Event.del_timer fuel base y; mret tt
                  else time ← Event.now; on_heap (update_trigger time y));
             cb ← on_heap (hload (y, TimerCb));
             data ← on_heap (hload (y, TimerData));
             call cb data
           else _ ← Event.del_timer fuel base y; mret tt);
          mret (inl tt)
        else mret (inr tt)) Q r) -∗
  wwp (Event.run_timer call fuel base time) Q r.
Proof.
  intros Hf He Hrb. iIntros "H HQ". unfold Event.run_timer. w_step. w_step.
  iEval (unfold rbtree_rep, focus; cbn [path_rep top]) in "H".
  iDestruct "H" as "[[Ht Hr] S]". h_step. w_step. w_step.
  iApply (walk_ok L with "Ht"); [done|]. iIntros "Ht". rewrite He. cbn [outermost head node_or_null from_option fst].
  iAssert (rbtree_rep base t) with "[-HQ]" as "H".
  { unfold rbtree_rep, focus. cbn [path_rep top]. iFrame. }
  destruct (first_position t y (members m) es Hrb He) as (cy & ry & k & t1 & -> & _).
  iDestruct (focus_payload with "H") as "((%Hy & %Hy') & Zv & H)".
  replace (y =? NULL) with false by zlia. rewrite timer_payload.
  iDestruct "Zv" as "(Z1 & Z2 & Z3 & Z4 & Z5)". w_step. w_step. h_step.
  destruct (Z.leb_spec (trigger m) time).
  - w_step. w_step. h_step. iApply "HQ". iApply "H". rewrite timer_payload. iFrame.
  - iApply "HQ". iApply "H". rewrite timer_payload. iFrame.
Qed.

Lemma run_loop_ok es : forall t done r fuel fuel' (Q : unit -> rest -> heapProp),
  rb_ok t -> entries t = es -> all = done ++ es -> Forall oneshot_timer es ->
  (length es < fuel)%nat -> (length es < fuel')%nat ->
  rbtree_rep base t ⊢ I done r -∗
  (∀ t' es1 es2 r', ⌜es = es1 ++ es2 /\ rb_ok t' /\ entries t' = es2 /\
      Forall (fun e => node_key (snd e) <= time) es1 /\
      (match es2 with [] => True | e :: _ => time < node_key (snd e) end) /\ swept es1 t t'⌝ -∗
     rbtree_rep base t' -∗ I (done ++ es1) r' -∗ Q tt r') -∗
  wwp (loop fuel (fun _ => Event.run_timer call fuel' base time) tt) Q r.
Proof.
  induction es as [|[y v] es IH]; intros t done r [|fuel] fuel' Q Hrb He Hall Hone Hf Hf';
    try (cbn in Hf; lia); iIntros "H I HQ"; iApply wwp_loop.
  - apply entries_nil in He. subst t. unfold Event.run_timer. w_step. w_step.
    iEval (unfold rbtree_rep, focus; cbn [path_rep top]) in "H".
    iDestruct "H" as "[[Ht Hr] S]". h_step. w_step. w_step.
    iApply (walk_ok L with "Ht"); [cbn; lia|]. iIntros "Ht".
    change (node_or_null _ =? NULL) with true. cbn iota. w_step.
    iApply ("HQ" $! E [] [] with "[%] [-I]"); [split_and!; done || constructor|by unfold rbtree_rep, focus; iFrame|].
    by rewrite app_nil_r.
  - apply Forall_cons in Hone as [(m & Hv & Ha & Ho) Hone]. cbn in Hv. subst v.
    pose proof (height_entries t) as Hh. rewrite He in Hh. cbn [length] in *.
    iApply (run_first with "H"); [lia|done..|]. iIntros "H".
    destruct (Z.leb_spec (trigger m) time).
    + rewrite Ha, Ho.
      destruct (first_position t y (members m) es Hrb He) as (cy & ry & k & t1 & -> & Hd & Hrb1 & He1).
      w_step. w_step. w_step. unfold Event.del_timer. w_step.
      iApply (del_timer_ok _ cy E y m ry k t1 with "H"); [done..|lia|].
      iIntros "H T". w_step. unfold loose_timer, free_node at 1. rewrite timer_payload.
      iDestruct "T" as "(Hy & X0 & X1 & X2 & X3 & X4 & X5)". cbn [cb data with_flags].
      w_step. w_step. h_step. w_step. w_step. h_step.
      iApply (call_ok done y m es with "[-H HQ]"); [done| |].
      { iFrame "I". unfold loose_timer, free_node. rewrite timer_payload. iFrame. }
      iIntros (r') "I". w_step.
      iApply (IH t1 with "H I"); [done|done|by rewrite Hall, <- (assoc_L (++))|done|lia|lia|].
      iIntros (t' es1 es2 r2) "(-> & % & % & % & % & %) H I".
      iApply ("HQ" $! t' ((y, members m) :: es1) es2 with "[%] H [I]").
      * split_and!; [done|done|done|by constructor|done|].
        econstructor; [|done]. by exists cy, E, ry, k; split_and!; [|left|].
      * by rewrite <- (assoc_L (++)).
    + w_step. iApply ("HQ" $! t [] ((y, members m) :: es) with "[%] H [I]").
      * split_and!; done || constructor.
      * by rewrite app_nil_r.
Qed.

(** A timer in the tree that is not marked active is never removed: once it is
    the first one and has expired, the loop goes round for ever. *)
Lemma run_timer_stays fuel t y m es r :
  rb_ok t -> entries t = (y, members m) :: es -> (height t < fuel)%nat ->
  is_active (flags m) = false -> trigger m <= time ->
  rbtree_rep base t ⊢ wwp (Event.run_timer call fuel base time)
    (fun x _ => match x with inl _ => rbtree_rep base t | inr _ => False end) r.
Proof.
  intros Hrb He Hf Ha Hle. iIntros "H". iApply (run_first with "H"); [done..|]. iIntros "H".
  replace (trigger m <=? time) with true by zlia. rewrite Ha. w_step. w_step.
  destruct (first_position t y (members m) es Hrb He) as (cy & ry & k & t1 & -> & _).
  iDestruct (focus_payload with "H") as "(_ & Zv & H)". unfold Event.del_timer. w_step.
  iApply (del_inactive_ok with "Zv"); [done|]. iIntros "Zv". w_step. w_step. by iApply "H".
Qed.
End run.

(** The entries of the timers whose trigger has been reached. *)
Definition expired (now : Z) (e : ptr * list Z) : Prop := node_key (snd e) <= now.

(** All of run_timers. *)
Lemma run_timers_ok base call (I : list (ptr * list Z) -> rest -> heapProp) t fuel r ts o
    (Q : unit -> rest -> heapProp) :
  (forall done x m later r (R : unit -> rest -> heapProp),
     entries t = done ++ (x, members m) :: later ->
     loose_timer x (with_flags (deactivated (flags m)) m) ∗ I done r ⊢
     (∀ r', I (done ++ [(x, members m)]) r' -∗ R tt r') -∗ wwp (call (cb m) (data m)) R r) ->
  pop_clock (outside r) = (ts, o) ->
  rb_ok t -> ordered t -> Forall oneshot_timer (entries t) ->
  (length (entries t) < fuel)%nat ->
  rbtree_rep base t ⊢ I [] (set_outside o r) -∗
  (∀ t' es1 es2 r', ⌜rb_ok t' /\ ordered t' /\ entries t = es1 ++ es2 /\ entries t' = es2 /\
      Forall (expired (get_time ts)) es1 /\ Forall (fun e => ~ expired (get_time ts) e) es2 /\ swept es1 t t'⌝ -∗
     rbtree_rep base t' -∗ I es1 r' -∗ Q tt r') -∗
  wwp (Event.run_timers call fuel base) Q r.
Proof.
  intros Hcall Hts Hrb Ho Hone Hf. iIntros "H I HQ". unfold Event.run_timers.
  w_step. iApply wwp_now. rewrite Hts.
  iApply (run_loop_ok base call (get_time ts) (entries t) I Hcall (entries t) t [] with "H I"); [done..|].
  iIntros (t' es1 es2 r') "(%He & %Hrb' & %He' & %H1 & %H2 & %Hsw) H I". cbn [app].
  iApply ("HQ" with "[%] H I"). unfold ordered in *. rewrite He in Ho.
  apply StronglySorted_app in Ho as (_ & _ & Ho). rewrite He'. split_and!; try done.
  destruct es2 as [|e es2]; [done|]. apply StronglySorted_cons in Ho as [Hle _].
  unfold expired. constructor; [lia|]. eapply Forall_impl; [exact Hle|].
  unfold le_key. intros e' ?. lia.
Qed.

(** ** The base *)
Lemma base_block : block Event.base_members.
Proof.
  intros p. unfold Event.base_members. split.
  - repeat constructor; set_solver.
  - repeat constructor; cbn; lia.
Qed.

(** A base whose epollfd is [fd] and that has no timers, but for the sentinel,
    which all trees share. *)
Definition base_rep (base : ptr) (fd : Z) : heapProp :=
  ((base, Fd) ↦ fd ∗ (base, Root) ↦ RBNIL)%I.

(** The descriptor that create_event_base leaves in the base. *)
Definition epollfd_of (fd : Z) : Z := if 0 <=? fd then fd else 0.

Lemma create_event_base_ok r fd o o' (Q : ptr -> rest -> heapProp) :
  pop_calloc (outside r) = (true, o) -> pop_epoll o = (fd, o') ->
  (∀ base, ⌜0 < base⌝ -∗ base_rep base (epollfd_of fd) -∗ Q base (set_outside o' r)) ⊢
  wwp Event.create_event_base Q r.
Proof.
  intros Hc He. iIntros "HQ". unfold Event.create_event_base. w_step. w_step. rewrite Hc.
  w_step. w_step. iApply hwp_alloc; [apply base_block|]. iIntros (base Hb) "(B1 & B2 & _)".
  w_step. w_step. unfold rbtree_init. iApply (hwp_store with "B2"). iIntros "B2".
  w_step. w_step. cbn [outside set_outside]. rewrite He. w_step. unfold epollfd_of.
  destruct (0 <=? fd); cbn [when].
  - w_step. iApply (hwp_store with "B1"). iIntros "B1". w_step.
    iApply ("HQ" with "[//]"). unfold base_rep. iFrame.
  - w_step. w_step. iApply ("HQ" with "[//]"). unfold base_rep. iFrame.
Qed.

Lemma destroy_event_base_ok base fd r (Q : unit -> rest -> heapProp) :
  base_rep base fd ⊢ Q tt (if 0 <=? fd then made (SysClose fd) r else r) -∗
  wwp (Event.destroy_event_base base) Q r.
Proof.
  iIntros "[B1 B2] HQ". unfold Event.destroy_event_base. w_step. w_step.
  iApply (hwp_load with "B1"). iIntros "B1". w_step. destruct (0 <=? fd); cbn [when].
  - w_step. w_step. iApply (hwp_free with "[B1 B2]"); [cbn; iFrame|done].
  - w_step. w_step. iApply (hwp_free with "[B1 B2]"); [cbn; iFrame|done].
Qed.

Module EventThm.

(** run_io never reports an error: whatever epoll_wait answers, negative
    results included, and whatever the callbacks do, a call that returns returns
    OK, so that event_base_iter never makes a worker stop. *)
Theorem run_io_never_fails call_timer call base fuel n evs w ret w' :
  (Event.run_io call base n evs w = Val (ret, w') -> ret = OK) /\
  (Event.event_base_iter call_timer call fuel base n evs w = Val (ret, w') -> ret = OK).
Proof.
  assert (forall w ret w', Event.run_io call base n evs w = Val (ret, w') -> ret = OK) as H.
  { clear. intros w ret w'. unfold Event.run_io, mbind, cmd_bind.
    destruct (on_heap _ w) as [[? w1]| | | |]; [|done..].
    destruct (Z.eqb_spec n 0) as [->|Hn]; cbn [negb].
    - change (0 <? 0) with false. cbn iota. by intros [= <- _].
    - destruct (Event.run_events _ _ _ w1) as [[? w2]| | | |]; [|done..]. by intros [= <- _]. }
  split; [apply H|]. unfold Event.event_base_iter, mbind, cmd_bind.
  destruct (Event.run_timers _ _ _ w) as [[? w1]| | | |]; [|done..]. apply H.
Qed.

(** create_event_base succeeds even when epoll_create1 fails; the base then
    holds descriptor 0, and destroying it closes descriptor 0, which is not its
    own.  With a descriptor from epoll_create1 that descriptor is closed, once,
    and the base's memory is given back. *)
Theorem event_base_lifecycle r fd o o' :
  pop_calloc (outside r) = (true, o) -> pop_epoll o = (fd, o') ->
  wtriple emp%I r (base ← Event.create_event_base; Event.destroy_event_base base)
    (fun _ r' => ⌜r' = made (SysClose (if 0 <=? fd then fd else 0)) (set_outside o' r)⌝)%I.
Proof.
  intros Hc He. apply wtriple_wwp. iIntros "_". w_step.
  iApply (create_event_base_ok r fd o o'); [done..|]. iIntros (base Hb) "H".
  iApply (destroy_event_base_ok with "H"). iPureIntro. f_equal.
  unfold epollfd_of. destruct (Z.leb_spec 0 fd); [|done].
  by replace (0 <=? fd) with true by zlia.
Qed.

Definition ex_outside : os := MkOs [] [] [] [] [] [] [] [] [] [] [-1] [] [].
Definition ex_start : rest := MkRest ∅ ∅ 0 0 MutexFree ex_outside [] (Db.Db.MkDb [] 0 Db.Db.Unlocked []).

Lemma run_io_never_fails_witness : exists ret w',
  Event.run_io (fun _ _ _ _ => mret tt) 1 (-1) [] (World {[(1, Fd) := 5]} ex_start) =
    Val (ret, w') /\ ret = OK.
Proof.
  exists OK, (World {[(1, Fd) := 5]} ex_start).
  assert (Event.run_io (fun _ _ _ _ => mret tt) 1 (-1) [] (World {[(1, Fd) := 5]} ex_start) =
    Val (OK, World {[(1, Fd) := 5]} ex_start)) as H by by vm_compute.
  split; [exact H|].
  exact (proj1 (run_io_never_fails (fun _ _ => mret tt) (fun _ _ _ _ => mret tt) 1 0 (-1) []
    _ _ _) H).
Defined.

Lemma event_base_lifecycle_witness : exists h' r',
  (base ← Event.create_event_base; Event.destroy_event_base base) (World ∅ ex_start) =
    Val (tt, World h' r') /\ trace r' = [SysClose 0].
Proof.
  destruct (wtriple_run _ _ _ _ ∅ (event_base_lifecycle ex_start (-1) _ _ eq_refl eq_refl))
    as ([] & h' & r' & H & Hr); [done|].
  exists h', r'. split; [done|]. by rewrite Hr.
Defined.
End EventThm.
