(* ===== verification/TimerThm.v ===== *)
(** The theorems on the timers, as statements about running event.c. *)
From stdpp Require Import sorting.
From S2P Require Import Prelude Heap Rbtree RbtreeSpec RbtreeInv RbtreeDel RbtreeSearch.
From S2P Require Import Timer TimerSpec RbtreeThm World Event EventSpec.
Import Rbtree Rep Timer.

Module TimerThm.

(** add_timer on a timer that is not active enters it in the tree, marked
    active and with its trigger set to its interval from now, behind the timers
    that trigger earlier; the tree stays a valid search tree. *)
Theorem add_timer_correct tr now fuel x m t :
  is_active (flags m) = false -> rb_ok t -> ordered t ->
  (iterations (length (entries t)) <= fuel)%nat ->
  triple (rbtree_rep tr t ∗ loose_timer x m)%I (add_timer tr now fuel x)
    (fun r => ⌜r = OK⌝ ∗ ∃ t' l1 l2, rbtree_rep tr t' ∗
       ⌜rb_ok t' /\ ordered t' /\ entries t = l1 ++ l2 /\
        entries t' = l1 ++ (x, members (armed now m)) :: l2 /\
        Forall (fun e => node_key (snd e) < trigger_at now (interval m)) l1 /\
        Forall (fun e => trigger_at now (interval m) <= node_key (snd e)) l2⌝)%I.
Proof.
  intros Ha Hrb Ho Hf. pose proof (rb_ok_height t Hrb). apply triple_hwp. iIntros "[H X]".
  iApply (add_timer_ok with "H X"); [done|done|lia|]. iIntros "H". iSplit; [done|].
  destruct (entries_insert x (members (armed now m)) t Ho) as (l1 & l2 & H1 & H2 & H3 & H4).
  iExists _, l1, l2. iFrame. iPureIntro.
  split_and!; [by apply rb_ok_insert|by apply ordered_insert|done..].
Qed.

(** del_timer on an active timer whose node has at most one child takes
    exactly this timer out of the tree and clears its active flag. *)
Theorem del_timer_correct tr c l z m r k fuel :
  l = E \/ r = E -> let t := plug (T c l z (members m) r) k in
  is_active (flags m) = true -> rb_ok t -> (iterations (length (entries t)) <= fuel)%nat ->
  triple (rbtree_rep tr t) (del_timer tr fuel z)
    (fun r => ⌜r = OK⌝ ∗ loose_timer z (with_flags (deactivated (flags m)) m) ∗
       ∃ t' es1 es2, rbtree_rep tr t' ∗
         ⌜rb_ok t' /\ entries t = es1 ++ (z, members m) :: es2 /\ entries t' = es1 ++ es2⌝)%I.
Proof.
  intros Hlr t Ha Hrb Hf. pose proof (rb_ok_height t Hrb). subst t. apply triple_hwp. iIntros "H".
  destruct (delete_at c l z (members m) r k) as [[t1 y] vy] eqn:Hd.
  destruct (delete_at_one _ _ _ _ _ _ _ _ _ Hlr Hrb Hd) as (-> & -> & H1 & H2).
  iApply (del_timer_ok with "H"); [done..|lia|]. iIntros "H Z". iFrame. iSplit; [done|].
  iPureIntro. eexists _, _. split_and!; [done|apply entries_at|done].
Qed.

(** del_timer on an active timer whose node has two children answers OK,
    but the timer's node stays in the tree, marked inactive and with the next
    timer's trigger, callback and data; it is the next timer, still marked
    active, that has left the tree and will never run. *)
Theorem del_timer_wrong_node tr c l z m r k fuel :
  l <> E -> r <> E -> let t := plug (T c l z (members m) r) k in
  is_active (flags m) = true -> rb_ok t -> (iterations (length (entries t)) <= fuel)%nat ->
  triple (rbtree_rep tr t) (del_timer tr fuel z)
    (fun r => ⌜r = OK⌝ ∗ ∃ t' y my es1 es3, rbtree_rep tr t' ∗ loose_timer y my ∗
       ⌜rb_ok t' /\ entries t = es1 ++ (z, members m) :: (y, members my) :: es3 /\
        entries t' = es1 ++ (z, members (with_flags (deactivated (flags my)) my)) :: es3⌝)%I.
Proof.
  intros Hl Hr t Ha Hrb Hf. pose proof (rb_ok_height t Hrb). subst t. apply triple_hwp. iIntros "H".
  iApply (del_timer_two_ok with "H"); [done..|lia|].
  iIntros (t' y my es1 es3) "(%He & %Hrb' & %He') H Y". iSplit; [done|].
  iExists t', y, my, es1, es3. by iFrame.
Qed.

(** run_timers on a valid tree of active one-shot timers, with callbacks
    that keep to their own part of the world and to the timer they are called
    for, terminates: it takes exactly the timers whose trigger has been reached
    out of the tree, in the order of their triggers, and calls each one's callback
    with its data after marking it inactive. *)
Theorem run_timers_correct base call (I : list (ptr * list Z) -> rest -> heapProp) t fuel r ts o :
  (forall done x m later r (R : unit -> rest -> heapProp),
     entries t = done ++ (x, members m) :: later ->
     loose_timer x (with_flags (deactivated (flags m)) m) ∗ I done r ⊢
     (∀ r', I (done ++ [(x, members m)]) r' -∗ R tt r') -∗ wwp (call (cb m) (data m)) R r) ->
  pop_clock (outside r) = (ts, o) ->
  rb_ok t -> ordered t -> Forall oneshot_timer (entries t) ->
  (length (entries t) < fuel)%nat ->
  wtriple (rbtree_rep base t ∗ I [] (set_outside o r))%I r (Event.run_timers call fuel base)
    (fun _ r' => ∃ t' es1 es2, rbtree_rep base t' ∗ I es1 r' ∗
       ⌜rb_ok t' /\ ordered t' /\ entries t = es1 ++ es2 /\ entries t' = es2 /\
        Forall (expired (get_time ts)) es1 /\ Forall (fun e => ~ expired (get_time ts) e) es2⌝)%I.
Proof.
  intros Hcall Hts Hrb Ho Hone Hf. apply wtriple_wwp. iIntros "[H I]".
  iApply (run_timers_ok base call I t fuel r ts o with "H I"); [done..|].
  iIntros (t' es1 es2 r' (? & ? & ? & ? & ? & ? & _)) "H I". iExists t', es1, es2. by iFrame.
Qed.

(** A timer that is in the tree and not marked active is never removed by
    run_timers: once it comes first and its trigger has been reached, the loop
    does not end, however long it runs. *)
Lemma run_timers_loops base call t y m es fuel h r ts o :
  pop_clock (outside r) = (ts, o) ->
  rb_ok t -> entries t = (y, members m) :: es -> is_active (flags m) = false ->
  trigger m <= get_time ts -> (iterations (length (entries t)) <= fuel)%nat ->
  rbtree_rep base t h -> Event.run_timers call fuel base (World h r) = Timeout.
Proof.
  intros Hts Hrb He Ha Hle Hf Hh. pose proof (rb_ok_height t Hrb).
  unfold Event.run_timers, Event.now, ask, on_rest, mbind, cmd_bind. cbn [memory others].
  rewrite Hts. cbn [mret cmd_ret memory others].
  eapply (wloop_forever _ (fun _ _ => rbtree_rep base t)); [|exact Hh].
  intros n r'. eapply run_timer_stays; try done. lia.
Qed.

(** a timer that is in the tree and not marked active is never removed by
    run_timers: once it comes first and its trigger has been reached, the loop
    does not end, however long it runs. *)
Theorem run_timers_spins base call t y m es fuel h r ts o :
  pop_clock (outside r) = (ts, o) ->
  rb_ok t -> entries t = (y, members m) :: es -> is_active (flags m) = false ->
  trigger m <= get_time ts -> (iterations (length (entries t)) <= fuel)%nat ->
  rbtree_rep base t h -> Event.run_timers call fuel base (World h r) = Timeout.
Proof. apply run_timers_loops. Qed.

(** *** Instances *)
Import RbtreeThm Cells.

Lemma add_timer_correct_witness :
  exists h', add_timer 1 0 5 64 (list_to_map (rbtree_cells 1 NULL ex_tree ++
    node_cells 64 (members (MkTimer 0 250 2 7 64)))) = Val (OK, h').
Proof.
  destruct (triple_run _ _ _ (list_to_map (rbtree_cells 1 NULL ex_tree ++
      node_cells 64 (members (MkTimer 0 250 2 7 64))))
    (add_timer_correct 1 0 5 64 (MkTimer 0 250 2 7 64) ex_tree eq_refl
       ex_rb_ok ex_ordered ltac:(vm_compute; lia))) as (r & h' & H & Hr).
  - apply holds_of_cells; [by_compute|]. rewrite owns_app, owns_rbtree by apply ex_placed.
    by rewrite owns_node by by repeat constructor.
  - exists h'. destruct Hr as (? & ? & _ & _ & -> & _). done.
Defined.

Lemma del_timer_correct_witness : exists h', del_timer 1 5 16 ex_heap = Val (OK, h').
Proof.
  destruct (triple_run _ _ _ _ (del_timer_correct 1 RBRED E 16 (MkTimer 100 5000 3 7 16) E
    [Fr L RBBLK 32 (ex_timer 32 200) (T RBRED E 48 (ex_timer 48 300) E)] 5
    ltac:(by left) eq_refl ex_rb_ok ltac:(vm_compute; lia)) ex_holds_tree) as (r & h' & H & Hr).
  exists h'. destruct Hr as (? & ? & _ & _ & -> & _). done.
Defined.

Lemma del_timer_wrong_node_witness : exists h', del_timer 1 5 32 ex_heap = Val (OK, h').
Proof.
  destruct (triple_run _ _ _ _ (del_timer_wrong_node 1 RBBLK (T RBRED E 16 (ex_timer 16 100) E)
    32 (MkTimer 200 5000 3 7 32) (T RBRED E 48 (ex_timer 48 300) E) [] 5
    ltac:(done) ltac:(done) eq_refl ex_rb_ok ltac:(vm_compute; lia)) ex_holds_tree)
    as (r & h' & H & Hr).
  exists h'. destruct Hr as (? & ? & _ & _ & -> & _). done.
Defined.

(** A world whose clock shows [t] nanoseconds. *)
Definition ex_rest (t : Z) : rest :=
  MkRest ∅ ∅ 0 0 MutexFree (MkOs [] [] [] [] [] [MkTimespec 0 0 t] [] [] [] [] [] [] []) []
    (Db.Db.MkDb [] 0 Db.Db.Unlocked []).

Lemma run_timers_correct_witness : exists h' r',
  Event.run_timers (fun _ _ => mret tt) 5 1 (World ex_heap (ex_rest 250)) = Val (tt, World h' r').
Proof.
  destruct (wtriple_run _ _ _ _ ex_heap (run_timers_correct 1 (fun _ _ => mret tt)
    (fun _ _ => emp%I) ex_tree 5 (ex_rest 250) _ _
    ltac:(intros; iIntros "_ H"; iApply wwp_ret; by iApply "H") eq_refl
    ex_rb_ok ex_ordered
    ltac:(repeat constructor; eexists; by split_and!)
    ltac:(cbn; lia))) as ([] & h' & r' & H & _).
  - assert (rbtree_rep 1 ex_tree ⊢ (rbtree_rep 1 ex_tree ∗ emp)%I) as [Hp] by by iIntros "$".
    apply Hp, ex_holds_tree.
  - by exists h', r'.
Defined.

(** What is left of three timers when the middle one and the first one have
    been deleted: the node of the middle one. *)
Definition ex_left : tree := T RBBLK E 32 (members (MkTimer 300 5000 2 7 48)) E.

Lemma run_timers_spins_witness : rb_ok ex_left /\
  Event.run_timers (fun _ _ => mret tt) 100 1
    (World (list_to_map (rbtree_cells 1 NULL ex_left)) (ex_rest 400)) = Timeout.
Proof.
  assert (rb_ok ex_left) as Hrb by (split; [done|]; exists 1%nat; repeat constructor).
  split; [done|].
  eapply (run_timers_spins 1 _ ex_left 32 (MkTimer 300 5000 2 7 48) []);
    [done|done|done|done|by vm_compute|apply Nat.leb_le; by vm_compute|].
  apply holds_of_cells; [by_compute|]. apply owns_rbtree. by repeat constructor.
Defined.

(** ** Three timers in a row, the middle one deleted *)

(** deleting the middle and then the first of three timers that were added
    in the order of their triggers leaves run_timers in an endless loop as soon
    as the third one's trigger has been reached, whatever the callbacks do. *)
Theorem delete_two_then_spin n call :
  (_ ← Event.del_timer (5 + n) 1 32;
   _ ← Event.del_timer (5 + n) 1 16;
   Event.run_timers call (5 + n) 1) (World ex_heap (ex_rest 400)) = Timeout.
Proof.
  set (cells := map_to_list (match (_ ← del_timer 1 5 32; del_timer 1 5 16) ex_heap with
                             | Val (_, h) => h | _ => ∅ end)).
  vm_compute in cells.
  assert ((_ ← Event.del_timer (5 + n) 1 32; Event.del_timer (5 + n) 1 16)
      (World ex_heap (ex_rest 400)) =
    Val (OK, World (list_to_map cells) (ex_rest 400))) as Hd by (by vm_compute).
  assert (rbtree_rep 1 ex_left (list_to_map cells)) as Hrep.
  { eapply (hp_mono _ (list_to_map (rbtree_cells 1 32 ex_left))).
    - apply holds_of_cells; [by_compute|]. apply owns_rbtree. by repeat constructor.
    - unfold cells. by_compute. }
  unfold mbind, cmd_bind in *.
  destruct (Event.del_timer (5 + n) 1 32 _) as [[r1 w1]| | | |]; [|done..].
  rewrite Hd. eapply (run_timers_loops 1 call ex_left 32 (MkTimer 300 5000 2 7 48) []);
    [done| |done|done|by vm_compute|unfold iterations; cbn; lia|done].
  split; [done|]. exists 1%nat. repeat constructor.
Qed.

(** resetting the middle one of three timers the way reset_connection does
    (delete it, initialise it again, add it) overwrites a node that is still in
    the tree, and the next descent dereferences NULL. *)
Theorem reset_middle_crashes n cb data :
  (_ ← del_timer 1 (5 + n) 32;
   _ ← make_timer 32 5000 TIMER_FLAG_ONESHOT cb data;
   add_timer 1 1000 (5 + n) 32) ex_heap = Stuck.
Proof. by vm_compute. Qed.
End TimerThm.
