(* ===== verification/Connection.v ===== *)
(** The connections of connection.c: reading a request, sending the response,
    the timeout, accepting and closing.

    Module [Connection] has the handlers, on the world of World.v.  A struct
    connection at [c] has its list node, its event and its timer in the memory
    at [c] ([conn_members]) and the other members in [conns] at [c].  The
    function a route points to is run by [call_route cb c data], the connection
    standing for the request in it; [fuel] bounds the loops and the walks in the
    tree of timers. *)
From S2P Require Import Prelude Buffer Http Request Array Route Heap Clist Rbtree Timer World Event.

Module Connection.
Import CMem Buffer Http Request Event.

(** Milliseconds. *)
Definition TIMEOUT : Z := 5000.
Definition READ_CHUNK : Z := 4096.
Definition WRITE_CHUNK : Z := 4096.

(** The callbacks that events and timers point to. *)
Definition IO_CALLBACK : ptr := 1.
Definition TIMEOUT_CALLBACK : ptr := 2.
Definition ON_ACCEPT : ptr := 3.

Definition conn_members (c : ptr) : list loc :=
  [(c, Prev); (c, Next);
   (c, Fd); (c, Events); (c, EventFlags); (c, EventCb); (c, EventData);
   (c, Color); (c, Left); (c, Right); (c, Parent);
   (c, Trigger); (c, Interval); (c, TimerFlags); (c, TimerCb); (c, TimerData)].

Definition add_conn (c : ptr) (x : connection) : cmd world unit :=
  on_rest (modify (fun r => set_conns (<[c := x]> (conns r)) r)).
Definition drop_conn (c : ptr) : cmd world unit :=
  on_rest (modify (fun r => set_conns (delete c (conns r)) r)).

Section handlers.
Variable fuel : nat.

(** free_buffer and free at the end give back the buffer, which is part of the
    entry in [conns], and the structure. *)
Definition close_connection (c : ptr) : cmd world unit :=
  x ← conn c;
  let w := c_worker x in
  _ ← set_worker w (fun y => set_num_conns (u64 (w_num_conns y - 1)) y);
  y ← worker_at w;
  _ ← del_event (w_base y) c;
  _ ← del_timer fuel (w_base y) c;
  _ ← close (c_fd x);
  _ ← on_heap (Clist.list_del c);
  _ ← drop_conn c;
  on_heap (hfree (conn_members c)).

Definition reset_connection (c : ptr) : cmd world Z :=
  x ← conn c;
  y ← worker_at (c_worker x);
  _ ← set_conn c (set_c_req zero_request);
  _ ← set_conn c (set_c_write_bytes 0);
  tf ← on_heap (hload (c, TimerFlags));
  _ ← if: Timer.is_active tf then (_ ← del_timer fuel (w_base y) c; mret tt);
  _ ← on_heap (Timer.make_timer c TIMEOUT Timer.TIMER_FLAG_ONESHOT TIMEOUT_CALLBACK c);
  ret ← add_timer fuel (w_base y) c;
  if negb (ret =? OK) then mret ERR
  else
    ef ← on_heap (hload (c, EventFlags));
    _ ← if: event_active ef then (_ ← del_event (w_base y) c; mret tt);
    mret OK.

Definition begin_read (c : ptr) : cmd world unit :=
  x ← conn c;
  let w := c_worker x in
  ret ← reset_connection c;
  if negb (ret =? OK) then close_connection c
  else
    _ ← set_conn c (fun x => set_c_buffer (clear_buffer (c_buffer x)) x);
    _ ← set_conn c (set_c_state CONNECTION_STATE_IN);
    x ← conn c;
    _ ← on_heap (make_event c (c_fd x) (Z.lor EPOLLIN EPOLLET) IO_CALLBACK c);
    y ← worker_at w;
    ret ← add_event (w_base y) c;
    if negb (ret =? OK) then close_connection c
    else mret tt.

(** One iteration of the loop of send_data. *)
Definition send_step (c : ptr) : cmd world (unit + unit) :=
  x ← conn c;
  let buf := c_buffer x in
  let rem := u64 (size buf - c_write_bytes x) in
  let len := if rem <? WRITE_CHUNK then rem else WRITE_CHUNK in
  bs ← liftr (CMem.read_bytes (mem buf) (c_write_bytes x) len);
  ans ← ask pop_send;
  match ans with
  | SendErr errno =>
      if errno =? EPIPE then killed
      else if errno =? EAGAIN then mret (inr tt)
      else _ ← close_connection c; mret (inr tt)
  | Sent n =>
      _ ← tell (SysSend (c_fd x) (take n bs));
      let done := u64 (c_write_bytes x + Z.of_nat n) in
      _ ← set_conn c (set_c_write_bytes done);
      if done =? size buf then
        _ ← (if negb (Z.land (c_flags x) CONNECTION_FLAG_KEEPALIVE =? 0) then begin_read c
             else close_connection c);
        mret (inr tt)
      else mret (inl tt)
  end.

Definition send_data (c : ptr) : cmd world unit := loop fuel (fun _ => send_step c) tt.

Definition begin_send (c : ptr) : cmd world unit :=
  x ← conn c;
  let w := c_worker x in
  ret ← reset_connection c;
  if negb (ret =? OK) then close_connection c
  else
    _ ← set_conn c (set_c_state CONNECTION_STATE_OUT);
    x ← conn c;
    _ ← on_heap (make_event c (c_fd x) (Z.lor EPOLLOUT EPOLLET) IO_CALLBACK c);
    y ← worker_at w;
    ret ← add_event (w_base y) c;
    if negb (ret =? OK) then close_connection c
    else send_data c.

(** send_response of request.c: the response replaces the buffer's contents and
    is sent. *)
Definition send_response (c : ptr) (status : http_status) (body : list Z) (len : Z)
    : cmd world unit :=
  x ← conn c;
  a ← ask pop_alloc;
  b ← liftr (fill_response a (c_buffer x) (c_req x) (c_flags x) status body len);
  _ ← set_conn c (set_c_buffer b);
  begin_send c.

Definition route_404 (c : ptr) : cmd world unit := send_response c HTTP_STATUS_404 [] 0.

Section reading.
Variable routes : option (Array.array_header_t Route.route).
Variable call_route : ptr -> ptr -> ptr -> cmd world unit.

(** What read_data does with the bytes received once there are no more. *)
Definition received (c : ptr) : cmd world (unit + unit) :=
  x ← conn c;
  p ← liftr (parse_request (c_buffer x) (c_req x) (c_flags x));
  let '(ret, req, flags) := p in
  _ ← set_conn c (set_c_req req);
  _ ← set_conn c (set_c_flags flags);
  if ret =? REQ_OK then
    route ← liftr (Route.match_route routes (method req) (mem (c_buffer x))
                     (off (uri req)) (u64 (len (uri req))));
    _ ← match route with
        | Some r => call_route (Route.cb r) c (Route.data r)
        | None => route_404 c
        end;
    mret (inr tt)
  else if ret =? REQ_ERR then _ ← close_connection c; mret (inr tt)
  else mret (inl tt).

(** One iteration of the loop of read_data. *)
Definition read_step (c : ptr) : cmd world (unit + unit) :=
  x ← conn c;
  let want := u64 (size (c_buffer x) + READ_CHUNK) in
  ret ← (if cap (c_buffer x) <? want then
           a ← ask pop_alloc;
           let (ret, b) := resize_buffer a (c_buffer x) want in
           _ ← set_conn c (set_c_buffer b);
           mret ret
         else mret OK);
  if negb (ret =? OK) then
    _ ← set_conn c (set_c_state CONNECTION_STATE_ERROR);
    _ ← close_connection c;
    mret (inr tt)
  else
    ans ← ask pop_recv;
    match ans with
    | RecvErr errno =>
        if errno =? EAGAIN then received c
        else
          _ ← set_conn c (set_c_state CONNECTION_STATE_ERROR);
          _ ← close_connection c;
          mret (inr tt)
    | RecvData [] =>
        _ ← set_conn c (set_c_state CONNECTION_STATE_CLOSED);
        _ ← close_connection c;
        mret (inr tt)
    | RecvData bs =>
        x ← conn c;
        let b := c_buffer x in
        m ← liftr (memcpy (mem b) (size b) bs (Z.of_nat (length bs)));
        _ ← set_conn c (set_c_buffer
              (MkBuffer (u64 (size b + Z.of_nat (length bs))) (cap b)
                 (match data b with None => None | Some _ => Some m end)));
        mret (inl tt)
    end.

Definition read_data (c : ptr) : cmd world unit := loop fuel (fun _ => read_step c) tt.

Definition io_callback (fd events : Z) (c : ptr) : cmd world unit :=
  x ← conn c;
  match c_state x with
  | CONNECTION_STATE_IN =>
      if negb (Z.land events EPOLLIN =? 0) then read_data c else close_connection c
  | CONNECTION_STATE_OUT =>
      if negb (Z.land events EPOLLOUT =? 0) then send_data c else close_connection c
  | CONNECTION_STATE_CLOSED | CONNECTION_STATE_ERROR => close_connection c
  end.

End reading.

Definition timeout_callback (c : ptr) : cmd world unit := close_connection c.

Definition accept_connection (w : ptr) : cmd world Z :=
  _ ← worker_at w;
  fd ← ask pop_accept;
  if fd <? 0 then mret ERR
  else
    ret ← ask pop_fcntl;
    if ret <? 0 then _ ← close fd; mret ERR
    else
      ok ← ask pop_calloc;
      if (ok : bool) then
        c ← on_heap (halloc conn_members);
        a ← ask pop_alloc;
        match create_buffer a with
        | None =>
            _ ← close fd;
            _ ← on_heap (hfree (conn_members c));
            mret ERR
        | Some buffer =>
            _ ← add_conn c (MkConn w fd CONNECTION_STATE_IN 0 buffer 0 zero_request);
            _ ← on_heap (Clist.list_add_tail (conns_head w) c);
            _ ← begin_read c;
            mret OK
        end
      else
        _ ← close fd;
        mret ERR.

End handlers.
End Connection.
