(* ===== verification/Worker.v ===== *)
(** The workers of worker.c: threads that each accept connections on a socket
    of their own and serve them in an event loop.

    Module [Worker] has the life of a worker: starting it, its loop, accepting,
    destroying it.  A struct worker at [w] has its list node and event in the
    memory at [w], the head of its list of connections at [conns_head w], and
    the other members in [workers] at [w].  The threads are sequences of steps on
    the world: what epoll_wait answers in each round and when the main thread
    clears [running] is an argument of the loop. *)
From S2P Require Import Prelude Array Route Heap Clist World Event Connection.

Module Worker.
Import Event Connection.

(** &g_cask->workers *)
Definition workers_head : ptr := 8.

Definition worker_members (w : ptr) : list loc :=
  [(w, Prev); (w, Next); (w, Fd); (w, Events); (w, EventFlags); (w, EventCb); (w, EventData);
   (conns_head w, Prev); (conns_head w, Next)].

Definition add_worker (w : ptr) (x : worker) : cmd world unit :=
  on_rest (modify (fun r => set_workers (<[w := x]> (workers r)) r)).
Definition drop_worker (w : ptr) : cmd world unit :=
  on_rest (modify (fun r => set_workers (delete w (workers r)) r)).

(** pthread_mutex_lock and pthread_mutex_unlock on worker_lock: locking it twice
    blocks for good, and using it when it has been destroyed is undefined. *)
Definition lock : cmd world unit := on_rest (fun r =>
  match worker_lock r with
  | MutexFree => Val (tt, set_worker_lock MutexHeld r)
  | MutexHeld => Blocked
  | MutexDestroyed => Stuck
  end).
Definition unlock : cmd world unit := on_rest (modify (set_worker_lock MutexFree)).

(** One of the calls that set the socket up. *)
Definition setup_or (sock : Z) (k : cmd world Z) : cmd world Z :=
  ret ← ask pop_setup;
  if ret <? 0 then _ ← close sock; mret ERR else k.

Definition start_worker : cmd world Z :=
  sock ← ask pop_socket;
  if sock <? 0 then mret ERR
  else
    setup_or sock (setup_or sock (setup_or sock (setup_or sock (
      ok ← ask pop_calloc;
      if negb ok then _ ← close sock; mret ERR
      else
        w ← on_heap (halloc worker_members);
        base ← create_event_base;
        if base =? NULL then
          _ ← close sock;
          _ ← on_heap (hfree (worker_members w));
          mret ERR
        else
          _ ← on_heap (make_event w sock (Z.lor EPOLLIN EPOLLET) ON_ACCEPT w);
          ret ← add_event base w;
          if negb (ret =? OK) then
            _ ← close sock;
            _ ← destroy_event_base base;
            _ ← on_heap (hfree (worker_members w));
            mret ERR
          else
            _ ← on_heap (Clist.LIST_INIT_HEAD (conns_head w));
            _ ← lock;
            id ← on_rest (gets current_id);
            _ ← on_rest (modify (set_current_id (u64 (id + 1))));
            _ ← add_worker w (MkWorker id sock false 0 base);
            _ ← on_heap (Clist.list_add_tail workers_head w);
            fails ← ask pop_thread;
            ret ← (if negb (fails =? 0) then
                     _ ← on_heap (Clist.list_del w);
                     _ ← close sock;
                     _ ← destroy_event_base base;
                     _ ← drop_worker w;
                     _ ← on_heap (hfree (worker_members w));
                     mret ERR
                   else _ ← tell (ThreadStart w); mret OK);
            _ ← on_rest (modify (fun r => set_num_workers (u32 (num_workers r + 1)) r));
            _ ← unlock;
            mret ret)))).

Section handlers.
Variable fuel : nat.
Variable routes : option (Array.array_header_t Route.route).
Variable call_route : ptr -> ptr -> ptr -> cmd world unit.

(** The callback of the listening socket. *)
Definition on_accept (fd events : Z) (w : ptr) : cmd world unit :=
  if negb (Z.land events EPOLLIN =? 0) then
    ret ← accept_connection fuel w;
    if negb (ret =? OK) then mret tt
    else set_worker w (fun y => set_num_conns (u64 (w_num_conns y + 1)) y)
  else mret tt.

(** The functions that timers and events point to. *)
Definition call_timer (cb data : ptr) : cmd world unit :=
  if cb =? TIMEOUT_CALLBACK then timeout_callback fuel data else stuck.

Definition call_event (cb : ptr) (fd events : Z) (data : ptr) : cmd world unit :=
  if cb =? IO_CALLBACK then io_callback fuel routes call_route fd events data
  else if cb =? ON_ACCEPT then on_accept fd events data
  else stuck.

(** One iteration of list_for_each_safe in destroy_worker; the state is the
    element and its successor. *)
Definition close_next (head : ptr) (pn : ptr * ptr) : cmd world (ptr * ptr + unit) :=
  let (p, n) := pn in
  if p =? head then mret (inr tt)
  else
    _ ← close_connection fuel p;
    n' ← on_heap (hload (n, Next));
    mret (inl (n, n')).

Definition destroy_worker (w : ptr) : cmd world unit :=
  let head := conns_head w in
  p ← on_heap (hload (head, Next));
  n ← on_heap (hload (p, Next));
  _ ← loop fuel (close_next head) (p, n);
  y ← worker_at w;
  _ ← close (w_sock y);
  _ ← destroy_event_base (w_base y);
  _ ← lock;
  _ ← on_rest (modify (fun r => set_num_workers (u32 (num_workers r - 1)) r));
  _ ← on_heap (Clist.list_del w);
  _ ← unlock;
  _ ← drop_worker w;
  on_heap (hfree (worker_members w)).

(** *** The loop *)

(** A round of the loop: the number of events epoll_wait reports and the events,
    and whether the main thread clears [running] before the next test of it. *)
Record round := MkRound { ready : Z; evs : list (Z * ptr); stops : bool }.

(** Past the last round epoll_wait never returns. *)
Fixpoint worker_loop (w base : ptr) (rounds : list round) : cmd world Z :=
  y ← worker_at w;
  if negb (w_running y) then mret 0 else
    match rounds with
    | [] => blocked
    | rd :: rounds =>
        ret ← event_base_iter call_timer call_event fuel base (ready rd) (evs rd);
        if negb (ret =? OK) then
          _ ← set_worker w (set_running false);
          mret 1
        else
          _ ← if: stops rd then set_worker w (set_running false);
          worker_loop w base rounds
    end.

(** The result is what the thread exits with. *)
Definition worker_proc (w : ptr) (rounds : list round) : cmd world Z :=
  y ← worker_at w;
  let base := w_base y in
  _ ← set_worker w (set_running true);
  ret ← worker_loop w base rounds;
  _ ← destroy_worker w;
  mret ret.

End handlers.

(** [join w] is what the thread of [w] still does until it exits. *)
Definition shutdown_worker (join : ptr -> cmd world unit) (w : ptr) : cmd world unit :=
  y ← worker_at w;
  if w_running y then
    _ ← set_worker w (set_running false);
    join w
  else mret tt.

End Worker.
