(* ===== verification/ReadSpec.v ===== *)
(** What read_data does: however the bytes of a request are cut by recv, the
    request is parsed and handed to its route; a client that stops in the middle
    keeps the loop going for ever. *)
From S2P Require Import Prelude Buffer Http Request RequestSpec Array Route Heap World Event Connection.
From S2P Require Db.
Import Buffer Http Request ParserSpec Connection.

(** ** Loops, step by step *)
Section loops.
Context {S A B : Type}.
Implicit Types (body : A -> cmd S (A + B)).

Lemma loop_next n body a a' s s' : body a s = Val (inl a', s') ->
  loop (Datatypes.S n) body a s = loop n body a' s'.
Proof. intros H. cbn [loop]. unfold mbind, cmd_bind. by rewrite H. Qed.

Lemma loop_last n body a (k : cmd S unit) (b : B) s s' :
  body a s = (_ ← k; mret (inr b)) s' ->
  loop (Datatypes.S n) body a s = (_ ← k; mret b) s'.
Proof.
  intros H. cbn [loop]. unfold mbind, cmd_bind in *. rewrite H. by destruct (k s') as [[]| | | |].
Qed.

Lemma loop_spin body a (P : S -> Prop) :
  (forall s, P s -> exists s', body a s = Val (inl a, s') /\ P s') ->
  forall n s, P s -> loop n body a s = Timeout.
Proof.
  intros H n. induction n as [|n IH]; intros s Hs; [done|].
  destruct (H s Hs) as (s' & E & Hs'). rewrite (loop_next n body a a s s' E). by apply IH.
Qed.
End loops.

Lemma bind_unit {S} (k : cmd S unit) s : (_ ← k; mret tt) s = k s.
Proof. unfold mbind, cmd_bind. by destruct (k s) as [[[] ?]| | | |]. Qed.

(** ** Parsing the same bytes again *)

#[global] Instance request_state_eq_dec : EqDecision request_state.
Proof. solve_decision. Defined.

Lemma state_body_again buf r0 flags r f : state r0 = REQUEST_STATE_BODY ->
  state_body buf r0 flags = (REQ_UF, r, f) ->
  f = flags /\ parse_request buf r flags = Val (REQ_UF, r, flags).
Proof.
  intros Hs. unfold state_body, state_complete.
  destruct (len (body r0) =? 0) eqn:E0; [done|].
  destruct (_ <? len (body _)) eqn:E1; [|done]. intros [= <- <-]. split; [done|].
  unfold parse_request, state_body. cbn [state with_read_bytes body read_bytes] in *.
  rewrite Hs. rewrite E0, E1. by destruct r0.
Qed.

(** In the body, the same bytes give the same answer. *)
Lemma headers_again buf data more r r1 flags f :
  mem buf = data ++ more -> size buf = Z.of_nat (length data) -> size buf < 2 ^ 31 ->
  (2 <= length more)%nat -> reading (length data) r -> state r = REQUEST_STATE_HEADERS ->
  state_headers buf r flags = Val (REQ_UF, r1, f) -> state r1 = REQUEST_STATE_BODY ->
  parse_request buf r1 flags = Val (REQ_UF, r1, flags).
Proof.
  intros Hm Hsz Hmax Hmore Hr Hs. unfold state_headers, parse_headers.
  destruct (header_loop_run buf data more r _ Hm Hsz Hmax Hmore Hr eq_refl)
    as (ret & r' & -> & (Hst & _) & _ & Hret). cbn [mbind res_bind].
  destruct Hret as [->|[[->| ->] _]]; [|done|].
  2: { change ((REQ_UF =? REQ_ERR) || (REQ_UF =? REQ_UF)) with true. cbn iota.
       intros [= <- <-] H1. congruence. }
  change ((REQ_OK =? REQ_ERR) || (REQ_OK =? REQ_UF)) with false. cbn iota.
  destruct (find_header _ _ _ _) as [[hd|]| | | |]; cbn [mbind res_bind]; [| |done..].
  - destruct (CMem.strtol _ _) as [n| | | |]; cbn [mbind res_bind]; [|done..]. cbv zeta.
    destruct (_ <? _); [done|]. intros [= Hb] _. by eapply state_body_again in Hb as [_ ?].
  - intros [= Hb] _. by eapply state_body_again in Hb as [_ ?].
Qed.

(** A call that asks for more bytes than there are asks for them again. *)
Lemma parse_again buf data more r r1 flags :
  mem buf = data ++ more -> size buf = Z.of_nat (length data) -> size buf + 2 < 2 ^ 31 ->
  (2 <= length more)%nat -> request_wf (length data) r ->
  parse_request buf r flags = Val (REQ_UF, r1, flags) ->
  parse_request buf r1 flags = Val (REQ_UF, r1, flags).
Proof.
  intros Hm Hsz Hmax Hmore Hwf Hp. pose proof Hwf as [Hr _ _ _].
  assert (state r = REQUEST_STATE_INIT \/ state r = REQUEST_STATE_HEADERS ->
    state r1 <> REQUEST_STATE_BODY -> parse_request buf r1 flags = Val (REQ_UF, r1, flags)) as Hline.
  { intros Hs H1. destruct (parse_request_resume buf buf data more more r r1 flags) as [_ <-];
      try done; lia. }
  destruct (state r) eqn:Hs.
  - destruct (decide (state r1 = REQUEST_STATE_BODY)) as [H1|H1]; [|by apply Hline; [left|]].
    unfold parse_request in Hp. rewrite Hs in Hp. unfold state_init in Hp.
    destruct (parse_status_any data r) as [([ret r'] & Ho & Hout)|Hmiss].
    + rewrite (Ho buf more Hm) in Hp by lia. cbn [mbind res_bind fst snd] in *.
      destruct Hout as [[-> ->]|[-> (k & v & u & j & -> & _ & _ & Hu & Hj)]]; [done|].
      change ((REQ_OK =? REQ_ERR) || (REQ_OK =? REQ_UF)) with false in Hp. cbn iota in Hp.
      eapply headers_again in Hp; try done; [lia|].
      destruct Hr. split; cbn; try done. by exists j.
    + rewrite (Hmiss buf more) in Hp by (done || lia). cbn in Hp. injection Hp as <-. congruence.
  - destruct (decide (state r1 = REQUEST_STATE_BODY)) as [H1|H1]; [|by apply Hline; [right|]].
    unfold parse_request in Hp. rewrite Hs in Hp. eapply headers_again in Hp; try done. lia.
  - unfold parse_request in Hp. rewrite Hs in Hp. injection Hp as Hp.
    by eapply state_body_again in Hp as [_ ?].
  - unfold parse_request in Hp. by rewrite Hs in Hp.
Qed.

(** ** Receiving *)

(** No allocation to come fails. *)
Definition allocs_ok (o : os) : Prop := Forall (fun a => a <> None) (allocs o).

(** The answers left when those of recv and realloc have been used up to [l]
    and [al]. *)
Definition read_os (l : list recv_result) (al : list Buffer.alloc) (o : os) : os :=
  MkOs l (sends o) (ctls o) al (callocs o) (clock o) (accepts o) (fcntls o) (sockets o)
    (setups o) (epolls o) (threads o) (writes o).

(** The connection [c], which is [x], has the buffer [b]. *)
Definition with_buffer (c : ptr) (x : connection) (b : buffer_t) (o : os) (r : rest) : rest :=
  set_conns (<[c := set_c_buffer b x]> (conns r)) (set_outside o r).

Lemma with_buffer_twice c x b b' o o' r :
  with_buffer c (set_c_buffer b x) b' o' (with_buffer c x b o r) = with_buffer c x b' o' r.
Proof. unfold with_buffer, set_conns. cbn. by rewrite insert_insert_eq. Qed.

Lemma with_buffer_conn c x b o r : conns (with_buffer c x b o r) !! c = Some (set_c_buffer b x).
Proof. unfold with_buffer. cbn. apply lookup_insert_eq. Qed.

Lemma with_buffer_same c x r : conns r !! c = Some x ->
  with_buffer c x (c_buffer x) (read_os (recvs (outside r)) (allocs (outside r)) (outside r)) r = r.
Proof.
  intros Hx. unfold with_buffer, read_os. rewrite insert_id.
  - by destruct r as [? ? ? ? ? [] ? ?].
  - rewrite Hx. by destruct x.
Qed.

Lemma pop_alloc_ok o : allocs_ok o -> exists g al,
  pop_alloc o = (Some g, read_os (recvs o) al o) /\ Forall (fun a => a <> None) al.
Proof.
  unfold allocs_ok, pop_alloc. destruct o as [rv sn ct [|[g|] al] ca ck ac fc sk su ep th]; cbn; intros Ha.
  - by exists (fun _ => 0), [].
  - exists g, al. split; [done|]. by apply Forall_cons in Ha as [_ Ha].
  - by apply Forall_cons in Ha as [? _].
Qed.

Section reading.
Variable fuel : nat.
Variable routes : option (Array.array_header_t Route.route).
Variable call_route : ptr -> ptr -> ptr -> cmd world unit.
Variable c : ptr.

(** The rest of an iteration of read_data when the buffer has room. *)
Definition read_rest : cmd world (unit + unit) :=
  ans ← ask pop_recv;
  match ans with
  | RecvErr errno =>
      if errno =? EAGAIN then received fuel routes call_route c
      else
        _ ← set_conn c (set_c_state CONNECTION_STATE_ERROR);
        _ ← close_connection fuel c;
        mret (inr tt)
  | RecvData [] =>
      _ ← set_conn c (set_c_state CONNECTION_STATE_CLOSED);
      _ ← close_connection fuel c;
      mret (inr tt)
  | RecvData bs =>
      x ← conn c;
      let b := c_buffer x in
      m ← liftr (memcpy (mem b) (size b) bs (Z.of_nat (length bs)));
      _ ← set_conn c (set_c_buffer
            (MkBuffer (u64 (size b + Z.of_nat (length bs))) (cap b)
               (match data b with None => None | Some _ => Some m end)));
      mret (inl tt)
  end.

(** Making room succeeds and changes nothing but the buffer's capacity. *)
Lemma read_step_room h r x : conns r !! c = Some x -> wf (c_buffer x) ->
  size (c_buffer x) + READ_CHUNK < 2 ^ 31 -> allocs_ok (outside r) ->
  exists b al, read_step fuel routes call_route c (World h r) =
      read_rest (World h (with_buffer c x b (read_os (recvs (outside r)) al (outside r)) r)) /\
    wf b /\ contents b = contents (c_buffer x) /\ size b = size (c_buffer x) /\
    size b + READ_CHUNK <= cap b <= Z.max (cap (c_buffer x)) (size b + READ_CHUNK) /\
    Forall (fun a => a <> None) al.
Proof.
  intros Hx Hwf Hsz Ha. pose proof Hwf as [Hc Hs Hm]. unfold read_step, READ_CHUNK in *.
  destruct (Z.ltb_spec (cap (c_buffer x)) (size (c_buffer x) + 4096)) as [Hlt|Hge].
  - destruct (pop_alloc_ok (outside r) Ha) as (g & al & Hpop & Hal).
    destruct (resize_buffer (Some g) (c_buffer x) (size (c_buffer x) + 4096)) as [ret b] eqn:E.
    pose proof E as (Hw & -> & Hcap & Hsize & Hcont)%resize_buffer_spec; [|done|pow2; lia].
    exists b, al. split_and!; [|done| |lia|lia|lia|done].
    + run_step. cbv zeta. rewrite wrap_small by (pow2; lia).
      replace (cap (c_buffer x) <? size (c_buffer x) + 4096) with true by zlia.
      etransitivity; [eapply bind_run|].
      { run_step. rewrite E. by run_step. }
      cbv beta. change (negb (OK =? OK)) with false. cbn iota.
      unfold read_rest, with_buffer, read_os. done.
    + rewrite Hcont. apply take_ge. unfold contents. rewrite length_take. lia.
  - exists (c_buffer x), (allocs (outside r)). split_and!; [|done|done|done|lia|lia|done].
    run_step. cbv zeta. rewrite wrap_small by (pow2; lia).
    replace (cap (c_buffer x) <? size (c_buffer x) + 4096) with false by zlia. run_step.
    change (negb (OK =? OK)) with false. cbn iota. by rewrite with_buffer_same.
Qed.

(** The buffer once there is room for more: an arbitrary rest of it. *)
Lemma wf_mem b : wf b -> exists pad, mem b = contents b ++ pad /\
  Z.of_nat (length (contents b)) = size b.
Proof.
  intros [Hc Hs Hm]. exists (drop (Z.to_nat (size b)) (mem b)). unfold contents.
  rewrite take_drop. split; [done|]. rewrite length_take. lia.
Qed.

Lemma mem_Some s k m : mem (MkBuffer s k (Some m)) = m.
Proof. done. Qed.

(** One iteration that receives bytes. *)
Lemma read_step_data h r x bs l : conns r !! c = Some x -> wf (c_buffer x) ->
  size (c_buffer x) + READ_CHUNK < 2 ^ 31 -> allocs_ok (outside r) ->
  recvs (outside r) = RecvData bs :: l -> (0 < length bs)%nat -> Z.of_nat (length bs) <= READ_CHUNK ->
  exists b al, read_step fuel routes call_route c (World h r) =
      Val (inl tt, World h (with_buffer c x b (read_os l al (outside r)) r)) /\
    wf b /\ contents b = contents (c_buffer x) ++ bs /\ size (c_buffer x) <= size b /\
    cap b <= Z.max (cap (c_buffer x)) (size b + READ_CHUNK) /\ Forall (fun a => a <> None) al.
Proof.
  intros Hx Hwf Hsz Ha Hr Hne Hle.
  destruct (read_step_room h r x Hx Hwf Hsz Ha) as (b & al & -> & Hw & Hcont & Hsize & Hroom & Hal).
  pose proof Hw as [Hc Hs Hm]. destruct bs as [|y bs]; [cbn in Hne; lia|].
  set (bs' := y :: bs) in *. unfold READ_CHUNK in *.
  assert (memcpy (mem b) (size b) bs' (Z.of_nat (length bs')) =
    Val (write_at (Z.to_nat (size b)) bs' (mem b))) as Hcpy.
  { unfold Buffer.memcpy, CMem.read_bytes.
    replace (Z.of_nat (length bs') =? 0) with false by zlia.
    replace ((0 <? 0) || (Z.of_nat (length bs') <? 0) ||
      (Z.of_nat (length bs') <? 0 + Z.of_nat (length bs'))) with false by zlia.
    cbn [mbind res_bind].
    replace ((size b <? 0) || (Z.of_nat (length (mem b)) <? size b + Z.of_nat (length bs')))
      with false by zlia.
    rewrite Nat2Z.id. change (Z.to_nat 0) with 0%nat. by rewrite slice_full. }
  destruct (data b) as [d|] eqn:Ed.
  2: { unfold mem in Hc. rewrite Ed in Hc. cbn in Hc. lia. }
  exists (MkBuffer (size b + Z.of_nat (length bs')) (cap b)
    (Some (write_at (Z.to_nat (size b)) bs' (mem b)))), al. split_and!; [| | |cbn [size]; lia|cbn [size cap]; lia|done].
  - unfold read_rest.
    etransitivity; [eapply bind_run, ask_run; unfold pop_recv; cbn; by rewrite Hr|]. cbv beta.
    cbn iota. fold bs'. run_step; [apply lookup_insert_eq|]. cbv zeta. cbn [c_buffer set_c_buffer].
    run_step. run_step; [apply lookup_insert_eq|]. rewrite Ed.
    rewrite wrap_small by (pow2; lia). unfold with_buffer, set_conns, read_os. cbn.
    by rewrite insert_insert_eq.
  - split; rewrite ?mem_Some, ?length_write_at; cbn [size cap]; lia.
  - rewrite contents_Some, Z2Nat.inj_add, Nat2Z.id by lia. rewrite <- Hcont.
    apply write_at_contents; [done|lia|done].
Qed.

Lemma length_zero_contents b : size b = 0 -> Z.of_nat (length (contents b)) = size b ->
  contents b = [].
Proof. intros -> ?. apply nil_length_inv. lia. Qed.

(** Any number of them. *)
Lemma read_chunks chunks : forall n h r x l,
  conns r !! c = Some x -> wf (c_buffer x) ->
  size (c_buffer x) + Z.of_nat (length (concat chunks)) + READ_CHUNK < 2 ^ 31 ->
  allocs_ok (outside r) -> recvs (outside r) = (RecvData <$> chunks) ++ l ->
  Forall (fun bs => (0 < length bs)%nat /\ Z.of_nat (length bs) <= READ_CHUNK) chunks ->
  exists b al,
    loop (length chunks + n) (fun _ => read_step fuel routes call_route c) tt (World h r) =
      loop n (fun _ => read_step fuel routes call_route c) tt
        (World h (with_buffer c x b (read_os l al (outside r)) r)) /\
    wf b /\ contents b = contents (c_buffer x) ++ concat chunks /\ size (c_buffer x) <= size b /\
    cap b <= Z.max (cap (c_buffer x)) (size b + READ_CHUNK) /\ Forall (fun a => a <> None) al.
Proof.
  induction chunks as [|bs chunks IH]; intros n h r x l Hx Hwf Hsz Ha Hr Hch.
  - exists (c_buffer x), (allocs (outside r)). cbn in Hr. rewrite <- Hr, with_buffer_same by done.
    rewrite app_nil_r. split_and!; try done; lia.
  - apply Forall_cons in Hch as [[H1 H2] Hch]. cbn [concat] in *. rewrite length_app in Hsz.
    destruct (read_step_data h r x bs ((RecvData <$> chunks) ++ l))
      as (b & al & E & Hw & Hc & Hs & Hcap & Hal); try done; [unfold READ_CHUNK in *; lia|].
    destruct (wf_mem b Hw) as (_ & _ & Hl). destruct (wf_mem _ Hwf) as (_ & _ & Hl').
    destruct (IH n h (with_buffer c x b (read_os ((RecvData <$> chunks) ++ l) al (outside r)) r)
      (set_c_buffer b x) l) as (b' & al' & E' & Hw' & Hc' & Hs' & Hcap' & Hal'); try done.
    { apply with_buffer_conn. }
    { cbn. rewrite <- Hl, Hc, length_app. lia. }
    cbn [set_c_buffer c_buffer] in *. exists b', al'. split_and!; [|done| |lia|lia|done].
    + cbn [length Nat.add]. rewrite (loop_next _ _ _ _ _ _ E), E'.
      unfold read_os. cbn. by rewrite with_buffer_twice.
    + by rewrite Hc', Hc, <- (assoc_L (++)).
Qed.

(** ** The request that was sent *)

(** [req] has the parts of the request, as ranges of [buf]. *)
Record parsed_as (buf : buffer_t) (req : request) (k : http_method) (u : list Z)
    (v : http_version) (hs : list header_text) (b : list Z) : Prop := {
  as_method : method req = k;
  as_version : version req = v;
  as_uri : uri req = range (method_text k ++ [32]) u;
  as_headers : Forall2 (header_at (mem buf)) (take (num_headers req) (headers req)) hs;
  as_body : match lookup_header content_length hs with
            | None => len (body req) = 0
            | Some _ => body req = range (render_status k u v ++ render_headers hs ++ crlf) b
            end;
}.

(** The connection when a request has been parsed. *)
Definition with_request (req : request) (flags : Z) (x : connection) : connection :=
  set_c_flags flags (set_c_req req x).

(** What runs the request: its route's function, or route_404. *)
Definition serve (route : option Route.route) : cmd world unit :=
  match route with
  | Some rt => call_route (Route.cb rt) c (Route.data rt)
  | None => route_404 fuel c
  end.

(** What received does once the request is parsed. *)
Lemma received_parsed h r x k u req flags post : conns r !! c = Some x ->
  c_req x = zero_request -> parse_request (c_buffer x) zero_request (c_flags x) = Val (REQ_OK, req, flags) ->
  method req = k -> uri req = range (method_text k ++ [32]) u ->
  mem (c_buffer x) = (method_text k ++ [32]) ++ u ++ 32 :: post -> Z.of_nat (length u) < 2 ^ 31 ->
  ArraySpec.wf Route.SIZEOF_ROUTE routes ->
  Forall (RouteSpec.route_ok 32) (ArraySpec.elems routes) ->
  received fuel routes call_route c (World h r) =
    (_ ← serve (RouteSpec.best_route k u (ArraySpec.elems routes)); mret (inr tt))
      (World h (set_conns (<[c := with_request req flags x]> (conns r)) r)).
Proof.
  intros Hx Hreq E H2 H4 Hm Hu Hrw Hro.
  pose proof (RouteSpec.match_route_best routes k 32 (method_text k ++ [32]) u post Hrw Hro) as Hmatch.
  unfold received. run_step. rewrite Hreq. run_step. cbn iota beta. run_step. run_step.
  { apply lookup_insert_eq. }
  change (REQ_OK =? REQ_OK) with true. cbn iota.
  rewrite H2, H4. unfold range. cbn [off len]. rewrite wrap_small by (pow2; lia).
  rewrite Hm. run_step. unfold set_conns, with_request. cbn [conns]. rewrite insert_insert_eq.
  by destruct (RouteSpec.best_route _ _ _).
Qed.

(** The URI of a request where it is, and its length. *)
Lemma render_uri k u v hs b pad : exists post,
  render k u v hs b ++ pad = (method_text k ++ [32]) ++ u ++ 32 :: post /\
  (length u <= length (render k u v hs b))%nat.
Proof.
  exists (version_text v ++ crlf ++ render_headers hs ++ crlf ++ b ++ pad).
  unfold render, render_status. split; [by app_norm|]. rewrite !length_app. cbn [length]. rewrite !length_app. lia.
Qed.

Lemma received_ok h r x k u v hs b : conns r !! c = Some x -> wf (c_buffer x) ->
  size (c_buffer x) < 2 ^ 31 -> contents (c_buffer x) = render k u v hs b ->
  c_req x = zero_request -> request_ok k u v hs b ->
  ArraySpec.wf Route.SIZEOF_ROUTE routes ->
  Forall (RouteSpec.route_ok 32) (ArraySpec.elems routes) ->
  exists req, received fuel routes call_route c (World h r) =
      (_ ← serve (RouteSpec.best_route k u (ArraySpec.elems routes)); mret (inr tt))
        (World h (set_conns (<[c := with_request req (keepalive v (c_flags x)) x]> (conns r)) r)) /\
    parsed_as (c_buffer x) req k u v hs b.
Proof.
  intros Hx Hwf Hmax Hcont Hreq Hok Hrw Hro.
  destruct (wf_mem _ Hwf) as (pad & Hm & Hl). rewrite Hcont in Hm, Hl.
  destruct (parse_render_ranges (c_buffer x) k u v hs b pad (c_flags x))
    as (req & E & _ & H2 & H3 & H4 & H5 & H6); try done.
  destruct (render_uri k u v hs b pad) as (post & Hm' & Hu). rewrite Hm' in Hm.
  exists req. split; [|by split]. eapply received_parsed; try done. lia.
Qed.

(** ** A client that says nothing more *)

(** The state of a connection that has been read dry: the buffer has room and the
    parser asks for more than there is. *)
Record starved (r : rest) : Prop := {
  starved_silent : recvs (outside r) = [];
  starved_allocs : allocs_ok (outside r);
  starved_conn : exists x data more, conns r !! c = Some x /\ wf (c_buffer x) /\
    mem (c_buffer x) = data ++ more /\ 0 ∈ more /\ size (c_buffer x) = Z.of_nat (length data) /\
    size (c_buffer x) + READ_CHUNK <= cap (c_buffer x) < 2 ^ 31 /\
    request_wf (length data) (c_req x) /\
    exists req, parse_request (c_buffer x) (c_req x) (c_flags x) = Val (REQ_UF, req, c_flags x);
}.

Lemma starved_step h r : starved r -> exists r',
  read_step fuel routes call_route c (World h r) = Val (inl tt, World h r') /\ starved r'.
Proof.
  intros [Hr Ha (x & data & more & Hx & Hwf & Hm & H0 & Hsz & Hroom & Hreq & req & Hp)].
  exists (set_conns (<[c := with_request req (c_flags x) x]> (conns r)) r). split.
  - unfold read_step. run_step. cbv zeta.
    unfold READ_CHUNK in *. rewrite wrap_small by (destruct Hwf; pow2; lia).
    replace (cap (c_buffer x) <? size (c_buffer x) + 4096) with false by zlia. run_step.
    change (negb (OK =? OK)) with false. cbn iota.
    etransitivity; [eapply bind_run, ask_run; unfold pop_recv; by rewrite Hr|]. cbv beta.
    change (EAGAIN =? EAGAIN) with true. cbn iota.
    assert (set_outside (outside r) r = r) as -> by by destruct r.
    unfold received. run_step. run_step. cbn iota beta. run_step. run_step; [apply lookup_insert_eq|].
    change (REQ_UF =? REQ_OK) with false. change (REQ_UF =? REQ_ERR) with false. cbn iota.
    unfold set_conns, with_request. cbn [conns]. by rewrite insert_insert_eq.
  - assert (2 <= length more)%nat as Hmore.
    { unfold READ_CHUNK in *. destruct Hwf as [Hc _ _]. rewrite Hm, length_app in Hc. lia. }
    assert (size (c_buffer x) + 2 < 2 ^ 31) as Hmax by (unfold READ_CHUNK in *; pow2; lia).
    split; [done|done|]. exists (with_request req (c_flags x) x), data, more.
    cbn [conns set_conns c_buffer with_request set_c_flags set_c_req c_req c_flags].
    split_and!; try done; [by rewrite lookup_insert_eq|lia|lia| |].
    + destruct (parse_request_ok (c_buffer x) data more (c_req x) (c_flags x) (length data))
        as (ret & req' & f & E & Hret); try done. rewrite Hp in E. injection E as <- <- <-.
      by destruct Hret as [(? & _)|[(_ & ? & _)|(? & _)]].
    + exists req. by apply (parse_again _ data more (c_req x)).
Qed.
End reading.

(** All of read_data on bytes that arrive in pieces: it ends as received does on
    them, when that is the end. *)
Lemma read_data_drains fuel routes call_route c h r x chunks l :
  conns r !! c = Some x -> wf (c_buffer x) -> size (c_buffer x) = 0 ->
  Z.of_nat (length (concat chunks)) + READ_CHUNK < 2 ^ 31 ->
  Forall (fun bs => (0 < length bs)%nat /\ Z.of_nat (length bs) <= READ_CHUNK) chunks ->
  recvs (outside r) = (RecvData <$> chunks) ++ RecvErr EAGAIN :: l -> allocs_ok (outside r) ->
  (length chunks < fuel)%nat ->
  exists buf al, wf buf /\ contents buf = concat chunks /\ size buf = Z.of_nat (length (concat chunks)) /\
    cap buf <= Z.max (cap (c_buffer x)) (size buf + READ_CHUNK) /\ Forall (fun a => a <> None) al /\
    forall (m : cmd world unit) w,
      received fuel routes call_route c (World h (with_buffer c x buf (read_os l al (outside r)) r)) =
        (_ ← m; mret (inr tt)) w ->
      read_data fuel routes call_route c (World h r) = m w.
Proof.
  intros Hx Hwf Hs Hlen Hall Hr Ha Hf.
  destruct (Nat.le_exists_sub (S (length chunks)) fuel Hf) as (n & Hn & _).
  destruct (read_chunks fuel routes call_route c chunks (S n) h r x (RecvErr EAGAIN :: l))
    as (b1 & al & E & Hw & Hcont & Hs1 & Hcap1 & Hal); try done; [lia|].
  destruct (wf_mem _ Hwf) as (_ & _ & Hl).
  apply (length_zero_contents _ Hs) in Hl. rewrite Hl in Hcont. cbn [app] in Hcont.
  destruct (wf_mem b1 Hw) as (_ & _ & Hl1). rewrite Hcont in Hl1.
  set (r1 := with_buffer c x b1 _ r) in E.
  destruct (read_step_room fuel routes call_route c h r1 (set_c_buffer b1 x))
    as (b2 & al2 & E2 & Hw2 & Hcont2 & Hsize2 & Hroom & Hal2);
    [apply with_buffer_conn|done|cbn [set_c_buffer c_buffer]; lia|done|].
  cbn [set_c_buffer c_buffer] in Hcont2, Hsize2, Hroom.
  unfold r1 in E2. rewrite with_buffer_twice in E2. cbn [outside with_buffer set_conns set_outside] in E2.
  exists b2, al2. split_and!; [done|congruence|lia|lia|done|]. intros m w E3.
  unfold read_data. rewrite Hn at 1. replace (n + S (length chunks))%nat with (length chunks + S n)%nat by lia.
  rewrite E. erewrite loop_last; [by rewrite bind_unit|].
  cbv beta. unfold r1. rewrite E2. unfold read_rest.
  etransitivity; [eapply bind_run, ask_run; done|]. cbv beta. cbn iota.
  change (EAGAIN =? EAGAIN) with true. cbn iota. exact E3.
Qed.

(** In particular on a request. *)
Lemma read_data_ok fuel routes call_route c h r x chunks l k u v hs b :
  conns r !! c = Some x -> wf (c_buffer x) -> size (c_buffer x) = 0 -> c_req x = zero_request ->
  request_ok k u v hs b -> concat chunks = render k u v hs b ->
  Z.of_nat (length (render k u v hs b)) + READ_CHUNK < 2 ^ 31 ->
  Forall (fun bs => (0 < length bs)%nat /\ Z.of_nat (length bs) <= READ_CHUNK) chunks ->
  recvs (outside r) = (RecvData <$> chunks) ++ RecvErr EAGAIN :: l -> allocs_ok (outside r) ->
  (length chunks < fuel)%nat ->
  ArraySpec.wf Route.SIZEOF_ROUTE routes ->
  Forall (RouteSpec.route_ok 32) (ArraySpec.elems routes) ->
  exists buf req al,
    read_data fuel routes call_route c (World h r) =
      serve fuel call_route c (RouteSpec.best_route k u (ArraySpec.elems routes)) (World h
        (set_conns (<[c := with_request req (keepalive v (c_flags x)) (set_c_buffer buf x)]> (conns r))
           (set_outside (read_os l al (outside r)) r))) /\
    wf buf /\ contents buf = render k u v hs b /\ parsed_as buf req k u v hs b /\
    Forall (fun a => a <> None) al.
Proof.
  intros Hx Hwf Hs Hreq Hok Hch Hlen Hall Hr Ha Hf Hrw Hro. rewrite <- Hch in Hlen.
  destruct (read_data_drains fuel routes call_route c h r x chunks l)
    as (buf & al & Hw & Hcont & Hsize & _ & Hal & Hrun); try done. rewrite Hch in Hcont.
  destruct (received_ok fuel routes call_route c h (with_buffer c x buf (read_os l al (outside r)) r)
    (set_c_buffer buf x) k u v hs b) as (req & E3 & Has); try done; [apply with_buffer_conn| |].
  { cbn [set_c_buffer c_buffer]. rewrite Hsize. unfold READ_CHUNK in Hlen. pow2. lia. }
  exists buf, req, al. split_and!; [|done..]. rewrite (Hrun _ _ E3).
  unfold with_buffer, set_conns. cbn. by rewrite insert_insert_eq.
Qed.

(** recv says that the client is gone: the end of the stream, or an error. *)
Definition gone (ans : recv_result) : Prop :=
  match ans with RecvData bs => bs = [] | RecvErr errno => errno <> EAGAIN end.

(** All of read_data on a client that goes away, after any bytes. *)
Lemma read_data_gone fuel routes call_route c h r x chunks ans l :
  conns r !! c = Some x -> wf (c_buffer x) ->
  size (c_buffer x) + Z.of_nat (length (concat chunks)) + READ_CHUNK < 2 ^ 31 ->
  Forall (fun bs => (0 < length bs)%nat /\ Z.of_nat (length bs) <= READ_CHUNK) chunks -> gone ans ->
  recvs (outside r) = (RecvData <$> chunks) ++ ans :: l -> allocs_ok (outside r) ->
  (length chunks < fuel)%nat ->
  exists x' al, c_worker x' = c_worker x /\ c_fd x' = c_fd x /\ Forall (fun a => a <> None) al /\
    read_data fuel routes call_route c (World h r) =
      close_connection fuel c (World h
        (set_conns (<[c := x']> (conns r)) (set_outside (read_os l al (outside r)) r))).
Proof.
  intros Hx Hwf Hlen Hall Hgone Hr Ha Hf.
  destruct (Nat.le_exists_sub (S (length chunks)) fuel Hf) as (n & Hn & _).
  destruct (read_chunks fuel routes call_route c chunks (S n) h r x (ans :: l))
    as (b1 & al & E & Hw & Hcont & _ & _ & Hal); try done.
  destruct (wf_mem _ Hwf) as (_ & _ & Hl). destruct (wf_mem b1 Hw) as (_ & _ & Hl1).
  rewrite Hcont, length_app in Hl1. set (r1 := with_buffer c x b1 _ r) in E.
  destruct (read_step_room fuel routes call_route c h r1 (set_c_buffer b1 x))
    as (b2 & al2 & E2 & Hw2 & _ & _ & _ & Hal2);
    [apply with_buffer_conn|done|cbn [set_c_buffer c_buffer]; lia|done|].
  unfold r1 in E2. rewrite with_buffer_twice in E2. cbn [outside with_buffer set_conns set_outside] in E2.
  set (r2 := with_buffer c x b2 (read_os l al2 (outside r)) r).
  assert (exists s, read_rest fuel routes call_route c
      (World h (with_buffer c x b2 (read_os (ans :: l) al2 (read_os (ans :: l) al (outside r))) r)) =
    (_ ← close_connection fuel c; mret (inr tt))
      (World h (set_conns (<[c := set_c_state s (set_c_buffer b2 x)]> (conns r2)) r2))) as (s & E3).
  { unfold read_rest. destruct ans as [errno|bs].
    - exists CONNECTION_STATE_ERROR. etransitivity; [eapply bind_run, ask_run; done|]. cbv beta iota.
      cbn in Hgone. replace (errno =? EAGAIN) with false by zlia. cbv iota. run_step; [apply lookup_insert_eq|]. done.
    - cbn in Hgone. subst bs. exists CONNECTION_STATE_CLOSED.
      etransitivity; [eapply bind_run, ask_run; done|]. cbv beta iota. run_step; [apply lookup_insert_eq|]. done. }
  exists (set_c_state s (set_c_buffer b2 x)), al2. split_and!; [done..|].
  unfold read_data. rewrite Hn at 1. replace (n + S (length chunks))%nat with (length chunks + S n)%nat by lia.
  rewrite E. erewrite loop_last; [|cbv beta; unfold r1; rewrite E2; exact E3].
  rewrite bind_unit. unfold r2, with_buffer, set_conns. cbn. by rewrite insert_insert_eq.
Qed.

(** All of read_data on bytes that the parser rejects: the connection is closed. *)
Lemma read_data_rejects fuel routes call_route c h r x chunks l :
  conns r !! c = Some x -> wf (c_buffer x) -> size (c_buffer x) = 0 -> c_req x = zero_request ->
  rejected (concat chunks) -> Z.of_nat (length (concat chunks)) + READ_CHUNK < 2 ^ 31 ->
  Forall (fun bs => (0 < length bs)%nat /\ Z.of_nat (length bs) <= READ_CHUNK) chunks ->
  recvs (outside r) = (RecvData <$> chunks) ++ RecvErr EAGAIN :: l -> allocs_ok (outside r) ->
  (length chunks < fuel)%nat ->
  exists x' al, c_worker x' = c_worker x /\ c_fd x' = c_fd x /\ Forall (fun a => a <> None) al /\
    read_data fuel routes call_route c (World h r) =
      close_connection fuel c (World h
        (set_conns (<[c := x']> (conns r)) (set_outside (read_os l al (outside r)) r))).
Proof.
  intros Hx Hwf Hs Hreq Hrej Hlen Hall Hr Ha Hf.
  destruct (read_data_drains fuel routes call_route c h r x chunks l)
    as (buf & al & Hw & Hcont & Hsize & _ & Hal & Hrun); try done.
  destruct (wf_mem buf Hw) as (pad & Hm & _). rewrite Hcont in Hm.
  destruct (Hrej buf pad (c_flags x) Hm Hsize) as (req & E); [unfold READ_CHUNK in Hlen; lia|].
  exists (with_request req (c_flags x) (set_c_buffer buf x)), al. split_and!; [done..|].
  erewrite (Hrun (close_connection fuel c)); [reflexivity|].
  unfold received. run_step; [apply with_buffer_conn|]. cbn [set_c_buffer c_buffer c_req c_flags]. rewrite Hreq, E.
  run_step. cbn iota beta. run_step; [apply with_buffer_conn|]. run_step; [apply lookup_insert_eq|].
  change (REQ_ERR =? REQ_OK) with false. change (REQ_ERR =? REQ_ERR) with true. cbn iota.
  unfold with_buffer, set_conns, with_request. cbn. by rewrite !insert_insert_eq.
Qed.

(** How a connection ends that gets no answer: the client goes away, after any bytes, or
    what it has sent is no request. *)
Definition unanswered (text : list Z) (ans : recv_result) : Prop :=
  gone ans \/ ans = RecvErr EAGAIN /\ rejected text.

Lemma read_data_drops fuel routes call_route c h r x chunks ans l :
  conns r !! c = Some x -> wf (c_buffer x) -> size (c_buffer x) = 0 -> c_req x = zero_request ->
  unanswered (concat chunks) ans -> Z.of_nat (length (concat chunks)) + READ_CHUNK < 2 ^ 31 ->
  Forall (fun bs => (0 < length bs)%nat /\ Z.of_nat (length bs) <= READ_CHUNK) chunks ->
  recvs (outside r) = (RecvData <$> chunks) ++ ans :: l -> allocs_ok (outside r) ->
  (length chunks < fuel)%nat ->
  exists x' al, c_worker x' = c_worker x /\ c_fd x' = c_fd x /\ Forall (fun a => a <> None) al /\
    read_data fuel routes call_route c (World h r) =
      close_connection fuel c (World h
        (set_conns (<[c := x']> (conns r)) (set_outside (read_os l al (outside r)) r))).
Proof.
  intros Hx Hwf Hs Hreq [Hgone|[-> Hrej]] Hlen Hall Hr Ha Hf.
  - apply (read_data_gone _ _ _ _ _ _ _ chunks ans); try done. lia.
  - by apply (read_data_rejects _ _ _ _ _ _ _ chunks).
Qed.

Module ReadThm.

(** read_data serves the request that was sent, however recv cuts it up.  On
    a connection that begin_read has prepared, when the bytes of a well-formed
    request arrive in pieces of at most READ_CHUNK bytes and then no more, and no
    allocation fails, the loop ends within one iteration per piece and one more;
    it has by then parsed the request's method, URI, version, headers and body
    into the connection, and does exactly what the function of the route chosen
    for the method and the URI does in that state (route_404 if there is none). *)
Theorem read_data_dispatches fuel routes call_route c h r x chunks l k u v hs b :
  conns r !! c = Some x -> wf (c_buffer x) -> size (c_buffer x) = 0 -> c_req x = zero_request ->
  request_ok k u v hs b -> concat chunks = render k u v hs b ->
  Z.of_nat (length (render k u v hs b)) + READ_CHUNK < 2 ^ 31 ->
  Forall (fun bs => (0 < length bs)%nat /\ Z.of_nat (length bs) <= READ_CHUNK) chunks ->
  recvs (outside r) = (RecvData <$> chunks) ++ RecvErr EAGAIN :: l -> allocs_ok (outside r) ->
  (length chunks < fuel)%nat ->
  ArraySpec.wf Route.SIZEOF_ROUTE routes ->
  Forall (RouteSpec.route_ok 32) (ArraySpec.elems routes) ->
  exists buf req route al,
    read_data fuel routes call_route c (World h r) =
      serve fuel call_route c route (World h
        (set_conns (<[c := with_request req (keepalive v (c_flags x)) (set_c_buffer buf x)]> (conns r))
           (set_outside (read_os l al (outside r)) r))) /\
    contents buf = render k u v hs b /\ parsed_as buf req k u v hs b /\
    RouteSpec.chosen k u (ArraySpec.elems routes) route.
Proof.
  intros. destruct (read_data_ok fuel routes call_route c h r x chunks l k u v hs b)
    as (buf & req & al & E & _ & Hc & Hp & _); try done.
  exists buf, req, (RouteSpec.best_route k u (ArraySpec.elems routes)), al.
  split_and!; [exact E|done|done|apply RouteSpec.best_route_chosen].
Qed.

(** C20: a client that sends part of a request and then nothing makes read_data
    loop for ever.  Once recv has nothing more to give and the parser asks for more
    bytes, no number of iterations ends the loop: the worker never gets back to its
    event loop, so that neither its other connections are served nor this one's
    timeout is run. *)
Theorem read_data_spins fuel routes call_route c h r : starved c r ->
  read_data fuel routes call_route c (World h r) = Timeout.
Proof.
  intros Hs. unfold read_data. generalize fuel at 1. intros n.
  apply (loop_spin _ tt (fun w => starved c (others w))); [|done].
  intros [h' r'] H. destruct (starved_step fuel routes call_route c h' r' H) as (r2 & -> & H2).
  by eexists.
Qed.

(** *** A request in two pieces, and the first 20 bytes of it *)
Definition ex_answers (l : list recv_result) : os :=
  MkOs l [] [] [] [] [] [] [] [] [] [] [] [].
Definition ex_conn (buf : buffer_t) : connection :=
  MkConn 24 5 CONNECTION_STATE_IN 0 buf 0 zero_request.
Definition ex_reading (buf : buffer_t) (l : list recv_result) : rest :=
  MkRest {[64 := ex_conn buf]} ∅ 0 0 MutexFree (ex_answers l) [] (Db.Db.MkDb [] 0 Db.Db.Unlocked []).
Definition ex_pieces : list (list Z) := [take 20 ex_request; drop 20 ex_request].

Lemma read_data_dispatches_witness : exists buf req route al,
  read_data 3 RouteThm.ex_routes (fun _ _ _ => mret tt) 64
    (World ∅ (ex_reading (MkBuffer 0 0 None) ((RecvData <$> ex_pieces) ++ [RecvErr EAGAIN]))) =
  serve 3 (fun _ _ _ => mret tt) 64 route (World ∅
    (set_conns (<[64 := with_request req (keepalive HTTP_VERSION_11 0) (set_c_buffer buf (ex_conn (MkBuffer 0 0 None)))]>
         {[64 := ex_conn (MkBuffer 0 0 None)]})
       (set_outside (read_os [] al (ex_answers ((RecvData <$> ex_pieces) ++ [RecvErr EAGAIN])))
          (ex_reading (MkBuffer 0 0 None) ((RecvData <$> ex_pieces) ++ [RecvErr EAGAIN]))))) /\
  contents buf = ex_request.
Proof.
  destruct (read_data_dispatches 3 RouteThm.ex_routes (fun _ _ _ => mret tt) 64 ∅
    (ex_reading (MkBuffer 0 0 None) ((RecvData <$> ex_pieces) ++ [RecvErr EAGAIN]))
    (ex_conn (MkBuffer 0 0 None)) ex_pieces [] HTTP_METHOD_POST (bytes_of "/post") HTTP_VERSION_11
    ex_headers (bytes_of "hello")) as (buf & req & route & al & E & Hb & _).
  - done.
  - by split.
  - done.
  - done.
  - split; [done|closed|done|exact ex_headers_ok|by_compute|split; [reflexivity|by_compute]].
  - by vm_compute.
  - by_compute.
  - repeat constructor; by_compute.
  - done.
  - constructor.
  - by_compute.
  - apply RouteThm.ex_routes_ok.
  - apply RouteThm.ex_routes_ok.
  - exists buf, req, route, al. split; [exact E|exact Hb].
Defined.

Definition ex_partial : buffer_t := buffer_with (take 20 ex_request) (replicate 4096 0).

Lemma ex_starved : starved 64 (ex_reading ex_partial []).
Proof.
  split; [done|constructor|].
  exists (ex_conn ex_partial), (take 20 ex_request), (replicate 4096 0).
  split; [done|]. split; [by split; by_compute|]. split; [done|].
  split; [apply elem_of_replicate; by_compute|]. split; [done|]. split; [split; by_compute|].
  split; [apply zero_request_wf|]. exists zero_request. by vm_compute.
Qed.

Lemma read_data_spins_witness :
  read_data 1000 None (fun _ _ _ => mret tt) 64 (World ∅ (ex_reading ex_partial [])) = Timeout.
Proof. apply read_data_spins, ex_starved. Defined.
End ReadThm.
