(* ===== verification/SendSpec.v ===== *)
(** What send_data does: it hands the unsent bytes of the buffer to send, in
    order, each once, and goes on as keep-alive says when all are sent. *)
From S2P Require Import Prelude Buffer Http Request RequestSpec Heap World Event Connection ReadSpec.
From S2P Require Db.
Import Buffer Http Request Connection.

(** The answers left when those of send have been used up to [l]. *)
Definition send_os (l : list send_result) (o : os) : os :=
  MkOs (recvs o) l (ctls o) (allocs o) (callocs o) (clock o) (accepts o) (fcntls o) (sockets o)
    (setups o) (epolls o) (threads o) (writes o).

(** The connection [c], which is [x], after sending [pieces]. *)
Definition with_sent (c : ptr) (x : connection) (pieces : list (list Z)) (l : list send_result)
    (r : rest) : rest :=
  MkRest (<[c := set_c_write_bytes (c_write_bytes x + Z.of_nat (length (concat pieces))) x]> (conns r))
    (workers r) (num_workers r) (current_id r) (worker_lock r) (send_os l (outside r))
    (trace r ++ (SysSend (c_fd x) <$> pieces)) (store r).

Lemma with_sent_twice c x p1 p2 l1 l2 r :
  with_sent c (set_c_write_bytes (c_write_bytes x + Z.of_nat (length (concat p1))) x) p2 l2
    (with_sent c x p1 l1 r) = with_sent c x (p1 ++ p2) l2 r.
Proof.
  unfold with_sent. cbn. rewrite insert_insert_eq, concat_app, length_app, fmap_app.
  rewrite <- (assoc_L (++)). do 2 f_equal. unfold set_c_write_bytes. cbn. f_equal. lia.
Qed.

(** The unsent bytes of a connection. *)
Definition unsent (x : connection) : list Z :=
  drop (Z.to_nat (c_write_bytes x)) (contents (c_buffer x)).

(** What send may answer while [rem] bytes are unsent: how many it took each
    time, at least one and at most what it was offered. *)
Fixpoint takes (rem : nat) (ns : list nat) : Prop :=
  match ns with
  | [] => True
  | n :: ns => (0 < n <= rem)%nat /\ Z.of_nat n <= WRITE_CHUNK /\ takes (rem - n) ns
  end.

Lemma takes_app rem ns1 ns2 :
  takes rem (ns1 ++ ns2) <-> takes rem ns1 /\ takes (rem - sum_list ns1) ns2.
Proof.
  revert rem. induction ns1 as [|n ns1 IH]; intros rem; cbn [takes app].
  - cbn. rewrite Nat.sub_0_r. tauto.
  - rewrite IH. change (sum_list (n :: ns1)) with (n + sum_list ns1)%nat.
    rewrite Nat.sub_add_distr. tauto.
Qed.

Section sending.
Variable fuel : nat.
Variable c : ptr.

(** What follows the last byte. *)
Definition finish (x : connection) : cmd world unit :=
  if negb (Z.land (c_flags x) CONNECTION_FLAG_KEEPALIVE =? 0) then begin_read fuel c
  else close_connection fuel c.

(** The bytes that an iteration offers to send. *)
Lemma offered x : wf (c_buffer x) -> 0 <= c_write_bytes x <= size (c_buffer x) ->
  exists len, (let rem := u64 (size (c_buffer x) - c_write_bytes x) in
               if rem <? WRITE_CHUNK then rem else WRITE_CHUNK) = Z.of_nat len /\
    CMem.read_bytes (mem (c_buffer x)) (c_write_bytes x) (Z.of_nat len) =
      Val (take len (unsent x)) /\
    (forall n, (n <= length (unsent x))%nat -> Z.of_nat n <= WRITE_CHUNK -> (n <= len)%nat).
Proof.
  intros [Hc Hs Hm] Hw. cbv zeta. rewrite wrap_small by (pow2; lia).
  assert (Z.of_nat (length (unsent x)) = size (c_buffer x) - c_write_bytes x) as Hu.
  { unfold unsent, contents. rewrite length_drop, length_take. lia. }
  set (len := Z.to_nat (Z.min (size (c_buffer x) - c_write_bytes x) WRITE_CHUNK)).
  unfold WRITE_CHUNK in *. exists len. split_and!.
  - destruct (Z.ltb_spec (size (c_buffer x) - c_write_bytes x) 4096); lia.
  - unfold CMem.read_bytes. destruct (Z.eqb_spec (Z.of_nat len) 0) as [E|E].
    + replace len with 0%nat by lia. done.
    + replace ((c_write_bytes x <? 0) || (Z.of_nat len <? 0) ||
        (Z.of_nat (length (mem (c_buffer x))) <? c_write_bytes x + Z.of_nat len)) with false by zlia.
      rewrite Nat2Z.id. unfold slice, unsent, contents.
      rewrite !take_drop_commute, take_take, Nat.min_l by lia. done.
  - lia.
Qed.

(** One iteration in which send takes [n] bytes. *)
Lemma send_step_sent h r x n l : conns r !! c = Some x -> wf (c_buffer x) ->
  0 <= c_write_bytes x <= size (c_buffer x) -> sends (outside r) = Sent n :: l ->
  takes (length (unsent x)) [n] ->
  send_step fuel c (World h r) =
    (if (n =? length (unsent x))%nat then _ ← finish x; mret (inr tt) else mret (inl tt))
      (World h (with_sent c x [take n (unsent x)] l r)).
Proof.
  intros Hx Hwf Hw Hr (Hn & Hchunk & _). pose proof Hwf as [Hc Hs Hm].
  destruct (offered x Hwf Hw) as (len & Hlen & Hread & Hle). specialize (Hle n ltac:(lia) Hchunk).
  assert (Z.of_nat (length (unsent x)) = size (c_buffer x) - c_write_bytes x) as Hu.
  { unfold unsent, contents. rewrite length_drop, length_take. lia. }
  unfold send_step. run_step. cbv zeta in Hlen |- *. rewrite Hlen. run_step.
  etransitivity; [eapply bind_run, ask_run; unfold pop_send; by rewrite Hr|]. cbv beta iota.
  run_step. rewrite take_take, Nat.min_l by lia.
  rewrite wrap_small by (pow2; lia). run_step.
  assert (length (concat [take n (unsent x)]) = n) as Hcat.
  { cbn. rewrite app_nil_r, length_take. lia. }
  assert (World h (set_conns (<[c := set_c_write_bytes (c_write_bytes x + Z.of_nat n) x]>
      (conns (made (SysSend (c_fd x) (take n (unsent x))) (set_outside (send_os l (outside r)) r))))
      (made (SysSend (c_fd x) (take n (unsent x))) (set_outside (send_os l (outside r)) r))) =
    World h (with_sent c x [take n (unsent x)] l r)) as E.
  { unfold with_sent, set_conns, made. rewrite Hcat. done. }
  change (MkOs (recvs (outside r)) l _ _ _ _ _ _ _ _ _ _ _) with (send_os l (outside r)).
  rewrite E. destruct (Nat.eqb_spec n (length (unsent x))).
  - by replace (c_write_bytes x + Z.of_nat n =? size (c_buffer x)) with true by zlia.
  - by replace (c_write_bytes x + Z.of_nat n =? size (c_buffer x)) with false by zlia.
Qed.

(** One iteration in which send takes nothing. *)
Lemma send_step_busy h r x l : conns r !! c = Some x -> wf (c_buffer x) ->
  0 <= c_write_bytes x <= size (c_buffer x) -> sends (outside r) = SendErr EAGAIN :: l ->
  send_step fuel c (World h r) = Val (inr tt, World h (set_outside (send_os l (outside r)) r)).
Proof.
  intros Hx Hwf Hw Hr. destruct (offered x Hwf Hw) as (len & Hlen & Hread & _).
  unfold send_step. run_step. cbv zeta in Hlen |- *. rewrite Hlen. run_step.
  etransitivity; [eapply bind_run, ask_run; unfold pop_send; by rewrite Hr|]. cbv beta iota.
  change (EAGAIN =? EPIPE) with false. change (EAGAIN =? EAGAIN) with true. cbn iota. by rewrite ret_run.
Qed.

(** One iteration in which send fails. *)
Lemma send_step_fails h r x errno l : conns r !! c = Some x -> wf (c_buffer x) ->
  0 <= c_write_bytes x <= size (c_buffer x) -> sends (outside r) = SendErr errno :: l ->
  errno <> EAGAIN -> errno <> EPIPE ->
  send_step fuel c (World h r) =
    (_ ← close_connection fuel c; mret (inr tt)) (World h (set_outside (send_os l (outside r)) r)).
Proof.
  intros Hx Hwf Hw Hr He Hp. destruct (offered x Hwf Hw) as (len & Hlen & Hread & _).
  unfold send_step. run_step. cbv zeta in Hlen |- *. rewrite Hlen. run_step.
  etransitivity; [eapply bind_run, ask_run; unfold pop_send; by rewrite Hr|]. cbv beta iota.
  replace (errno =? EPIPE) with false by zlia. by replace (errno =? EAGAIN) with false by zlia.
Qed.

(** One iteration in which the client has gone. *)
Lemma send_step_killed h r x l : conns r !! c = Some x -> wf (c_buffer x) ->
  0 <= c_write_bytes x <= size (c_buffer x) -> sends (outside r) = SendErr EPIPE :: l ->
  send_step fuel c (World h r) = Killed.
Proof.
  intros Hx Hwf Hw Hr. destruct (offered x Hwf Hw) as (len & Hlen & Hread & _).
  unfold send_step. run_step. cbv zeta in Hlen |- *. rewrite Hlen. run_step.
  by etransitivity; [eapply bind_run, ask_run; unfold pop_send; by rewrite Hr|].
Qed.

Lemma with_sent_conn x pieces l r : conns (with_sent c x pieces l r) !! c =
  Some (set_c_write_bytes (c_write_bytes x + Z.of_nat (length (concat pieces))) x).
Proof. apply lookup_insert_eq. Qed.

(** After a piece, the unsent bytes are the others. *)
Lemma unsent_rest x n : 0 <= c_write_bytes x -> (n <= length (unsent x))%nat ->
  unsent (set_c_write_bytes (c_write_bytes x + Z.of_nat (length (concat [take n (unsent x)]))) x) =
  drop n (unsent x).
Proof.
  intros Hw Hn. unfold unsent at 1. cbn [c_write_bytes set_c_write_bytes c_buffer concat].
  rewrite app_nil_r, length_take, Nat.min_l by lia. unfold unsent.
  rewrite drop_drop. f_equal. lia.
Qed.

(** Any number of iterations in which something is left unsent. *)
Lemma send_pieces ns : forall k h r x l, conns r !! c = Some x -> wf (c_buffer x) ->
  0 <= c_write_bytes x <= size (c_buffer x) -> sends (outside r) = (Sent <$> ns) ++ l ->
  takes (length (unsent x)) ns -> (sum_list ns < length (unsent x))%nat ->
  exists pieces, length <$> pieces = ns /\ concat pieces = take (sum_list ns) (unsent x) /\
    loop (length ns + k) (fun _ => send_step fuel c) tt (World h r) =
    loop k (fun _ => send_step fuel c) tt (World h (with_sent c x pieces l r)).
Proof.
  induction ns as [|n ns IH]; intros k h r x l Hx Hwf Hw Hr Ht Hsum.
  - exists []. split_and!; [done|by rewrite take_0|]. cbn [length Nat.add].
    assert (with_sent c x [] l r = r) as ->; [|done]. unfold with_sent, send_os. cbn in Hr |- *.
    rewrite <- Hr, app_nil_r, Z.add_0_r, insert_id.
    + by destruct r as [? ? ? ? ? [] ? ?].
    + rewrite Hx. by destruct x.
  - destruct Ht as (Hn & Hchunk & Ht). cbn [sum_list] in Hsum. change (sum_list_with id) with sum_list in *.
    cbn [sum_list_with id] in Hsum. change (sum_list_with id ns) with (sum_list ns) in Hsum.
    assert (send_step fuel c (World h r) = Val (inl tt,
      World h (with_sent c x [take n (unsent x)] ((Sent <$> ns) ++ l) r))) as Estep.
    { rewrite (send_step_sent h r x n ((Sent <$> ns) ++ l)) by done.
      destruct (Nat.eqb_spec n (length (unsent x))); [lia|done]. }
    set (x' := set_c_write_bytes (c_write_bytes x + Z.of_nat (length (concat [take n (unsent x)]))) x).
    assert (unsent x' = drop n (unsent x)) as Hu by (apply unsent_rest; lia).
    assert (Z.of_nat (length (unsent x)) = size (c_buffer x) - c_write_bytes x) as Hlen.
    { destruct Hwf. unfold unsent, contents. rewrite length_drop, length_take. lia. }
    assert (length (concat [take n (unsent x)]) = n) as Hcat.
    { cbn. rewrite app_nil_r, length_take. lia. }
    destruct (IH k h (with_sent c x [take n (unsent x)] ((Sent <$> ns) ++ l) r) x' l)
      as (pieces & Hp1 & Hp2 & E); try done.
    { apply with_sent_conn. }
    { unfold x'. cbn [c_write_bytes set_c_write_bytes c_buffer]. rewrite Hcat. lia. }
    { by rewrite Hu, length_drop. }
    { rewrite Hu, length_drop. lia. }
    exists (take n (unsent x) :: pieces). split_and!.
    + cbn. rewrite Hp1, length_take, Nat.min_l by lia. done.
    + cbn [concat]. rewrite Hp2, Hu. change (sum_list (n :: ns)) with (n + sum_list ns)%nat.
      by rewrite <- take_take_drop.
    + cbn [length Nat.add]. rewrite (loop_next _ _ _ _ _ _ Estep), E. unfold x'.
      by rewrite with_sent_twice.
Qed.
End sending.

(** send_data while something stays unsent: it stops where send would block, and
    closes the connection where send fails. *)
Section stopping.
Context (fuel : nat) (c : ptr) (h : heap) (r : rest) (x : connection) (ns : list nat) (l : list send_result).
Context (Hx : conns r !! c = Some x) (Hwf : wf (c_buffer x)) (Hw : 0 <= c_write_bytes x <= size (c_buffer x)).
Context (Ht : takes (length (unsent x)) ns) (Hf : (length ns < fuel)%nat).
Context (Hsum : (sum_list ns < length (unsent x))%nat).

Lemma send_data_stopped s (k : cmd world unit) :
  sends (outside r) = (Sent <$> ns) ++ s :: l ->
  (forall r x, conns r !! c = Some x -> wf (c_buffer x) -> 0 <= c_write_bytes x <= size (c_buffer x) ->
    sends (outside r) = s :: l -> send_step fuel c (World h r) =
      (_ ← k; mret (inr tt)) (World h (set_outside (send_os l (outside r)) r))) ->
  exists pieces, concat pieces = take (sum_list ns) (unsent x) /\ length <$> pieces = ns /\
    send_data fuel c (World h r) = k (World h (with_sent c x pieces l r)).
Proof.
  intros Hr Hstep. destruct (Nat.le_exists_sub (S (length ns)) fuel Hf) as (n & Hn & _).
  destruct (send_pieces fuel c ns (S n) h r x (s :: l)) as (pieces & Hp1 & Hp2 & E); try done.
  exists pieces. split_and!; [done|done|].
  unfold send_data. rewrite Hn at 1. replace (n + S (length ns))%nat with (length ns + S n)%nat by lia.
  rewrite E. erewrite loop_last; [by rewrite bind_unit|]. cbv beta.
  rewrite (Hstep _ (set_c_write_bytes
    (c_write_bytes x + Z.of_nat (length (concat pieces))) x)); try done.
  - apply with_sent_conn.
  - cbn [c_write_bytes set_c_write_bytes c_buffer]. rewrite Hp2, length_take.
    destruct Hwf. unfold unsent, contents in *. rewrite length_drop, length_take in *. lia.
Qed.

Lemma send_data_stops : sends (outside r) = (Sent <$> ns) ++ SendErr EAGAIN :: l ->
  exists pieces, concat pieces = take (sum_list ns) (unsent x) /\ length <$> pieces = ns /\
    send_data fuel c (World h r) = Val (tt, World h (with_sent c x pieces l r)).
Proof.
  intros Hr. setoid_rewrite <- (ret_run (S := world) tt). apply (send_data_stopped (SendErr EAGAIN) (mret tt)); [done|]. intros.
  by erewrite send_step_busy.
Qed.

Lemma send_data_fails errno : sends (outside r) = (Sent <$> ns) ++ SendErr errno :: l ->
  errno <> EAGAIN -> errno <> EPIPE ->
  exists pieces, concat pieces = take (sum_list ns) (unsent x) /\ length <$> pieces = ns /\
    send_data fuel c (World h r) = close_connection fuel c (World h (with_sent c x pieces l r)).
Proof.
  intros Hr He Hp. apply (send_data_stopped (SendErr errno)); [done|]. intros. by eapply send_step_fails.
Qed.

Lemma send_data_killed : sends (outside r) = (Sent <$> ns) ++ SendErr EPIPE :: l ->
  send_data fuel c (World h r) = Killed.
Proof.
  intros Hr. destruct (send_data_stopped (SendErr EPIPE) killed) as (pieces & _ & _ & E); [done| |exact E].
  intros. by erewrite send_step_killed.
Qed.
End stopping.

(** send_data when everything is sent. *)
Lemma send_data_ends fuel c h r x ns l :
  conns r !! c = Some x -> wf (c_buffer x) -> 0 <= c_write_bytes x <= size (c_buffer x) ->
  takes (length (unsent x)) ns -> (length ns < fuel)%nat -> (0 < sum_list ns)%nat ->
  sum_list ns = length (unsent x) -> sends (outside r) = (Sent <$> ns) ++ l ->
  exists pieces, concat pieces = take (sum_list ns) (unsent x) /\ length <$> pieces = ns /\
    send_data fuel c (World h r) = finish fuel c x (World h (with_sent c x pieces l r)).
Proof.
  intros Hx Hwf Hw Ht Hf Hpos Hsum Hr.
  destruct ns as [|n ns _] using rev_ind; [cbn in Hpos; lia|].
  rewrite sum_list_with_app in *. change (sum_list_with id ns) with (sum_list ns) in *.
  assert (sum_list_with id [n] = n) as Hn1 by (cbn; lia). rewrite Hn1 in *.
  apply takes_app in Ht as (Ht1 & Hn & Hchunk & _). rewrite length_app in Hf. cbn [length] in Hf.
  rewrite fmap_app, <- (assoc_L (++)) in Hr. cbn [fmap list_fmap app] in Hr.
  destruct (Nat.le_exists_sub (S (length ns)) fuel ltac:(lia)) as (k & Hk & _).
  destruct (send_pieces fuel c ns (S k) h r x (Sent n :: l)) as (pieces & Hp1 & Hp2 & E); try done; [lia|].
  set (x' := set_c_write_bytes (c_write_bytes x + Z.of_nat (length (concat pieces))) x).
  assert (Z.of_nat (length (unsent x)) = size (c_buffer x) - c_write_bytes x) as Hlen.
  { destruct Hwf. unfold unsent, contents. rewrite length_drop, length_take. lia. }
  assert (unsent x' = drop (sum_list ns) (unsent x)) as Hu.
  { unfold unsent, x'. cbn [c_write_bytes set_c_write_bytes c_buffer].
    rewrite Hp2, length_take, Nat.min_l, drop_drop by lia. f_equal. lia. }
  assert (length (unsent x') = n) as Hu' by (rewrite Hu, length_drop; lia).
  exists (pieces ++ [take n (unsent x')]). split_and!.
  - rewrite concat_app, Hp2, Hu. cbn [concat]. rewrite app_nil_r. by rewrite take_take_drop.
  - rewrite fmap_app, Hp1. cbn. by rewrite length_take, Hu', Nat.min_id.
  - unfold send_data. rewrite Hk at 1.
    replace (k + S (length ns))%nat with (length ns + S k)%nat by lia. rewrite E.
    erewrite loop_last; [by rewrite bind_unit|]. cbv beta.
    rewrite (send_step_sent fuel c h (with_sent c x pieces (Sent n :: l) r) x' n l); try done.
    + rewrite Hu', Nat.eqb_refl. unfold x'. by rewrite with_sent_twice.
    + apply with_sent_conn.
    + unfold x'. cbn [c_write_bytes set_c_write_bytes c_buffer]. rewrite Hp2, length_take. lia.
    + rewrite Hu'. cbn. lia.
Qed.

Module SendThm.

Definition ex_reply : connection :=
  MkConn 24 5 CONNECTION_STATE_OUT 0 (MkBuffer 8 8 (Some (bytes_of "abcdefgh"))) 0 zero_request.

(** C17: send_data sends the unsent bytes of the buffer, in order and each once,
    whatever part of what it is offered send takes each time.  When send would
    block, it returns with what has been sent counted, so that the next call goes
    on where this one stopped; with the last byte it goes back to reading if the
    connection is to be kept alive and closes it otherwise. *)
Theorem send_data_sends fuel c h r x ns l :
  conns r !! c = Some x -> wf (c_buffer x) -> 0 <= c_write_bytes x <= size (c_buffer x) ->
  takes (length (unsent x)) ns -> (length ns < fuel)%nat ->
  (sum_list ns < length (unsent x))%nat /\
    sends (outside r) = (Sent <$> ns) ++ SendErr EAGAIN :: l \/
  (0 < sum_list ns)%nat /\ sum_list ns = length (unsent x) /\
    sends (outside r) = (Sent <$> ns) ++ l ->
  exists pieces, concat pieces = take (sum_list ns) (unsent x) /\ length <$> pieces = ns /\
    send_data fuel c (World h r) =
      (if (sum_list ns <? length (unsent x))%nat then mret tt else finish fuel c x)
        (World h (with_sent c x pieces l r)).
Proof.
  intros Hx Hwf Hw Ht Hf [(Hsum & Hr)|(Hpos & Hsum & Hr)].
  - apply Nat.ltb_lt in Hsum as Hlt. rewrite Hlt. by apply send_data_stops.
  - replace (sum_list ns <? length (unsent x))%nat with false by (symmetry; apply Nat.ltb_ge; lia).
    by apply send_data_ends.
Qed.

(** A client that goes away before it has its answer takes the server with it.  When
    send finds the other end closed, after any pieces, SIGPIPE ends the process: send is
    called without MSG_NOSIGNAL, and nothing in src/ handles or ignores the signal. *)
Theorem gone_client_kills fuel c h r x ns l :
  conns r !! c = Some x -> wf (c_buffer x) -> 0 <= c_write_bytes x <= size (c_buffer x) ->
  takes (length (unsent x)) ns -> (length ns < fuel)%nat -> (sum_list ns < length (unsent x))%nat ->
  sends (outside r) = (Sent <$> ns) ++ SendErr EPIPE :: l ->
  send_data fuel c (World h r) = Killed.
Proof. apply send_data_killed. Qed.

(** *** Five bytes of eight, then no room, and all of eight in two pieces *)
Definition ex_sending (l : list send_result) : rest :=
  MkRest {[64 := ex_reply]} ∅ 0 0 MutexFree (MkOs [] l [] [] [] [] [] [] [] [] [] [] []) []
    (Db.Db.MkDb [] 0 Db.Db.Unlocked []).

Lemma send_data_sends_witness : exists h' r',
  send_data 9 64 (World ∅ (ex_sending [Sent 3; Sent 2; SendErr EAGAIN])) = Val (tt, World h' r') /\
  exists pieces, trace r' = SysSend 5 <$> pieces /\ concat pieces = bytes_of "abcde".
Proof.
  destruct (send_data_sends 9 64 ∅ (ex_sending [Sent 3; Sent 2; SendErr EAGAIN]) ex_reply [3; 2]%nat [])
    as (pieces & Hp & _ & E).
  - done.
  - by split.
  - by split.
  - vm_compute. split_and!; try done; lia.
  - cbn. lia.
  - left. split; [vm_compute; lia|done].
  - eexists _, _. split; [exact E|]. exists pieces. by split.
Defined.

Lemma gone_client_kills_witness :
  send_data 9 64 (World ∅ (ex_sending [Sent 3; SendErr EPIPE])) = Killed.
Proof.
  apply (gone_client_kills 9 64 ∅ (ex_sending [Sent 3; SendErr EPIPE]) ex_reply [3]%nat []).
  - done.
  - by split.
  - by split.
  - vm_compute. split_and!; try done; lia.
  - cbn. lia.
  - vm_compute. lia.
  - done.
Defined.
End SendThm.

