(* ===== verification/ConnSpec.v ===== *)
(** Specifications of the operations of a connection on its event, its timer and
    the lists it is in: close_connection gives everything back, begin_read and
    begin_send arm the timer and the event, accept_connection makes a connection
    or leaves no trace of it. *)
From stdpp Require Import sorting.
From S2P Require Import Prelude Buffer Http Request Heap Clist Rbtree RbtreeSpec RbtreeInv RbtreeDel.
From S2P Require Import RbtreeSearch Timer TimerSpec World Event EventSpec Connection.
Import Rbtree Rep Timer Event Clist ClistSpec Connection.

(** The event loop at [base]: its epoll descriptor and its tree of timers. *)
Definition loop_rep (base : ptr) (ep : Z) (t : tree) : heapProp :=
  ((base, Fd) ↦ ep ∗ rbtree_rep base t)%I.

(** The members of a struct event. *)
Record event := MkEvent { e_fd : Z; e_events : Z; e_flags : Z; e_cb : ptr; e_data : ptr }.

Definition event_rep (e : ptr) (m : event) : heapProp :=
  ((e, Fd) ↦ e_fd m ∗ (e, Events) ↦ e_events m ∗ (e, EventFlags) ↦ e_flags m ∗
   (e, EventCb) ↦ e_cb m ∗ (e, EventData) ↦ e_data m)%I.

Definition with_eflags (fl : Z) (m : event) : event :=
  MkEvent (e_fd m) (e_events m) fl (e_cb m) (e_data m).

(** The flags after a successful removal, or addition. *)
Definition flags_off (ret fl : Z) : Z :=
  if ret =? 0 then Z.land fl (Z.lnot EVENT_FLAG_ACTIVE) else fl.
Definition flags_on (ret fl : Z) : Z := if ret =? 0 then Z.lor fl EVENT_FLAG_ACTIVE else fl.

(** The result of epoll_ctl, and what it leaves. *)
Definition ctl_ret (r : rest) : Z := fst (pop_ctl (outside r)).
Definition ctl_rest (s : Z -> sys) (r : rest) : rest :=
  made (s (ctl_ret r)) (set_outside (snd (pop_ctl (outside r))) r).

Section events.
Variable base : ptr.
Variable ep : Z.

Lemma make_event_ok e m fd ev cb d (Q : unit -> heapProp) :
  event_rep e m ⊢ (event_rep e (MkEvent fd ev 0 cb d) -∗ Q tt) -∗ hwp (make_event e fd ev cb d) Q.
Proof.
  iIntros "(E1 & E2 & E3 & E4 & E5) HQ". unfold make_event. h_steps. iApply "HQ".
  unfold event_rep. cbn. iFrame.
Qed.

Lemma del_event_ok e m r (Q : Z -> rest -> heapProp) :
  event_rep e m ⊢ (base, Fd) ↦ ep -∗
  (event_rep e (with_eflags (flags_off (ctl_ret r) (e_flags m)) m) -∗ (base, Fd) ↦ ep -∗
   Q (if ctl_ret r =? 0 then OK else ERR) (ctl_rest (EpollDel (e_fd m)) r)) -∗
  wwp (del_event base e) Q r.
Proof.
  iIntros "(E1 & E2 & E3 & E4 & E5) B HQ". unfold del_event, ctl_ret, ctl_rest, flags_off, ctl_ret.
  w_step. w_step. iApply (hwp_load with "B"). iIntros "B".
  w_step. w_step. iApply (hwp_load with "E1"). iIntros "E1".
  w_step. w_step. destruct (pop_ctl (outside r)) as [ret o]. cbn [fst snd]. w_step. w_step.
  destruct (ret =? 0); cbn [negb].
  - w_step. w_step. iApply (hwp_load with "E3"). iIntros "E3".
    w_step. w_step. iApply (hwp_store with "E3"). iIntros "E3". w_step.
    iApply ("HQ" with "[-B] B"). unfold event_rep. cbn. iFrame.
  - w_step. iApply ("HQ" with "[-B] B"). unfold event_rep. cbn. iFrame.
Qed.

Lemma add_event_ok e m r (Q : Z -> rest -> heapProp) :
  event_rep e m ⊢ (base, Fd) ↦ ep -∗
  (event_rep e (with_eflags (flags_on (ctl_ret r) (e_flags m)) m) -∗ (base, Fd) ↦ ep -∗
   Q (if ctl_ret r =? 0 then OK else ERR)
     (ctl_rest (fun ret => EpollAdd (e_fd m) (e_events m) e ret) r)) -∗
  wwp (add_event base e) Q r.
Proof.
  iIntros "(E1 & E2 & E3 & E4 & E5) B HQ". unfold add_event, ctl_ret, ctl_rest, flags_on, ctl_ret.
  w_step. w_step. iApply (hwp_load with "E2"). iIntros "E2".
  w_step. w_step. iApply (hwp_load with "B"). iIntros "B".
  w_step. w_step. iApply (hwp_load with "E1"). iIntros "E1".
  w_step. w_step. destruct (pop_ctl (outside r)) as [ret o]. cbn [fst snd]. w_step. w_step.
  destruct (ret =? 0); cbn [negb].
  - w_step. w_step. iApply (hwp_load with "E3"). iIntros "E3".
    w_step. w_step. iApply (hwp_store with "E3"). iIntros "E3". w_step.
    iApply ("HQ" with "[-B] B"). unfold event_rep. cbn. iFrame.
  - w_step. iApply ("HQ" with "[-B] B"). unfold event_rep. cbn. iFrame.
Qed.
End events.

(** ** The timer of a connection

    [timer_of c m t t1]: the timer at [c] is [m]; either it is active and [removable]
    from [t], which leaves [t1], or it is not
    active, in no tree, and [t1] is [t]. *)
Definition timer_of (c : ptr) (m : timer) (t t1 : tree) : heapProp :=
  (⌜is_active (flags m) = true /\ removable c m t t1⌝ ∨
   ⌜is_active (flags m) = false /\ t1 = t⌝ ∗ loose_timer c m)%I.

(** Whatever [del_timer] has left, and no longer active. *)
Definition stopped (m : timer) : timer :=
  if is_active (flags m) then with_flags (deactivated (flags m)) m else m.

Lemma stopped_inactive m : is_active (flags (stopped m)) = false.
Proof. unfold stopped. destruct (is_active (flags m)) eqn:E; [apply active_deactivated|done]. Qed.

Lemma stop_timer_ok base c m t t1 fuel r (Q : Z -> rest -> heapProp) :
  rb_ok t -> (height t < fuel)%nat ->
  rbtree_rep base t ⊢ timer_of c m t t1 -∗
  (∀ ret, ⌜rb_ok t1 /\ (length (entries t1) <= length (entries t))%nat⌝ -∗ rbtree_rep base t1 -∗
     loose_timer c (stopped m) -∗ Q ret r) -∗
  wwp (del_timer fuel base c) Q r.
Proof.
  intros Hrb Hf. unfold timer_of, stopped. iIntros "H [[%Ha %Hr]|[[%Ha ->] T]] HQ";
    rewrite Ha; unfold del_timer; w_step.
  - destruct (removable_entries c m t t1 Hrb Hr) as (Hrb1 & es1 & es2 & He & He1).
    destruct Hr as (col & l & r0 & k & -> & Hlr & Hd).
    iApply (del_timer_ok with "H"); [done..|]. iIntros "H T". iApply ("HQ" with "[%] H T").
    split; [done|]. rewrite He, He1, !length_app. cbn. lia.
  - unfold loose_timer, free_node. iDestruct "T" as "(%Hc & T & P)".
    iApply (del_inactive_ok with "P"); [done|]. iIntros "P". iApply ("HQ" with "[%] H"); [done|].
    by iFrame.
Qed.

(** ** close_connection *)

(** Every member of a connection. *)
Lemma conn_block : block conn_members.
Proof.
  intros p. unfold conn_members. split.
  - repeat (apply NoDup_cons; split; [set_solver|]). apply NoDup_nil_2.
  - repeat (constructor; [cbn; lia|]). constructor.
Qed.

Lemma conn_free c m e n p : loose_timer c m ∗ event_rep c e ∗ (c, Next) ↦ n ∗ (c, Prev) ↦ p ⊢
  [∗ list] l ∈ conn_members c, ∃ v, pointsto l v.
Proof.
  unfold loose_timer, free_node. rewrite timer_payload. unfold event_rep, conn_members.
  iIntros "((_ & (% & % & % & % & T1 & T2 & T3 & T4) & T5 & T6 & T7 & T8 & T9) &
    (E1 & E2 & E3 & E4 & E5) & N & P)". cbn. iFrame.
Qed.

(** The world without the connection [c], which was [x], of a worker that was
    [y]; [fd] is the descriptor in its event. *)
Definition closed (c : ptr) (x : connection) (y : worker) (fd : Z) (r : rest) : rest :=
  set_conns (delete c (conns r))
    (made (SysClose (c_fd x))
      (ctl_rest (EpollDel fd)
        (set_workers (<[c_worker x := set_num_conns (u64 (w_num_conns y - 1)) y]> (workers r)) r))).

(** [T] is what del_timer needs and [T'] what it leaves. *)
Lemma close_connection_gen fuel c x y ep e a l1 l2 b (T T' : heapProp) r (Q : unit -> rest -> heapProp) :
  conns r !! c = Some x -> workers r !! c_worker x = Some y ->
  (forall r (R : Z -> rest -> heapProp),
     T ⊢ (∀ ret m, T' -∗ loose_timer c m -∗ R ret r) -∗ wwp (del_timer fuel (w_base y) c) R r) ->
  T ⊢ (w_base y, Fd) ↦ ep -∗ event_rep c e -∗ links a (l1 ++ c :: l2) b -∗
  (T' -∗ (w_base y, Fd) ↦ ep -∗ links a (l1 ++ l2) b -∗ Q tt (closed c x y (e_fd e) r)) -∗
  wwp (close_connection fuel c) Q r.
Proof.
  intros Hx Hy HT. iIntros "T B E L HQ". unfold close_connection.
  w_step. w_step. cbv zeta. w_step. w_step. w_step.
  iApply wwp_worker; [apply lookup_insert_eq|]. cbn [w_base set_num_conns].
  w_step. iApply (del_event_ok with "E B"). iIntros "E B".
  w_step. iApply (HT with "T"). iIntros (ret m) "T C".
  w_step. w_step. w_step. w_step. iApply (list_del_ok with "L"). iIntros "(L & N & P)".
  w_step. unfold drop_conn. iApply wwp_rest; [done|]. w_step.
  iApply (hwp_free with "[C E N P]"). { iApply conn_free. iFrame. }
  iApply ("HQ" with "T B L").
Qed.

Lemma close_connection_ok fuel c x y ep t m t1 e a l1 l2 b r (Q : unit -> rest -> heapProp) :
  conns r !! c = Some x -> workers r !! c_worker x = Some y ->
  rb_ok t -> (height t < fuel)%nat ->
  loop_rep (w_base y) ep t ⊢ timer_of c m t t1 -∗ event_rep c e -∗ links a (l1 ++ c :: l2) b -∗
  (⌜rb_ok t1 /\ (length (entries t1) <= length (entries t))%nat⌝ -∗
   loop_rep (w_base y) ep t1 -∗ links a (l1 ++ l2) b -∗ Q tt (closed c x y (e_fd e) r)) -∗
  wwp (close_connection fuel c) Q r.
Proof.
  intros Hx Hy Hrb Hf. iIntros "[B H] T E L HQ".
  iApply (close_connection_gen fuel c x y ep e a l1 l2 b
    (rbtree_rep (w_base y) t ∗ timer_of c m t t1)%I
    (⌜rb_ok t1 /\ (length (entries t1) <= length (entries t))%nat⌝ ∗ rbtree_rep (w_base y) t1)%I
    with "[$H $T] B E L [HQ]"); [done|done| |].
  - intros r' R. iIntros "[H T] HR". iApply (stop_timer_ok with "H T"); [done..|].
    iIntros (ret Hr1) "H T". iApply ("HR" with "[$H] T"). done.
  - iIntros "[%Hr1 H] B L". iApply ("HQ" with "[//] [B H] L"). unfold loop_rep. iFrame.
Qed.

(** From a timer's callback, which runs when the timer is out of the tree. *)
Lemma close_expired_ok fuel c x y ep m e a l1 l2 b r (Q : unit -> rest -> heapProp) :
  conns r !! c = Some x -> workers r !! c_worker x = Some y -> is_active (flags m) = false ->
  loose_timer c m ⊢ (w_base y, Fd) ↦ ep -∗ event_rep c e -∗ links a (l1 ++ c :: l2) b -∗
  ((w_base y, Fd) ↦ ep -∗ links a (l1 ++ l2) b -∗ Q tt (closed c x y (e_fd e) r)) -∗
  wwp (close_connection fuel c) Q r.
Proof.
  intros Hx Hy Ha. iIntros "T B E L HQ".
  iApply (close_connection_gen fuel c x y ep e a l1 l2 b (loose_timer c m) emp%I
    with "T B E L [HQ]"); [done|done| |].
  - intros r' R. unfold loose_timer, free_node. iIntros "(%Hc & T & P) HR". unfold del_timer.
    w_step. iApply (del_inactive_ok with "P"); [done|]. iIntros "P". iApply "HR"; [done|].
    iFrame. done.
  - iIntros "_ B L". iApply ("HQ" with "B L").
Qed.

(** ** reset_connection, begin_read and begin_send *)

Lemma iterations_mono a b : (a <= b)%nat -> (iterations a <= iterations b)%nat.
Proof. intros H. unfold iterations. pose proof (Nat.log2_le_mono (S a) (S b)). lia. Qed.

(** The timer that reset_connection makes, and arms. *)
Definition idle_timer (c : ptr) : timer :=
  MkTimer 0 TIMEOUT TIMER_FLAG_ONESHOT TIMEOUT_CALLBACK c.

Definition clock_now (r : rest) : Z := get_time (fst (pop_clock (outside r))).

(** The tree with the timer of [c] armed at the time [r] shows. *)
Definition rearmed (c : ptr) (r : rest) (t : tree) : tree :=
  rb_insert c (members (armed (clock_now r) (idle_timer c))) t.

Definition reset_conn (x : connection) : connection :=
  set_c_write_bytes 0 (set_c_req Request.zero_request x).
Definition reset_event (r : rest) (e : event) : event :=
  if event_active (e_flags e) then with_eflags (flags_off (ctl_ret r) (e_flags e)) e else e.

(** The rest of the world after reset_connection. *)
Definition reset (c : ptr) (x : connection) (e : event) (r : rest) : rest :=
  let r := set_conns (<[c := reset_conn x]> (conns r))
             (set_outside (snd (pop_clock (outside r))) r) in
  if event_active (e_flags e) then ctl_rest (EpollDel (e_fd e)) r else r.

Lemma reset_conns c x e r : conns (reset c x e r) !! c = Some (reset_conn x).
Proof. unfold reset, ctl_rest. destruct (event_active _); apply lookup_insert_eq. Qed.

Lemma reset_workers c x e r : workers (reset c x e r) = workers r.
Proof. unfold reset, ctl_rest. by destruct (event_active _). Qed.

Lemma add_timer_world_ok base c m t fuel r (Q : Z -> rest -> heapProp) :
  is_active (flags m) = false -> rb_ok t -> (height t < fuel)%nat ->
  rbtree_rep base t ⊢ loose_timer c m -∗
  (rbtree_rep base (rb_insert c (members (armed (clock_now r) m)) t) -∗
   Q OK (set_outside (snd (pop_clock (outside r))) r)) -∗
  wwp (add_timer fuel base c) Q r.
Proof.
  intros Ha Hrb Hf. unfold loose_timer, free_node, clock_now. rewrite timer_payload.
  iIntros "H (%Hc & T & T1 & T2 & T3 & T4 & T5) HQ". unfold add_timer. w_step. w_step.
  iApply (hwp_load with "T3"). iIntros "T3". rewrite Ha. w_step. iApply wwp_now.
  destruct (pop_clock (outside r)) as [ts o]. cbn [fst snd]. w_step.
  iApply (add_timer_ok with "H [-HQ] HQ"); [done..|].
  unfold loose_timer, free_node. rewrite timer_payload. iFrame. done.
Qed.

(** The flags of a timer, wherever it is. *)
Lemma timer_flags_ok base c m t t1 (Q : Z -> heapProp) :
  rbtree_rep base t ⊢ timer_of c m t t1 -∗
  (rbtree_rep base t -∗ timer_of c m t t1 -∗ Q (flags m)) -∗ hwp (hload (c, TimerFlags)) Q.
Proof.
  unfold timer_of. iIntros "H [[%Ha %Hr]|[[%Ha ->] T]] HQ".
  - destruct Hr as (col & l & r & k & -> & Hr).
    iDestruct (focus_payload with "H") as "(_ & P & H)". rewrite timer_payload.
    iDestruct "P" as "(P1 & P2 & P3 & P4 & P5)". h_step.
    iApply ("HQ" with "[-]"); [iApply "H"; rewrite timer_payload; iFrame|].
    iLeft. iPureIntro. split; [done|]. by exists col, l, r, k.
  - unfold loose_timer, free_node. rewrite timer_payload.
    iDestruct "T" as "(%Hc & T & P1 & P2 & P3 & P4 & P5)". h_step.
    iApply ("HQ" with "H"). iRight. iSplit; [done|]. iFrame. done.
Qed.

(** What reset_connection does to the timer before it arms it again. *)
Lemma drop_timer_ok base c m t t1 fuel r (Q : unit -> rest -> heapProp) :
  rb_ok t -> (height t < fuel)%nat ->
  rbtree_rep base t ⊢ timer_of c m t t1 -∗
  (⌜rb_ok t1 /\ (length (entries t1) <= length (entries t))%nat⌝ -∗ rbtree_rep base t1 -∗
   loose_timer c (stopped m) -∗ Q tt r) -∗
  wwp (when (is_active (flags m)) (_ ← del_timer fuel base c; mret tt)) Q r.
Proof.
  intros Hrb Hf. iIntros "H T HQ". destruct (is_active (flags m)) eqn:Ha; cbn [when].
  - w_step. iApply (stop_timer_ok with "H T"); [done..|]. iIntros (ret Hr) "H T". w_step.
    by iApply ("HQ" with "[//] H T").
  - w_step. unfold timer_of, stopped. rewrite Ha.
    iDestruct "T" as "[[% _]|[[_ ->] T]]"; [done|]. by iApply ("HQ" with "[//] H T").
Qed.

(** And to the event. *)
Lemma drop_event_ok base ep c e r (Q : unit -> rest -> heapProp) :
  event_rep c e ⊢ (base, Fd) ↦ ep -∗
  (event_rep c (reset_event r e) -∗ (base, Fd) ↦ ep -∗
   Q tt (if event_active (e_flags e) then ctl_rest (EpollDel (e_fd e)) r else r)) -∗
  wwp (when (event_active (e_flags e)) (_ ← del_event base c; mret tt)) Q r.
Proof.
  iIntros "E B HQ". unfold reset_event. destruct (event_active (e_flags e)); cbn [when]; w_step.
  - iApply (del_event_ok with "E B"). iIntros "E B". w_step. iApply ("HQ" with "E B").
  - iApply ("HQ" with "E B").
Qed.

Lemma ctl_after_clock o r :
  ctl_ret (set_outside (snd (pop_clock o)) r) = fst (pop_ctl o).
Proof. unfold ctl_ret, pop_ctl, pop_clock. by destruct o as [? ? [] ? ? [] ? ? ? ? ? ?]. Qed.

Lemma reset_connection_ok fuel c x y ep t m t1 e r (Q : Z -> rest -> heapProp) :
  conns r !! c = Some x -> workers r !! c_worker x = Some y ->
  rb_ok t -> (iterations (length (entries t)) <= fuel)%nat ->
  loop_rep (w_base y) ep t ⊢ timer_of c m t t1 -∗ event_rep c e -∗
  (⌜rb_ok t1 /\ (length (entries t1) <= length (entries t))%nat⌝ -∗
   loop_rep (w_base y) ep (rearmed c r t1) -∗ event_rep c (reset_event r e) -∗
   Q OK (reset c x e r)) -∗
  wwp (reset_connection fuel c) Q r.
Proof.
  intros Hx Hy Hrb Hf. iIntros "[B H] T E HQ". pose proof (rb_ok_height t Hrb).
  unfold reset_connection. w_step. w_step. w_step. w_step. w_step. w_step.
  w_step. iApply wwp_set_conn; [apply lookup_insert_eq|]. cbn [conns set_conns].
  rewrite insert_insert_eq. fold (reset_conn x). set (r1 := set_conns _ (set_conns _ r)).
  w_step. w_step. iApply (timer_flags_ok with "H T"). iIntros "H T".
  w_step. iApply (drop_timer_ok with "H T"); [done|lia|]. iIntros "%Hr1 H T".
  w_step. w_step. iApply (make_timer_ok with "T"). iIntros "T". fold (idle_timer c).
  w_step. pose proof (rb_ok_height t1 (proj1 Hr1)). pose proof (iterations_mono _ _ (proj2 Hr1)).
  iApply (add_timer_world_ok with "H T"); [done|apply Hr1|lia|]. iIntros "H".
  change (negb (OK =? OK)) with false. cbn iota.
  iDestruct "E" as "(E1 & E2 & E3 & E4 & E5)".
  w_step. w_step. iApply (hwp_load with "E3"). iIntros "E3".
  w_step. iApply (drop_event_ok _ _ c e with "[E1 E2 E3 E4 E5] B"); [unfold event_rep; iFrame|].
  iIntros "E B". w_step. unfold reset_event. rewrite ctl_after_clock.
  iApply ("HQ" with "[//] [B H] E"). unfold loop_rep, rearmed. iFrame.
Qed.

(** The connection once it is about to read, or to send. *)
Definition reading_conn (x : connection) : connection :=
  set_c_state CONNECTION_STATE_IN (set_c_buffer (Buffer.clear_buffer (c_buffer x)) (reset_conn x)).
Definition sending_conn (x : connection) : connection :=
  set_c_state CONNECTION_STATE_OUT (reset_conn x).

(** The rest of the world after the reset and the addition of the event. *)
Definition armed_rest (c : ptr) (x x' : connection) (e : event) (ev : Z) (r : rest) : rest :=
  ctl_rest (fun ret => EpollAdd (c_fd x) ev c ret)
    (set_conns (<[c := x']> (conns r)) (reset c x e r)).
Definition armed_ret (c : ptr) (x : connection) (e : event) (r : rest) : Z :=
  ctl_ret (reset c x e r).
Definition armed_event (c : ptr) (x : connection) (e : event) (ev : Z) (r : rest) : event :=
  MkEvent (c_fd x) ev (flags_on (armed_ret c x e r) 0) IO_CALLBACK c.

Lemma reset_conns_eq c x e r : conns (reset c x e r) = <[c := reset_conn x]> (conns r).
Proof. unfold reset, ctl_rest. by destruct (event_active _). Qed.

Section arming.
Variable fuel : nat.
Variables (c : ptr) (x : connection) (y : worker) (ep : Z) (t t1 : tree) (m : timer) (e : event).
Variable r : rest.
Hypothesis Hx : conns r !! c = Some x.
Hypothesis Hy : workers r !! c_worker x = Some y.
Hypothesis Hrb : rb_ok t.
Hypothesis Hf : (iterations (length (entries t)) <= fuel)%nat.

(** What is left to do once the event has been added, or not. *)
Lemma begin_read_ok (Q : unit -> rest -> heapProp) :
  loop_rep (w_base y) ep t ⊢ timer_of c m t t1 -∗ event_rep c e -∗
  (⌜rb_ok t1 /\ (length (entries t1) <= length (entries t))%nat⌝ -∗
   loop_rep (w_base y) ep (rearmed c r t1) -∗
   event_rep c (armed_event c x e (Z.lor EPOLLIN EPOLLET) r) -∗
   wwp (if armed_ret c x e r =? 0 then mret tt else close_connection fuel c) Q
     (armed_rest c x (reading_conn x) e (Z.lor EPOLLIN EPOLLET) r)) -∗
  wwp (begin_read fuel c) Q r.
Proof.
  iIntros "L T E HQ". unfold begin_read. w_step. w_step. cbv zeta.
  w_step. iApply (reset_connection_ok with "L T E"); [done..|]. iIntros "%Hr1 [B H] E".
  change (negb (OK =? OK)) with false. cbn iota.
  w_step. iApply wwp_set_conn; [apply reset_conns|].
  w_step. iApply wwp_set_conn; [apply lookup_insert_eq|].
  w_step. iApply wwp_conn; [apply lookup_insert_eq|].
  cbn [conns set_conns]. rewrite reset_conns_eq, !insert_insert_eq.
  fold (reading_conn x). set (r1 := set_conns _ (set_conns _ _)).
  assert (workers r1 !! c_worker x = Some y) as Hy1 by (cbn; by rewrite reset_workers).
  w_step. w_step. iApply (make_event_ok with "E"). iIntros "E". w_step. w_step.
  w_step. iApply (add_event_ok with "E B"). iIntros "E B".
  iSpecialize ("HQ" with "[//] [B H] E"); [unfold loop_rep; iFrame|].
  change (ctl_ret r1) with (armed_ret c x e r).
  by destruct (armed_ret c x e r =? 0).
Qed.

Lemma begin_send_ok (Q : unit -> rest -> heapProp) :
  loop_rep (w_base y) ep t ⊢ timer_of c m t t1 -∗ event_rep c e -∗
  (⌜rb_ok t1 /\ (length (entries t1) <= length (entries t))%nat⌝ -∗
   loop_rep (w_base y) ep (rearmed c r t1) -∗
   event_rep c (armed_event c x e (Z.lor EPOLLOUT EPOLLET) r) -∗
   wwp (if armed_ret c x e r =? 0 then send_data fuel c else close_connection fuel c) Q
     (armed_rest c x (sending_conn x) e (Z.lor EPOLLOUT EPOLLET) r)) -∗
  wwp (begin_send fuel c) Q r.
Proof.
  iIntros "L T E HQ". unfold begin_send. w_step. w_step. cbv zeta.
  w_step. iApply (reset_connection_ok with "L T E"); [done..|]. iIntros "%Hr1 [B H] E".
  change (negb (OK =? OK)) with false. cbn iota.
  w_step. iApply wwp_set_conn; [apply reset_conns|].
  w_step. iApply wwp_conn; [apply lookup_insert_eq|].
  cbn [conns set_conns]. rewrite reset_conns_eq, !insert_insert_eq.
  fold (sending_conn x). set (r1 := set_conns _ _).
  assert (workers r1 !! c_worker x = Some y) as Hy1 by (cbn; by rewrite reset_workers).
  w_step. w_step. iApply (make_event_ok with "E"). iIntros "E". w_step. w_step.
  w_step. iApply (add_event_ok with "E B"). iIntros "E B".
  iSpecialize ("HQ" with "[//] [B H] E"); [unfold loop_rep; iFrame|].
  change (ctl_ret r1) with (armed_ret c x e r).
  by destruct (armed_ret c x e r =? 0).
Qed.
End arming.

(** ** accept_connection *)

(** A connection as calloc and accept_connection leave it for begin_read. *)
Definition new_conn (w : ptr) (fd : Z) : connection :=
  MkConn w fd CONNECTION_STATE_IN 0 (Buffer.MkBuffer 0 0 None) 0 Request.zero_request.
Definition zero_event : event := MkEvent 0 0 0 0 0.

(** The answers that make a connection: accept gives [fd], and [o'] is left. *)
Definition accepts_fd (o : os) (fd : Z) (o' : os) : Prop :=
  exists ret o1 o2 o3 g, pop_accept o = (fd, o1) /\ 0 <= fd /\ pop_fcntl o1 = (ret, o2) /\ 0 <= ret /\
    pop_calloc o2 = (true, o3) /\ pop_alloc o3 = (Some g, o').

Lemma accept_connection_ok fuel w y ep t xs fd o' r (Q : Z -> rest -> heapProp) :
  workers r !! w = Some y -> accepts_fd (outside r) fd o' ->
  rb_ok t -> (iterations (length (entries t)) <= fuel)%nat ->
  loop_rep (w_base y) ep t ⊢ ring (conns_head w) xs -∗
  (∀ c, ⌜0 < c⌝ -∗
   let r0 := set_conns (<[c := new_conn w fd]> (conns r)) (set_outside o' r) in
   let x := new_conn w fd in
   loop_rep (w_base y) ep (rearmed c r0 t) -∗
   event_rep c (armed_event c x zero_event (Z.lor EPOLLIN EPOLLET) r0) -∗
   ring (conns_head w) (xs ++ [c]) -∗
   wwp (if armed_ret c x zero_event r0 =? 0 then mret tt else close_connection fuel c)
     (fun _ r' => Q OK r') (armed_rest c x (reading_conn x) zero_event (Z.lor EPOLLIN EPOLLET) r0)) -∗
  wwp (accept_connection fuel w) Q r.
Proof.
  intros Hy (ret & o1 & o2 & o3 & g & Ha & Hfd & Hf & Hret & Hc & Hb) Hrb Hfuel.
  iIntros "L R HQ". unfold accept_connection. w_step. w_step. w_step. w_step. rewrite Ha.
  replace (fd <? 0) with false by zlia. w_step. w_step. cbn [outside set_outside]. rewrite Hf.
  replace (ret <? 0) with false by zlia. w_step. w_step. cbn [outside set_outside]. rewrite Hc.
  w_step. w_step. iApply hwp_alloc; [apply conn_block|]. iIntros (c Hc0) "M".
  w_step. w_step. cbn [outside set_outside]. rewrite Hb. cbn [Buffer.create_buffer].
  w_step. unfold add_conn. iApply wwp_rest; [done|]. fold (new_conn w fd).
  cbn [conns set_outside]. set (r0 := set_conns _ _).
  unfold conn_members. cbn [big_opL].
  iDestruct "M" as "(P & N & E1 & E2 & E3 & E4 & E5 & T1 & T2 & T3 & T4 & T5 & T6 & T7 & T8 & T9 & _)".
  w_step. w_step. iApply (list_add_tail_ok with "[$R N P]"); [unfold unlinked; iFrame|]. iIntros "R".
  w_step. iApply (begin_read_ok fuel c (new_conn w fd) y ep t t (MkTimer 0 0 0 0 0) zero_event r0
    with "L [T1 T2 T3 T4 T5 T6 T7 T8 T9] [E1 E2 E3 E4 E5]"); try done.
  { apply lookup_insert_eq. }
  { iRight. iSplit; [done|]. unfold loose_timer, free_node. rewrite timer_payload. cbn. iFrame.
    iPureIntro. unfold RBNIL, NULL. lia. }
  { unfold event_rep. cbn. iFrame. }
  iIntros "_ L E". iApply (wwp_wand with "[-]"); [iApply ("HQ" with "[//] L E R")|].
  iIntros ([] r') "HQ". by w_step.
Qed.
