(* ===== verification/ConnThm.v ===== *)
(** The theorems on the life of a connection, as statements about running
    connection.c. *)
From stdpp Require Import sorting.
From S2P Require Import Prelude Buffer Http Request Heap Clist Rbtree RbtreeSpec RbtreeInv RbtreeDel.
From S2P Require Db.
From S2P Require Import RbtreeSearch Timer TimerSpec RbtreeThm World Event EventSpec Connection ConnSpec.
Import Rbtree Rep Timer Event Clist ClistSpec Connection.

(** ** The tree after a timer has been removed, or put last *)

(** A timer that triggers after all the others comes last. *)
Lemma rearmed_last c r t : ordered t ->
  Forall (fun e => node_key (snd e) < trigger_at (clock_now r) TIMEOUT) (entries t) ->
  entries (rearmed c r t) = entries t ++ [(c, members (armed (clock_now r) (idle_timer c)))].
Proof.
  intros Ho Hlt. unfold rearmed.
  destruct (entries_insert c (members (armed (clock_now r) (idle_timer c))) t Ho)
    as (l1 & l2 & He & -> & _ & H2). rewrite He in *. apply Forall_app in Hlt as [_ Hlt].
  destruct l2 as [|e l2]; [by rewrite app_nil_r|]. exfalso.
  apply Forall_cons in H2 as [H2 _]. apply Forall_cons in Hlt as [Hlt _].
  unfold not_smaller in H2. cbn in H2, Hlt. lia.
Qed.

(** The last timer can be taken out again. *)
Lemma last_removable c m t es : rb_ok t -> entries t = es ++ [(c, members m)] ->
  exists t1, removable c m t t1 /\ entries t1 = es.
Proof.
  intros Hrb He. destruct (position _ _ _ _ _ He) as (col & l & r & k & -> & H1 & H2).
  assert (r = E) as ->. { apply app_eq_nil in H2 as [H2 _]. by apply entries_nil in H2. }
  destruct (delete_at col l c (members m) E k) as [[t1 y] vy] eqn:Hd.
  destruct (delete_at_one _ _ _ _ _ _ _ _ _ (or_intror eq_refl) Hrb Hd) as (-> & -> & _ & He1).
  exists t1. split; [by exists col, l, E, k; split_and!; [|right|]|].
  rewrite He1, H1, H2. by rewrite app_nil_r.
Qed.

(** ** Failures of accept_connection *)

(** The rest of the world after some answers have been used, up to [o], and the
    calls [tr] made. *)
Definition traced (o : os) (tr : list sys) (r : rest) : rest :=
  MkRest (conns r) (workers r) (num_workers r) (current_id r) (worker_lock r) o (trace r ++ tr) (store r).

(** [accept_fails o o' tr]: with the answers [o], one of the calls of
    accept_connection before the list is touched fails; [o'] is left, and [tr]
    what has been done to the descriptor. *)
Inductive accept_fails (o : os) : os -> list sys -> Prop :=
  | fails_accept fd o1 : pop_accept o = (fd, o1) -> fd < 0 -> accept_fails o o1 []
  | fails_fcntl fd o1 ret o2 : pop_accept o = (fd, o1) -> 0 <= fd -> pop_fcntl o1 = (ret, o2) ->
      ret < 0 -> accept_fails o o2 [SysClose fd]
  | fails_calloc fd o1 ret o2 o3 : pop_accept o = (fd, o1) -> 0 <= fd -> pop_fcntl o1 = (ret, o2) ->
      0 <= ret -> pop_calloc o2 = (false, o3) -> accept_fails o o3 [SysClose fd]
  | fails_buffer fd o1 ret o2 o3 o4 : pop_accept o = (fd, o1) -> 0 <= fd ->
      pop_fcntl o1 = (ret, o2) -> 0 <= ret -> pop_calloc o2 = (true, o3) ->
      pop_alloc o3 = (None, o4) -> accept_fails o o4 [SysClose fd].

(** There is nothing else. *)
Lemma accept_cases o : (exists fd o', accepts_fd o fd o') \/ (exists o' tr, accept_fails o o' tr).
Proof.
  destruct (pop_accept o) as [fd o1] eqn:E1. destruct (Z.ltb_spec fd 0).
  { right. eexists _, _. by eapply fails_accept. }
  destruct (pop_fcntl o1) as [ret o2] eqn:E2. destruct (Z.ltb_spec ret 0).
  { right. eexists _, _. by eapply fails_fcntl. }
  destruct (pop_calloc o2) as [[|] o3] eqn:E3.
  2: { right. eexists _, _. by eapply fails_calloc. }
  destruct (pop_alloc o3) as [[g|] o4] eqn:E4.
  - left. exists fd, o4. by exists ret, o1, o2, o3, g.
  - right. eexists _, _. by eapply fails_buffer.
Qed.

Lemma close_run fd h r : close fd (World h r) = Val (tt, World h (made (SysClose fd) r)).
Proof. done. Qed.

Module ConnThm.
Import RbtreeThm Cells.

(** C16: close_connection gives back everything a connection has.  With its timer
    active at a node of the tree with at most one child, its descriptor is taken
    out of epoll and closed, once, its timer and no other leaves the tree, it
    leaves its worker's list of connections, the others staying in order, the
    worker counts one connection less, and its structure is released. *)
Theorem close_connection_releases fuel c x y ep col tl m tr k e head l1 l2 r :
  conns r !! c = Some x -> workers r !! c_worker x = Some y ->
  let t := plug (T col tl c (members m) tr) k in
  tl = E \/ tr = E -> is_active (flags m) = true ->
  rb_ok t -> (iterations (length (entries t)) <= fuel)%nat ->
  wtriple (loop_rep (w_base y) ep t ∗ event_rep c e ∗ ring head (l1 ++ c :: l2))%I r
    (close_connection fuel c)
    (fun _ r' => ring head (l1 ++ l2) ∗ (∃ t1, loop_rep (w_base y) ep t1 ∗
       ⌜rb_ok t1 /\ entries t = (before k ++ entries tl) ++ (c, members m) :: entries tr ++ after k /\
        entries t1 = (before k ++ entries tl) ++ entries tr ++ after k⌝) ∗
       ⌜r' = closed c x y (e_fd e) r⌝)%I.
Proof.
  intros Hx Hy t Hlr Ha Hrb Hf. pose proof (rb_ok_height t Hrb). apply wtriple_wwp.
  destruct (delete_at col tl c (members m) tr k) as [[t1 z] vz] eqn:Hd.
  destruct (delete_at_one _ _ _ _ _ _ _ _ _ Hlr Hrb Hd) as (-> & -> & Hrb1 & He1).
  iIntros "(L & E & R)".
  iApply (close_connection_ok fuel c x y ep t m t1 with "L [] E R"); [done|done|done|lia| |].
  - iLeft. iPureIntro. split; [done|]. by exists col, tl, tr, k.
  - iIntros "_ L R". iFrame. iPureIntro. split; [|done]. split; [done|].
    split; [apply entries_at|done].
Qed.

(** C14: begin_read makes a connection ready for the next request.  Whether or not its
    timer and its event were active, as long as an active timer is at a node of the tree
    with at most one child (reset_middle_crashes says what happens otherwise) and the
    clock has gone forward past the timers in the tree:
    the request and the write position are cleared, the buffer is emptied, the
    state is IN, the timer is armed for TIMEOUT milliseconds from now, behind the
    timers armed before, and the descriptor is registered for edge-triggered
    input.  When epoll_ctl refuses, the connection is closed instead and its timer
    is out of the tree. *)
Theorem begin_read_correct fuel c x y ep t m t1 e head l1 l2 r :
  conns r !! c = Some x -> workers r !! c_worker x = Some y ->
  rb_ok t -> ordered t -> (iterations (S (length (entries t))) <= fuel)%nat ->
  Forall (fun en => node_key (snd en) < trigger_at (clock_now r) TIMEOUT) (entries t) ->
  wtriple (loop_rep (w_base y) ep t ∗ timer_of c m t t1 ∗ event_rep c e ∗
      ring head (l1 ++ c :: l2))%I r
    (begin_read fuel c)
    (fun _ r' =>
       if armed_ret c x e r =? 0 then
         ring head (l1 ++ c :: l2) ∗
         event_rep c (MkEvent (c_fd x) (Z.lor EPOLLIN EPOLLET) EVENT_FLAG_ACTIVE IO_CALLBACK c) ∗
         (∃ t2, loop_rep (w_base y) ep t2 ∗ ⌜rb_ok t2 /\ ordered t2 /\ entries t2 =
            entries t1 ++ [(c, members (armed (clock_now r) (idle_timer c)))]⌝) ∗
         ⌜r' = armed_rest c x (reading_conn x) e (Z.lor EPOLLIN EPOLLET) r⌝
       else
         ring head (l1 ++ l2) ∗
         (∃ t2, loop_rep (w_base y) ep t2 ∗ ⌜rb_ok t2 /\ entries t2 = entries t1⌝) ∗
         ⌜r' = closed c (reading_conn x) y (c_fd x)
                 (armed_rest c x (reading_conn x) e (Z.lor EPOLLIN EPOLLET) r)⌝)%I.
Proof.
  intros Hx Hy Hrb Ho Hf Hlt. pose proof (iterations_mono (length (entries t)) (S (length (entries t)))).
  apply wtriple_wwp. iIntros "(L & T & E & R)".
  iAssert (⌜ordered t1 /\ Forall (fun en => node_key (snd en) < trigger_at (clock_now r) TIMEOUT)
    (entries t1)⌝)%I as %[Ho1 Hlt1].
  { iDestruct "T" as "[[_ %Hr]|[[_ ->] _]]"; [|done]. iPureIntro.
    split; [by eapply ordered_removable|].
    destruct (removable_entries c m t t1 Hrb Hr) as (_ & es1 & es2 & He & ->). rewrite He in Hlt.
    apply Forall_app in Hlt as [H1 H2]. apply Forall_cons in H2 as [_ H2]. by apply Forall_app. }
  iApply (begin_read_ok fuel c x y ep t t1 m e r with "L T E"); [done|done|done|lia|].
  iIntros "[%Hrb1 %Hle] L E". pose proof (rearmed_last c r t1 Ho1 Hlt1) as He2.
  assert (rb_ok (rearmed c r t1)) as Hrb2 by by apply rb_ok_insert.
  destruct (armed_ret c x e r =? 0) eqn:Hret.
  - w_step. iFrame. unfold armed_event, flags_on. rewrite Hret. iFrame. iPureIntro.
    split; [|done]. split; [done|]. split; [by apply ordered_insert|done].
  - destruct (last_removable c _ _ _ Hrb2 He2) as (t3 & Hr3 & He3).
    iApply (close_connection_ok fuel c (reading_conn x) y ep (rearmed c r t1)
      (armed (clock_now r) (idle_timer c)) t3 with "L [] E R").
    + apply lookup_insert_eq.
    + cbn. by rewrite reset_workers.
    + done.
    + pose proof (rb_ok_height _ Hrb2) as Hh. rewrite He2, length_app in Hh. cbn in Hh.
      pose proof (iterations_mono (length (entries t1) + 1) (S (length (entries t)))). lia.
    + iLeft. iPureIntro. by split; [apply active_activated|].
    + iIntros "%Hrb3 L R". iFrame. iPureIntro. split; [|done]. split; [apply Hrb3|done].
Qed.

(** an accept_connection that fails leaves no trace.  When accept, fcntl, the
    allocation of the connection or that of its buffer fails, the result is ERR,
    the memory is exactly what it was, no connection and no count has changed, and
    the descriptor that accept gave, if it gave one, has been closed, once. *)
Theorem accept_failure_leaves_nothing fuel w y h r o tr :
  workers r !! w = Some y -> accept_fails (outside r) o tr ->
  accept_connection fuel w (World h r) = Val (ERR, World h (traced o tr r)).
Proof.
  intros Hy Hfail. unfold accept_connection.
  etransitivity; [eapply bind_run; unfold worker_at, on_rest; cbn; by rewrite Hy|]. cbv beta.
  assert (forall o1, set_outside o1 r = traced o1 [] r) as Hno
    by (intros o1; unfold traced; by rewrite app_nil_r).
  destruct Hfail as [fd o1 E1 Hfd|fd o1 ret o2 E1 Hfd E2 Hret|fd o1 ret o2 o3 E1 Hfd E2 Hret E3
    |fd o1 ret o2 o3 o4 E1 Hfd E2 Hret E3 E4]; (etransitivity; [eapply bind_run, ask_run, E1|]);
    cbv beta.
  { replace (fd <? 0) with true by zlia. by rewrite ret_run, Hno. }
  all: replace (fd <? 0) with false by zlia; (etransitivity; [eapply bind_run, ask_run, E2|]);
    cbv beta.
  { replace (ret <? 0) with true by zlia. done. }
  all: replace (ret <? 0) with false by zlia; (etransitivity; [eapply bind_run, ask_run, E3|]);
    cbv beta; cbn iota.
  { done. }
  destruct (halloc_hfree conn_members h conn_block) as [Hnew Hfree].
  etransitivity; [eapply bind_run; unfold on_heap; cbn [memory others]; by rewrite Hnew|]. cbv beta.
  etransitivity; [eapply bind_run, ask_run, E4|]. cbv beta. cbn [Buffer.create_buffer].
  etransitivity; [eapply bind_run, close_run|]. cbv beta.
  etransitivity; [eapply bind_run; unfold on_heap; cbn [memory others]; by rewrite Hfree|]. done.
Qed.

(** *** A worker at 192 with connections at 16, 32 and 48, whose timers are the
    tree of the example at the base 1 *)
Definition ex_event : event := MkEvent 5 (Z.lor EPOLLIN EPOLLET) 1 IO_CALLBACK 16.
Definition ex_cells : list (loc * Z) :=
  ((1, Fd), 9) :: rbtree_cells 1 NULL ex_tree ++
  [((16, Fd), 5); ((16, Events), Z.lor EPOLLIN EPOLLET); ((16, EventFlags), 1);
   ((16, EventCb), IO_CALLBACK); ((16, EventData), 16);
   ((200, Next), 16); ((16, Prev), 200); ((16, Next), 32); ((32, Prev), 16);
   ((32, Next), 48); ((48, Prev), 32); ((48, Next), 200); ((200, Prev), 48)].
Definition ex_memory : heap := list_to_map ex_cells.

Definition ex_idle (fd : Z) : connection := new_conn 192 fd.
Definition ex_served : rest :=
  MkRest {[16 := ex_idle 5; 32 := ex_idle 6; 48 := ex_idle 7]} {[192 := MkWorker 0 3 true 3 1]}
    1 1 MutexFree (MkOs [] [] [] [] [] [MkTimespec 0 0 400] [] [] [] [] [] [] []) []
    (Db.Db.MkDb [] 0 Db.Db.Unlocked []).

Lemma ex_conn : conns ex_served !! 16 = Some (ex_idle 5).
Proof. reflexivity. Qed.
Lemma ex_worker : workers ex_served !! 192 = Some (MkWorker 0 3 true 3 1).
Proof. reflexivity. Qed.

Lemma ex_memory_holds :
  (loop_rep 1 9 ex_tree ∗ event_rep 16 ex_event ∗ ring 200 [16; 32; 48])%I ex_memory.
Proof.
  apply holds_of_cells; [by_compute|]. unfold ex_cells. rewrite (app_comm_cons _ _ ((1, Fd), 9)).
  rewrite owns_app. iIntros "[H1 H2]". iSplitL "H1".
  - unfold loop_rep. iDestruct "H1" as "[$ H1]". by rewrite <- owns_rbtree by apply ex_placed.
  - unfold event_rep, ring, owns. cbn.
    iDestruct "H2" as "($ & $ & $ & $ & $ & $ & $ & $ & $ & $ & $ & $ & $ & _)".
Qed.

Lemma ex_fuel : (iterations (length (entries ex_tree)) <= 5)%nat.
Proof. apply Nat.leb_le. by vm_compute. Qed.
Lemma ex_fuel' : (iterations (S (length (entries ex_tree))) <= 9)%nat.
Proof. apply Nat.leb_le. by vm_compute. Qed.
Lemma ex_later :
  Forall (fun en => node_key (snd en) < trigger_at (clock_now ex_served) TIMEOUT) (entries ex_tree).
Proof. repeat (apply Forall_cons; split; [by vm_compute|]). apply Forall_nil. done. Qed.

Lemma close_connection_releases_witness : exists h' r',
  close_connection 5 16 (World ex_memory ex_served) = Val (tt, World h' r') /\
  trace r' = [EpollDel 5 0; SysClose 5] /\ conns r' !! 16 = None.
Proof.
  pose proof (close_connection_releases 5 16 (ex_idle 5) (MkWorker 0 3 true 3 1) 9 RBRED E
    (MkTimer 100 5000 3 7 16) E [Fr L RBBLK 32 (ex_timer 32 200) (T RBRED E 48 (ex_timer 48 300) E)]
    ex_event 200 [] [32; 48] ex_served ex_conn ex_worker (or_introl eq_refl) eq_refl
    ex_rb_ok ex_fuel) as H0.
  destruct (wtriple_run _ _ _ _ ex_memory H0 ex_memory_holds) as ([] & h' & r' & H & Hr).
  exists h', r'. split; [done|].
  destruct Hr as (? & ? & _ & _ & _ & ? & ? & _ & _ & _ & ->). by vm_compute.
Defined.

Lemma begin_read_correct_witness : exists h' r',
  begin_read 9 16 (World ex_memory ex_served) = Val (tt, World h' r').
Proof.
  pose proof (begin_read_correct 9 16 (ex_idle 5) (MkWorker 0 3 true 3 1) 9 ex_tree
    (MkTimer 100 5000 3 7 16) (T RBBLK E 32 (ex_timer 32 200) (T RBRED E 48 (ex_timer 48 300) E))
    ex_event 200 [] [32; 48] ex_served ex_conn ex_worker ex_rb_ok ex_ordered ex_fuel' ex_later) as H0.
  destruct (wtriple_run _ _ _ _ ex_memory H0) as ([] & h' & r' & H & _).
  - assert (loop_rep 1 9 ex_tree ∗ event_rep 16 ex_event ∗ ring 200 [16; 32; 48] ⊢
      loop_rep 1 9 ex_tree ∗ timer_of 16 (MkTimer 100 5000 3 7 16) ex_tree
        (T RBBLK E 32 (ex_timer 32 200) (T RBRED E 48 (ex_timer 48 300) E)) ∗
      event_rep 16 ex_event ∗ ring 200 [16; 32; 48])%I as [Hp].
    { iIntros "($ & $ & $)". iLeft. iPureIntro. split; [done|].
      exists RBRED, E, E, [Fr L RBBLK 32 (ex_timer 32 200) (T RBRED E 48 (ex_timer 48 300) E)].
      split; [done|]. split; [by left|done]. }
    apply Hp, ex_memory_holds.
  - by exists h', r'.
Defined.

Lemma accept_failure_leaves_nothing_witness :
  accept_connection 9 192 (World ex_memory (set_outside (MkOs [] [] [] [None] [] [] [8] [] [] [] [] [] [])
    ex_served)) =
  Val (ERR, World ex_memory (traced (MkOs [] [] [] [] [] [] [] [] [] [] [] [] []) [SysClose 8]
    (set_outside (MkOs [] [] [] [None] [] [] [8] [] [] [] [] [] []) ex_served))).
Proof.
  apply (accept_failure_leaves_nothing 9 192 (MkWorker 0 3 true 3 1)); [exact ex_worker|].
  by apply (fails_buffer _ 8 (MkOs [] [] [] [None] [] [] [] [] [] [] [] [] []) 0
    (MkOs [] [] [] [None] [] [] [] [] [] [] [] [] []) (MkOs [] [] [] [None] [] [] [] [] [] [] [] [] [])).
Defined.
End ConnThm.
