(* ===== verification/WorkerThm.v ===== *)
(** The theorems on workers: idle connections time out, connections are accepted
    and counted, a start that fails leaves nothing, and what goes wrong once three
    connections are open. *)
From stdpp Require Import sorting.
From S2P Require Db.
From S2P Require Import Prelude Buffer Http Request Heap Clist Rbtree RbtreeSpec RbtreeInv RbtreeDel.
From S2P Require Import RbtreeSearch Timer TimerSpec World Event EventSpec Connection ConnSpec ConnThm Worker.
Import Rbtree Rep Timer Event Clist ClistSpec Connection Worker.

(** ** The connections that are left when some have been closed *)
Definition remaining (closed xs : list ptr) : list ptr :=
  List.filter (fun c => negb (bool_decide (c ∈ closed))) xs.

Lemma remaining_nil xs : remaining [] xs = xs.
Proof.
  unfold remaining. induction xs as [|x xs IH]; [done|]. cbn.
  rewrite bool_decide_false by apply not_elem_of_nil. cbn. by rewrite IH.
Qed.

Lemma remaining_not_in c cs xs : c ∉ xs -> remaining (cs ++ [c]) xs = remaining cs xs.
Proof.
  unfold remaining. induction xs as [|x xs IH]; intros Hc; [done|].
  apply not_elem_of_cons in Hc as [Hne Hc]. cbn. rewrite (IH Hc).
  rewrite (bool_decide_ext (x ∈ cs ++ [c]) (x ∈ cs)); [done|].
  rewrite elem_of_app, list_elem_of_singleton. naive_solver.
Qed.

Lemma remaining_split cs c xs : NoDup xs -> c ∈ xs -> c ∉ cs ->
  exists l1 l2, remaining cs xs = l1 ++ c :: l2 /\ remaining (cs ++ [c]) xs = l1 ++ l2.
Proof.
  induction xs as [|x xs IH]; intros Hnd Hc Hcs; [by apply elem_of_nil in Hc|].
  apply NoDup_cons in Hnd as [Hx Hnd]. apply elem_of_cons in Hc as [->|Hc].
  - exists [], (remaining cs xs). split; cbn [app].
    + unfold remaining. cbn. by rewrite bool_decide_false.
    + unfold remaining at 1. cbn. rewrite bool_decide_true by set_solver. cbn.
      by apply remaining_not_in.
  - destruct (IH Hnd Hc Hcs) as (l1 & l2 & H1 & H2). unfold remaining in *. cbn. rewrite H1, H2.
    rewrite (bool_decide_ext (x ∈ cs ++ [c]) (x ∈ cs)).
    + destruct (bool_decide (x ∈ cs)); cbn; [by exists l1, l2|by exists (x :: l1), l2].
    + rewrite elem_of_app, list_elem_of_singleton. naive_solver.
Qed.

(** ** What closing idle connections leaves *)

(** The world after the timeout of [c], whose event is [evs c]. *)
Definition time_out (evs : ptr -> event) (r : rest) (c : ptr) : rest :=
  match conns r !! c with
  | Some x => match workers r !! c_worker x with
              | Some y => closed c x y (e_fd (evs c)) r
              | None => r
              end
  | None => r
  end.

Definition time_out_all (evs : ptr -> event) (cs : list ptr) (r : rest) : rest :=
  foldl (time_out evs) r cs.

Lemma time_out_closed evs r c x y : conns r !! c = Some x -> workers r !! c_worker x = Some y ->
  time_out evs r c = closed c x y (e_fd (evs c)) r.
Proof. intros Hx Hy. unfold time_out. by rewrite Hx, Hy. Qed.

Lemma time_out_conns evs cs r c : c ∉ cs -> conns (time_out_all evs cs r) !! c = conns r !! c.
Proof.
  revert r. induction cs as [|c' cs IH]; intros r Hc; [done|].
  apply not_elem_of_cons in Hc as [Hne Hc]. cbn. unfold time_out_all in IH. rewrite (IH _ Hc).
  unfold time_out. destruct (conns r !! c') as [x|]; [|done].
  destruct (workers r !! c_worker x) as [y|]; [|done]. cbn. by rewrite lookup_delete_ne.
Qed.

(** A worker stays, with its base. *)
Lemma time_out_worker evs w base cs r :
  (exists y, workers r !! w = Some y /\ w_base y = base) ->
  exists y, workers (time_out_all evs cs r) !! w = Some y /\ w_base y = base.
Proof.
  revert r. induction cs as [|c cs IH]; intros r H; [done|]. apply IH. clear IH.
  unfold time_out. destruct (conns r !! c) as [x|]; [|done].
  destruct (workers r !! c_worker x) as [y'|] eqn:Hy'; [|done]. cbn.
  destruct (decide (c_worker x = w)) as [Hcw|Hne]; [rewrite Hcw in *|].
  - eexists. rewrite lookup_insert_eq. split; [done|]. destruct H as (y & Hy & Hb). rewrite Hy' in Hy. by injection Hy as <-.
  - by rewrite lookup_insert_ne.
Qed.

(** The timer of a connection of the worker [w]. *)
Definition idle_entry (r : rest) (w : ptr) (xs : list ptr) (e : ptr * list Z) : Prop :=
  oneshot_timer e /\ fst e ∈ xs /\
  (forall m, snd e = members m -> cb m = TIMEOUT_CALLBACK /\ data m = fst e) /\
  exists x, conns r !! fst e = Some x /\ c_worker x = w.

(** One connection less and one more. *)
Lemma num_conns_back y : 0 <= w_num_conns y < 2 ^ 64 ->
  y = set_num_conns (u64 (u64 (w_num_conns y - 1) + 1)) (set_num_conns (u64 (w_num_conns y - 1)) y).
Proof.
  intros Hn. assert (u64 (u64 (w_num_conns y - 1) + 1) = w_num_conns y) as ->.
  { unfold wrap. rewrite Zplus_mod_idemp_l, Z.sub_add. by apply Z.mod_small. }
  by destruct y.
Qed.

(** ** Starting a worker *)
Lemma worker_block : block worker_members.
Proof.
  intros p. unfold worker_members, conns_head. split.
  - repeat (apply NoDup_cons; split; [rewrite ?not_elem_of_cons; repeat split; try (intros [=]; lia); apply not_elem_of_nil|]).
    apply NoDup_nil_2.
  - repeat (constructor; [cbn; lia|]). constructor.
Qed.

(** The answers up to pthread_create when nothing fails before it: the socket, the
    result of epoll_create1, and what is left. *)
Definition start_answers (o : os) (sock epfd : Z) (o' : os) : Prop :=
  exists r1 r2 r3 r4 o1 o2 o3 o4 o5 o6 o7 o8,
    pop_socket o = (sock, o1) /\ 0 <= sock /\
    pop_setup o1 = (r1, o2) /\ 0 <= r1 /\ pop_setup o2 = (r2, o3) /\ 0 <= r2 /\
    pop_setup o3 = (r3, o4) /\ 0 <= r3 /\ pop_setup o4 = (r4, o5) /\ 0 <= r4 /\
    pop_calloc o5 = (true, o6) /\ pop_calloc o6 = (true, o7) /\ pop_epoll o7 = (epfd, o8) /\
    pop_ctl o8 = (0, o').

Lemma setup_ok sock k ret o' r (Q : Z -> rest -> heapProp) :
  pop_setup (outside r) = (ret, o') -> 0 <= ret ->
  wwp k Q (set_outside o' r) ⊢ wwp (setup_or sock k) Q r.
Proof.
  intros H Hret. iIntros "H". unfold setup_or. w_step. w_step. rewrite H.
  by replace (ret <? 0) with false by zlia.
Qed.

Lemma destroy_base_ok base fd r (Q : unit -> rest -> heapProp) : 0 <= fd ->
  base_rep base fd ⊢ Q tt (made (SysClose fd) r) -∗ wwp (destroy_event_base base) Q r.
Proof.
  intros Hfd. iIntros "H HQ". iApply (destroy_event_base_ok with "H").
  by replace (0 <=? fd) with true by zlia.
Qed.

Module WorkerThm.

(** C13: connections that have been idle for TIMEOUT are closed, and no others.  In
    a round of the event loop, with the timers of a worker's connections in the
    tree, run_timers closes exactly the connections whose trigger has been reached,
    in the order of their triggers: each is taken out of epoll, its descriptor
    closed, and it is no longer counted; the others stay in the tree and, in order,
    in the worker's list. *)
Theorem idle_connections_time_out fuel w y ep t xs evs r ts o :
  workers r !! w = Some y -> NoDup xs -> NoDup (fst <$> entries t) ->
  Forall (idle_entry r w xs) (entries t) ->
  pop_clock (outside r) = (ts, o) ->
  rb_ok t -> ordered t -> (length (entries t) < fuel)%nat ->
  wtriple (loop_rep (w_base y) ep t ∗ ring (conns_head w) xs ∗
      [∗ list] c ∈ xs, event_rep c (evs c))%I r
    (run_timers (call_timer fuel) fuel (w_base y))
    (fun _ r' => ∃ t' es1 es2, loop_rep (w_base y) ep t' ∗
       ring (conns_head w) (remaining (fst <$> es1) xs) ∗
       ([∗ list] c ∈ remaining (fst <$> es1) xs, event_rep c (evs c)) ∗
       ⌜rb_ok t' /\ ordered t' /\ entries t = es1 ++ es2 /\ entries t' = es2 /\
        Forall (expired (get_time ts)) es1 /\ Forall (fun e => ~ expired (get_time ts) e) es2 /\
        r' = time_out_all evs (fst <$> es1) (set_outside o r)⌝)%I.
Proof.
  intros Hw Hxs Hnd Hidle Hts Hrb Ho Hf. apply wtriple_wwp. iIntros "([B H] & R & E)".
  set (I := fun (done : list (ptr * list Z)) (r' : rest) =>
    ((w_base y, Fd) ↦ ep ∗ ring (conns_head w) (remaining (fst <$> done) xs) ∗
     ([∗ list] c ∈ remaining (fst <$> done) xs, event_rep c (evs c)) ∗
     ⌜r' = time_out_all evs (fst <$> done) (set_outside o r)⌝)%I).
  iApply (run_timers_ok (w_base y) (call_timer fuel) I t fuel r ts o with "H [B R E]"); try done.
  - intros done x m later r' R Hes. rewrite Hes in Hidle, Hnd.
    apply Forall_app in Hidle as [_ Hidle]. apply Forall_cons in Hidle as [(_ & Hin & Hm & z & Hz & Hzw) _].
    destruct (Hm m eq_refl) as [-> ->]. cbn [fst snd] in *.
    rewrite fmap_app in Hnd. apply NoDup_app in Hnd as (_ & Hnd & _).
    assert (x ∉ fst <$> done) as Hx by (intros Hx; apply (Hnd x Hx); by left).
    destruct (remaining_split _ _ _ Hxs Hin Hx) as (l1 & l2 & H1 & H2).
    iIntros "(T & B & R & E & ->) HR". rewrite H1, big_sepL_app.
    iDestruct "E" as "(E1 & Ex & E2)".
    destruct (time_out_worker evs w (w_base y) (fst <$> done) (set_outside o r)) as (y' & Hy' & Hb);
      [by exists y|].
    unfold call_timer. change (TIMEOUT_CALLBACK =? TIMEOUT_CALLBACK) with true. cbn iota.
    unfold timeout_callback. rewrite <- Hb.
    assert (conns (time_out_all evs (fst <$> done) (set_outside o r)) !! x = Some z) as Hz'
      by by rewrite time_out_conns.
    assert (workers (time_out_all evs (fst <$> done) (set_outside o r)) !! c_worker z = Some y')
      as Hy'' by by rewrite Hzw.
    iApply (close_expired_ok with "T B Ex R"); [done|done|apply active_deactivated|].
    iIntros "B R". iApply "HR". unfold I. rewrite fmap_app. cbn [fmap list_fmap fst].
    rewrite H2, Hb, big_sepL_app. iFrame. iPureIntro.
    unfold time_out_all in *. rewrite foldl_app. cbn [foldl]. symmetry. by apply time_out_closed.
  - eapply Forall_impl; [exact Hidle|]. by intros e [].
  - unfold I. cbn [fmap list_fmap]. rewrite remaining_nil. by iFrame.
  - iIntros (t' es1 es2 r' (H1 & H2 & H3 & H4 & H5 & H6 & _)) "H (B & R & E & ->)".
    iExists t', es1, es2. unfold loop_rep. iFrame. iPureIntro. done.
Qed.

(** C15: on_accept on a readable socket.  When accept gives a descriptor and nothing
    fails, the worker has one connection more: at the end of its list, counted,
    reading with an empty buffer, its timer armed TIMEOUT from now behind the
    others and its descriptor registered for input.  When epoll_ctl refuses the
    descriptor the connection is closed again and the count is what it was,
    although accept_connection has answered OK. *)
Theorem on_accept_correct fuel fd0 events w y ep t xs fd o r :
  Z.land events EPOLLIN <> 0 -> workers r !! w = Some y -> 0 <= w_num_conns y < 2 ^ 64 ->
  accepts_fd (outside r) fd o ->
  rb_ok t -> ordered t -> (iterations (S (length (entries t))) <= fuel)%nat ->
  let now := get_time (fst (pop_clock o)) in
  Forall (fun e => node_key (snd e) < trigger_at now TIMEOUT) (entries t) ->
  wtriple (loop_rep (w_base y) ep t ∗ ring (conns_head w) xs)%I r (on_accept fuel fd0 events w)
    (fun _ r' => ∃ c t2, loop_rep (w_base y) ep t2 ∗
       if fst (pop_ctl o) =? 0 then
         ring (conns_head w) (xs ++ [c]) ∗
         event_rep c (MkEvent fd (Z.lor EPOLLIN EPOLLET) EVENT_FLAG_ACTIVE IO_CALLBACK c) ∗
         ⌜rb_ok t2 /\ ordered t2 /\
          entries t2 = entries t ++ [(c, members (armed now (idle_timer c)))] /\
          conns r' = <[c := reading_conn (new_conn w fd)]> (conns r) /\
          workers r' = <[w := set_num_conns (u64 (w_num_conns y + 1)) y]> (workers r)⌝
       else
         ring (conns_head w) xs ∗
         ⌜rb_ok t2 /\ entries t2 = entries t /\ conns r' = delete c (conns r) /\
          workers r' = workers r⌝)%I.
Proof.
  intros Hev Hw Hn Hacc Hrb Ho Hf now Hlt.
  pose proof (iterations_mono (length (entries t)) (S (length (entries t)))).
  apply wtriple_wwp. iIntros "[L R]". unfold on_accept.
  replace (Z.land events EPOLLIN =? 0) with false by zlia. cbn [negb]. w_step.
  iApply (accept_connection_ok with "L R"); [done..|lia|]. iIntros (c Hc) "L E R".
  set (x := new_conn w fd). set (r0 := set_conns (<[c := x]> (conns r)) (set_outside o r)).
  assert (armed_ret c x zero_event r0 = fst (pop_ctl o)) as Hret by apply ctl_after_clock.
  rewrite Hret. assert (clock_now r0 = now) as Hnow by done.
  pose proof (rearmed_last c r0 t Ho ltac:(by rewrite Hnow)) as He2.
  assert (rb_ok (rearmed c r0 t)) as Hrb2 by by apply rb_ok_insert.
  destruct (fst (pop_ctl o) =? 0) eqn:Hz.
  - w_step. change (negb (OK =? OK)) with false. cbn iota.
    iApply wwp_set_worker; [exact Hw|]. iExists c, (rearmed c r0 t). iFrame.
    unfold armed_event, flags_on. rewrite Hret, Hz. iFrame. iPureIntro.
    split; [done|]. split; [by apply ordered_insert|]. split; [done|].
    split; [|done]. cbn. unfold r0. cbn. by rewrite insert_insert_eq.
  - destruct (last_removable c _ _ _ Hrb2 He2) as (t3 & Hr3 & He3).
    iApply (close_connection_ok fuel c (reading_conn x) y ep (rearmed c r0 t)
      (armed now (idle_timer c)) t3 with "L [] E R").
    + apply lookup_insert_eq.
    + exact Hw.
    + done.
    + pose proof (rb_ok_height _ Hrb2) as Hh. rewrite He2, length_app in Hh. cbn in Hh.
      by rewrite Nat.add_1_r in Hh; lia.
    + iLeft. iPureIntro. by split; [apply active_activated|].
    + iIntros "%Hrb3 L R". change (negb (OK =? OK)) with false. cbn iota.
      iApply wwp_set_worker; [apply lookup_insert_eq|]. iExists c, t3.
      rewrite app_nil_r. iFrame. iPureIntro. split; [apply Hrb3|]. split; [done|].
      split; [cbn; by rewrite !delete_insert_eq|]. cbn. rewrite insert_insert_eq.
      rewrite insert_id; [done|]. etransitivity; [exact Hw|]. f_equal. by apply num_conns_back.
Qed.

(** C21: start_worker counts a worker whether or not it has started one.  When all
    calls up to pthread_create succeed, the socket is registered for input, and if
    the thread starts the worker is at the end of the list of workers with an empty
    list of connections and the next id.  If it does not, the worker is out of the
    list again, its socket and its epoll descriptor are closed, and the result is
    ERR; but num_workers has been increased all the same. *)
Theorem start_worker_counts ws sock epfd fails o o' r :
  start_answers (outside r) sock epfd o -> pop_thread o = (fails, o') -> worker_lock r = MutexFree ->
  0 <= epfd ->
  wtriple (ring workers_head ws) r start_worker
    (fun ret r' => ∃ w base,
       ⌜num_workers r' = u32 (num_workers r + 1) /\ current_id r' = u64 (current_id r + 1) /\
        worker_lock r' = MutexFree /\ conns r' = conns r⌝ ∗
       if fails =? 0 then
         ring workers_head (ws ++ [w]) ∗ ring (conns_head w) [] ∗ base_rep base epfd ∗
         event_rep w (MkEvent sock (Z.lor EPOLLIN EPOLLET) EVENT_FLAG_ACTIVE ON_ACCEPT w) ∗
         ⌜ret = OK /\ workers r' = <[w := MkWorker (current_id r) sock false 0 base]> (workers r) /\
          trace r' = trace r ++ [EpollAdd sock (Z.lor EPOLLIN EPOLLET) w 0; ThreadStart w]⌝
       else
         ring workers_head ws ∗
         ⌜ret = ERR /\ workers r' = delete w (workers r) /\
          trace r' = trace r ++ [EpollAdd sock (Z.lor EPOLLIN EPOLLET) w 0; SysClose sock;
            SysClose epfd]⌝)%I.
Proof.
  intros (r1 & r2 & r3 & r4 & o1 & o2 & o3 & o4 & o5 & o6 & o7 & o8 & H1 & Hs & H2 & Hr1 & H3 &
    Hr2 & H4 & Hr3 & H5 & Hr4 & H6 & H7 & H8 & H9) Ht Hl Hep.
  apply wtriple_wwp. iIntros "R". unfold start_worker. w_step. w_step. rewrite H1.
  replace (sock <? 0) with false by zlia.
  iApply setup_ok; [done..|]. iApply setup_ok; [done..|]. iApply setup_ok; [done..|].
  iApply setup_ok; [done..|]. w_step. w_step. cbn [outside set_outside]. rewrite H6. cbn [negb].
  w_step. w_step. iApply hwp_alloc; [apply worker_block|]. iIntros (w Hw) "M".
  w_step. iApply create_event_base_ok; [exact H7|exact H8|]. iIntros (base Hb) "B".
  replace (base =? NULL) with false by (unfold NULL; zlia).
  replace (epollfd_of epfd) with epfd
    by (unfold epollfd_of; by replace (0 <=? epfd) with true by zlia).
  unfold worker_members. cbn [big_opL].
  iDestruct "M" as "(P & N & E1 & E2 & E3 & E4 & E5 & HP & HN & _)".
  w_step. w_step. iApply (make_event_ok w zero_event with "[E1 E2 E3 E4 E5]").
  { unfold event_rep. cbn. iFrame. }
  iIntros "E". iDestruct "B" as "[B1 B2]".
  w_step. iApply (add_event_ok with "E B1"). iIntros "E B1".
  unfold ctl_ret, ctl_rest, flags_on, ctl_ret. cbn [outside set_outside]. rewrite H9. cbn [fst snd].
  change (negb ((if 0 =? 0 then OK else ERR) =? OK)) with false. change (0 =? 0) with true. cbn iota.
  w_step. w_step. iApply (LIST_INIT_HEAD_ok with "[HP HN]"); [unfold unlinked; iFrame|]. iIntros "HR".
  w_step. unfold lock. iApply wwp_rest; [cbn; by rewrite Hl|].
  w_step. iApply wwp_rest; [done|]. w_step. iApply wwp_rest; [done|].
  w_step. unfold add_worker. iApply wwp_rest; [done|].
  w_step. w_step. iApply (list_add_tail_ok with "[$R N P]"); [unfold unlinked; iFrame|]. iIntros "R".
  w_step. w_step. cbn [outside set_outside set_workers set_current_id set_worker_lock made]. rewrite Ht.
  w_step. destruct (fails =? 0) eqn:Hz; cbn [negb].
  - w_step. w_step. w_step. w_step. iApply wwp_rest; [done|]. w_step. unfold unlock.
    iApply wwp_rest; [done|]. w_step. iExists w, base. iFrame.
    iPureIntro. split; [done|]. split; [done|]. split; [done|]. cbn. by app_norm.
  - w_step. w_step. iApply (list_del_ok workers_head ws w [] workers_head with "R").
    iIntros "(R & N & P)". w_step. w_step. w_step.
    iApply (destroy_base_ok base epfd with "[B1 B2]"); [done|unfold base_rep; iFrame|].
    w_step. unfold drop_worker. iApply wwp_rest; [done|].
    w_step. w_step. iApply (hwp_free with "[N P HR E]").
    { unfold event_rep, ring. cbn. iDestruct "E" as "(E1 & E2 & E3 & E4 & E5)".
      iDestruct "HR" as "[HN HP]". iFrame. }
    w_step. w_step. iApply wwp_rest; [done|]. w_step. unfold unlock.
    iApply wwp_rest; [done|]. w_step. iExists w, base. rewrite app_nil_r. iFrame.
    iPureIntro. split; [done|]. split; [done|]. cbn. split; [by rewrite delete_insert_eq|]. by app_norm.
Qed.

(** *** A server before its first worker: the sentinel of the trees and an empty
    list of workers; the clock goes on by a tenth of a second with each reading *)
Definition ex_boot_cells : list (loc * Z) :=
  [((RBNIL, Color), RBBLK); ((RBNIL, Left), RBNIL); ((RBNIL, Right), RBNIL); ((RBNIL, Parent), NULL);
   ((workers_head, Prev), workers_head); ((workers_head, Next), workers_head)].
Definition ex_boot : heap := list_to_map ex_boot_cells.
Definition ex_answers (fails : Z) : os :=
  MkOs [RecvData []] [] [] [] [] ((fun s => MkTimespec 0 0 (Z.of_nat s * 100000000)) <$> seq 1 8) [5; 6; 7]
    [] [] [] [4] [fails] [].
Definition ex_boot_rest (fails : Z) : rest :=
  MkRest ∅ ∅ 0 0 MutexFree (ex_answers fails) [] (Db.Db.MkDb [] 0 Db.Db.Unlocked []).

(** C18: with three connections open, one client that disconnects brings the worker
    down.  Start a worker, let three clients connect one after the other, and let the
    second one, whose timer is at the root of the tree, hang up: close_connection
    frees the connection while its node is still in the tree, and the next round of
    the event loop reads freed memory, whatever the routes are. *)
Theorem middle_disconnect_use_after_free n routes call_route :
  let fuel := (5 + n)%nat in
  let round e := event_base_iter (call_timer fuel) (call_event fuel routes call_route) fuel 48 1 [e] in
  exists w',
    (_ ← start_worker;
     _ ← round (EPOLLIN, 24);
     _ ← round (EPOLLIN, 24);
     _ ← round (EPOLLIN, 24);
     round (EPOLLIN, 80)) (World ex_boot (ex_boot_rest 0)) = Val (OK, w') /\
    fst <$> map_to_list (conns (others w')) = [96; 64] /\
    trace (others w') = [EpollAdd 3 (Z.lor EPOLLIN EPOLLET) 24 0; ThreadStart 24;
      EpollAdd 5 (Z.lor EPOLLIN EPOLLET) 64 0; EpollAdd 6 (Z.lor EPOLLIN EPOLLET) 80 0;
      EpollAdd 7 (Z.lor EPOLLIN EPOLLET) 96 0; EpollDel 6 0; SysClose 6] /\
    forall e, round e w' = Stuck.
Proof.
  intros fuel round.
  match goal with |- exists w', ?prog ?w0 = _ /\ @?P w' => 
    enough (match prog w0 with Val (ret, w') => ret = OK /\ P w' | _ => False end) as H end.
  { match type of H with match ?out with _ => _ end => destruct out as [[ret w']| | | |] end; [|done..].
    exists w'. destruct H as [-> H]. split; [done|exact H]. }
  vm_compute. repeat split.
Qed.

Lemma ex_boot_holds : ring workers_head [] ex_boot.
Proof.
  apply holds_of_cells; [by_compute|]. unfold ring, owns. cbn.
  iIntros "(_ & _ & _ & _ & $ & $ & _)".
Qed.

(** When the thread cannot be created. *)
Lemma start_worker_counts_witness : exists h' r',
  start_worker (World ex_boot (ex_boot_rest 11)) = Val (ERR, World h' r') /\ num_workers r' = 1 /\
  workers r' !! 24 = None.
Proof.
  assert (start_answers (outside (ex_boot_rest 11)) 3 4
    (MkOs (recvs (ex_answers 11)) [] [] [] [] (clock (ex_answers 11)) [5; 6; 7] [] [] [] [] [11] [])) as Ha.
  { exists 0, 0, 0, 0. do 8 eexists. by repeat (split; [done|]). }
  pose proof (start_worker_counts [] 3 4 11 _ _ (ex_boot_rest 11) Ha eq_refl eq_refl
    ltac:(done)) as H0.
  destruct (wtriple_run _ _ _ _ ex_boot H0 ex_boot_holds) as (ret & h' & r' & H & Hr).
  destruct Hr as (w & base & h1 & h2 & _ & _ & (Hn & _) & (h3 & h4 & _ & _ & _ & (-> & Hw & _))).
  exists h', r'. split; [done|]. split; [by rewrite Hn; vm_compute|]. rewrite Hw. done.
Defined.

(** *** A worker at 192 with two idle connections, at 16 and 32 *)
Definition ex_idle_timer (c trigger : Z) : list Z :=
  members (MkTimer trigger 5000 3 TIMEOUT_CALLBACK c).
Definition ex_idle_tree : tree :=
  T RBBLK (T RBRED E 16 (ex_idle_timer 16 100) E) 32 (ex_idle_timer 32 900) E.
Definition ex_idle_event (c : ptr) : event :=
  MkEvent (c / 16 + 4) (Z.lor EPOLLIN EPOLLET) 1 IO_CALLBACK c.
Definition ex_idle_cells : list (loc * Z) :=
  ((1, Fd), 9) :: RbtreeThm.Cells.rbtree_cells 1 NULL ex_idle_tree ++
  [((16, Fd), 5); ((16, Events), Z.lor EPOLLIN EPOLLET); ((16, EventFlags), 1);
   ((16, EventCb), IO_CALLBACK); ((16, EventData), 16);
   ((32, Fd), 6); ((32, Events), Z.lor EPOLLIN EPOLLET); ((32, EventFlags), 1);
   ((32, EventCb), IO_CALLBACK); ((32, EventData), 32);
   ((200, Next), 16); ((16, Prev), 200); ((16, Next), 32); ((32, Prev), 16);
   ((32, Next), 200); ((200, Prev), 32)].
Definition ex_idle_memory : heap := list_to_map ex_idle_cells.
Definition ex_idle_os (accepts : list Z) : os :=
  MkOs [] [] [] [] [] [MkTimespec 0 0 400] accepts [] [] [] [] [] [].
Definition ex_idle_rest (accepts : list Z) : rest :=
  MkRest {[16 := new_conn 192 5; 32 := new_conn 192 6]} {[192 := MkWorker 0 3 true 2 1]}
    1 1 MutexFree (ex_idle_os accepts) [] (Db.Db.MkDb [] 0 Db.Db.Unlocked []).

Lemma ex_idle_holds : (loop_rep 1 9 ex_idle_tree ∗ ring 200 [16; 32] ∗
  [∗ list] c ∈ [16; 32], event_rep c (ex_idle_event c))%I ex_idle_memory.
Proof.
  apply holds_of_cells; [by_compute|]. unfold ex_idle_cells. rewrite (app_comm_cons _ _ ((1, Fd), 9)).
  rewrite RbtreeThm.Cells.owns_app. iIntros "[H1 H2]". iSplitL "H1".
  - unfold loop_rep. iDestruct "H1" as "[$ H1]".
    rewrite <- RbtreeThm.Cells.owns_rbtree; [done|]. by repeat constructor.
  - unfold event_rep, ring, owns. cbn.
    iDestruct "H2" as "($ & $ & $ & $ & $ & $ & $ & $ & $ & $ & $ & $ & $ & $ & $ & $ & _)".
Qed.

Lemma ex_idle_worker l : workers (ex_idle_rest l) !! 192 = Some (MkWorker 0 3 true 2 1).
Proof. done. Qed.

Lemma ex_idle_ok : rb_ok ex_idle_tree /\ ordered ex_idle_tree.
Proof.
  split; [split; [done|]; exists 1%nat; repeat constructor|].
  unfold ordered. cbn. repeat constructor. unfold le_key. cbn. lia.
Qed.

Lemma ex_idle_entries : Forall (idle_entry (ex_idle_rest []) 192 [16; 32]) (entries ex_idle_tree).
Proof.
  assert (forall c tr, c ∈ [16; 32] -> (exists x, conns (ex_idle_rest []) !! c = Some x /\ c_worker x = 192) ->
    idle_entry (ex_idle_rest []) 192 [16; 32] (c, ex_idle_timer c tr)) as H.
  { intros c tr Hc Hx. split_and!; [|done| |done].
    - by exists (MkTimer tr 5000 3 TIMEOUT_CALLBACK c).
    - intros [] [= <- <- <- <- <-]. done. }
  apply Forall_cons; split; [|apply Forall_cons; split; [|by apply Forall_nil]];
    apply H; [by_compute|by eexists|by_compute|by eexists].
Qed.

Lemma idle_connections_time_out_witness : exists h' r',
  run_timers (call_timer 5) 5 1 (World ex_idle_memory (ex_idle_rest [])) = Val (tt, World h' r').
Proof.
  pose proof (idle_connections_time_out 5 192 (MkWorker 0 3 true 2 1) 9 ex_idle_tree [16; 32]
    ex_idle_event (ex_idle_rest []) _ _ (ex_idle_worker []) ltac:(by_compute) ltac:(by_compute)
    ex_idle_entries eq_refl (proj1 ex_idle_ok) (proj2 ex_idle_ok)
    ltac:(apply Nat.ltb_lt; by vm_compute)) as H0.
  destruct (wtriple_run _ _ _ _ ex_idle_memory H0 ex_idle_holds) as ([] & h' & r' & H & _).
  by exists h', r'.
Defined.

Lemma on_accept_correct_witness : exists h' r',
  on_accept 9 3 EPOLLIN 192 (World ex_idle_memory (ex_idle_rest [7])) = Val (tt, World h' r').
Proof.
  assert (accepts_fd (outside (ex_idle_rest [7])) 7 (ex_idle_os [])) as Ha.
  { by exists 0, (ex_idle_os []), (ex_idle_os []), (ex_idle_os []), (fun _ => 0). }
  pose proof (on_accept_correct 9 3 EPOLLIN 192 (MkWorker 0 3 true 2 1) 9 ex_idle_tree [16; 32] 7
    (ex_idle_os []) (ex_idle_rest [7]) ltac:(done) (ex_idle_worker [7]) ltac:(by_compute) Ha
    (proj1 ex_idle_ok) (proj2 ex_idle_ok) ltac:(apply Nat.leb_le; by vm_compute)
    ltac:(repeat (apply Forall_cons; split; [by vm_compute|]); by apply Forall_nil)) as H0.
  destruct (wtriple_run _ _ _ _ ex_idle_memory H0) as ([] & h' & r' & H & _).
  - assert (loop_rep 1 9 ex_idle_tree ∗ ring 200 [16; 32] ∗
      ([∗ list] c ∈ [16; 32], event_rep c (ex_idle_event c)) ⊢
      loop_rep 1 9 ex_idle_tree ∗ ring 200 [16; 32])%I as [Hp] by iIntros "($ & $ & _)".
    apply Hp, ex_idle_holds.
  - by exists h', r'.
Defined.
End WorkerThm.
