(* ===== verification/FileMap.v ===== *)
(** The file mapping of file.c: map_file maps a file into memory, or says why it
    could not.

    Module [File] has the two functions; the state is the set of descriptors the
    process has open, and what stat, open and mmap answer is an argument.  Module
    [FileThm] has the theorem on every combination of answers. *)
From S2P Require Import Prelude.

Module File.

Definition FILE_ERROR_NOT_FOUND : Z := Z.shiftl 1 0.
Definition FILE_ERROR_NO_PERM : Z := Z.shiftl 1 1.
Definition FILE_ERROR_UNKNOWN : Z := Z.shiftl 1 2.

(** Linux's numbers. *)
Definition ENOENT : Z := 2.
Definition EACCES : Z := 13.

(** struct file; [data] is NULL or the bytes mapped. *)
Record file := MkFile { size : Z; data : option (list Z); error : Z }.

(** What the calls answer: stat an error or the size, open an error or a
    descriptor, mmap MAP_FAILED or the bytes. *)
Record answers := MkAnswers {
  stat_answer : Z + Z;
  open_answer : Z + Z;
  mmap_answer : option (list Z);
}.

(** The switch on errno. *)
Definition file_error (errno : Z) : Z :=
  if errno =? ENOENT then FILE_ERROR_NOT_FOUND
  else if errno =? EACCES then FILE_ERROR_NO_PERM
  else FILE_ERROR_UNKNOWN.

Definition map_file (a : answers) : cmd (gset Z) file :=
  match stat_answer a with
  | inl errno => mret (MkFile 0 None (file_error errno))
  | inr st_size =>
      match open_answer a with
      | inl errno => mret (MkFile 0 None (file_error errno))
      | inr fd =>
          _ ← modify (fun fds => {[fd]} ∪ fds);
          match mmap_answer a with
          | None => mret (MkFile 0 None FILE_ERROR_UNKNOWN)
          | Some data =>
              _ ← modify (fun fds => fds ∖ {[fd]});
              mret (MkFile (u64 st_size) (Some data) 0)
          end
      end
  end.

(** munmap is called when there is something to unmap. *)
Definition unmap_file (f : file) : bool :=
  match data f with None => false | Some _ => true end.

End File.

Module FileThm.
Import File.

(** map_file on every combination of answers.  It fails with the error of the
    first call that does, and then has no data and the size 0; otherwise it has
    the size stat has given and the bytes mapped.  In all cases but one the
    descriptors are those that were open before: when mmap fails, the descriptor
    that open has given stays open, and the caller has no way to close it. *)
Theorem map_file_spec a fds :
  (forall fd, open_answer a = inr fd -> fd ∉ fds) ->
  exists f fds', map_file a fds = Val (f, fds') /\
    match stat_answer a, open_answer a, mmap_answer a with
    | inl e, _, _ | inr _, inl e, _ => f = MkFile 0 None (file_error e) /\ error f <> 0 /\ fds' = fds
    | inr _, inr fd, None => f = MkFile 0 None FILE_ERROR_UNKNOWN /\ fds' = {[fd]} ∪ fds
    | inr n, inr fd, Some bs => f = MkFile (u64 n) (Some bs) 0 /\ fds' = fds
    end.
Proof.
  intros Hfd. unfold map_file.
  assert (forall e, file_error e <> 0) as He.
  { intros e. unfold file_error. by destruct (e =? ENOENT), (e =? EACCES). }
  destruct (stat_answer a) as [e|n].
  { eexists _, _. split; [reflexivity|]. split; [done|]. split; [apply He|done]. }
  destruct (open_answer a) as [e|fd].
  { eexists _, _. split; [reflexivity|]. split; [done|]. split; [apply He|done]. }
  specialize (Hfd fd eq_refl).
  destruct (mmap_answer a) as [bs|]; eexists _, _; (split; [reflexivity|]); [|done].
  split; [done|]. set_solver.
Qed.

(** An empty file cannot be mapped. *)
Lemma map_file_spec_witness :
  map_file (MkAnswers (inr 0) (inr 7) None) {[0; 1; 2]} =
    Val (MkFile 0 None FILE_ERROR_UNKNOWN, {[7]} ∪ {[0; 1; 2]}).
Proof.
  destruct (map_file_spec (MkAnswers (inr 0) (inr 7) None) {[0; 1; 2]}
    ltac:(intros fd [= <-]; by_compute)) as (f & fds & E & Hf & Hfds).
  by rewrite E, Hf, Hfds.
Defined.
End FileThm.
