(* ===== verification/Ipc.v ===== *)
(** The server's end of the status protocol: handle_ipc of cask.c over the packed
    structures of shared.h (module [Ipc]), which both ends use.

    It runs on the world: accept, read and write are answered by [accepts], [recvs] and
    [writes], and what it writes is in the trace.  A client that sends nothing, or does not
    read what it is sent, keeps the main thread in the call; one that closes its end before
    it is written to ends the process by SIGPIPE. *)
From S2P Require Db.
From S2P Require Import Prelude Buffer Heap Clist Timer World Event EventSpec Worker.

Module Ipc.
Import Event Clist Worker.

Definition UNIX_PATH_MAX : nat := 108.
Definition IPC_CMD_STATUS : Z := 0.

Definition SIZEOF_IPC_REQUEST : nat := 8.
Definition SIZEOF_IPC_STATUS : nat := 12.
Definition SIZEOF_WORKER_STATUS : nat := 17.

(** struct ipc_request, struct ipc_status and struct worker_status, and the bytes
    they are sent as. *)
Record ipc_request := MkIpcRequest { command : Z; payload : Z }.
Record ipc_status := MkIpcStatus { uptime : Z; status_workers : Z }.
Record worker_status := MkWorkerStatus { ws_id : Z; ws_running : bool; ws_num_conns : Z }.

Definition put_request (q : ipc_request) : list Z := le_bytes 4 (command q) ++ le_bytes 4 (payload q).
Definition get_request (bs : list Z) : ipc_request :=
  MkIpcRequest (le_val (slice 0 4 bs)) (le_val (slice 4 4 bs)).

Definition put_status (s : ipc_status) : list Z :=
  le_bytes 8 (uptime s) ++ le_bytes 4 (status_workers s).
Definition get_status (bs : list Z) : ipc_status :=
  MkIpcStatus (le_val (slice 0 8 bs)) (le_val (slice 8 4 bs)).

Definition put_worker (s : worker_status) : list Z :=
  le_bytes 8 (ws_id s) ++ [if ws_running s then 1 else 0] ++ le_bytes 8 (ws_num_conns s).
Definition get_worker (bs : list Z) : worker_status :=
  MkWorkerStatus (le_val (slice 0 8 bs)) (negb (le_val (slice 8 1 bs) =? 0)) (le_val (slice 9 8 bs)).

(** write(fd, bs) on the blocking socket of a client; its result is not looked at. *)
Definition write (fd : Z) (bs : list Z) : cmd world unit :=
  ans ← ask pop_write;
  match ans with
  | Wrote => tell (SysSend fd bs)
  | WriteErr errno => if errno =? EPIPE then killed else mret tt
  | WriteWaits => blocked
  end.

(** read(fd, ...) on the blocking socket of a client: when there is nothing to come it
    does not return. *)
Definition read : cmd world recv_result :=
  o ← on_rest (gets outside);
  match recvs o with
  | [] => blocked
  | _ => ask pop_recv
  end.

Definition status_of (y : worker) : worker_status :=
  MkWorkerStatus (w_id y) (w_running y) (w_num_conns y).

(** The loop over the workers: [n] of them from [iter] on. *)
Fixpoint send_workers (fd : Z) (n : nat) (iter : ptr) : cmd world unit :=
  match n with
  | O => mret tt
  | S n =>
      y ← worker_at iter;
      _ ← write fd (put_worker (status_of y));
      iter ← on_heap (hload (iter, Next));
      send_workers fd n iter
  end.

(** [started_at]: cask.started_at. *)
Definition handle_ipc (started_at : Z) : cmd world unit :=
  fd ← ask pop_accept;
  if fd <? 0 then mret tt
  else
    ans ← read;
    match ans with
    | RecvErr _ => mret tt
    | RecvData bs =>
        if (SIZEOF_IPC_REQUEST <? length bs)%nat then stuck
        else if negb (length bs =? SIZEOF_IPC_REQUEST)%nat then mret tt
        else
          _ ← (if command (get_request bs) =? IPC_CMD_STATUS then
                 time ← now;
                 let uptime := u64 (time - started_at) / 1000000000 in
                 _ ← lock;
                 n ← on_rest (gets num_workers);
                 _ ← write fd (le_bytes 4 IPC_CMD_STATUS);
                 _ ← write fd (put_status (MkIpcStatus uptime n));
                 iter ← on_heap (LIST_HEAD workers_head);
                 _ ← send_workers fd (Z.to_nat n) iter;
                 unlock
               else mret tt);
          close fd
    end.

End Ipc.

(** ** The structures survive the way *)
Module IpcSpec.
Import Ipc Clist ClistSpec Worker.

Record request_fits (q : ipc_request) : Prop := {
  fits_command : 0 <= command q < 2 ^ 32;
  fits_payload : 0 <= payload q < 2 ^ 32;
}.
Record status_fits (s : ipc_status) : Prop := {
  fits_uptime : 0 <= uptime s < 2 ^ 64;
  fits_workers : 0 <= status_workers s < 2 ^ 32;
}.
Record worker_fits (s : worker_status) : Prop := {
  fits_id : 0 <= ws_id s < 2 ^ 64;
  fits_conns : 0 <= ws_num_conns s < 2 ^ 64;
}.

Lemma slice_le_bytes pre n x post k : k = length pre -> 0 <= x < 256 ^ Z.of_nat n ->
  le_val (slice k n (pre ++ le_bytes n x ++ post)) = x.
Proof. intros -> Hx. rewrite slice_app_mid by by rewrite length_le_bytes. by apply le_val_bytes. Qed.

Lemma get_put_request q : request_fits q -> get_request (put_request q) = q.
Proof.
  intros [H1 H2]. destruct q as [c p]. unfold get_request, put_request. cbn [command payload] in *.
  f_equal.
  - by apply (slice_le_bytes []).
  - pose proof (slice_le_bytes (le_bytes 4 c) 4 p [] 4) as E. rewrite app_nil_r in E. by apply E.
Qed.

Lemma get_put_status s : status_fits s -> get_status (put_status s) = s.
Proof.
  intros [H1 H2]. destruct s as [u n]. unfold get_status, put_status.
  cbn [uptime status_workers] in *. f_equal.
  - by apply (slice_le_bytes []).
  - pose proof (slice_le_bytes (le_bytes 8 u) 4 n [] 8) as E. rewrite app_nil_r in E. by apply E.
Qed.

Lemma get_put_worker s : worker_fits s -> get_worker (put_worker s) = s.
Proof.
  intros [H1 H2]. destruct s as [i b n]. unfold get_worker, put_worker.
  cbn [ws_id ws_running ws_num_conns] in *. f_equal.
  - by apply (slice_le_bytes []).
  - change 8%nat with (length (le_bytes 8 i)) at 1. rewrite slice_app_mid by done. by destruct b.
  - pose proof (slice_le_bytes (le_bytes 8 i ++ [if b then 1 else 0]) 8 n [] 9) as E.
    rewrite app_nil_r, <- (assoc_L (++)) in E. by apply E.
Qed.

Lemma length_put_worker s : length (put_worker s) = SIZEOF_WORKER_STATUS.
Proof. done. Qed.
Lemma length_put_status s : length (put_status s) = SIZEOF_IPC_STATUS.
Proof. done. Qed.

(** ** What handle_ipc writes *)
Definition written (fd : Z) (pieces : list (list Z)) (r : rest) : rest :=
  MkRest (conns r) (workers r) (num_workers r) (current_id r) (worker_lock r) (outside r)
    (trace r ++ (SysSend fd <$> pieces)) (store r).

Lemma written_nil fd r : written fd [] r = r.
Proof. unfold written. cbn. rewrite app_nil_r. by destruct r. Qed.

Lemma written_cons fd p pieces r :
  written fd pieces (made (SysSend fd p) r) = written fd (p :: pieces) r.
Proof. unfold written, made. cbn. by rewrite <- (assoc_L (++)). Qed.

(** A client that reads what it is sent. *)
Lemma write_run fd bs h r : writes (outside r) = [] ->
  write fd bs (World h r) = Val (tt, World h (made (SysSend fd bs) r)).
Proof.
  intros Hw. unfold write. etransitivity; [eapply bind_run, ask_run; unfold pop_write; by rewrite Hw|]. cbv beta iota.
  by destruct r.
Qed.

Lemma write_ok fd bs r (Q : unit -> rest -> heapProp) : writes (outside r) = [] ->
  Q tt (made (SysSend fd bs) r) ⊢ wwp (write fd bs) Q r.
Proof. intros Hw. apply wwp_goes_to. intros h. by apply write_run. Qed.

(** A client that sends something, or closes its end. *)
Lemma read_run ans o h r : recvs (outside r) <> [] -> pop_recv (outside r) = (ans, o) ->
  read (World h r) = Val (ans, World h (set_outside o r)).
Proof.
  intros Hne Hr. unfold read. etransitivity; [by eapply bind_run|]. cbv beta.
  cbn [others memory]. destruct (recvs (outside r)) eqn:E; [done|]. by apply ask_run.
Qed.

Lemma pop_recv_some bs o o' : pop_recv o = (RecvData bs, o') -> recvs o <> [].
Proof. unfold pop_recv. by destruct (recvs o). Qed.

Lemma pop_accept_writes o fd o1 : writes o = [] -> pop_accept o = (fd, o1) -> writes o1 = [].
Proof. unfold pop_accept. by destruct (accepts o); intros ? [= <- <-]. Qed.
Lemma pop_recv_writes o ans o1 : writes o = [] -> pop_recv o = (ans, o1) -> writes o1 = [].
Proof. unfold pop_recv. by destruct (recvs o); intros ? [= <- <-]. Qed.

Lemma send_workers_ok fd ws : forall ys l1 d r (Q : unit -> rest -> heapProp),
  writes (outside r) = [] -> Forall2 (fun w y => workers r !! w = Some y) ws ys ->
  ring workers_head (l1 ++ ws) ⊢
  (ring workers_head (l1 ++ ws) -∗ Q tt (written fd (put_worker <$> (status_of <$> ys)) r)) -∗
  wwp (send_workers fd (length ws) (default d (list.head ws))) Q r.
Proof.
  induction ws as [|w ws IH]; intros ys l1 d r Q Hwr Hys; iIntros "R HQ";
    apply Forall2_cons_inv_l in Hys || apply Forall2_nil_inv_l in Hys.
  - subst ys. cbn [length send_workers]. w_step. cbn [fmap list_fmap]. rewrite written_nil. by iApply "HQ".
  - destruct Hys as (y & ys' & Hy & Hys & ->). cbn [length send_workers list.head default from_option id].
    w_step. w_step. w_step. iApply write_ok; [done|]. w_step. w_step.
    unfold ring. rewrite links_app. iDestruct "R" as "[R1 R2]".
    iDestruct (links_next with "R2") as "[N R2]". iApply (hwp_load with "N"). iIntros "N".
    iDestruct ("R2" with "N") as "R2".
    iApply (IH ys' (l1 ++ [w]) workers_head with "[R1 R2]"); [done|done| |].
    + unfold ring. rewrite <- (assoc_L (++)). cbn [app]. rewrite links_app. iFrame.
    + iIntros "R". unfold ring. rewrite <- (assoc_L (++)). cbn [app]. rewrite written_cons.
      iApply "HQ". by rewrite links_app.
Qed.
(** What the client is sent. *)
Definition status_pieces (uptime n : Z) (ys : list worker) : list (list Z) :=
  le_bytes 4 IPC_CMD_STATUS :: put_status (MkIpcStatus uptime n) :: (put_worker <$> (status_of <$> ys)).

(** handle_ipc changes nothing but the trace and the answers used up. *)
Record ipc_done (o : os) (calls : list sys) (r r' : rest) : Prop := {
  done_conns : conns r' = conns r;
  done_workers : workers r' = workers r;
  done_count : num_workers r' = num_workers r;
  done_id : current_id r' = current_id r;
  done_lock : worker_lock r' = MutexFree;
  done_store : store r' = store r;
  done_outside : outside r' = o;
  done_trace : trace r' = trace r ++ calls;
}.

(** Any other request, or none. *)
Lemma handle_ipc_other started r fd o1 bs o2 h :
  pop_accept (outside r) = (fd, o1) -> 0 <= fd -> pop_recv o1 = (RecvData bs, o2) ->
  length bs = SIZEOF_IPC_REQUEST -> command (get_request bs) <> IPC_CMD_STATUS ->
  handle_ipc started (World h r) = Val (tt, World h (made (SysClose fd) (set_outside o2 r))).
Proof.
  intros Ha Hfd Hreq Hlen Hcmd. unfold handle_ipc.
  etransitivity; [eapply bind_run, ask_run, Ha|]. cbv beta. replace (fd <? 0) with false by zlia.
  etransitivity; [eapply bind_run, read_run; [by eapply pop_recv_some|exact Hreq]|]. cbv beta iota. rewrite Hlen.
  rewrite Nat.ltb_irrefl, Nat.eqb_refl. cbn [negb]. by replace (_ =? IPC_CMD_STATUS) with false by zlia.
Qed.

Lemma handle_ipc_nobody started r fd o1 h : pop_accept (outside r) = (fd, o1) -> fd < 0 ->
  handle_ipc started (World h r) = Val (tt, World h (set_outside o1 r)).
Proof.
  intros Ha Hfd. unfold handle_ipc. etransitivity; [eapply bind_run, ask_run, Ha|]. cbv beta.
  by replace (fd <? 0) with true by zlia.
Qed.

Lemma handle_ipc_short started r fd o1 ans o2 h :
  pop_accept (outside r) = (fd, o1) -> 0 <= fd -> recvs o1 <> [] -> pop_recv o1 = (ans, o2) ->
  match ans with RecvErr _ => True | RecvData bs => (length bs < SIZEOF_IPC_REQUEST)%nat end ->
  handle_ipc started (World h r) = Val (tt, World h (set_outside o2 r)).
Proof.
  intros Ha Hfd Hne Hr Hans. unfold handle_ipc.
  etransitivity; [eapply bind_run, ask_run, Ha|]. cbv beta.
  replace (fd <? 0) with false by zlia.
  etransitivity; [eapply bind_run, read_run; [exact Hne|exact Hr]|]. cbv beta.
  destruct ans as [e|bs]; [done|].
  replace (SIZEOF_IPC_REQUEST <? length bs)%nat with false by (symmetry; apply Nat.ltb_ge; lia).
  by replace (length bs =? SIZEOF_IPC_REQUEST)%nat with false by (symmetry; apply Nat.eqb_neq; lia).
Qed.

(** A client that sends nothing. *)
Lemma handle_ipc_waits started r fd o1 h : pop_accept (outside r) = (fd, o1) -> 0 <= fd -> recvs o1 = [] ->
  handle_ipc started (World h r) = Blocked.
Proof.
  intros Ha Hfd Hr. unfold handle_ipc. etransitivity; [eapply bind_run, ask_run, Ha|]. cbv beta.
  replace (fd <? 0) with false by zlia. unfold read, mbind, cmd_bind, on_rest. cbn [others gets outside set_outside].
  by rewrite Hr.
Qed.

Section handling.
Context (started : Z) (ws : list ptr) (ys : list worker) (r : rest).
Context (Hlock : worker_lock r = MutexFree) (Hhead : workers_head ∉ ws).
Context (Hn : num_workers r = Z.of_nat (length ws)).
Context (Hys : Forall2 (fun w y => workers r !! w = Some y) ws ys).

(** A request for the status. *)
Lemma handle_ipc_status fd o1 bs o2 ts o3 (Q : unit -> rest -> heapProp) :
  writes o2 = [] -> pop_accept (outside r) = (fd, o1) -> 0 <= fd -> pop_recv o1 = (RecvData bs, o2) ->
  length bs = SIZEOF_IPC_REQUEST -> command (get_request bs) = IPC_CMD_STATUS -> pop_clock o2 = (ts, o3) ->
  ring workers_head ws ⊢
  (∀ r', ring workers_head ws -∗
     ⌜ipc_done o3 ((SysSend fd <$> status_pieces (u64 (Timer.get_time ts - started) / 1000000000)
        (num_workers r) ys) ++ [SysClose fd]) r r'⌝ -∗ Q tt r') -∗
  wwp (handle_ipc started) Q r.
Proof.
  intros Hwr Ha Hfd Hreq Hlen Hcmd Hts. iIntros "R HQ".
  assert (writes o3 = []) as Hwr3.
  { revert Hts. unfold pop_clock. destruct (clock o2); by intros [= _ <-]. }
  unfold handle_ipc. w_step. w_step. rewrite Ha. replace (fd <? 0) with false by zlia.
  w_step. iApply (wwp_goes_to read (RecvData bs) (set_outside o2 (set_outside o1 r))).
  { intros h. apply read_run; [by eapply pop_recv_some|done]. }
  rewrite Hlen.
  rewrite Nat.ltb_irrefl, Nat.eqb_refl, Hcmd. cbn [negb]. change (IPC_CMD_STATUS =? IPC_CMD_STATUS) with true. cbn iota.
  w_step. w_step. iApply wwp_now. cbn [outside set_outside]. rewrite Hts. cbv zeta.
  w_step. unfold lock. iApply wwp_rest; [cbn; by rewrite Hlock|].
  w_step. iApply wwp_rest; [done|]. w_step. iApply write_ok; [done|]. w_step. iApply write_ok; [done|].
  w_step. w_step. iApply (LIST_HEAD_ok with "[$R]"); [done|]. iIntros "R".
  cbn [num_workers set_worker_lock set_outside]. rewrite Hn, Nat2Z.id.
  w_step. iApply (send_workers_ok fd ws ys [] with "R"); [done|done|]. iIntros "R".
  unfold unlock. iApply wwp_rest; [done|]. w_step. iApply ("HQ" with "R"). iPureIntro.
  split; try done. unfold written, made, status_pieces. cbn. by app_norm.
Qed.

(** Whatever comes, up to the bytes that are asked for. *)
Definition request_sized (ans : recv_result) : Prop :=
  match ans with RecvErr _ => True | RecvData bs => (length bs <= SIZEOF_IPC_REQUEST)%nat end.

(** What the outside still has for the status socket: the requests to come are no longer
    than asked for, and clients read what they are sent. *)
Record clients_ok (o : os) : Prop := {
  clients_sized : Forall request_sized (recvs o);
  clients_read : writes o = [];
}.

(** [o'] is what is left of [o] when one client has been seen to. *)
Record seen_to (o o' : os) : Prop := {
  seen_ok : clients_ok o';
  seen_accepts : accepts o' = tail (accepts o);
  seen_recvs : (length (recvs o) <= S (length (recvs o')))%nat;
}.

Lemma pop_accept_seen o : clients_ok o -> seen_to o (snd (pop_accept o)) /\
  recvs (snd (pop_accept o)) = recvs o.
Proof.
  intros [H1 H2]. unfold pop_accept. destruct (accepts o) eqn:E; cbn [fst snd recvs]; (split; [|done]);
    split; cbn [accepts recvs]; rewrite ?E; auto; by split.
Qed.

Lemma pop_recv_seen o o1 : recvs o1 = recvs o -> seen_to o o1 ->
  request_sized (fst (pop_recv o1)) /\ seen_to o (snd (pop_recv o1)).
Proof.
  intros E [[H1 H2] H3 H4]. unfold pop_recv. destruct (recvs o1) as [|ans l] eqn:E1; cbn.
  - split; [done|]. split; [split; [by rewrite E1|done]|done|by rewrite E1].
  - apply Forall_cons in H1 as [Hans Hl]. split; [done|]. split; [by split|done|by rewrite <- E].
Qed.

Lemma pop_clock_seen o o1 : seen_to o o1 -> seen_to o (snd (pop_clock o1)).
Proof. intros [[H1 H2] H3 H4]. unfold pop_clock. destruct (clock o1); by split. Qed.

Lemma handle_ipc_safe (Q : unit -> rest -> heapProp) :
  clients_ok (outside r) -> recvs (outside r) <> [] ->
  ring workers_head ws ⊢
  (∀ r' o calls, ring workers_head ws -∗ ⌜ipc_done o calls r r' /\ seen_to (outside r) o⌝ -∗ Q tt r') -∗
  wwp (handle_ipc started) Q r.
Proof.
  intros Hall Hne. iIntros "R HQ". destruct (pop_accept (outside r)) as [fd o1] eqn:Ha.
  pose proof (pop_accept_seen (outside r) Hall) as [H1 E1]. rewrite Ha in H1, E1. cbn [snd] in H1, E1.
  assert (forall o, ipc_done o [] r (set_outside o r)) as Hquiet.
  { intros o. split; try done. cbn. by rewrite app_nil_r. }
  destruct (Z.ltb_spec fd 0) as [Hfd|Hfd].
  { iApply (wwp_goes_to _ tt (set_outside o1 r)); [by intros h; eapply handle_ipc_nobody|].
    by iApply ("HQ" with "R"). }
  pose proof (pop_recv_seen _ o1 E1 H1) as [Hsz H2]. rewrite <- E1 in Hne.
  destruct (pop_recv o1) as [ans o2] eqn:Hr. cbn [fst snd] in Hsz, H2.
  destruct ans as [e|bs].
  { iApply (wwp_goes_to _ tt (set_outside o2 r)); [by intros h; eapply handle_ipc_short|].
    by iApply ("HQ" with "R"). }
  destruct (decide (length bs = SIZEOF_IPC_REQUEST)) as [Hlen|Hlen].
  2: { iApply (wwp_goes_to _ tt (set_outside o2 r)).
       { intros h. apply (handle_ipc_short started r fd o1 (RecvData bs)); [done..|]. cbn in Hsz. lia. }
       by iApply ("HQ" with "R"). }
  destruct (decide (command (get_request bs) = IPC_CMD_STATUS)) as [Hcmd|Hcmd].
  - destruct (pop_clock o2) as [ts o3] eqn:Hts.
    pose proof (pop_clock_seen _ _ H2) as H3. rewrite Hts in H3. cbn [snd] in H3.
    iApply (handle_ipc_status with "R"); [apply H2|done..|]. iIntros (r') "R %Hd". iApply ("HQ" with "R"). by iPureIntro.
  - iApply (wwp_goes_to _ tt (made (SysClose fd) (set_outside o2 r))); [by intros h; eapply handle_ipc_other|].
    by iApply ("HQ" with "R").
Qed.
End handling.
End IpcSpec.

Module IpcThm.
Import Ipc IpcSpec Clist ClistSpec Worker Event.

(** handle_ipc closes its descriptor only if the whole request has been read.
    When read fails, the client closes at once or sends fewer bytes than a request
    has, the descriptor that accept gave is left open. *)
Theorem short_request_leaks started fd o1 o2 ans h r :
  pop_accept (outside r) = (fd, o1) -> 0 <= fd -> recvs o1 <> [] -> pop_recv o1 = (ans, o2) ->
  match ans with RecvErr _ => True | RecvData bs => (length bs < SIZEOF_IPC_REQUEST)%nat end ->
  handle_ipc started (World h r) = Val (tt, World h (set_outside o2 r)).
Proof. apply handle_ipc_short. Qed.

(** *** A server with two workers, asked by the monitor *)
Definition ex_cells : list (loc * Z) :=
  [((workers_head, Next), 24); ((24, Prev), workers_head); ((24, Next), 48); ((48, Prev), 24);
   ((48, Next), workers_head); ((workers_head, Prev), 48)].
Definition ex_memory : heap := list_to_map ex_cells.
Definition ex_workers : list worker := [MkWorker 0 3 true 2 1; MkWorker 1 4 true 0 2].
Definition ex_asked (bs : list Z) : rest :=
  MkRest ∅ (list_to_map (zip [24; 48] ex_workers)) 2 2 MutexFree
    (MkOs [RecvData bs] [] [] [] [] [Timer.MkTimespec 0 65 0] [7] [] [] [] [] [] []) []
    (Db.Db.MkDb [] 0 Db.Db.Unlocked []).

Lemma ex_workers_ring : ring workers_head [24; 48] ex_memory.
Proof.
  apply holds_of_cells; [by_compute|]. unfold ring, owns. cbn.
  iIntros "($ & $ & $ & $ & $ & $ & _)".
Qed.

Lemma short_request_leaks_witness : exists r',
  handle_ipc 0 (World ex_memory (ex_asked [1; 2; 3])) = Val (tt, World ex_memory r') /\
  trace r' = [].
Proof.
  eexists. split.
  - eapply (short_request_leaks 0 7 _ _ (RecvData [1; 2; 3]) ex_memory (ex_asked [1; 2; 3]));
      [reflexivity|done|done|reflexivity|]. apply Nat.ltb_lt. by vm_compute.
  - done.
Defined.
End IpcThm.
