(* ===== verification/Caskmon.v ===== *)
(** The monitor, caskmon.c.

    Module [Caskmon] has its main, a process of its own: what getopt finds, the
    arguments, the stack that becomes the address, and the answers of socket, connect
    and write are arguments; read answers from the bytes that come in, which may be cut.
    What it does and prints is recorded.  The server is there: it has not closed the
    connection when the request is written, which would end the monitor by SIGPIPE, and
    what is not in the bytes to come is not sent any more.  Module [CaskmonThm]: what main does in every
    case, and that it prints what handle_ipc of the server has sent. *)
From S2P Require Db.
From S2P Require Import Prelude Buffer Heap Clist Timer World Event EventSpec Worker Ipc.

Module Caskmon.
Import Ipc.

(** What the monitor does to the outside: calls, and what goes to stderr. *)
Inductive act :=
  | Connects (fd : Z) (sun_path : list Z)
  | Writes (fd : Z) (bs : list Z)
  | Prints_status (s : ipc_status)
  | Prints_worker (s : worker_status)
  | Closes (fd : Z).

(** The bytes that come in, how the calls of read to come cut them ([None]: the call
    fails; [Some k]: at most [k] bytes are there; past the end: all that is asked
    for), and what has been done. *)
Record process := MkProcess { incoming : list Z; cuts : list (option nat); acts : list act }.

Definition does (a : act) : cmd process unit :=
  modify (fun m => MkProcess (incoming m) (cuts m) (acts m ++ [a])).

(** read(fd, buf, n) != n, with the bytes read when it is not. *)
Definition read_all (n : nat) : cmd process (option (list Z)) := fun m =>
  let '(k, cs) := match cuts m with [] => (Some n, []) | k :: cs => (k, cs) end in
  match k with
  | None => Val (None, MkProcess (incoming m) cs (acts m))
  | Some k =>
      let bs := take (Nat.min k n) (incoming m) in
      Val (if negb (length bs =? n)%nat then None else Some bs,
           MkProcess (drop (Nat.min k n) (incoming m)) cs (acts m))
  end.

(** The loop over the workers: [n] of them are left; false when a read fails. *)
Fixpoint read_workers (n : nat) : cmd process bool :=
  match n with
  | O => mret true
  | S n =>
      r ← read_all SIZEOF_WORKER_STATUS;
      match r with
      | None => mret false
      | Some bs =>
          _ ← does (Prints_worker (get_worker bs));
          read_workers n
      end
  end.

(** The path is copied to addr.sun_path; addr is not cleared before. *)
Definition monitor_address (sun_path path : list Z) : res (list Z) :=
  Buffer.memcpy sun_path 0 path (Z.of_nat (length path)).

Definition monitor_request : list Z := put_request (MkIpcRequest IPC_CMD_STATUS 0).

(** close(fd); return 1; *)
Definition fails_with (fd : Z) : cmd process Z := _ ← does (Closes fd); mret 1.

(** main; getopt finds [opts], [argv] are the arguments after the program's name. *)
Definition main (opts : list Z) (argv : list (list Z)) (fd : Z) (sun_path : list Z)
    (connect : list Z -> Z) (wrote : Z) : cmd process Z :=
  match opts, argv with
  | _ :: _, _ => mret 1
  | [], [] => mret 1
  | [], path :: _ =>
      if fd <? 0 then mret 1
      else
        addr ← liftr (monitor_address sun_path path);
        _ ← does (Connects fd addr);
        if connect addr <? 0 then fails_with fd
        else
          _ ← does (Writes fd monitor_request);
          if negb (wrote =? Z.of_nat SIZEOF_IPC_REQUEST) then fails_with fd
          else
            c ← read_all 4;
            match c with
            | None => fails_with fd
            | Some c =>
                if negb (le_val c =? IPC_CMD_STATUS) then fails_with fd
                else
                  s ← read_all SIZEOF_IPC_STATUS;
                  match s with
                  | None => fails_with fd
                  | Some s =>
                      _ ← does (Prints_status (get_status s));
                      ok ← read_workers (Z.to_nat (status_workers (get_status s)));
                      if negb ok then fails_with fd
                      else _ ← does (Closes fd); mret 0
                  end
            end
  end.

End Caskmon.

Module CaskmonThm.
Import Ipc IpcSpec IpcThm Caskmon Clist ClistSpec Worker Event.

(** ** Reading *)
Lemma wp_does a (Q : unit -> process -> Prop) m :
  Q tt (MkProcess (incoming m) (cuts m) (acts m ++ [a])) -> wp (does a) Q m.
Proof. done. Qed.

(** What has been read are the first bytes that came in. *)
Lemma wp_read_all n (Q : option (list Z) -> process -> Prop) m :
  (forall r in' cs', (forall bs, r = Some bs -> length bs = n /\ incoming m = bs ++ in') ->
     Q r (MkProcess in' cs' (acts m))) -> wp (read_all n) Q m.
Proof.
  intros HQ. unfold wp, read_all. destruct (cuts m) as [|[k|] cs]; cbv beta iota; apply HQ; [| |done].
  - intros bs. rewrite Nat.min_id. destruct (Nat.eqb_spec (length (take n (incoming m))) n) as [E|]; [|done].
    cbn [negb]. intros [= <-]. by rewrite take_drop.
  - intros bs. set (j := Nat.min k n). destruct (Nat.eqb_spec (length (take j (incoming m))) n) as [E|]; [|done].
    cbn [negb]. intros [= <-]. by rewrite take_drop.
Qed.

(** So are the workers' lines, which are printed as they are read. *)
Lemma wp_read_workers n (Q : bool -> process -> Prop) : forall m,
  (forall ok bss in' cs', (ok = true -> length bss = n /\
       Forall (fun bs => length bs = SIZEOF_WORKER_STATUS) bss /\ incoming m = concat bss ++ in') ->
     Q ok (MkProcess in' cs' (acts m ++ (Prints_worker ∘ get_worker <$> bss)))) ->
  wp (read_workers n) Q m.
Proof.
  induction n as [|n IH]; intros m HQ; cbn [read_workers].
  { wp_step. specialize (HQ true [] (incoming m) (cuts m)). cbn in HQ. rewrite app_nil_r in HQ.
    destruct m. by apply HQ. }
  wp_step. apply wp_read_all. intros r in1 cs1 Hr. destruct r as [bs|].
  2: { wp_step. specialize (HQ false [] in1 cs1). cbn in HQ. rewrite app_nil_r in HQ. by apply HQ. }
  destruct (Hr bs eq_refl) as [Hlen Hin]. wp_step. apply wp_does. apply IH. cbn [incoming cuts acts].
  intros ok bss in2 cs2 Hok. specialize (HQ ok (bs :: bss) in2 cs2). cbn [fmap list_fmap] in HQ.
  rewrite <- (assoc_L (++)). apply HQ. intros (<- & Hf & Hin2)%Hok.
  split_and!; [done|by constructor|]. cbn [concat]. by rewrite Hin, Hin2, (assoc_L (++)).
Qed.

(** When nothing is cut, what has been sent is printed. *)
Lemma read_all_app n bs in' a : length bs = n ->
  read_all n (MkProcess (bs ++ in') [] a) = Val (Some bs, MkProcess in' [] a).
Proof.
  intros <-. unfold read_all. cbn [cuts incoming acts]. rewrite Nat.min_id, take_app_length, drop_app_length.
  by rewrite Nat.eqb_refl.
Qed.

Lemma read_put_workers ss : forall in' a, Forall worker_fits ss ->
  read_workers (length ss) (MkProcess (concat (put_worker <$> ss) ++ in') [] a) =
    Val (true, MkProcess in' [] (a ++ (Prints_worker <$> ss))).
Proof.
  induction ss as [|s ss IH]; intros in' a Hs.
  { cbn. by rewrite app_nil_r. }
  apply Forall_cons in Hs as [Hs Hss]. cbn [length read_workers fmap list_fmap concat].
  rewrite <- (assoc_L (++)). etransitivity; [eapply bind_run, read_all_app, length_put_worker|]. cbv beta iota.
  etransitivity; [by eapply bind_run|]. cbv beta. cbn [incoming cuts acts].
  rewrite get_put_worker by done.
  change (concat (list_fmap _ _ put_worker ss)) with (concat (put_worker <$> ss)).
  rewrite IH by done. by rewrite <- (assoc_L (++)).
Qed.

(** ** The address *)
Lemma monitor_address_ok sun_path path : length sun_path = UNIX_PATH_MAX ->
  (length path <= UNIX_PATH_MAX)%nat -> monitor_address sun_path path = Val (path ++ drop (length path) sun_path).
Proof.
  intros Hsun Hl. unfold monitor_address, Buffer.memcpy, CMem.read_bytes.
  destruct (Z.eqb_spec (Z.of_nat (length path)) 0) as [E|E].
  { assert (path = []) as -> by (apply nil_length_inv; lia). done. }
  replace ((0 <? 0) || (Z.of_nat (length path) <? 0) || (Z.of_nat (length path) <? 0 + Z.of_nat (length path)))
    with false by zlia. cbn [mbind res_bind]. rewrite Hsun.
  replace ((0 <? 0) || (Z.of_nat UNIX_PATH_MAX <? 0 + Z.of_nat (length path))) with false by zlia.
  change (Z.to_nat 0) with 0%nat. by rewrite Nat2Z.id, slice_full.
Qed.

Lemma monitor_address_long sun_path path : length sun_path = UNIX_PATH_MAX ->
  (UNIX_PATH_MAX < length path)%nat -> monitor_address sun_path path = Stuck.
Proof.
  intros Hsun Hl. unfold monitor_address, Buffer.memcpy, CMem.read_bytes.
  replace (Z.of_nat (length path) =? 0) with false by zlia.
  replace ((0 <? 0) || (Z.of_nat (length path) <? 0) || (Z.of_nat (length path) <? 0 + Z.of_nat (length path)))
    with false by zlia. cbn [mbind res_bind]. rewrite Hsun.
  by replace ((0 <? 0) || (Z.of_nat UNIX_PATH_MAX <? 0 + Z.of_nat (length path))) with true by zlia.
Qed.

(** The path given to the monitor is copied to a member of UNIX_PATH_MAX bytes
    without a look at its length, and what follows it there is what was on the stack:
    the path ends where it should only when that is a zero by chance. *)
Theorem monitor_path_unchecked sun_path path : length sun_path = UNIX_PATH_MAX ->
  (UNIX_PATH_MAX < length path)%nat /\ monitor_address sun_path path = Stuck \/
  (length path <= UNIX_PATH_MAX)%nat /\ exists addr, monitor_address sun_path path = Val addr /\
    ((path ++ [0]) `prefix_of` addr <-> sun_path !! length path = Some 0).
Proof.
  intros Hsun. destruct (decide (length path <= UNIX_PATH_MAX)%nat) as [Hl|Hl].
  2: { left. split; [lia|]. apply monitor_address_long; [done|lia]. }
  right. split; [done|]. exists (path ++ drop (length path) sun_path).
  split; [by apply monitor_address_ok|].
  rewrite <- (Nat.add_0_r (length path)) at 2. rewrite <- lookup_drop. split.
  - intros [k Hk]. rewrite <- (assoc_L (++)) in Hk. apply app_inv_head in Hk. by rewrite Hk.
  - destruct (drop (length path) sun_path) as [|z l]; [done|]. cbn. intros [= ->].
    exists l. by rewrite <- (assoc_L (++)).
Qed.

(** ** main *)

(** What main does between connect and close, and what it returns. *)
Definition outcome (fd : Z) (connects : bool) (wrote : Z) (stream : list Z) (code : Z) (did : list act) : Prop :=
  code = 1 \/
  code = 0 /\ connects = true /\ wrote = Z.of_nat SIZEOF_IPC_REQUEST /\
  exists c s bss rest, stream = c ++ s ++ concat bss ++ rest /\
    length c = 4%nat /\ le_val c = IPC_CMD_STATUS /\ length s = SIZEOF_IPC_STATUS /\
    Forall (fun bs => length bs = SIZEOF_WORKER_STATUS) bss /\
    length bss = Z.to_nat (status_workers (get_status s)) /\
    did = Writes fd monitor_request :: Prints_status (get_status s) :: (Prints_worker ∘ get_worker <$> bss).

Section ending.
Context (fd wrote : Z) (connects : bool) (addr stream : list Z) (a : list act).

Definition ended (code : Z) (m : process) : Prop := exists did,
  acts m = a ++ Connects fd addr :: (did ++ [Closes fd]) /\ (Closes fd ∉ did) /\
  outcome fd connects wrote stream code did.

Lemma fails_with_ended did m : acts m = a ++ Connects fd addr :: did -> Closes fd ∉ did ->
  wp (fails_with fd) ended m.
Proof.
  intros Hm Hd. unfold fails_with. wp_step. apply wp_does. wp_step. exists did. cbn [acts]. rewrite Hm.
  split_and!; [by rewrite <- (assoc_L (++))|done|by left].
Qed.
End ending.

(** C38: Whatever the server and the system answer, the monitor ends, and leaves nothing
    open.  Called without options on a path that fits, and given a descriptor, main
    connects to the address made from the path, closes the descriptor once, as the last
    thing it does, and returns 0 or 1; when it returns 0 the connection was made, the
    request went out whole and the answer came in whole, and it has printed the status
    and one line for each worker that the status counts. *)
Theorem caskmon_main_correct path argv fd sun_path connect wrote m :
  0 <= fd -> length sun_path = UNIX_PATH_MAX -> (length path <= UNIX_PATH_MAX)%nat ->
  let addr := path ++ drop (length path) sun_path in
  exists code did in' cs',
    main [] (path :: argv) fd sun_path connect wrote m =
      Val (code, MkProcess in' cs' (acts m ++ Connects fd addr :: (did ++ [Closes fd]))) /\
    (Closes fd ∉ did) /\ outcome fd (0 <=? connect addr) wrote (incoming m) code did.
Proof.
  intros Hfd Hsun Hl addr.
  enough (wp (main [] (path :: argv) fd sun_path connect wrote)
    (ended fd wrote (0 <=? connect addr) addr (incoming m) (acts m)) m) as Hwp.
  { apply wp_Val in Hwp as (code & [in' cs' a'] & E & did & Ha & Hd & Ho). cbn [acts] in Ha. subst a'.
    by exists code, did, in', cs'. }
  unfold main. replace (fd <? 0) with false by zlia. wp_step.
  eapply wp_liftr; [by apply monitor_address_ok|]. fold addr. cbv beta. wp_step. apply wp_does.
  destruct (Z.ltb_spec (connect addr) 0) as [Hc|Hc].
  { by apply (fails_with_ended _ _ _ _ _ _ []); [|apply not_elem_of_nil]. }
  wp_step. apply wp_does. cbn [incoming cuts acts].
  set (w := Writes fd monitor_request).
  assert (Closes fd ∉ [w]) as Hw by (intros [[=]|[]%not_elem_of_nil]%elem_of_cons).
  assert (forall in' cs', wp (fails_with fd)
    (ended fd wrote (0 <=? connect addr) addr (incoming m) (acts m))
    (MkProcess in' cs' ((acts m ++ [Connects fd addr]) ++ [w]))) as Hfail.
  { intros. apply (fails_with_ended _ _ _ _ _ _ [w]); [by rewrite <- (assoc_L (++))|done]. }
  destruct (Z.eqb_spec wrote (Z.of_nat SIZEOF_IPC_REQUEST)) as [Hwr|Hwr]; cbn [negb]; [|apply Hfail].
  wp_step. apply wp_read_all. cbn [incoming acts]. intros [c|] in1 cs1 Hr1; [|apply Hfail].
  destruct (Hr1 c eq_refl) as [Hc1 Hin1].
  destruct (Z.eqb_spec (le_val c) IPC_CMD_STATUS) as [Hcmd|]; cbn [negb]; [|apply Hfail].
  wp_step. apply wp_read_all. cbn [incoming acts]. intros [s|] in2 cs2 Hr2; [|apply Hfail].
  destruct (Hr2 s eq_refl) as [Hs Hin2]. wp_step. apply wp_does. cbn [incoming cuts acts].
  wp_step. apply wp_read_workers. cbn [incoming acts]. intros ok bss in3 cs3 Hok.
  set (did := w :: Prints_status (get_status s) :: (Prints_worker ∘ get_worker <$> bss)).
  assert (Closes fd ∉ did) as Hd.
  { unfold did. rewrite !not_elem_of_cons. split_and!; [done|done|].
    by intros (? & [=] & _)%list_elem_of_fmap. }
  destruct ok; cbn [negb].
  - wp_step. apply wp_does. wp_step. destruct (Hok eq_refl) as (Hn & Hf & Hin3). exists did. cbn [acts].
    split_and!; [unfold did; by app_norm|done|]. right. split_and!; [done|zlia|done|].
    exists c, s, bss, in3. split_and!; try done. by rewrite Hin1, Hin2, Hin3, !(assoc_L (++)).
  - apply (fails_with_ended _ _ _ _ _ _ did); [|done]. cbn [acts]. unfold did. by app_norm.
Qed.

(** The answer of the server, when nothing of it is cut. *)
Lemma sent_is_printed path argv fd sun_path connect uptime n ys :
  0 <= fd -> length sun_path = UNIX_PATH_MAX -> (length path <= UNIX_PATH_MAX)%nat ->
  let addr := path ++ drop (length path) sun_path in 0 <= connect addr ->
  status_fits (MkIpcStatus uptime n) -> length ys = Z.to_nat n ->
  Forall (fun y => worker_fits (status_of y)) ys ->
  main [] (path :: argv) fd sun_path connect (Z.of_nat SIZEOF_IPC_REQUEST)
      (MkProcess (concat (status_pieces uptime n ys)) [] []) =
    Val (0, MkProcess [] [] (Connects fd addr :: Writes fd monitor_request ::
      Prints_status (MkIpcStatus uptime n) :: (Prints_worker ∘ status_of <$> ys) ++ [Closes fd])).
Proof.
  intros Hfd Hsun Hl addr Hc Hst Hn Hys. unfold main. replace (fd <? 0) with false by zlia.
  etransitivity; [eapply bind_run, liftr_run; by apply monitor_address_ok|]. cbv beta. fold addr.
  etransitivity; [by eapply bind_run|]. cbv beta. replace (connect addr <? 0) with false by zlia.
  etransitivity; [by eapply bind_run|]. cbv beta. rewrite Z.eqb_refl. cbn [negb incoming cuts acts].
  unfold status_pieces. cbn [concat].
  etransitivity; [by eapply bind_run, read_all_app|]. cbv beta iota.
  change (le_val (le_bytes 4 IPC_CMD_STATUS) =? IPC_CMD_STATUS) with true. cbn [negb].
  etransitivity; [eapply bind_run, read_all_app, length_put_status|]. cbv beta iota.
  rewrite get_put_status by done.
  etransitivity; [by eapply bind_run|]. cbv beta. cbn [status_workers incoming cuts acts].
  rewrite <- Hn, <- (length_fmap status_of ys), <- (app_nil_r (concat (put_worker <$> _))).
  etransitivity; [eapply bind_run, read_put_workers; by apply Forall_fmap|]. cbv beta. cbn [negb].
  cbn. rewrite <- list_fmap_compose. by app_norm.
Qed.

(** C37: The monitor prints what the server has.  When a connection on the socket brings
    the monitor's request, and its client reads what it is sent, what handle_ipc writes
    before it closes the descriptor is
    what makes the monitor's main, run on those bytes, return 0 and print the uptime in
    seconds, the number of workers and, for each worker in the order of the list, its
    id, whether it runs and its number of connections; the server's lock is released. *)
Theorem status_roundtrip started ws ys fd o1 o2 ts o3 r path argv mfd sun_path connect :
  pop_accept (outside r) = (fd, o1) -> 0 <= fd -> pop_recv o1 = (RecvData monitor_request, o2) ->
  pop_clock o2 = (ts, o3) -> writes (outside r) = [] -> worker_lock r = MutexFree -> workers_head ∉ ws ->
  num_workers r = Z.of_nat (length ws) -> num_workers r < 2 ^ 32 ->
  Forall2 (fun w y => workers r !! w = Some y) ws ys ->
  Forall (fun y => worker_fits (status_of y)) ys ->
  0 <= mfd -> length sun_path = UNIX_PATH_MAX -> (length path <= UNIX_PATH_MAX)%nat ->
  let addr := path ++ drop (length path) sun_path in 0 <= connect addr ->
  let status := MkIpcStatus (u64 (Timer.get_time ts - started) / 1000000000) (num_workers r) in
  wtriple (ring workers_head ws) r (handle_ipc started)
    (fun _ r' => ring workers_head ws ∗
       ⌜worker_lock r' = MutexFree /\ workers r' = workers r /\
        exists pieces, trace r' = trace r ++ (SysSend fd <$> pieces) ++ [SysClose fd] /\
          main [] (path :: argv) mfd sun_path connect (Z.of_nat SIZEOF_IPC_REQUEST)
              (MkProcess (concat pieces) [] []) =
            Val (0, MkProcess [] [] (Connects mfd addr :: Writes mfd monitor_request ::
              Prints_status status :: (Prints_worker ∘ status_of <$> ys) ++ [Closes mfd]))⌝)%I.
Proof.
  intros Ha Hfd Hreq Hts Hwr Hlock Hhead Hn Hn32 Hys Hfits Hmfd Hsun Hl addr Hconn status.
  apply wtriple_wwp. iIntros "R".
  iApply (handle_ipc_status started ws ys r Hlock Hhead Hn Hys fd o1 monitor_request o2 with "R"); try done.
  { apply (pop_recv_writes o1 (RecvData monitor_request)); [by apply (pop_accept_writes (outside r) fd)|done]. }
  iIntros (r') "R %Hd". iFrame. iPureIntro. destruct Hd as [_ Hdw _ _ Hdl _ _ Hdt]. split; [done|]. split; [done|].
  eexists. split; [by rewrite Hdt|]. fold status.
  apply sent_is_printed; try done.
  - split; cbn [uptime status_workers status]; [|lia].
    pose proof (wrap_bound 64 (Timer.get_time ts - started) ltac:(lia)). pow2.
    split; [apply Z.div_pos; lia|]. apply Z.div_lt_upper_bound; lia.
  - apply Forall2_length in Hys. by rewrite Hn, Nat2Z.id.
Qed.

(** *** A monitor of a server with two workers *)
Definition ex_stack : list Z := replicate 108 0.
Definition ex_path : list Z := bytes_of "cask.sock".
Definition ex_process (bs : list Z) : process := MkProcess bs [] [].

Lemma status_roundtrip_witness : exists h' r' pieces,
  handle_ipc 5000000000 (World ex_memory (ex_asked monitor_request)) = Val (tt, World h' r') /\
  trace r' = [] ++ (SysSend 7 <$> pieces) ++ [SysClose 7] /\
  main [] [ex_path] 3 ex_stack (fun _ => 0) 8 (ex_process (concat pieces)) =
    Val (0, MkProcess [] [] (Connects 3 (ex_path ++ drop 9 ex_stack) :: Writes 3 monitor_request ::
      Prints_status (MkIpcStatus 60 2) :: (Prints_worker ∘ status_of <$> ex_workers) ++ [Closes 3])).
Proof.
  pose proof (status_roundtrip 5000000000 [24; 48] ex_workers 7 _ _ _ _ (ex_asked monitor_request)
    ex_path [] 3 ex_stack (fun _ => 0)
    eq_refl ltac:(done) eq_refl eq_refl eq_refl eq_refl ltac:(by_compute) eq_refl ltac:(done)
    ltac:(by repeat constructor)
    ltac:(repeat (apply Forall_cons; split; [split; by_compute|]); by apply Forall_nil)
    ltac:(done) eq_refl ltac:(by_compute) ltac:(done)) as H0.
  destruct (wtriple_run _ _ _ _ ex_memory H0 ex_workers_ring) as ([] & h' & r' & H & Hr).
  destruct Hr as (? & ? & _ & _ & _ & _ & _ & pieces & Ht & Hm).
  exists h', r', pieces. split; [done|]. split; [exact Ht|]. exact Hm.
Defined.

(** The answer stops after the status: exit code 1. *)
Lemma caskmon_main_correct_witness : exists did in' cs',
  main [] [ex_path] 3 ex_stack (fun _ => 0) 8 (ex_process (le_bytes 4 0 ++ put_status (MkIpcStatus 60 2))) =
    Val (1, MkProcess in' cs' (Connects 3 (ex_path ++ drop 9 ex_stack) :: did ++ [Closes 3])).
Proof.
  destruct (caskmon_main_correct ex_path [] 3 ex_stack (fun _ => 0) 8
    (ex_process (le_bytes 4 0 ++ put_status (MkIpcStatus 60 2))) ltac:(done) eq_refl ltac:(by_compute))
    as (code & did & in' & cs' & E & _).
  exists did, in', cs'. assert (code = 1) as -> by (vm_compute in E; congruence). exact E.
Defined.
End CaskmonThm.
