(* ===== verification/Cask.v ===== *)
(** The server itself, cask.c: the functions behind the routes, the options, and
    main from its start to its end.

    Module [Cask] has them on the world.  A route's function is a number; its data
    is the mapped index file or the database, of which there is one each.  getopt,
    getaddrinfo and pselect are arguments: the options found, whether the call
    fails, and the list of the results of pselect. *)
From S2P Require Import Prelude Buffer Http Request Array Route Heap Clist World Event Connection.
From S2P Require Import Worker FileMap Ipc.
From S2P Require Db.

Module Cask.
Import Buffer Http Request Connection Worker.

Definition INDEX_CALLBACK : ptr := 1.
Definition GET_CALLBACK : ptr := 2.
Definition POST_CALLBACK : ptr := 3.
Definition FILE_DATA : ptr := 11.
Definition DB_DATA : ptr := 12.

Section callbacks.
Variable fuel : nat.

Definition respond (c : ptr) (status : http_status) (text : string) : cmd world unit :=
  send_response fuel c status (bytes_of text) (Z.of_nat (length (bytes_of text))).

Definition index_callback (f : File.file) (c : ptr) : cmd world unit :=
  if negb (File.size f =? 0)
  then send_response fuel c HTTP_STATUS_200 (default [] (File.data f)) (File.size f)
  else respond c HTTP_STATUS_200 "Index.".

(** The validation of the URI at [o], from its character [i] on; [n] are left. *)
Fixpoint valid_from (m : list Z) (o len : Z) (n : nat) (i : Z) : res bool :=
  match n with
  | O => Val true
  | S n =>
      ch ← CMem.load m (o + i);
      if negb (CMem.isdigit ch) then Val ((ch =? 47) && (2 <? len) && (i =? len - 1))
      else valid_from m o len n (i + 1)
  end.

Definition get_callback (c : ptr) : cmd world unit :=
  x ← conn c;
  let m := mem (c_buffer x) in
  let (o, len) := get_uri (c_req x) in
  valid ← liftr (valid_from m o len (Z.to_nat (len - 1)) 1);
  if negb valid then send_response fuel c HTTP_STATUS_404 [] 0
  else
    id ← liftr (CMem.strtoull m (o + 1));
    entry ← on_db (Db.Db.db_get fuel id);
    match entry with
    | Some v => send_response fuel c HTTP_STATUS_200 v (Z.of_nat (length v))
    | None => respond c HTTP_STATUS_404 "Paste not found"
    end.

Definition post_callback (c : ptr) : cmd world unit :=
  x ← conn c;
  let (o, len) := get_body (c_req x) in
  if len =? 0 then respond c HTTP_STATUS_400 "Error: Zero length paste"
  else
    r ← on_db (Db.Db.db_insert fuel (drop (Z.to_nat o) (mem (c_buffer x))) (u32 len));
    let '(ret, id) := r in
    if negb (ret =? OK) then send_response fuel c HTTP_STATUS_500 [] 0
    else
      id ← liftr (res_opt id);
      let (tmp, n) := CMem.snprintf 20 (CMem.dec id) in
      send_response fuel c HTTP_STATUS_200 tmp n.

(** route->cb(req, route->data) *)
Definition call_route (f : File.file) (cb c data : ptr) : cmd world unit :=
  if (cb =? INDEX_CALLBACK) && (data =? FILE_DATA) then index_callback f c
  else if (cb =? GET_CALLBACK) && (data =? DB_DATA) then get_callback c
  else if (cb =? POST_CALLBACK) && (data =? DB_DATA) then post_callback c
  else stuck.

End callbacks.

(** The three routes; [gs] answers the allocations. *)
Definition add_routes (gs : nat -> option (nat -> Route.route)) : res (option (Array.array_header_t Route.route)) :=
  a ← Route.add_route (gs 0%nat) None HTTP_METHOD_GET Route.ROUTE_MATCH_EXACT (CMem.cstr "/")
        INDEX_CALLBACK FILE_DATA;
  a ← Route.add_route (gs 1%nat) a HTTP_METHOD_GET Route.ROUTE_MATCH_PREFIX (CMem.cstr "/")
        GET_CALLBACK DB_DATA;
  Route.add_route (gs 2%nat) a HTTP_METHOD_POST Route.ROUTE_MATCH_EXACT (CMem.cstr "/")
    POST_CALLBACK DB_DATA.

(** *** Options *)

(** What main goes by; strings without their NUL. *)
Record options := MkOptions {
  port : list Z;
  opt_workers : Z;
  db_path : list Z;
  num_buckets : Z;
  ipc_sock_path : list Z;
}.

Definition NUM_WORKERS : Z := 3.
Definition PORT : list Z := bytes_of "3000".
Definition DB_PATH : list Z := bytes_of "cask.db".
Definition DB_NUM_BUCKETS : Z := 100000.
Definition IPC_SOCK_PATH : list Z := bytes_of "cask.sock".

Definition default_options : options :=
  MkOptions PORT NUM_WORKERS DB_PATH DB_NUM_BUCKETS IPC_SOCK_PATH.

Definition UINT32_MAX : Z := 2 ^ 32 - 1.

(** One turn of the loop over getopt, which has found the option [opt] with the
    argument [arg]; [None] is return 1. *)
Definition parse_option (o : options) (opt : Z) (arg : list Z) : res (option options) :=
  if opt =? 112 then
    Val (if forallb CMem.isdigit arg
         then Some (MkOptions arg (opt_workers o) (db_path o) (num_buckets o) (ipc_sock_path o))
         else None)
  else if opt =? 119 then
    n ← CMem.strtoull (arg ++ [0]) 0;
    Val (if (UINT32_MAX <? n) || (n =? 0) then None
         else Some (MkOptions (port o) (u32 n) (db_path o) (num_buckets o) (ipc_sock_path o)))
  else if opt =? 100 then
    Val (Some (MkOptions (port o) (opt_workers o) arg (num_buckets o) (ipc_sock_path o)))
  else if opt =? 98 then
    n ← CMem.strtoull (arg ++ [0]) 0;
    Val (if n =? 0 then None
         else Some (MkOptions (port o) (opt_workers o) (db_path o) n (ipc_sock_path o)))
  else if opt =? 115 then
    Val (if (Ipc.UNIX_PATH_MAX <? length arg)%nat then None
         else Some (MkOptions (port o) (opt_workers o) (db_path o) (num_buckets o) arg))
  else Val None.

Fixpoint parse_options (o : options) (args : list (Z * list Z)) : res (option options) :=
  match args with
  | [] => Val (Some o)
  | (opt, arg) :: args =>
      o ← parse_option o opt arg;
      match o with None => Val None | Some o => parse_options o args end
  end.

(** *** main *)

(** The path is copied to addr.sun_path, which is all zeros. *)
Definition setup_ipc (path : list Z) : cmd world Z :=
  fd ← ask pop_socket;
  if fd <? 0 then mret ERR
  else
    _ ← liftr (memcpy (replicate Ipc.UNIX_PATH_MAX 0) 0 path (Z.of_nat (length path)));
    ret ← ask pop_setup;
    if ret <? 0 then _ ← close fd; mret (-1)
    else
      ret ← ask pop_setup;
      if ret <? 0 then _ ← close fd; mret (-1)
      else mret fd.

(** The start of [n] workers; false as soon as one cannot be started. *)
Fixpoint start_workers (n : nat) : cmd world bool :=
  match n with
  | O => mret true
  | S n =>
      ret ← start_worker;
      if negb (ret =? OK) then mret false else start_workers n
  end.

(** The handler of SIGINT: what becomes of cask.running. *)
Definition sighandler (running : bool) : bool := false.

(** A return of pselect: whether SIGINT came, which is only let through while
    pselect waits; its result; whether errno is EINTR; whether the socket is set in
    fds. *)
Record select := MkSelect { sel_signal : bool; sel_res : Z; sel_intr : bool; sel_set : bool }.

(** The monitor loop with cask.running; the result is the exit code.  Past the last
    return pselect never returns. *)
Fixpoint monitor_loop (started_at : Z) (running : bool) (sels : list select) : cmd world Z :=
  if negb running then mret 0
  else
    match sels with
    | [] => blocked
    | s :: sels =>
        let running := if sel_signal s then sighandler running else running in
        if (sel_res s <? 0) && negb (sel_intr s) then mret 1
        else if negb running then mret 1
        else if sel_res s =? 0 then monitor_loop started_at running sels
        else
          _ ← if: sel_set s then Ipc.handle_ipc started_at;
          monitor_loop started_at running sels
    end.

(** What goes with the database. *)
Definition close_database : cmd world unit :=
  _ ← on_db Db.Db.close_db;
  tell (Release Database).

(** main from the label out on, up to close_db. *)
Definition give_back (ipcfd : Z) (f : File.file) : cmd world unit :=
  _ ← tell (Release AddrInfo);
  _ ← on_rest (modify (set_worker_lock MutexDestroyed));
  _ ← tell (Release WorkerLock);
  _ ← close ipcfd;
  _ ← tell (Release SockPath);
  _ ← if: File.unmap_file f then tell (Release IndexMap);
  close_database.

Section shutdown.
(** What the thread of a worker still does when it has been told to stop. *)
Variable join : ptr -> cmd world unit.

(** One iteration of list_for_each_safe over the workers. *)
Definition stop_next (pn : ptr * ptr) : cmd world (ptr * ptr + unit) :=
  let (p, n) := pn in
  if p =? workers_head then mret (inr tt)
  else
    _ ← shutdown_worker join p;
    n' ← on_heap (hload (n, Next));
    mret (inl (n, n')).

(** list_for_each_safe over the workers. *)
Definition stop_workers (fuel : nat) : cmd world unit :=
  p ← on_heap (hload (workers_head, Next));
  n ← on_heap (hload (p, Next));
  loop fuel stop_next (p, n).

(** main from the label out on. *)
Definition finish_main (fuel : nat) (ipcfd : Z) (f : File.file) (exit_code : Z) : cmd world Z :=
  _ ← give_back ipcfd f;
  _ ← stop_workers fuel;
  mret exit_code.
End shutdown.

(** main after the options: [fails] says which of pthread_mutex_init, sigprocmask
    and getaddrinfo fail; [disk] and [faults] are for open_db, [index] for map_file,
    [gs] for the routes; the threads go on by [join] when they are stopped. *)
Definition run_server (fuel : nat) (o : options) (started_at : Z) (fails : bool * bool * bool)
    (disk : option (list Z)) (faults : list Db.Db.fault) (index : File.answers)
    (gs : nat -> option (nat -> Route.route)) (sels : list select)
    (join : option (Array.array_header_t Route.route) -> ptr -> cmd world unit) : cmd world Z :=
  let '(init_fails, mask_fails, info_fails) := fails in
  _ ← on_heap (Clist.LIST_INIT_HEAD workers_head);
  if (init_fails : bool) then mret 1
  else
  _ ← on_rest (modify (set_worker_lock MutexFree));
  if (mask_fails : bool) then mret 1
  else if (info_fails : bool) then mret 1
  else
    opened ← liftr (Db.Db.open_db disk (num_buckets o) faults);
    match fst opened with
    | None => _ ← tell (Release AddrInfo); mret 1
    | Some d =>
        _ ← on_rest (modify (set_store d));
        ipcfd ← setup_ipc (ipc_sock_path o);
        if ipcfd <? 0 then
          _ ← close_database;
          _ ← tell (Release AddrInfo);
          mret 1
        else
          f ← liftr (r ← File.map_file index ∅; Val (fst r));
          routes ← liftr (add_routes gs);
          started ← start_workers (Z.to_nat (opt_workers o));
          exit_code ← (if (started : bool) then monitor_loop started_at true sels else mret 1);
          finish_main (join routes) fuel ipcfd f exit_code
    end.

(** All of main; getopt finds [args]. *)
Definition main (fuel : nat) (args : list (Z * list Z)) (fails : bool * bool * bool)
    (disk : option (list Z)) (faults : list Db.Db.fault) (index : File.answers)
    (gs : nat -> option (nat -> Route.route)) (sels : list select)
    (join : option (Array.array_header_t Route.route) -> ptr -> cmd world unit) : cmd world Z :=
  started_at ← Event.now;
  o ← liftr (parse_options default_options args);
  match o with
  | None => mret 1
  | Some o => run_server fuel o started_at fails disk faults index gs sels join
  end.

End Cask.
