(* ===== verification/CaskSpec.v ===== *)
(** What the server promises: the reply to every request, as a function of the
    pastes it holds, and that read_data with cask's routes gives it.

    Module [CaskSpec] has the abstract server ([reply]) and the lemmas on the
    functions behind the routes; the theorems are in CaskThm.v. *)
From S2P Require Import Prelude Buffer Http Request RequestSpec Array Route Heap Clist World Event Connection.
From S2P Require Import ReadSpec Worker FileMap Ipc Cask Store.
From S2P Require Db.
Import Buffer Http Request ParserSpec Connection Cask.

(** ** The abstract server *)
Module CaskSpec.
Import CMem.

(** A reply: the status and the text. *)
Definition answer : Type := http_status * list Z.

(** The id in a URI, after its leading slash: digits, with one slash allowed
    after them.  An id that is too large counts as the largest one. *)
Definition paste_digits (t : list Z) : list Z :=
  if (1 <? length t)%nat && bool_decide (last t = Some 47) then take (length t - 1) t else t.
Definition paste_id (t : list Z) : option Z :=
  if forallb isdigit (paste_digits t)
  then Some (Z.min ULLONG_MAX (digits_val 0 (paste_digits t))) else None.

(** GET / *)
Definition index_text (f : File.file) : list Z :=
  if File.size f =? 0 then bytes_of "Index." else default [] (File.data f).

(** GET /[t] *)
Definition get_reply (vals : list (list Z)) (t : list Z) : answer :=
  match paste_id t with
  | None => (HTTP_STATUS_404, [])
  | Some id =>
      match vals !! Z.to_nat id with
      | Some v => (HTTP_STATUS_200, v)
      | None => (HTTP_STATUS_404, bytes_of "Paste not found")
      end
  end.

(** POST / *)
Definition post_reply (vals : list (list Z)) (b : list Z) : answer * list (list Z) :=
  match b with
  | [] => ((HTTP_STATUS_400, bytes_of "Error: Zero length paste"), vals)
  | _ => ((HTTP_STATUS_200, dec (Z.of_nat (length vals))), vals ++ [b])
  end.

(** Any request: the answer and the pastes held after it. *)
Definition reply (f : File.file) (vals : list (list Z)) (k : http_method) (u b : list Z)
    : answer * list (list Z) :=
  match k, u with
  | HTTP_METHOD_GET, [47] => ((HTTP_STATUS_200, index_text f), vals)
  | HTTP_METHOD_GET, 47 :: t => (get_reply vals t, vals)
  | HTTP_METHOD_POST, [47] => post_reply vals b
  | _, _ => ((HTTP_STATUS_404, []), vals)
  end.

(** The body of a request with these headers: without Content-Length there is
    none. *)
Definition sent_body (hs : list header_text) (b : list Z) : list Z :=
  match lookup_header content_length hs with None => [] | Some _ => b end.

(** The length of a mapped file is the number of bytes mapped. *)
Definition file_ok (f : File.file) : Prop :=
  0 <= File.size f < 2 ^ 62 /\
  (File.size f <> 0 -> exists d, File.data f = Some d /\ Z.of_nat (length d) = File.size f).

(** ** URIs *)

(** What the validation loop checks from a character on; [long]: len > 2. *)
Fixpoint valid_tail (long : bool) (t : list Z) : bool :=
  match t with
  | [] => true
  | ch :: t =>
      if negb (isdigit ch) then (ch =? 47) && long && bool_decide (t = []) else valid_tail long t
  end.

Lemma valid_from_tail t : forall pre u0 post len, len = Z.of_nat (length u0 + length t) ->
  valid_from (pre ++ u0 ++ t ++ post) (Z.of_nat (length pre)) len (length t) (Z.of_nat (length u0)) =
  Val (valid_tail (2 <? len) t).
Proof.
  induction t as [|ch t IH]; intros pre u0 post len Hlen; [done|]. cbn [length] in *.
  cbn [valid_from valid_tail app]. rewrite <- Nat2Z.inj_add, <- length_app, (assoc_L (++) pre), load_mid.
  cbn [mbind res_bind]. destruct (isdigit ch); cbn [negb].
  - rewrite <- (assoc_L (++) pre), (length_snoc_Z u0 ch).
    specialize (IH pre (u0 ++ [ch]) post len). app_norm_in IH. apply IH.
    rewrite length_app. cbn. lia.
  - do 2 f_equal. destruct t; cbn [length] in *; [rewrite bool_decide_true by done|rewrite bool_decide_false by done]; zlia.
Qed.

Lemma valid_tail_plain long t : (long = true -> last t <> Some 47) ->
  valid_tail long t = forallb isdigit t.
Proof.
  induction t as [|ch t IH]; intros H; [done|]. cbn [valid_tail forallb].
  destruct (isdigit ch) eqn:E; cbn [negb andb].
  - apply IH. intros Hl. specialize (H Hl). destruct t; [done|]. by rewrite last_cons_cons in H.
  - destruct long; [|by rewrite andb_false_r]. specialize (H eq_refl).
    destruct t; [|by rewrite andb_false_r]. cbn in H. rewrite andb_true_r, andb_true_r.
    apply Z.eqb_neq. congruence.
Qed.

Lemma valid_tail_slash ds : valid_tail true (ds ++ [47]) = forallb isdigit ds.
Proof.
  induction ds as [|d ds IH]; [done|]. cbn [app valid_tail forallb]. rewrite IH.
  destruct (isdigit d); [done|]. cbn [negb andb]. rewrite (bool_decide_false (_ ++ _ = [])).
  - apply andb_false_r.
  - by destruct ds.
Qed.

(** The digits, and what follows them. *)
Lemma paste_digits_split t : t <> [] -> exists post,
  t = paste_digits t ++ post /\ paste_digits t <> [] /\
  (post = [] \/ post = [47]) /\ valid_tail (1 <? length t)%nat t = forallb isdigit (paste_digits t).
Proof.
  intros Hne. unfold paste_digits.
  destruct (Nat.ltb_spec 1 (length t)) as [Hl|Hl]; cbn [andb].
  2: { exists []. rewrite app_nil_r. split_and!; [done|done|by left|by apply valid_tail_plain]. }
  case_bool_decide as H.
  - apply last_Some in H as [ds ->]. rewrite length_app in *. cbn [length] in *.
    rewrite Nat.add_sub, take_app_length. exists [47].
    split_and!; [done| |by right|apply valid_tail_slash]. intros ->. cbn in Hl. lia.
  - exists []. rewrite app_nil_r. split_and!; [done|done|by left|by apply valid_tail_plain].
Qed.

(** The validation and the conversion of get_callback compute the id. *)
Lemma uri_checked m pre t post (len := Z.of_nat (length (47 :: t))) : t <> [] ->
  m = pre ++ (47 :: t) ++ 32 :: post ->
  valid_from m (Z.of_nat (length pre)) len (Z.to_nat (len - 1)) 1 =
    Val (match paste_id t with Some _ => true | None => false end) /\
  (forall id, paste_id t = Some id ->
     0 <= id /\ strtoull m (Z.of_nat (length pre) + 1) = Val id).
Proof.
  intros Hne ->. destruct (paste_digits_split t Hne) as (sep & Ht & Hds & Hsep & Hv). split.
  - replace (Z.to_nat (len - 1)) with (length t) by (unfold len; cbn [length]; lia).
    rewrite (valid_from_tail t pre [47] (32 :: post)) by done.
    replace (2 <? len) with (1 <? length t)%nat.
    2: { unfold len. cbn [length]. destruct (Nat.ltb_spec 1 (length t)); zlia. }
    rewrite Hv. unfold paste_id. by destruct (forallb _ _).
  - intros id. unfold paste_id. destruct (forallb _ _) eqn:E; [|done]. intros [= <-].
    rewrite forallb_forall in E. assert (Forall (fun d => isdigit d = true) (paste_digits t)) as Hd.
    { apply Forall_forall. intros d Hin. apply E. by apply list_elem_of_In. }
    split.
    { pose proof (digits_val_nonneg (paste_digits t) 0 ltac:(lia) Hd). unfold ULLONG_MAX. pow2. lia. }
    clear Hv E len. revert Hds Hd Ht. generalize (paste_digits t) as ds. intros ds Hds Hd ->.
    rewrite (length_snoc_Z pre 47). app_norm. rewrite cons_middle, (assoc_L (++) pre).
    destruct Hsep as [-> | ->]; cbn [app]; by apply strtoull_digits.
Qed.

(** ** Running the functions of the routes *)
Lemma on_db_run {A} (m : cmd Db.Db.db A) h r a d : m (store r) = Val (a, d) ->
  on_db m (World h r) = Val (a, World h (set_store d r)).
Proof. intros H. unfold on_db, on_rest. cbn [others memory]. by rewrite H. Qed.

Lemma set_store_self r : set_store (store r) r = r.
Proof. by destruct r. Qed.

Lemma res_bind_ext {A B} (r : res A) (k1 k2 : A -> res B) :
  (forall a, k1 a = k2 a) -> r ≫= k1 = r ≫= k2.
Proof. intros H. destruct r; [apply H|done..]. Qed.

(** Only the given length of a text is sent. *)
Lemma send_response_prefix fuel c st (txt more : list Z) w :
  send_response fuel c st (txt ++ more) (Z.of_nat (length txt)) w =
  send_response fuel c st txt (Z.of_nat (length txt)) w.
Proof.
  unfold send_response. unfold mbind, cmd_bind. destruct (conn c w) as [[x w1]| | | |]; [|done..].
  destruct (ask pop_alloc w1) as [[a w2]| | | |]; [|done..].
  enough (fill_response a (c_buffer x) (c_req x) (c_flags x) st (txt ++ more) (Z.of_nat (length txt)) =
          fill_response a (c_buffer x) (c_req x) (c_flags x) st txt (Z.of_nat (length txt))) as -> by done.
  assert (forall b, push_buffer a b (txt ++ more) (Z.of_nat (length txt)) =
                    push_buffer a b txt (Z.of_nat (length txt))) as E.
  { intros b. unfold push_buffer, Buffer.memcpy, CMem.read_bytes. rewrite !Nat2Z.id.
    destruct (if _ <? _ then _ else _) as [ret b1]. destruct (negb _); [done|].
    destruct (Z.of_nat (length txt) =? 0); [done|].
    replace (Z.of_nat (length (txt ++ more)) <? 0 + Z.of_nat (length txt)) with false
      by (rewrite length_app; zlia).
    replace (Z.of_nat (length txt) <? 0 + Z.of_nat (length txt)) with false by zlia.
    change (Z.to_nat 0) with 0%nat. unfold slice. rewrite !drop_0, take_app_length, firstn_all. done. }
  unfold fill_response. repeat (apply res_bind_ext; intros ?).
  destruct (_ =? 0); [done|]. by rewrite E.
Qed.

(** A reply on a connection. *)
Definition give (fuel : nat) (c : ptr) (a : answer) : cmd world unit :=
  send_response fuel c (fst a) (snd a) (Z.of_nat (length (snd a))).

Lemma respond_give fuel c st text w :
  respond fuel c st text w = give fuel c (st, bytes_of text) w.
Proof. done. Qed.

(** A connection whose request has been parsed. *)
Record ready (c : ptr) (r : rest) (x : connection) (k : http_method) (u : list Z)
    (v : http_version) (hs : list header_text) (b : list Z) : Prop := {
  ready_conn : conns r !! c = Some x;
  ready_wf : wf (c_buffer x);
  ready_text : contents (c_buffer x) = render k u v hs b;
  ready_req : parsed_as (c_buffer x) (c_req x) k u v hs b;
  ready_body : Z.of_nat (length b) < 2 ^ 31;
}.

Section callbacks.
Context (fuel : nat) (c : ptr) (h : heap) (r : rest) (x : connection).
Context (k : http_method) (u : list Z) (v : http_version) (hs : list header_text) (b : list Z).
Context (H : ready c r x k u v hs b).

(** Where the parts of the request are. *)
Lemma ready_mem : exists post, mem (c_buffer x) = (method_text k ++ [32]) ++ u ++ 32 :: post.
Proof.
  destruct (wf_mem _ (ready_wf _ _ _ _ _ _ _ _ H)) as (pad & -> & _).
  rewrite (ready_text _ _ _ _ _ _ _ _ H). unfold render, render_status.
  eexists. app_norm. reflexivity.
Qed.

Lemma ready_mem_body : exists pad, mem (c_buffer x) =
  (render_status k u v ++ render_headers hs ++ crlf) ++ b ++ pad.
Proof.
  destruct (wf_mem _ (ready_wf _ _ _ _ _ _ _ _ H)) as (pad & -> & _).
  rewrite (ready_text _ _ _ _ _ _ _ _ H). unfold render. exists pad. by app_norm.
Qed.

End callbacks.

(** The first command of a sequence, under the quantifier over the database. *)
Ltac run_under :=
  lazymatch goal with
  | |- exists _, ?l = _ /\ _ => eassert (l = _) as ->; [eapply bind_run; run_first; eauto|]
  end; cbv beta.

(** ** The functions of the routes, on any store that keeps its promise *)
Section store.
Context {PS : PasteStore Db.Db.db_insert Db.Db.db_get}.

(** db_get and db_insert on the database of the world. *)
Lemma get_entry fuel id h r vals : st_holds vals (store r) -> 0 <= id -> exists d,
  on_db (Db.Db.db_get (S fuel) id) (World h r) = Val (vals !! Z.to_nat id, World h (set_store d r)) /\
  st_holds vals d.
Proof.
  intros Hh Hid. destruct (proj1 (wp_Val _ _ _) (st_get_ok vals fuel id _ Hh Hid)) as (o & d & E & -> & Hd).
  exists d. split; [by apply on_db_run|done].
Qed.

Lemma insert_entry fuel b more h r vals : st_holds vals (store r) -> st_room (vals ++ [b]) -> exists d,
  on_db (Db.Db.db_insert fuel (b ++ more) (Z.of_nat (length b))) (World h r) =
    Val ((OK, Some (Z.of_nat (length vals))), World h (set_store d r)) /\ st_holds (vals ++ [b]) d.
Proof.
  intros Hh Hr. destruct (proj1 (wp_Val _ _ _) (st_insert_ok vals fuel (b ++ more) (Z.of_nat (length b)) b _ Hh
    ltac:(by rewrite Nat2Z.id, take_app_length) eq_refl Hr)) as (o & d & E & -> & Hd).
  exists d. split; [by apply on_db_run|done].
Qed.

(** *** get_callback *)
Lemma get_callback_gives fuel c h r x t v hs b vals :
  ready c r x HTTP_METHOD_GET (47 :: t) v hs b -> st_holds vals (store r) -> t <> [] -> exists d,
  get_callback (S fuel) c (World h r) = give (S fuel) c (get_reply vals t) (World h (set_store d r)) /\
  st_holds vals d.
Proof.
  intros H Hh Ht. pose proof (ready_conn _ _ _ _ _ _ _ _ H) as Hx. destruct (ready_mem _ _ _ _ _ _ _ _ H) as [post Hm].
  destruct (uri_checked _ (method_text HTTP_METHOD_GET ++ [32]) t post Ht Hm) as [Hv Hid].
  unfold get_callback. run_under. unfold get_uri.
  rewrite (as_uri _ _ _ _ _ _ _ (ready_req _ _ _ _ _ _ _ _ H)). cbn [range off len].
  run_under. unfold get_reply. destruct (paste_id t) as [id|]; cbn [negb].
  2: { exists (store r). by rewrite set_store_self. }
  destruct (Hid id eq_refl) as [Hpos Hto]. run_under.
  destruct (get_entry fuel id h r vals Hh Hpos) as (d & E & Hd). exists d. split; [|done].
  etransitivity; [eapply bind_run, E|]. cbv beta. by destruct (vals !! Z.to_nat id).
Qed.

(** *** post_callback *)
Lemma post_callback_gives fuel c h r x u v hs b vals (body := sent_body hs b) :
  ready c r x HTTP_METHOD_POST u v hs b -> st_holds vals (store r) -> st_room (snd (post_reply vals body)) ->
  exists d, post_callback fuel c (World h r) =
      give fuel c (fst (post_reply vals body)) (World h (set_store d r)) /\
    st_holds (snd (post_reply vals body)) d.
Proof.
  intros H Hh Hroom. pose proof (ready_conn _ _ _ _ _ _ _ _ H) as Hx.
  unfold post_callback. run_under. unfold get_body.
  pose proof (as_body _ _ _ _ _ _ _ (ready_req _ _ _ _ _ _ _ _ H)) as Hb.
  unfold body, sent_body in *. destruct (lookup_header content_length hs) as [n|] eqn:E.
  2: { rewrite Hb, Z.eqb_refl. cbn [post_reply fst snd]. exists (store r).
       rewrite set_store_self. split; [apply respond_give|done]. }
  rewrite Hb. cbn [range off len]. destruct b as [|b0 b'] eqn:Eb.
  { cbn [length Z.of_nat Z.eqb post_reply fst snd]. exists (store r).
    rewrite set_store_self. split; [apply respond_give|done]. }
  rewrite <- Eb in *. clear body. replace (Z.of_nat (length b) =? 0) with false by by rewrite Eb.
  assert (post_reply vals b = ((HTTP_STATUS_200, dec (Z.of_nat (length vals))), vals ++ [b])) as Hr
    by by rewrite Eb.
  rewrite Hr in Hroom |- *. cbn [fst snd] in *.
  destruct (ready_mem_body _ _ _ _ _ _ _ _ H) as [pad Hm].
  pose proof (ready_body _ _ _ _ _ _ _ _ H) as Hlen. pose proof (st_bounded _ _ Hh) as Hn.
  rewrite wrap_small by (pow2; lia). rewrite Nat2Z.id, Hm, drop_app_length.
  destruct (insert_entry fuel b pad h r vals Hh Hroom) as (d & Erun & Hd). exists d. split; [|done].
  etransitivity; [eapply bind_run, Erun|]. cbv beta iota.
  change (negb (OK =? OK)) with false. cbn iota. run_step. unfold snprintf.
  rewrite take_ge.
  - apply send_response_prefix.
  - enough (length (dec (Z.of_nat (length vals))) <= 19)%nat by lia. apply digits_short; [lia|].
    change (10 ^ Z.of_nat 19) with 10000000000000000000. change (2 ^ 60) with 1152921504606846976 in *. lia.
Qed.

End store.

(** *** index_callback *)
Lemma index_callback_gives fuel f c w : file_ok f ->
  index_callback fuel f c w = give fuel c (HTTP_STATUS_200, index_text f) w.
Proof.
  intros [_ Hf]. unfold index_callback, index_text, give. cbn [fst snd].
  destruct (Z.eqb_spec (File.size f) 0) as [E|E]; cbn [negb]; [done|].
  destruct (Hf E) as (d & -> & Hd). change (default [] (Some d)) with d. by rewrite Hd.
Qed.

(** ** The routes *)
Definition cask_routes : list Route.route :=
  [RouteSpec.route_for HTTP_METHOD_GET Route.ROUTE_MATCH_EXACT [47] INDEX_CALLBACK FILE_DATA;
   RouteSpec.route_for HTTP_METHOD_GET Route.ROUTE_MATCH_PREFIX [47] GET_CALLBACK DB_DATA;
   RouteSpec.route_for HTTP_METHOD_POST Route.ROUTE_MATCH_EXACT [47] POST_CALLBACK DB_DATA].

Definition routes_ok (routes : option (Array.array_header_t Route.route)) : Prop :=
  ArraySpec.wf Route.SIZEOF_ROUTE routes /\ ArraySpec.elems routes = cask_routes.

Lemma cask_routes_ok : Forall (RouteSpec.route_ok 32) cask_routes.
Proof. repeat constructor; apply RouteSpec.route_for_ok; by_compute. Qed.

(** What runs a request. *)
Definition callback (fuel : nat) (f : File.file) (k : http_method) (u : list Z) (c : ptr)
    : cmd world unit :=
  match k, u with
  | HTTP_METHOD_GET, [47] => index_callback fuel f c
  | HTTP_METHOD_GET, 47 :: _ => get_callback fuel c
  | HTTP_METHOD_POST, [47] => post_callback fuel c
  | _, _ => route_404 fuel c
  end.

(** Matching on the slash as a number. *)
Lemma slash_case {A} (z : Z) (a b : A) : z <> 47 -> match z with 47 => a | _ => b end = b.
Proof. intros Hz. destruct z as [|p|p]; try done. do 6 (destruct p as [p|p|]; try done). Qed.

Lemma serve_callback fuel f c k u :
  serve fuel (call_route fuel f) c (RouteSpec.best_route k u cask_routes) = callback fuel f k u c.
Proof.
  destruct u as [|z u]; [by destruct k|]. destruct (decide (z = 47)) as [->|Hz].
  { by destruct k, u. }
  assert (callback fuel f k (z :: u) c = route_404 fuel c) as ->.
  { unfold callback. destruct k; try done; destruct u; by rewrite slash_case. }
  assert (forall k' m cb data, RouteSpec.is_exact k (z :: u) (RouteSpec.route_for k' m [47] cb data) = false) as He.
  { intros. unfold RouteSpec.is_exact. rewrite RouteSpec.text_route_for.
    rewrite (bool_decide_false ([47] = _)) by congruence. by rewrite andb_false_r. }
  assert (forall k' m cb data, RouteSpec.is_prefix k (z :: u) (RouteSpec.route_for k' m [47] cb data) = false) as Hp.
  { intros. unfold RouteSpec.is_prefix. rewrite RouteSpec.text_route_for.
    rewrite (bool_decide_false (_ `prefix_of` _)) by (by intros [t [= ? _]]). by rewrite andb_false_r. }
  unfold RouteSpec.best_route, cask_routes. cbn [List.filter]. by rewrite !He, !Hp.
Qed.

Lemma callback_gives {PS : PasteStore Db.Db.db_insert Db.Db.db_get}
    fuel f c h r x k u v hs b vals (body := sent_body hs b) :
  file_ok f -> ready c r x k u v hs b -> st_holds vals (store r) -> st_room (snd (reply f vals k u body)) ->
  exists d, callback (S fuel) f k u c (World h r) =
      give (S fuel) c (fst (reply f vals k u body)) (World h (set_store d r)) /\
    st_holds (snd (reply f vals k u body)) d.
Proof.
  intros Hf H Hh Hroom.
  assert (callback (S fuel) f k u c = route_404 (S fuel) c ->
    reply f vals k u body = ((HTTP_STATUS_404, []), vals) -> exists d, callback (S fuel) f k u c (World h r) =
      give (S fuel) c (fst (reply f vals k u body)) (World h (set_store d r)) /\
    st_holds (snd (reply f vals k u body)) d) as H404.
  { intros -> ->. exists (store r). by rewrite set_store_self. }
  destruct u as [|z u]; [apply H404; by destruct k|]. destruct (decide (z = 47)) as [->|Hz].
  2: { apply H404; destruct k; try done; destruct u; by apply slash_case. }
  destruct k; try (by apply H404; destruct u).
  - destruct u as [|a u].
    + exists (store r). rewrite set_store_self. split; [by apply index_callback_gives|done].
    + by apply (get_callback_gives fuel c h r x (a :: u) v hs b vals).
  - destruct u; [|by apply H404]. by eapply post_callback_gives.
Qed.

(** add_routes makes the table, when it gets the memory. *)
Lemma add_routes_ok gs : (forall i, gs i <> None) ->
  exists routes, add_routes gs = Val routes /\ routes_ok routes.
Proof.
  intros Hgs. unfold add_routes, routes_ok, cask_routes.
  pose proof (Hgs 0%nat) as H0. pose proof (Hgs 1%nat) as H1. pose proof (Hgs 2%nat) as H2.
  destruct (gs 0%nat) as [g0|], (gs 1%nat) as [g1|], (gs 2%nat) as [g2|]; try done.
  change (cstr "/") with ([47] ++ [0]).
  assert (0 ∉ [47]) as Hnul by by_compute.
  destruct (RouteSpec.add_route_ok g0 None HTTP_METHOD_GET Route.ROUTE_MATCH_EXACT [47]
    INDEX_CALLBACK FILE_DATA) as (a0 & -> & W0 & E0); [done|done|by vm_compute|]. cbn [mbind res_bind].
  destruct (RouteSpec.add_route_ok g1 a0 HTTP_METHOD_GET Route.ROUTE_MATCH_PREFIX [47]
    GET_CALLBACK DB_DATA) as (a1 & -> & W1 & E1); [done|done| |].
  { rewrite (ArraySpec.wf_size _ _ W0), E0. by vm_compute. }
  cbn [mbind res_bind].
  destruct (RouteSpec.add_route_ok g2 a1 HTTP_METHOD_POST Route.ROUTE_MATCH_EXACT [47]
    POST_CALLBACK DB_DATA) as (a2 & -> & W2 & E2); [done|done| |].
  { rewrite (ArraySpec.wf_size _ _ W1), E1, E0. by vm_compute. }
  exists a2. by rewrite E2, E1, E0.
Qed.

(** ** A request arrives *)

(** Connection [x] at [c] waits for a request, and the bytes of this one are what
    recv gives, in pieces; [fuel] is enough for the loop. *)
Record arrives (fuel : nat) (c : ptr) (r : rest) (x : connection) (k : http_method) (u : list Z)
    (v : http_version) (hs : list header_text) (b : list Z) : Prop := {
  arr_conn : conns r !! c = Some x;
  arr_wf : wf (c_buffer x);
  arr_empty : size (c_buffer x) = 0;
  arr_fresh : c_req x = zero_request;
  arr_ok : request_ok k u v hs b;
  arr_len : Z.of_nat (length (render k u v hs b)) + READ_CHUNK < 2 ^ 31;
  arr_allocs : allocs_ok (outside r);
  arr_pieces : exists chunks l, concat chunks = render k u v hs b /\
    Forall (fun bs => (0 < length bs)%nat /\ Z.of_nat (length bs) <= READ_CHUNK) chunks /\
    recvs (outside r) = (RecvData <$> chunks) ++ RecvErr EAGAIN :: l /\ (length chunks < fuel)%nat;
}.

(** The world when a request of version [v] on connection [c], which was [x], has
    been read and its answer is known: nothing has been sent and no other connection
    changed; only the store, the request and the buffer of this connection, and the
    answers of recv and realloc used up differ. *)
Definition served_from (c : ptr) (x : connection) (v : http_version) (r r' : rest) : Prop :=
  exists buf req l al d, wf buf /\ version req = v /\ Forall (fun a => a <> None) al /\
    r' = set_store d
      (set_conns (<[c := with_request req (keepalive v (c_flags x)) (set_c_buffer buf x)]> (conns r))
         (set_outside (read_os l al (outside r)) r)).

(** Once all of it has been read, the function of its route is called. *)
Lemma request_called fuel f routes c h r x k u v hs b chunks l :
  routes_ok routes ->
  conns r !! c = Some x -> wf (c_buffer x) -> size (c_buffer x) = 0 -> c_req x = zero_request ->
  request_ok k u v hs b -> Z.of_nat (length (render k u v hs b)) + READ_CHUNK < 2 ^ 31 ->
  allocs_ok (outside r) -> concat chunks = render k u v hs b ->
  Forall (fun bs => (0 < length bs)%nat /\ Z.of_nat (length bs) <= READ_CHUNK) chunks ->
  recvs (outside r) = (RecvData <$> chunks) ++ RecvErr EAGAIN :: l -> (length chunks < fuel)%nat ->
  exists buf req al,
    let x1 := with_request req (keepalive v (c_flags x)) (set_c_buffer buf x) in
    let r1 := set_conns (<[c := x1]> (conns r)) (set_outside (read_os l al (outside r)) r) in
    wf buf /\ version req = v /\ Forall (fun a => a <> None) al /\ ready c r1 x1 k u v hs b /\
    read_data fuel routes (call_route fuel f) c (World h r) = callback fuel f k u c (World h r1).
Proof.
  intros [Hrw Hre] Hx Hwf Hs Hreq Hok Hlen Ha Hch Hall Hr Hfuel.
  destruct (read_data_ok fuel routes (call_route fuel f) c h r x chunks l k u v hs b)
    as (buf & req & al & E & Hw & Hcont & Hp & Hal); try done.
  { rewrite Hre. apply cask_routes_ok. }
  rewrite Hre, serve_callback in E. exists buf, req, al. cbv zeta.
  split_and!; [done|apply (as_version _ _ _ _ _ _ _ Hp)|done| |exact E].
  split; try done; [apply lookup_insert_eq|].
  unfold render, render_status in Hlen. rewrite !length_app in Hlen. unfold READ_CHUNK in Hlen. lia.
Qed.

Lemma server_replies_pieces fuel f routes c h r x k u v hs b nb vals chunks l (body := sent_body hs b) :
  routes_ok routes -> file_ok f ->
  conns r !! c = Some x -> wf (c_buffer x) -> size (c_buffer x) = 0 -> c_req x = zero_request ->
  request_ok k u v hs b -> Z.of_nat (length (render k u v hs b)) + READ_CHUNK < 2 ^ 31 ->
  allocs_ok (outside r) -> concat chunks = render k u v hs b ->
  Forall (fun bs => (0 < length bs)%nat /\ Z.of_nat (length bs) <= READ_CHUNK) chunks ->
  recvs (outside r) = (RecvData <$> chunks) ++ RecvErr EAGAIN :: l -> (length chunks < fuel)%nat ->
  good nb vals (store r) -> room nb (snd (reply f vals k u body)) ->
  exists buf req al d, wf buf /\ version req = v /\ Forall (fun a => a <> None) al /\
    read_data fuel routes (call_route fuel f) c (World h r) =
      give fuel c (fst (reply f vals k u body)) (World h (set_store d
        (set_conns (<[c := with_request req (keepalive v (c_flags x)) (set_c_buffer buf x)]> (conns r))
           (set_outside (read_os l al (outside r)) r)))) /\
    good nb (snd (reply f vals k u body)) d.
Proof.
  intros Hroutes Hf Hx Hwf Hs Hreq Hok Hlen Ha Hch Hall Hr Hfuel Hgood Hroom.
  destruct (request_called fuel f routes c h r x k u v hs b chunks l)
    as (buf & req & al & Hw & Hv & Hal & Hready & E); try done. destruct fuel as [|fuel]; [lia|].
  destruct (callback_gives (PS := db_store nb) fuel f c h _ _ k u v hs b vals Hf Hready Hgood Hroom) as (d & Eg & Hd).
  exists buf, req, al, d. by rewrite E, Eg.
Qed.

Lemma server_replies_ok fuel f routes c h r x k u v hs b nb vals (body := sent_body hs b) :
  routes_ok routes -> file_ok f -> arrives fuel c r x k u v hs b -> good nb vals (store r) ->
  room nb (snd (reply f vals k u body)) ->
  exists r', read_data fuel routes (call_route fuel f) c (World h r) =
      give fuel c (fst (reply f vals k u body)) (World h r') /\
    served_from c x v r r' /\ good nb (snd (reply f vals k u body)) (store r').
Proof.
  intros Hroutes Hf [Hx Hwf Hs Hreq Hok Hlen Ha (chunks & l & Hch & Hall & Hr & Hfuel)] Hgood Hroom.
  destruct (server_replies_pieces fuel f routes c h r x k u v hs b nb vals chunks l)
    as (buf & req & al & d & H1 & H2 & H3 & E & H4); try done.
  eexists. split; [exact E|]. split; [|done]. by exists buf, req, l, al, d.
Qed.

(** ** A request that needs the database when it has been closed *)
Definition asks_store (k : http_method) (u body : list Z) : bool :=
  match k, u with
  | HTTP_METHOD_GET, [47] => false
  | HTTP_METHOD_GET, 47 :: t => bool_decide (is_Some (paste_id t))
  | HTTP_METHOD_POST, [47] => negb (bool_decide (body = []))
  | _, _ => false
  end.

Lemma closed_stuck fuel f c h r x k u v hs b :
  ready c r x k u v hs b -> asks_store k u (sent_body hs b) = true ->
  Db.Db.lock (store r) = Db.Db.Freed -> callback fuel f k u c (World h r) = Stuck.
Proof.
  intros H Hask Hfreed. pose proof (ready_conn _ _ _ _ _ _ _ _ H) as Hx.
  destruct u as [|z u]; [by destruct k|]. destruct (decide (z = 47)) as [->|Hz].
  2: { unfold asks_store in Hask. destruct k; try done; destruct u; by rewrite slash_case in Hask. }
  destruct k; try (by destruct u).
  - destruct u as [|a u]; [done|]. cbn [asks_store] in Hask. apply bool_decide_eq_true in Hask as [id Hid].
    destruct (ready_mem _ _ _ _ _ _ _ _ H) as [post Hm].
    destruct (uri_checked _ (method_text HTTP_METHOD_GET ++ [32]) (a :: u) post ltac:(done) Hm) as [Hv Ht].
    cbn [callback]. unfold get_callback. run_step. unfold get_uri.
    rewrite (as_uri _ _ _ _ _ _ _ (ready_req _ _ _ _ _ _ _ _ H)). cbn [range off len].
    run_step. rewrite Hid. cbn [negb]. destruct (Ht id Hid) as [_ Hto]. run_step.
    unfold mbind, cmd_bind, on_db, on_rest. cbn [others memory].
    by rewrite (proj1 (proj2 (Db.DbSpec.freed_stuck fuel [] 0 id _ Hfreed))).
  - destruct u; [|done]. cbn [asks_store] in Hask. apply negb_true_iff, bool_decide_eq_false in Hask.
    cbn [callback]. unfold post_callback. run_step. unfold get_body.
    pose proof (as_body _ _ _ _ _ _ _ (ready_req _ _ _ _ _ _ _ _ H)) as Hb. unfold sent_body in Hask.
    destruct (lookup_header content_length hs); [|done]. rewrite Hb. cbn [range off len].
    replace (Z.of_nat (length b) =? 0) with false by (by destruct b).
    unfold mbind, cmd_bind, on_db, on_rest. cbn [others memory].
    match goal with |- context [Db.Db.db_insert ?n ?d ?l] =>
      by rewrite (proj1 (Db.DbSpec.freed_stuck n d l 0 _ Hfreed)) end.
Qed.

Lemma arrives_ext fuel c r r' x k u v hs b : arrives fuel c r x k u v hs b ->
  conns r' = conns r -> outside r' = outside r -> arrives fuel c r' x k u v hs b.
Proof. intros [? ? ? ? ? ? ? ?] E1 E2. by split; rewrite ?E1, ?E2. Qed.

Lemma arrives_closed fuel f routes c h r x k u v hs b :
  routes_ok routes -> arrives fuel c r x k u v hs b -> asks_store k u (sent_body hs b) = true ->
  Db.Db.lock (store r) = Db.Db.Freed -> read_data fuel routes (call_route fuel f) c (World h r) = Stuck.
Proof.
  intros Hroutes [Hx Hwf Hs Hreq Hok Hlen Ha (chunks & l & Hch & Hall & Hr & Hfuel)] Hask Hfreed.
  destruct (request_called fuel f routes c h r x k u v hs b chunks l)
    as (buf & req & al & _ & _ & _ & Hready & E); try done.
  rewrite E. by eapply closed_stuck.
Qed.

(** ** A negative length *)

(** Connection [x] at [c] waits for a request, its buffer is below 2 GiB, and recv
    gives [text], in pieces, and then nothing. *)
Record receives (fuel : nat) (c : ptr) (r : rest) (x : connection) (text : list Z) : Prop := {
  rec_conn : conns r !! c = Some x;
  rec_wf : wf (c_buffer x);
  rec_empty : size (c_buffer x) = 0;
  rec_cap : cap (c_buffer x) < 2 ^ 31;
  rec_fresh : c_req x = zero_request;
  rec_len : Z.of_nat (length text) + READ_CHUNK < 2 ^ 31;
  rec_allocs : allocs_ok (outside r);
  rec_pieces : exists chunks l, concat chunks = text /\
    Forall (fun bs => (0 < length bs)%nat /\ Z.of_nat (length bs) <= READ_CHUNK) chunks /\
    recvs (outside r) = (RecvData <$> chunks) ++ RecvErr EAGAIN :: l /\ (length chunks < fuel)%nat;
}.

(** The length goes to db_insert as an unsigned one. *)
Lemma post_callback_overreads fuel c h r x n nb vals :
  conns r !! c = Some x -> len (body (c_req x)) = - n -> 0 < n <= 2 ^ 31 ->
  Z.of_nat (length (mem (c_buffer x))) < 2 ^ 31 ->
  good nb vals (store r) -> (length vals < nb)%nat -> post_callback fuel c (World h r) = Stuck.
Proof.
  intros Hx Hlen Hn Hm [Hholds Hclean] Hroom. unfold post_callback. run_step. unfold get_body.
  rewrite Hlen. replace (- n =? 0) with false by zlia.
  unfold on_db, on_rest, mbind at 1, cmd_bind. cbn [others memory].
  rewrite (Db.DbSpec.db_insert_overreads nb vals); try done.
  rewrite length_drop. unfold wrap. pow2. replace (- n mod _) with (2 ^ 32 - n); [pow2; lia|].
  apply (Z.mod_unique_pos _ _ (-1)); pow2; lia.
Qed.

Lemma negative_length_stuck fuel f routes c h r x v hs b n nb vals :
  routes_ok routes -> receives fuel c r x (render HTTP_METHOD_POST [47] v hs b) ->
  v <> HTTP_VERSION_UNKNOWN -> Forall header_ok hs -> (length hs < MAX_HEADERS)%nat ->
  lookup_header content_length hs = Some (45 :: dec n) -> 0 < n <= 2 ^ 31 ->
  good nb vals (store r) -> (length vals < nb)%nat ->
  read_data fuel routes (call_route fuel f) c (World h r) = Stuck.
Proof.
  intros [Hrw Hre] [Hx Hwf Hs Hcap Hreq Hlen Ha (chunks & l & Hch & Hall & Hr & Hfuel)] Hv Hh Hc Hl Hn Hgood Hroom.
  rewrite <- Hch in Hlen.
  destruct (read_data_drains fuel routes (call_route fuel f) c h r x chunks l)
    as (buf & al & Hw & Hcont & Hsize & Hcapb & Hal & Hrun); try done. rewrite Hch in Hcont, Hsize, Hlen.
  destruct (wf_mem _ Hw) as (pad & Hm & _). rewrite Hcont in Hm.
  destruct (parse_negative_length buf HTTP_METHOD_POST [47] v hs b n pad (c_flags x))
    as (req & E & _ & Hme & Hu & Hlenb); try done; [unfold READ_CHUNK in Hlen; pow2; lia|by_compute|].
  destruct (render_uri HTTP_METHOD_POST [47] v hs b pad) as (post & Hm' & _). rewrite Hm' in Hm.
  erewrite Hrun; [|eapply received_parsed; [apply with_buffer_conn|done..| |by rewrite Hre; apply cask_routes_ok]; done].
  rewrite Hre, serve_callback. cbn [callback].
  eapply (post_callback_overreads _ _ _ _ _ n nb vals); [apply lookup_insert_eq|done..| |done|done].
  cbn [with_request set_c_flags set_c_req set_c_buffer c_buffer]. destruct Hw as [<- _ _].
  unfold READ_CHUNK in *. lia.
Qed.

(** A paste that has been posted is found under the number that was given. *)
Lemma get_reply_posted vals b later : Z.of_nat (length vals) < 2 ^ 64 ->
  get_reply (vals ++ b :: later) (dec (Z.of_nat (length vals))) = (HTTP_STATUS_200, b).
Proof.
  intros Hn. destruct (dec_spec (Z.of_nat (length vals)) ltac:(lia)) as (Hd & Hv & _).
  set (t := dec _) in *. assert (paste_digits t = t) as Et.
  { unfold paste_digits. rewrite (bool_decide_false (last t = _)); [by rewrite andb_false_r|].
    intros [ds Hl]%last_Some. rewrite Hl, Forall_app, Forall_singleton in Hd. by destruct Hd. }
  unfold get_reply, paste_id. rewrite Et, Hv.
  replace (forallb isdigit t) with true.
  2: { symmetry. apply forallb_forall. intros d Hin. rewrite Forall_forall in Hd. by apply Hd, list_elem_of_In. }
  rewrite Z.min_r by (unfold ULLONG_MAX; pow2; lia). rewrite Nat2Z.id.
  by rewrite list_lookup_middle by done.
Qed.

End CaskSpec.
