(* ===== verification/CaskThm.v ===== *)
(** The theorems on the server as a whole: the reply to every request, pasting
    and reading back, what a negative Content-Length does, and the options. *)
From S2P Require Import Prelude Buffer Http Request RequestSpec Array Route Heap World Event Connection.
From S2P Require Import ReadSpec Worker FileMap Ipc Cask Store CaskSpec.
From S2P Require Db.
Import Buffer Http Request ParserSpec Connection Cask CaskSpec.

(** ** Options *)
Module OptionsSpec.
Import CMem.

(** strtoull of a C string always returns, a number of 64 bits. *)
Lemma scan_digits_total m : forall fuel pre post acc, m = pre ++ post ++ [0] ->
  (length post < fuel)%nat -> 0 <= acc ->
  exists v, scan_digits m (Z.of_nat (length pre)) acc fuel = Val v /\ 0 <= v.
Proof.
  induction fuel as [|fuel IH]; intros pre post acc -> Hf Ha; [lia|]. cbn [scan_digits].
  destruct post as [|ch post]; cbn [app]; rewrite load_mid; cbn [mbind res_bind].
  { by exists acc. }
  destruct (isdigit ch) eqn:E; [|by exists acc].
  rewrite (length_snoc_Z pre ch). apply isdigit_range in E.
  apply (IH _ post); [by app_norm|cbn in Hf; lia|lia].
Qed.

Lemma skip_space_total m : forall fuel pre post, m = pre ++ post ++ [0] ->
  (length post < fuel)%nat ->
  exists pre' post', skip_space m (Z.of_nat (length pre)) fuel = Val (Z.of_nat (length pre')) /\
    m = pre' ++ post' ++ [0].
Proof.
  induction fuel as [|fuel IH]; intros pre post -> Hf; [lia|]. cbn [skip_space].
  destruct post as [|ch post]; cbn [app]; rewrite load_mid; cbn [mbind res_bind].
  { by exists pre, []. }
  destruct (isspace ch); [|by exists pre, (ch :: post)].
  rewrite (length_snoc_Z pre ch). apply (IH _ post); [by app_norm|cbn in Hf; lia].
Qed.

Lemma strtoull_total s : exists n, strtoull (s ++ [0]) 0 = Val n /\ 0 <= n < 2 ^ 64.
Proof.
  unfold strtoull, scan_int.
  destruct (skip_space_total (s ++ [0]) (S (length (s ++ [0]))) [] s eq_refl) as (pre & post & E & Hm);
    [rewrite length_app; lia|].
  change (Z.of_nat (length [])) with 0 in E. rewrite E. cbn [mbind res_bind].
  assert (exists ch i' pre' post', load (s ++ [0]) (Z.of_nat (length pre)) = Val ch /\
    (if (ch =? 45) || (ch =? 43) then Z.of_nat (length pre) + 1 else Z.of_nat (length pre)) = i' /\
    i' = Z.of_nat (length pre') /\ s ++ [0] = pre' ++ post' ++ [0])
    as (ch & i' & pre' & post' & El & Ei & -> & Hm').
  { rewrite Hm. destruct post as [|ch post]; cbn [app].
    - exists 0, (Z.of_nat (length pre)), pre, []. split_and!; [apply load_mid|done..].
    - destruct ((ch =? 45) || (ch =? 43)) eqn:Es.
      + exists ch, (Z.of_nat (length pre) + 1), (pre ++ [ch]), post. rewrite Es.
        split_and!; [apply load_mid|done|apply length_snoc_Z|by app_norm].
      + exists ch, (Z.of_nat (length pre)), pre, (ch :: post). rewrite Es.
        split_and!; [apply load_mid|done..]. }
  rewrite El. cbn [mbind res_bind]. rewrite Ei.
  destruct (scan_digits_total (s ++ [0]) (S (length (s ++ [0]))) pre' post' 0 Hm') as (v & -> & Hv);
    [rewrite Hm', !length_app; lia|lia|].
  cbn [mbind res_bind]. eexists. split; [done|]. unfold ULLONG_MAX.
  destruct (Z.ltb_spec (2 ^ 64 - 1) v); [pow2; lia|].
  destruct (ch =? 45); [apply wrap_bound; lia|pow2; lia].
Qed.

(** What main can count on after the options. *)
Record options_ok (o : options) : Prop := {
  ok_port : forallb isdigit (port o) = true;
  ok_workers : 1 <= opt_workers o < 2 ^ 32;
  ok_buckets : 1 <= num_buckets o < 2 ^ 64;
  ok_path : (length (ipc_sock_path o) <= Ipc.UNIX_PATH_MAX)%nat;
}.

Lemma parse_option_ok o opt arg : options_ok o ->
  exists o', parse_option o opt arg = Val o' /\ from_option options_ok True o'.
Proof.
  intros []. destruct (strtoull_total arg) as (n & E & Hn). unfold parse_option. rewrite E.
  cbn [mbind res_bind].
  destruct (opt =? 112).
  { eexists. split; [done|]. by destruct (forallb isdigit arg) eqn:Ed. }
  destruct (opt =? 119).
  { eexists. split; [done|]. unfold UINT32_MAX. destruct ((_ <? n) || (n =? 0)) eqn:Ed; [done|].
    apply orb_false_iff in Ed as [H1 H2]. split; cbn; try done. rewrite wrap_small; zlia. }
  destruct (opt =? 100).
  { eexists. by split. }
  destruct (opt =? 98).
  { eexists. split; [done|]. destruct (Z.eqb_spec n 0); [done|]. split; cbn; try done. lia. }
  destruct (opt =? 115); [|eexists; by split].
  eexists. split; [done|]. destruct (Nat.ltb_spec Ipc.UNIX_PATH_MAX (length arg)); done.
Qed.

Lemma parse_options_ok args : forall o, options_ok o ->
  exists o', parse_options o args = Val o' /\ from_option options_ok True o'.
Proof.
  induction args as [|[opt arg] args IH]; intros o Ho; cbn [parse_options]; [by eexists|].
  destruct (parse_option_ok o opt arg Ho) as ([o'|] & -> & Ho'); cbn [mbind res_bind]; [|by eexists].
  by apply IH.
Qed.

(** The copy of the path to the address. *)
Lemma sun_path_fits path : (length path <= Ipc.UNIX_PATH_MAX)%nat ->
  Buffer.memcpy (replicate Ipc.UNIX_PATH_MAX 0) 0 path (Z.of_nat (length path)) =
  Val (write_at 0 path (replicate Ipc.UNIX_PATH_MAX 0)).
Proof.
  intros Hl. unfold Buffer.memcpy, CMem.read_bytes. rewrite length_replicate, Nat2Z.id.
  destruct (Z.eqb_spec (Z.of_nat (length path)) 0) as [E|E]; cbn [mbind res_bind].
  - assert (path = []) as -> by (apply nil_length_inv; lia). done.
  - replace ((0 <? 0) || (Z.of_nat (length path) <? 0) || (Z.of_nat (length path) <? 0 + Z.of_nat (length path)))
      with false by zlia. cbn [mbind res_bind].
    replace ((0 <? 0) || (Z.of_nat Ipc.UNIX_PATH_MAX <? 0 + Z.of_nat (length path))) with false by zlia.
    change (Z.to_nat 0) with 0%nat. by rewrite slice_full.
Qed.

(** setup_ipc returns, whatever is answered. *)
Lemma setup_ipc_runs path h r : (length path <= Ipc.UNIX_PATH_MAX)%nat ->
  exists fd r', setup_ipc path (World h r) = Val (fd, World h r').
Proof.
  intros Hl. pose proof (sun_path_fits path Hl) as E. unfold setup_ipc.
  destruct (pop_socket (outside r)) as [fd o1] eqn:E1. rewrite (bind_run _ _ _ _ _ (ask_run _ _ _ _ _ E1)).
  destruct (fd <? 0); [by repeat eexists|]. rewrite (bind_run _ _ _ _ _ (liftr_run _ _ _ E)).
  destruct (pop_setup (outside (set_outside o1 r))) as [ret o2] eqn:E2. rewrite (bind_run _ _ _ _ _ (ask_run _ _ _ _ _ E2)).
  destruct (ret <? 0); [by repeat eexists|].
  destruct (pop_setup (outside (set_outside o2 (set_outside o1 r)))) as [ret3 o3] eqn:E3.
  rewrite (bind_run _ _ _ _ _ (ask_run _ _ _ _ _ E3)). destruct (ret3 <? 0); by repeat eexists.
Qed.

End OptionsSpec.

Module CaskThm.
Import CMem OptionsSpec.

Lemma good_count nb vals d : good nb vals d -> Z.of_nat (length vals) < 2 ^ 64.
Proof. intros [[Hs _] _]. pose proof (Db.DbSpec.stored_cnt _ _ _ _ _ Hs). lia. Qed.

(** The number of a paste, asked for when others have followed it. *)
Lemma get_reply_after f vals b later body : Z.of_nat (length vals) < 2 ^ 64 ->
  reply f (vals ++ [b] ++ later) HTTP_METHOD_GET (47 :: dec (Z.of_nat (length vals))) body =
    ((HTTP_STATUS_200, b), vals ++ [b] ++ later).
Proof.
  intros Hlen. rewrite <- (get_reply_posted vals b later Hlen).
  assert (dec (Z.of_nat (length vals)) <> []) as Hnum by (apply dec_not_nil; lia).
  by destruct (dec (Z.of_nat (length vals))).
Qed.

(** C9: The server refines the abstract one.  With the routes of add_routes and a
    database that holds [vals] and has room for what [reply] says it then holds (a free
    bucket for a paste), when the bytes of any well-formed request arrive, in any pieces
    that recv gives one after the other with no EAGAIN between them, and no call fails,
    read_data sends on that connection the answer that [reply] gives for the method, the
    URI and the body, and the database then holds what [reply] says; before that it has
    sent nothing and touched no other connection. *)
Theorem server_replies fuel f gs routes c h r x k u v hs b nb vals :
  (forall i, gs i <> None) -> add_routes gs = Val routes -> file_ok f ->
  arrives fuel c r x k u v hs b -> good nb vals (store r) ->
  room nb (snd (reply f vals k u (sent_body hs b))) ->
  exists r', read_data fuel routes (call_route fuel f) c (World h r) =
      give fuel c (fst (reply f vals k u (sent_body hs b))) (World h r') /\
    served_from c x v r r' /\ good nb (snd (reply f vals k u (sent_body hs b))) (store r').
Proof.
  intros Hgs Hadd. destruct (add_routes_ok gs Hgs) as (routes' & E & Hok).
  rewrite Hadd in E. injection E as <-. by apply server_replies_ok.
Qed.

(** C12: What has been pasted can be read back.  A POST to "/" of a body that is not
    empty, well-formed and in pieces with no EAGAIN between them, is answered with a number.  Let any calls of db_insert and db_get follow on the
    database as this POST has left it, on behalf of any requests, as long as there is room
    for what they insert (a free bucket for each paste) and no system call fails: a GET of
    that number, which then comes in the same way on any connection, is answered with 200 and exactly the
    bytes of the body. *)
Theorem paste_roundtrip fuel f gs routes c h r x v hs b nb vals :
  (forall i, gs i <> None) -> add_routes gs = Val routes -> file_ok f ->
  arrives fuel c r x HTTP_METHOD_POST [47] v hs b -> good nb vals (store r) ->
  sent_body hs b = b -> b <> [] -> room nb (vals ++ [b]) ->
  let number := dec (Z.of_nat (length vals)) in
  exists r',
    read_data fuel routes (call_route fuel f) c (World h r) =
      give fuel c (HTTP_STATUS_200, number) (World h r') /\
    good nb (vals ++ [b]) (store r') /\
    forall calls, Forall Calls.op_ok calls -> room nb ((vals ++ [b]) ++ (calls ≫= Calls.pasted)) ->
      exists answers d2,
        Calls.call_all Db.Db.db_insert Db.Db.db_get calls (store r') = Val (answers, d2) /\
        forall c2 h2 r2 x2 v2 hs2 b2, store r2 = d2 ->
          arrives fuel c2 r2 x2 HTTP_METHOD_GET (47 :: number) v2 hs2 b2 ->
          exists r2', read_data fuel routes (call_route fuel f) c2 (World h2 r2) =
            give fuel c2 (HTTP_STATUS_200, b) (World h2 r2').
Proof.
  intros Hgs Hadd Hf Harr Hgood Hbody Hne Hroom number.
  destruct (add_routes_ok gs Hgs) as (routes' & E & Hok). rewrite Hadd in E. injection E as <-.
  assert (reply f vals HTTP_METHOD_POST [47] (sent_body hs b) =
    ((HTTP_STATUS_200, number), vals ++ [b])) as Hr by (rewrite Hbody; by destruct b).
  destruct (server_replies_ok fuel f routes c h r x HTTP_METHOD_POST [47] v hs b nb vals)
    as (r' & Erun & _ & Hgood'); try done; [by rewrite Hr|]. rewrite Hr in Erun, Hgood'.
  exists r'. split_and!; [done|done|]. intros calls Hcalls Hroom2.
  destruct (proj1 (wp_Val _ _ _) (Calls.call_all_ok _ _ (PS := db_store nb) calls _ _ Hgood' Hcalls Hroom2))
    as (answers & d2 & Ecalls & _ & Hd2).
  exists answers, d2. split; [done|]. intros c2 h2 r2 x2 v2 hs2 b2 <- Harr2.
  pose proof (get_reply_after f vals b (calls ≫= Calls.pasted) (sent_body hs2 b2) (good_count _ _ _ Hgood)) as Hr2.
  fold number in Hr2.
  assert (good nb (vals ++ [b] ++ (calls ≫= Calls.pasted)) (store r2)) as Hgood2 by (rewrite (assoc_L (++)); exact Hd2).
  destruct (server_replies_ok fuel f routes c2 h2 r2 x2 HTTP_METHOD_GET (47 :: number) v2 hs2 b2 nb
    (vals ++ [b] ++ (calls ≫= Calls.pasted))) as (r2' & Erun2 & _); try done.
  { rewrite Hr2. cbn [snd]. by rewrite (assoc_L (++)). }
  rewrite Hr2 in Erun2. by exists r2'.
Qed.

(** C26: The options are always read to the end or refused, and what main goes on
    with is what it relies on: a port that is all digits (any number of them: whether it
    is a port is for getaddrinfo to say), between 1 and 2^32 - 1 workers, between 1 and
    2^64 - 1 buckets, and a socket path with which setup_ipc, whatever socket, bind and
    listen answer, stays inside the address that it copies the path to. *)
Theorem options_in_range args : exists o, parse_options default_options args = Val o /\
  match o with
  | None => True
  | Some o => options_ok o /\
      forall h r, exists fd r', setup_ipc (ipc_sock_path o) (World h r) = Val (fd, World h r')
  end.
Proof.
  destruct (parse_options_ok args default_options) as (o & E & Ho); [split; by_compute|].
  exists o. split; [done|]. destruct o as [o|]; [|done]. split; [done|].
  intros h r. apply setup_ipc_runs, Ho.
Qed.

(** The range is too wide for the database: 2^61 buckets are accepted, their
    size in bytes wraps around to 0, and the first paste then writes to a bucket
    outside the mapping. *)
Theorem bucket_count_overflows : exists o d disk,
  parse_options default_options [(98, bytes_of "2305843009213693952")] = Val (Some o) /\
  Db.Db.open_db None (num_buckets o) [] = Val (Some d, disk) /\ Db.Db.mapped d = Db.Db.bucket 0 /\
  Db.Db.db_insert 1 [65] 1 d = Stuck.
Proof.
  eexists _, _, _. split; [by vm_compute|]. split; [by vm_compute|]. by split; vm_compute.
Qed.

(** C19: A client can make the server read beyond the bytes it was sent.  When a POST to
    "/" whose Content-Length is [-n] arrives, in any pieces with no EAGAIN between them, and
    the database has a free bucket, read_data takes the request for complete, and its function passes the length,
    made unsigned, to db_insert, which copies that many bytes, more than 2^31, from a
    buffer that is shorter: the behaviour is undefined. *)
Theorem negative_length_overreads fuel f gs routes c h r x v hs b n nb vals :
  (forall i, gs i <> None) -> add_routes gs = Val routes ->
  receives fuel c r x (render HTTP_METHOD_POST [47] v hs b) ->
  v <> HTTP_VERSION_UNKNOWN -> Forall header_ok hs -> (length hs < MAX_HEADERS)%nat ->
  lookup_header content_length hs = Some (45 :: dec n) -> 0 < n <= 2 ^ 31 ->
  good nb vals (store r) -> (length vals < nb)%nat ->
  read_data fuel routes (call_route fuel f) c (World h r) = Stuck.
Proof.
  intros Hgs Hadd. destruct (add_routes_ok gs Hgs) as (routes' & E & Hok).
  rewrite Hadd in E. injection E as <-. by apply negative_length_stuck.
Qed.

(** *** One paste *)
Definition ex_file : File.file := File.MkFile 0 None File.FILE_ERROR_NOT_FOUND.
Definition ex_zeros : nat -> option (nat -> Route.route) := fun _ =>
  Some (fun _ => RouteSpec.route_for HTTP_METHOD_GET Route.ROUTE_MATCH_EXACT [] 0 0).
Definition ex_table : option (Array.array_header_t Route.route) :=
  match add_routes ex_zeros with Val a => a | _ => None end.
Definition ex_post : list Z := render HTTP_METHOD_POST [47] HTTP_VERSION_11 ex_headers (bytes_of "hello").
Definition ex_server (vals : list (list Z)) (l : list recv_result) : rest :=
  MkRest {[64 := ReadThm.ex_conn (MkBuffer 0 0 None)]} ∅ 1 1 MutexFree (ReadThm.ex_answers l) []
    (Db.DbSpec.image_db 4 vals).
Definition ex_posting : rest :=
  ex_server [[7; 8]] ((RecvData <$> [take 20 ex_post; drop 20 ex_post]) ++ [RecvErr EAGAIN]).

Lemma ex_arrives : arrives 3 64 ex_posting (ReadThm.ex_conn (MkBuffer 0 0 None)) HTTP_METHOD_POST [47]
  HTTP_VERSION_11 ex_headers (bytes_of "hello").
Proof.
  split.
  - done.
  - by split.
  - done.
  - done.
  - split; [done|closed|done|exact ex_headers_ok|by_compute|split; [reflexivity|by_compute]].
  - by vm_compute.
  - constructor.
  - exists [take 20 ex_post; drop 20 ex_post], []. split; [by vm_compute|].
    split; [repeat constructor; by_compute|]. split; [done|by_compute].
Qed.

Lemma ex_good : good 4 [[7; 8]] (store ex_posting).
Proof.
  split; [|constructor]. apply Db.DbSpec.image_db_holds; [by_compute|by_compute|].
  split; [repeat constructor; by_compute|by vm_compute].
Qed.

Lemma ex_room : room 4 [[7; 8]; bytes_of "hello"].
Proof. split; [by_compute|]. split; [repeat constructor; by_compute|by vm_compute]. Qed.

Lemma server_replies_witness : exists r',
  read_data 3 ex_table (call_route 3 ex_file) 64 (World ∅ ex_posting) =
    give 3 64 (HTTP_STATUS_200, bytes_of "1") (World ∅ r') /\
  good 4 [[7; 8]; bytes_of "hello"] (store r').
Proof.
  destruct (server_replies 3 ex_file ex_zeros ex_table 64 ∅ ex_posting
    (ReadThm.ex_conn (MkBuffer 0 0 None)) HTTP_METHOD_POST [47]
    HTTP_VERSION_11 ex_headers (bytes_of "hello") 4 [[7; 8]]) as (r' & E & _ & Hg).
  - done.
  - by vm_compute.
  - by split.
  - exact ex_arrives.
  - exact ex_good.
  - exact ex_room.
  - exists r'. split; [exact E|exact Hg].
Defined.

Definition ex_negative : list Z :=
  render HTTP_METHOD_POST [47] HTTP_VERSION_11 [(content_length, bytes_of "-5")] (bytes_of "hello").
Definition ex_attack : rest :=
  ex_server [[7; 8]] ((RecvData <$> [take 20 ex_negative; drop 20 ex_negative]) ++ [RecvErr EAGAIN]).

Lemma negative_length_overreads_witness :
  read_data 3 ex_table (call_route 3 ex_file) 64 (World ∅ ex_attack) = Stuck.
Proof.
  apply (negative_length_overreads 3 ex_file ex_zeros ex_table 64 ∅ ex_attack
    (ReadThm.ex_conn (MkBuffer 0 0 None)) HTTP_VERSION_11 [(content_length, bytes_of "-5")] (bytes_of "hello")
    5 4 [[7; 8]]).
  - done.
  - by vm_compute.
  - split; [done|by split|done|by_compute|done|by vm_compute|constructor|].
    exists [take 20 ex_negative; drop 20 ex_negative], []. split; [by vm_compute|].
    split; [repeat constructor; by_compute|]. split; [done|by_compute].
  - done.
  - closed.
  - by_compute.
  - reflexivity.
  - by_compute.
  - exact ex_good.
  - by_compute.
Defined.

Definition ex_get : list Z := render HTTP_METHOD_GET [47; 49] HTTP_VERSION_11 [] [].
Definition ex_getting (d : Db.Db.db) : rest :=
  set_store d (ex_server [] ((RecvData <$> [ex_get]) ++ [RecvErr EAGAIN])).

Lemma ex_get_arrives d : arrives 3 64 (ex_getting d) (ReadThm.ex_conn (MkBuffer 0 0 None)) HTTP_METHOD_GET [47; 49]
  HTTP_VERSION_11 [] [].
Proof.
  split.
  - done.
  - by split.
  - done.
  - done.
  - split; [done|closed|done|by apply Forall_nil|by_compute|done].
  - by vm_compute.
  - constructor.
  - exists [ex_get], []. split; [by vm_compute|]. split; [repeat constructor; by_compute|]. split; [done|by_compute].
Qed.

(** "hello" is posted, another paste follows, and "/1" is asked for. *)
Lemma paste_roundtrip_witness : exists r' answers d2 r2',
  read_data 3 ex_table (call_route 3 ex_file) 64 (World ∅ ex_posting) =
    give 3 64 (HTTP_STATUS_200, [49]) (World ∅ r') /\
  Calls.call_all Db.Db.db_insert Db.Db.db_get [Calls.Insert 3 [1; 2; 3] 3] (store r') = Val (answers, d2) /\
  read_data 3 ex_table (call_route 3 ex_file) 64 (World ∅ (ex_getting d2)) =
    give 3 64 (HTTP_STATUS_200, bytes_of "hello") (World ∅ r2').
Proof.
  destruct (paste_roundtrip 3 ex_file ex_zeros ex_table 64 ∅ ex_posting (ReadThm.ex_conn (MkBuffer 0 0 None))
    HTTP_VERSION_11 ex_headers (bytes_of "hello") 4 [[7; 8]]) as (r' & E & _ & Hlater).
  - done.
  - by vm_compute.
  - by split.
  - exact ex_arrives.
  - exact ex_good.
  - reflexivity.
  - done.
  - exact ex_room.
  - destruct (Hlater [Calls.Insert 3 [1; 2; 3] 3]) as (answers & d2 & E2 & Hget).
    + repeat constructor; by_compute.
    + split; [by_compute|]. split; [repeat constructor; by_compute|by vm_compute].
    + destruct (Hget 64 ∅ (ex_getting d2) _ _ _ _ eq_refl (ex_get_arrives d2)) as (r2' & E3).
      exists r', answers, d2, r2'. split; [exact E|]. split; [exact E2|exact E3].
Defined.
End CaskThm.
