(* ===== verification/MainThm.v ===== *)
(** main of the server from its start to its end: what it gives back when it cannot
    start, how its loop ends, and what it gives back at the end.

    The start has one failure for each call ([startup_failure]); the monitor loop ends
    at the first SIGINT or failure of pselect, if no client of the status socket keeps it
    in a call before; and when no worker runs, the part from the label out on releases
    what main has taken itself and returns. *)
From S2P Require Db.
From S2P Require Import Prelude Buffer Http Request Array Route Heap Clist Timer World Event EventSpec.
From S2P Require Import Connection Worker WorkerThm FileMap Ipc Cask CaskSpec CaskThm.
Import Clist ClistSpec Event Worker Cask Ipc IpcSpec.

(** ** The end of the database *)
Lemma close_database_ok r (Q : unit -> rest -> heapProp) : Db.Db.lock (store r) <> Db.Db.Freed ->
  (∀ d, ⌜Db.Db.file d = Db.Db.file (store r) /\ Db.Db.lock d = Db.Db.Freed⌝ -∗
     Q tt (made (Release Database) (set_store d r))) ⊢ wwp close_database Q r.
Proof.
  intros Hl. iIntros "HQ". destruct (proj1 (wp_Val _ _ _) (Db.DbSpec.close_db_wp _ Hl)) as ([] & d & E & Hd).
  unfold close_database. w_step. iApply wwp_goes_to; [intros h; by apply CaskSpec.on_db_run|]. w_step.
  by iApply "HQ".
Qed.

(** ** A start that fails *)

(** What setup_ipc closes when it fails. *)
Definition ipc_failure (o : os) : option (list sys) :=
  let (fd, o1) := pop_socket o in
  if fd <? 0 then Some []
  else
    let (bound, o2) := pop_setup o1 in
    if bound <? 0 then Some [SysClose fd]
    else if fst (pop_setup o2) <? 0 then Some [SysClose fd] else None.

(** The calls main makes before it returns when it cannot start the server. *)
Definition startup_failure (fails : bool * bool * bool) (opened : bool) (o : os) : option (list sys) :=
  let '(init_fails, mask_fails, info_fails) := fails in
  if init_fails || mask_fails || info_fails then Some []
  else if negb opened then Some [Release AddrInfo]
  else (fun calls => calls ++ [Release Database; Release AddrInfo]) <$> ipc_failure o.

(** It leaves the rest of the world, but for the lock, which it has made unless
    pthread_mutex_init fails, and the database, which it may have opened. *)
Record given_up (lk : mutex) (calls : list sys) (r r' : rest) : Prop := {
  up_conns : conns r' = conns r;
  up_workers : workers r' = workers r;
  up_count : num_workers r' = num_workers r;
  up_lock : worker_lock r' = lk;
  up_trace : trace r' = trace r ++ calls;
}.

Lemma given_up_more lk calls more r r' r'' : given_up lk calls r r' ->
  conns r'' = conns r' -> workers r'' = workers r' -> num_workers r'' = num_workers r' ->
  worker_lock r'' = worker_lock r' -> trace r'' = trace r' ++ more -> given_up lk (calls ++ more) r r''.
Proof.
  intros [E1 E2 E3 E4 E5] H1 H2 H3 H4 H5. split; try congruence.
  by rewrite H5, E5, (assoc_L (++)).
Qed.

Lemma setup_ipc_fails path calls r (Q : Z -> rest -> heapProp) :
  (length path <= UNIX_PATH_MAX)%nat -> ipc_failure (outside r) = Some calls ->
  (∀ fd r', ⌜fd < 0 /\ given_up (worker_lock r) calls r r' /\ store r' = store r⌝ -∗ Q fd r') ⊢
  wwp (setup_ipc path) Q r.
Proof.
  intros Hl Hf. iIntros "HQ". unfold ipc_failure in Hf. unfold setup_ipc.
  assert (forall o, given_up (worker_lock r) [] r (set_outside o r)) as H0.
  { intros o. split; try done. cbn. by rewrite app_nil_r. }
  w_step. w_step. destruct (pop_socket (outside r)) as [fd o1].
  destruct (fd <? 0) eqn:Hfd.
  { injection Hf as <-. w_step. iApply "HQ". iPureIntro. by split. }
  w_step. iApply wwp_goes_to; [intros h; by apply liftr_run, OptionsSpec.sun_path_fits|].
  w_step. w_step. cbn [outside set_outside]. destruct (pop_setup o1) as [bound o2].
  destruct (bound <? 0).
  { injection Hf as <-. w_step. w_step. w_step. iApply "HQ". iPureIntro. split; [done|]. by split. }
  w_step. w_step. cbn [outside set_outside]. destruct (pop_setup o2) as [ret o3]. cbn [fst] in Hf.
  destruct (ret <? 0); [|done]. injection Hf as <-. w_step. w_step. w_step. iApply "HQ". iPureIntro.
  split; [done|]. by split.
Qed.

Section main.
Context (fuel : nat) (o : options) (started : Z) (fails : bool * bool * bool).
Context (disk : option (list Z)) (faults : list Db.Db.fault) (index : File.answers).
Context (gs : nat -> option (nat -> Route.route)) (sels : list select).
Context (join : option (Array.array_header_t Route.route) -> ptr -> cmd world unit).

Lemma run_server_fails opened disk' calls r (Q : Z -> rest -> heapProp) :
  OptionsSpec.options_ok o -> Db.Db.open_db disk (num_buckets o) faults = Val (opened, disk') ->
  startup_failure fails (bool_decide (is_Some opened)) (outside r) = Some calls ->
  unlinked workers_head ⊢
  (∀ r', ring workers_head [] -∗
     ⌜given_up (if fst (fst fails) then worker_lock r else MutexFree) calls r r'⌝ -∗ Q 1 r') -∗
  wwp (run_server fuel o started fails disk faults index gs sels join) Q r.
Proof.
  intros Ho Hopen Hf. iIntros "H HQ". destruct fails as [[init mask] info]. unfold startup_failure in Hf.
  unfold run_server. w_step. w_step. iApply (LIST_INIT_HEAD_ok with "H"). iIntros "R". cbn [fst].
  assert (forall r1, worker_lock r1 = MutexFree -> conns r1 = conns r -> workers r1 = workers r ->
    num_workers r1 = num_workers r -> trace r1 = trace r -> given_up MutexFree [] r r1) as Hup.
  { intros r1 ? ? ? ? Ht. split; try done. by rewrite Ht, app_nil_r. }
  destruct init.
  { injection Hf as <-. w_step. iApply ("HQ" with "R"). iPureIntro. split; try done. by rewrite app_nil_r. }
  w_step. iApply wwp_rest; [done|]. destruct mask.
  { injection Hf as <-. w_step. iApply ("HQ" with "R"). iPureIntro. by apply Hup. }
  destruct info.
  { injection Hf as <-. w_step. iApply ("HQ" with "R"). iPureIntro. by apply Hup. }
  cbn [orb] in Hf. w_step. iApply wwp_goes_to; [intros h; by apply liftr_run|]. cbn [fst].
  destruct opened as [d|].
  2: { injection Hf as <-. w_step. w_step. w_step. iApply ("HQ" with "R"). iPureIntro. by split. }
  cbn in Hf. destruct (ipc_failure (outside r)) as [cl|] eqn:Hipc; [|done]. injection Hf as <-.
  w_step. iApply wwp_rest; [done|].
  w_step. iApply (setup_ipc_fails _ cl); [apply Ho|done|]. iIntros (fd r1 (Hfd & Hup1 & Hst)).
  replace (fd <? 0) with true by zlia. w_step. iApply close_database_ok.
  { rewrite Hst. cbn. by rewrite (Db.DbSpec.open_db_unlocked _ _ _ _ _ Hopen). }
  iIntros (d' _). w_step. w_step. w_step. iApply ("HQ" with "R"). iPureIntro.
  eapply given_up_more; [destruct Hup1; by split|done..|]. cbn. by rewrite <- (assoc_L (++)).
Qed.
End main.

(** ** The end *)

(** The struct of the database is gone, and the file is as it was. *)
Definition db_closed (r r' : rest) : Prop :=
  Db.Db.file (store r') = Db.Db.file (store r) /\ Db.Db.lock (store r') = Db.Db.Freed.

(** What main gives back, in this order. *)
Definition all_released (ipcfd : Z) (f : File.file) : list sys :=
  [Release AddrInfo; Release WorkerLock; SysClose ipcfd; Release SockPath] ++
  (if File.unmap_file f then [Release IndexMap] else []) ++ [Release Database].

(** The successor of what follows an element. *)
Lemma ring_suffix head l1 x ws : ring head (l1 ++ x :: ws) ⊢ ∃ v,
  (default head (list.head ws), Next) ↦ v ∗
  ((default head (list.head ws), Next) ↦ v -∗ ring head (l1 ++ x :: ws)) ∗
  ⌜forall y ws', ws = y :: ws' -> v = default head (list.head ws')⌝.
Proof.
  unfold ring. destruct ws as [|y ws]; cbn [list.head default from_option id].
  - iIntros "R". iDestruct (links_next with "R") as "[N R]". iExists _. iFrame. by iPureIntro.
  - replace (l1 ++ x :: y :: ws) with ((l1 ++ [x]) ++ y :: ws) by by rewrite <- (assoc_L (++)).
    rewrite links_app. iIntros "[R1 R2]". iDestruct (links_next with "R2") as "[N R2]". iExists _.
    iFrame "N". iSplitL.
    + iIntros "N". iApply links_app. iSplitL "R1"; [done|]. by iApply ("R2" with "N").
    + iPureIntro. by intros ? ? [= <- <-].
Qed.

Section finishing.
Context (join : ptr -> cmd world unit).

(** The loop over the workers, none of which runs, and its end. *)
Lemma stop_all_idle ws : forall l1 n nx r (Q : unit -> rest -> heapProp),
  (length ws < n)%nat -> workers_head ∉ ws ->
  Forall (fun w => exists y, workers r !! w = Some y /\ w_running y = false) ws ->
  (forall w ws', ws = w :: ws' -> nx = default workers_head (list.head ws')) ->
  ring workers_head (l1 ++ ws) ⊢ (ring workers_head (l1 ++ ws) -∗ Q tt r) -∗
  wwp (loop n (stop_next join) (default workers_head (list.head ws), nx)) Q r.
Proof.
  induction ws as [|w ws IH]; intros l1 [|n] nx r Q Hn Hhead Hws Hnx; try (cbn in Hn; lia);
    iIntros "R HQ"; iApply wwp_loop; cbn [list.head default from_option id stop_next].
  - rewrite Z.eqb_refl. w_step. by iApply "HQ".
  - apply Forall_cons in Hws as [(y & Hy & Hidle) Hws]. rewrite (Hnx w ws eq_refl).
    apply not_elem_of_cons in Hhead as [Hne Hhead].
    replace (w =? workers_head) with false by zlia.
    w_step. unfold shutdown_worker. w_step. w_step. rewrite Hidle. w_step.
    iDestruct (ring_suffix with "R") as (v) "(N & R & %Hv)". w_step. w_step.
    iApply (hwp_load with "N"). iIntros "N". iDestruct ("R" with "N") as "R". w_step.
    replace (l1 ++ w :: ws) with ((l1 ++ [w]) ++ ws) by by rewrite <- (assoc_L (++)).
    iApply (IH with "R HQ"); [cbn in Hn; lia|done..].
Qed.

Lemma stop_workers_idle fuel ws r (Q : unit -> rest -> heapProp) :
  (length ws < fuel)%nat -> workers_head ∉ ws ->
  Forall (fun w => exists y, workers r !! w = Some y /\ w_running y = false) ws ->
  ring workers_head ws ⊢ (ring workers_head ws -∗ Q tt r) -∗ wwp (stop_workers join fuel) Q r.
Proof.
  intros Hn Hhead Hws. iIntros "R HQ". unfold stop_workers.
  iDestruct (links_next with "R") as "[N R]". w_step. w_step.
  iApply (hwp_load with "N"). iIntros "N". iDestruct ("R" with "N") as "R".
  iDestruct (ring_second with "R") as "[N R]". w_step. w_step. iApply (hwp_load with "N"). iIntros "N".
  iDestruct ("R" with "N") as "R". iApply (stop_all_idle ws [] with "R"); [done..| |done].
  by intros w ws' ->.
Qed.

Lemma give_back_ok ipcfd f r (Q : unit -> rest -> heapProp) : Db.Db.lock (store r) <> Db.Db.Freed ->
  (∀ r', ⌜given_up MutexDestroyed (all_released ipcfd f) r r' /\ db_closed r r'⌝ -∗ Q tt r') ⊢
  wwp (give_back ipcfd f) Q r.
Proof.
  intros Hl. iIntros "HQ". unfold give_back.
  w_step. w_step. w_step. iApply wwp_rest; [done|]. w_step. w_step. w_step. w_step. w_step. w_step.
  w_step. unfold all_released. destruct (File.unmap_file f); cbn [when]; w_step;
    (iApply close_database_ok; [done|]); iIntros (d Hd); iApply "HQ"; iPureIntro;
    (split; [split; try done; cbn; by app_norm|exact Hd]).
Qed.

Lemma finish_main_idle fuel ws ipcfd f code r (Q : Z -> rest -> heapProp) :
  (length ws < fuel)%nat -> workers_head ∉ ws ->
  Forall (fun w => exists y, workers r !! w = Some y /\ w_running y = false) ws ->
  Db.Db.lock (store r) <> Db.Db.Freed ->
  ring workers_head ws ⊢
  (∀ r', ring workers_head ws -∗ ⌜given_up MutexDestroyed (all_released ipcfd f) r r' /\ db_closed r r'⌝ -∗ Q code r') -∗
  wwp (finish_main join fuel ipcfd f code) Q r.
Proof.
  intros Hn Hhead Hws Hl. iIntros "R HQ". unfold finish_main. w_step. iApply give_back_ok; [done|].
  iIntros (r2 [Hup Hcl]). w_step. iApply (stop_workers_idle with "R"); [done|done|by rewrite (up_workers _ _ _ _ Hup)|].
  iIntros "R". w_step. iApply ("HQ" with "R"). by iPureIntro.
Qed.
End finishing.

(** ** The monitor loop *)

(** The return of pselect that ends it: SIGINT has come, or the call has failed. *)
Definition ends (s : select) : bool := sel_signal s || (sel_res s <? 0) && negb (sel_intr s).

(** It leaves the globals and the database alone. *)
Record monitored (r r' : rest) : Prop := {
  mo_conns : conns r' = conns r;
  mo_workers : workers r' = workers r;
  mo_count : num_workers r' = num_workers r;
  mo_id : current_id r' = current_id r;
  mo_lock : worker_lock r' = MutexFree;
  mo_store : store r' = store r;
}.

(** The returns of pselect before that; those with a client on the socket. *)
Definition asked (s : select) : bool := negb (sel_res s =? 0) && sel_set s.
Definition clients (sels : list select) : nat := length (filter (fun s => asked s = true) sels).

Lemma clients_cons s sels : clients (s :: sels) = ((if asked s then 1 else 0) + clients sels)%nat.
Proof. unfold clients. rewrite filter_cons. by destruct (asked s). Qed.

Lemma drop_tail {A} n (l : list A) : drop n (tail l) = drop (S n) l.
Proof. by destruct l, n. Qed.

Lemma monitor_loop_ends_ok started ws ys before s after : forall r (Q : Z -> rest -> heapProp),
  Forall (fun s => ends s = false) before -> ends s = true ->
  worker_lock r = MutexFree -> workers_head ∉ ws ->
  num_workers r = Z.of_nat (length ws) -> Forall2 (fun w y => workers r !! w = Some y) ws ys ->
  clients_ok (outside r) -> (clients before <= length (recvs (outside r)))%nat ->
  ring workers_head ws ⊢
  (∀ r', ring workers_head ws -∗
     ⌜monitored r r' /\ accepts (outside r') = drop (clients before) (accepts (outside r))⌝ -∗ Q 1 r') -∗
  wwp (monitor_loop started true (before ++ s :: after)) Q r.
Proof.
  induction before as [|s0 before IH]; intros r Q Hbefore Hs Hlock Hhead Hn Hys Hok Hlen; iIntros "R HQ";
    cbn [app monitor_loop negb]; unfold sighandler.
  - unfold ends in Hs. destruct ((sel_res s <? 0) && negb (sel_intr s)).
    { w_step. iApply ("HQ" with "R"). iPureIntro. by split. }
    rewrite orb_false_r in Hs. rewrite Hs. cbn [negb]. w_step. iApply ("HQ" with "R"). iPureIntro. by split.
  - apply Forall_cons in Hbefore as [Hs0 Hbefore]. apply orb_false_iff in Hs0 as [Hsig Hfail].
    rewrite Hfail, Hsig. cbn [negb]. rewrite clients_cons in Hlen |- *. unfold asked in Hlen at 1. unfold asked at 1.
    destruct (sel_res s0 =? 0); cbn [negb andb Nat.add] in Hlen |- *; [by iApply (IH with "R")|].
    w_step. destruct (sel_set s0); cbn [when Nat.add] in Hlen |- *.
    + iApply (handle_ipc_safe started ws ys r with "R"); [done..| |].
      { by destruct (recvs (outside r)); [cbn in Hlen; lia|]. }
      iIntros (r1 o calls) "R [%Hd %Ho]". destruct Hd as [D1 D2 D3 D4 D5 D6 D7 D8], Ho as [Ho1 Ho2 Ho3].
      iApply (IH with "R"); [done|done|done|done|by rewrite D3|by rewrite D2|by rewrite D7|rewrite D7; lia|].
      iIntros (r2) "R [%Hm %Hac]". iApply ("HQ" with "R"). iPureIntro. split; [destruct Hm; split; congruence|].
      by rewrite Hac, D7, Ho2, drop_tail.
    + w_step. by iApply (IH with "R").
Qed.

Module MainThm.

(** C35: A start that fails gives back what it has taken, all but worker_lock.
    Whichever of the calls of main fails before the first worker (the lock, the signal
    mask, getaddrinfo, open_db, the socket, its bind or its listen), main returns 1 and
    has closed the socket, the database and the addresses as far as it had them, in that
    order; the list of workers is empty, and the lock, once made, is not destroyed. *)
Theorem startup_failure_releases fuel o started fails disk faults index gs sels join opened disk' calls r :
  OptionsSpec.options_ok o -> Db.Db.open_db disk (num_buckets o) faults = Val (opened, disk') ->
  startup_failure fails (bool_decide (is_Some opened)) (outside r) = Some calls ->
  wtriple (unlinked workers_head) r (run_server fuel o started fails disk faults index gs sels join)
    (fun code r' => ring workers_head [] ∗
       ⌜code = 1 /\ given_up (if fst (fst fails) then worker_lock r else MutexFree) calls r r'⌝)%I.
Proof.
  intros Ho Hopen Hf. apply wtriple_wwp. iIntros "H". iApply (run_server_fails with "H"); [done..|].
  iIntros (r') "R %Hup". by iFrame.
Qed.

(** C34: The server ends when it is told to, if its clients let it.  When the returns of
    pselect are some that do not end the loop, then one because of SIGINT or a failure,
    and whatever would come after: the monitor loop ends there with exit code 1.  By then
    it has accepted once for each return before that found the socket ready, and no more,
    and it has left the connections, the workers, their number and list and the database
    alone; the lock is free.  This asks that every client of the status socket sends
    something, up to a request, or closes its end, and reads what it is sent:
    silent_client_blocks below says why. *)
Theorem monitor_loop_ends started ws ys before s after r :
  Forall (fun s => ends s = false) before -> ends s = true ->
  worker_lock r = MutexFree -> workers_head ∉ ws ->
  num_workers r = Z.of_nat (length ws) -> Forall2 (fun w y => workers r !! w = Some y) ws ys ->
  clients_ok (outside r) -> (clients before <= length (recvs (outside r)))%nat ->
  wtriple (ring workers_head ws) r (monitor_loop started true (before ++ s :: after))
    (fun code r' => ring workers_head ws ∗
       ⌜code = 1 /\ monitored r r' /\
        accepts (outside r') = drop (clients before) (accepts (outside r))⌝)%I.
Proof.
  intros. apply wtriple_wwp. iIntros "R". iApply (monitor_loop_ends_ok with "R"); [done..|].
  iIntros (r') "R [%Hm %Hac]". by iFrame.
Qed.

(** A client of the status socket that sends nothing keeps main in read for good: the
    socket is blocking, and SIGINT, which only pselect lets through, cannot end it. *)
Theorem silent_client_blocks started fd o1 s sels h r :
  ends s = false -> asked s = true ->
  pop_accept (outside r) = (fd, o1) -> 0 <= fd -> recvs o1 = [] ->
  monitor_loop started true (s :: sels) (World h r) = Blocked.
Proof.
  intros Hs Ha Hacc Hfd Hr. apply orb_false_iff in Hs as [Hsig Hfail].
  apply andb_true_iff in Ha as [Hres Hset]. apply negb_true_iff in Hres.
  cbn [monitor_loop negb]. unfold sighandler. rewrite Hfail, Hsig, Hres, Hset. cbn [negb when].
  unfold mbind, cmd_bind. by rewrite (handle_ipc_waits started r fd o1 h).
Qed.

(** C36: When no worker runs (any more, or yet), the end of main returns the exit code,
    after releasing the addresses, the lock, the socket and its path, the index file if it
    is mapped and the database, each once and in this order, and nothing else: it goes
    through the list of workers, which it leaves as it is with their structures and
    descriptors, and it does not free the routes; the database file keeps its contents. *)
Theorem finish_main_releases join fuel ws ipcfd f code r :
  (length ws < fuel)%nat -> workers_head ∉ ws ->
  Forall (fun w => exists y, workers r !! w = Some y /\ w_running y = false) ws ->
  Db.Db.lock (store r) <> Db.Db.Freed ->
  wtriple (ring workers_head ws) r (finish_main join fuel ipcfd f code)
    (fun ret r' => ring workers_head ws ∗
       ⌜ret = code /\ given_up MutexDestroyed (all_released ipcfd f) r r' /\ db_closed r r'⌝)%I.
Proof.
  intros. apply wtriple_wwp. iIntros "R". iApply (finish_main_idle with "R"); [done..|].
  iIntros (r') "R %Hm". by iFrame.
Qed.

(** *** A server that cannot listen *)
Definition ex_options : options := default_options.
Definition ex_main_os (setups : list Z) (recvs : list recv_result) : os :=
  MkOs recvs [] [] [] [] [] [7] [] [6] setups [] [] [].
Definition ex_main_rest (setups : list Z) (recvs : list recv_result) : rest :=
  MkRest ∅ (list_to_map (zip [24; 48] IpcThm.ex_workers)) 2 2 MutexFree (ex_main_os setups recvs) []
    (Db.Db.MkDb [] 0 Db.Db.Unlocked []).
Definition ex_head : heap := list_to_map [((workers_head, Next), 0); ((workers_head, Prev), 0)].

Lemma ex_head_holds : unlinked workers_head ex_head.
Proof.
  apply holds_of_cells; [by_compute|]. unfold unlinked, owns. cbn. iIntros "(H1 & H2 & _)".
  iExists 0, 0. iFrame.
Qed.

Lemma startup_failure_releases_witness : exists h' r',
  run_server 5 ex_options 0 (false, false, false) None [] (File.MkAnswers (inr 2) (inr 2) None) CaskThm.ex_zeros []
    (fun _ _ => mret tt) (World ex_head (ex_main_rest [0; -1] [])) = Val (1, World h' r') /\
  trace r' = [SysClose 6; Release Database; Release AddrInfo] /\ worker_lock r' = MutexFree.
Proof.
  pose proof (startup_failure_releases 5 ex_options 0 (false, false, false) None [] (File.MkAnswers (inr 2) (inr 2) None)
    CaskThm.ex_zeros [] (fun _ _ => mret tt) _ _ [SysClose 6; Release Database; Release AddrInfo]
    (ex_main_rest [0; -1] []) ltac:(split; by_compute) eq_refl eq_refl) as H0.
  destruct (wtriple_run _ _ _ _ ex_head H0 ex_head_holds) as (code & h' & r' & H & Hr).
  destruct Hr as (? & ? & _ & _ & _ & -> & Hup). exists h', r'.
  split; [exact H|]. split; [exact (up_trace _ _ _ _ Hup)|exact (up_lock _ _ _ _ Hup)].
Defined.

(** *** A server that is asked for its status, by half, and then interrupted *)
Lemma monitor_loop_ends_witness : exists h' r',
  monitor_loop 0 true [MkSelect false 1 false true; MkSelect true (-1) true false; MkSelect false 1 false true]
    (World IpcThm.ex_memory (ex_main_rest [] [RecvData [0; 0; 0]])) = Val (1, World h' r') /\
  worker_lock r' = MutexFree /\ accepts (outside r') = [].
Proof.
  pose proof (monitor_loop_ends 0 [24; 48] IpcThm.ex_workers
    [MkSelect false 1 false true] (MkSelect true (-1) true false) [MkSelect false 1 false true]
    (ex_main_rest [] [RecvData [0; 0; 0]])
    ltac:(by repeat constructor) eq_refl eq_refl ltac:(by_compute) eq_refl
    ltac:(by repeat constructor) ltac:(split; [repeat constructor; by_compute|done]) ltac:(by_compute)) as H0.
  destruct (wtriple_run _ _ _ _ IpcThm.ex_memory H0 IpcThm.ex_workers_ring) as (code & h' & r' & H & Hr).
  destruct Hr as (? & ? & _ & _ & _ & -> & Hm & Hac). exists h', r'.
  split; [exact H|]. split; [exact (mo_lock _ _ Hm)|exact Hac].
Defined.

Lemma silent_client_blocks_witness :
  monitor_loop 0 true [MkSelect false 1 false true; MkSelect true (-1) true false]
    (World IpcThm.ex_memory (ex_main_rest [] [])) = Blocked.
Proof.
  apply (silent_client_blocks 0 7 _ (MkSelect false 1 false true) [MkSelect true (-1) true false]
    IpcThm.ex_memory (ex_main_rest [] []) eq_refl eq_refl eq_refl ltac:(done) eq_refl).
Defined.

Definition ex_idle : rest :=
  set_workers (set_running false <$> workers (ex_main_rest [] [])) (ex_main_rest [] []).

Lemma finish_main_releases_witness : exists h' r',
  finish_main (fun _ => mret tt) 3 7 CaskThm.ex_file 1 (World IpcThm.ex_memory ex_idle) = Val (1, World h' r') /\
  trace r' = [Release AddrInfo; Release WorkerLock; SysClose 7; Release SockPath; Release Database].
Proof.
  pose proof (finish_main_releases (fun _ => mret tt) 3 [24; 48] 7 CaskThm.ex_file 1 ex_idle
    ltac:(by_compute) ltac:(by_compute)
    ltac:(repeat (apply Forall_cons; split; [eexists; split; [by vm_compute|done]|]); by apply Forall_nil)
    ltac:(done)) as H0.
  destruct (wtriple_run _ _ _ _ IpcThm.ex_memory H0 IpcThm.ex_workers_ring) as (code & h' & r' & H & Hr).
  destruct Hr as (? & ? & _ & _ & _ & -> & Hm & _). exists h', r'. split; [exact H|].
  rewrite (up_trace _ _ _ _ Hm). by vm_compute.
Defined.
End MainThm.
