(* ===== verification/Shared.v ===== *)
(** What the threads share: worker_lock, num_workers and current_id.

    A command is [blind] to the three when it neither reads nor changes them.  Every
    handler that runs in a worker's loop is, so that the only accesses are those of
    start_worker, destroy_worker and handle_ipc, which take the lock.  Module
    [SharedThm] has what a worker's thread does to them from its start to its end,
    and that main, which destroys the lock first, cannot stop a running worker without
    undefined behaviour. *)
From S2P Require Import Prelude Prog Buffer Http Request Array Route Heap Clist Rbtree Timer World Event.
From S2P Require Import RequestSpec ReadSpec Connection Worker WorkerThm FileMap Ipc Cask CaskSpec CaskThm.
From S2P Require Db.
Import Event Http Connection Worker Cask CaskSpec.

Definition globals (r : rest) : mutex * Z * Z := (worker_lock r, num_workers r, current_id r).

Definition with_globals (g : mutex * Z * Z) (r : rest) : rest :=
  MkRest (conns r) (workers r) (g.1.2) (g.2) (g.1.1) (outside r) (trace r) (store r).
Definition given (g : mutex * Z * Z) (w : world) : world := World (memory w) (with_globals g (others w)).

(** The same run with the globals [g]. *)
Definition rerun {A} (g : mutex * Z * Z) (out : res (A * world)) : res (A * world) :=
  x ← out; Val (x.1, given g x.2).

Definition blind {A} (c : cmd world A) : Prop := forall g w, c (given g w) = rerun g (c w).

Lemma given_globals w : given (globals (others w)) w = w.
Proof. by destruct w as [h []]. Qed.

(** A blind command does not change the globals either. *)
Lemma blind_keeps {A} (c : cmd world A) w a w' : blind c ->
  c w = Val (a, w') -> globals (others w') = globals (others w).
Proof.
  intros Hc H. specialize (Hc (globals (others w)) w). rewrite given_globals, H in Hc.
  injection Hc as E. rewrite E. by destruct (globals (others w)) as [[]].
Qed.

(** ** Rules *)
Section rules.
Context {A B : Type}.

Lemma blind_ret (a : A) : blind (mret a).
Proof. done. Qed.

Lemma blind_stuck : blind (stuck (A := A)).
Proof. done. Qed.

Lemma blind_blocked : blind (blocked (A := A)).
Proof. done. Qed.

Lemma blind_killed : blind (killed (A := A)).
Proof. done. Qed.

Lemma blind_bind (c : cmd world A) (k : A -> cmd world B) :
  blind c -> (forall a, blind (k a)) -> blind (c ≫= k).
Proof.
  intros Hc Hk g w. unfold mbind, cmd_bind. rewrite Hc. destruct (c w) as [[a w1]| | | |]; [|done..].
  apply Hk.
Qed.

Lemma blind_heap (c : cmd heap A) : blind (on_heap c).
Proof. intros g w. unfold on_heap. cbn [given memory]. by destruct (c (memory w)) as [[? ?]| | | |]. Qed.

Lemma blind_rest (c : cmd rest A) :
  (forall g r, c (with_globals g r) = (x ← c r; Val (x.1, with_globals g x.2))) -> blind (on_rest c).
Proof.
  intros Hc g w. unfold on_rest. cbn [given others]. rewrite Hc.
  by destruct (c (others w)) as [[b r]| | | |].
Qed.

Lemma blind_db (c : cmd Db.Db.db A) : blind (on_db c).
Proof. apply blind_rest. intros g r. cbn [with_globals store]. by destruct (c (store r)) as [[? ?]| | | |]. Qed.

Lemma blind_ask (pop : os -> A * os) : blind (ask pop).
Proof. apply blind_rest. intros g r. cbn [with_globals outside]. by destruct (pop (outside r)). Qed.

Lemma blind_liftr (m : res A) : blind (liftr m).
Proof. intros g w. unfold liftr. by destruct m. Qed.

End rules.

Lemma blind_loop {A B} n (body : A -> cmd world (A + B)) : (forall a, blind (body a)) ->
  forall a, blind (loop n body a).
Proof.
  intros Hb. induction n as [|n IH]; intros a; [done|]. cbn [loop].
  apply blind_bind; [apply Hb|]. intros [a'|b]; [apply IH|apply blind_ret].
Qed.

Lemma blind_when (b : bool) c : blind c -> blind (when b c).
Proof. intros H. destruct b; [exact H|apply blind_ret]. Qed.

Lemma blind_tell s : blind (tell s).
Proof. by apply blind_rest. Qed.

Lemma blind_conn c : blind (conn c).
Proof. apply blind_rest. intros g r. cbn [with_globals conns]. by destruct (conns r !! c). Qed.

Lemma blind_set_conn c f : blind (set_conn c f).
Proof. apply blind_rest. intros g r. cbn [with_globals conns]. by destruct (conns r !! c). Qed.

Lemma blind_worker_at w : blind (worker_at w).
Proof. apply blind_rest. intros g r. cbn [with_globals workers]. by destruct (workers r !! w). Qed.

Lemma blind_set_worker w f : blind (set_worker w f).
Proof. apply blind_rest. intros g r. cbn [with_globals workers]. by destruct (workers r !! w). Qed.

Lemma blind_add_conn c x : blind (add_conn c x).
Proof. by apply blind_rest. Qed.

Lemma blind_drop_conn c : blind (drop_conn c).
Proof. by apply blind_rest. Qed.

Lemma blind_drop_worker w : blind (drop_worker w).
Proof. by apply blind_rest. Qed.

Create HintDb blind discriminated.
#[export] Hint Resolve blind_ret blind_stuck blind_heap blind_db blind_ask blind_liftr blind_tell
  blind_conn blind_set_conn blind_worker_at blind_set_worker blind_add_conn blind_drop_conn
  blind_drop_worker blind_blocked blind_killed : blind.

(** Take a command apart as it is written. *)
Ltac blindly :=
  repeat (intros; cbv zeta;
    lazymatch goal with
    | |- blind (mbind _ _) => apply blind_bind
    | |- blind (when _ _) => apply blind_when
    | |- blind (loop _ _ _) => apply blind_loop
    | |- blind (close _) => apply blind_tell
    | |- blind (match ?x with _ => _ end) => destruct x
    | |- blind _ => solve [auto with blind]
    end).

(** ** The handlers *)
Lemma blind_now : blind now.
Proof. unfold now. blindly. Qed.
#[export] Hint Resolve blind_now : blind.

Lemma blind_add_event base e : blind (add_event base e).
Proof. unfold add_event. blindly. Qed.
Lemma blind_del_event base e : blind (del_event base e).
Proof. unfold del_event. blindly. Qed.
Lemma blind_add_timer fuel base t : blind (add_timer fuel base t).
Proof. unfold add_timer. blindly. Qed.
Lemma blind_del_timer fuel base t : blind (del_timer fuel base t).
Proof. apply blind_heap. Qed.
#[export] Hint Resolve blind_add_event blind_del_event blind_add_timer blind_del_timer : blind.

Lemma blind_close_connection fuel c : blind (close_connection fuel c).
Proof. unfold close_connection. blindly. Qed.
#[export] Hint Resolve blind_close_connection : blind.

Lemma blind_reset_connection fuel c : blind (reset_connection fuel c).
Proof. unfold reset_connection. blindly. Qed.
#[export] Hint Resolve blind_reset_connection : blind.

Lemma blind_begin_read fuel c : blind (begin_read fuel c).
Proof. unfold begin_read. blindly. Qed.
#[export] Hint Resolve blind_begin_read : blind.

Lemma blind_send_data fuel c : blind (send_data fuel c).
Proof. unfold send_data, send_step. blindly. Qed.
#[export] Hint Resolve blind_send_data : blind.

Lemma blind_send_response fuel c st body len : blind (send_response fuel c st body len).
Proof. unfold send_response, begin_send. blindly. Qed.
#[export] Hint Resolve blind_send_response : blind.

Lemma blind_call_route fuel f cb c data : blind (call_route fuel f cb c data).
Proof.
  unfold call_route, index_callback, get_callback, post_callback, respond. blindly.
Qed.
#[export] Hint Resolve blind_call_route : blind.

Section routes.
Context (fuel : nat) (routes : option (Array.array_header_t Route.route)) (f : File.file).

Lemma blind_call_event cb fd events data :
  blind (call_event fuel routes (call_route fuel f) cb fd events data).
Proof.
  unfold call_event, io_callback, read_data, read_step, received, route_404, on_accept,
    accept_connection. blindly.
Qed.

Lemma blind_call_timer cb data : blind (call_timer fuel cb data).
Proof. unfold call_timer, timeout_callback. blindly. Qed.

Lemma blind_run_events n : forall evs,
  blind (run_events (call_event fuel routes (call_route fuel f)) n evs).
Proof.
  induction n as [|n IH]; intros evs; cbn [run_events]; blindly. apply blind_call_event.
Qed.
End routes.
#[export] Hint Resolve blind_call_event blind_call_timer blind_run_events : blind.

Lemma blind_destroy_event_base base : blind (destroy_event_base base).
Proof. unfold destroy_event_base. blindly. Qed.
#[export] Hint Resolve blind_destroy_event_base : blind.

Section thread.
Context (fuel : nat) (routes : option (Array.array_header_t Route.route)) (f : File.file).

Lemma blind_event_base_iter base n evs :
  blind (event_base_iter (call_timer fuel) (call_event fuel routes (call_route fuel f)) fuel base n evs).
Proof. unfold event_base_iter, run_timers, run_timer, run_io. blindly. Qed.

Lemma blind_worker_loop w base rounds :
  blind (worker_loop fuel routes (call_route fuel f) w base rounds).
Proof.
  pose proof blind_event_base_iter as Hiter.
  induction rounds as [|rd rounds IH]; cbn [worker_loop]; blindly.
Qed.

Lemma blind_close_next head pn : blind (close_next fuel head pn).
Proof. unfold close_next. blindly. Qed.

End thread.

(** ** The end of a worker *)

(** destroy_worker up to the lock, and from there on. *)
Definition close_worker (fuel : nat) (w : ptr) : cmd world unit :=
  let head := conns_head w in
  p ← on_heap (hload (head, Next));
  n ← on_heap (hload (p, Next));
  _ ← loop fuel (close_next fuel head) (p, n);
  y ← worker_at w;
  _ ← close (w_sock y);
  destroy_event_base (w_base y).
Definition leave_worker (w : ptr) : cmd world unit :=
  _ ← lock;
  _ ← on_rest (modify (fun r => set_num_workers (u32 (num_workers r - 1)) r));
  _ ← on_heap (Clist.list_del w);
  _ ← unlock;
  _ ← drop_worker w;
  on_heap (hfree (worker_members w)).

Lemma destroy_worker_halves fuel w W :
  destroy_worker fuel w W = (_ ← close_worker fuel w; leave_worker w) W.
Proof.
  unfold destroy_worker, close_worker. cbv zeta.
  do 5 (rewrite bind_assoc; apply bind_ext; intros ? ?). done.
Qed.

Lemma blind_close_worker fuel w : blind (close_worker fuel w).
Proof. unfold close_worker. blindly. apply blind_close_next. Qed.

(** A command whose first part is blind, undone. *)
Lemma bind_blind {A B} (c : cmd world A) (k : A -> cmd world B) w b w' :
  blind c -> (c ≫= k) w = Val (b, w') ->
  exists a w1, k a w1 = Val (b, w') /\ globals (others w1) = globals (others w).
Proof.
  intros Hc H. unfold mbind, cmd_bind in H. destruct (c w) as [[a w1]| | | |] eqn:E; [|done..].
  exists a, w1. split; [done|]. by eapply blind_keeps.
Qed.

Lemma globals_eq r r' : globals r' = globals r ->
  worker_lock r' = worker_lock r /\ num_workers r' = num_workers r /\ current_id r' = current_id r.
Proof. by intros [= -> -> ->]. Qed.

(** The lock taken, and a change of the globals under it. *)
Lemma bind_lock {B} (k : unit -> cmd world B) w b w' : (lock ≫= k) w = Val (b, w') ->
  worker_lock (others w) = MutexFree /\
  k tt (World (memory w) (set_worker_lock MutexHeld (others w))) = Val (b, w').
Proof. unfold lock, mbind, cmd_bind, on_rest. by destruct (worker_lock (others w)). Qed.

Lemma bind_modify {B} (g : rest -> rest) (k : unit -> cmd world B) w :
  (on_rest (modify g) ≫= k) w = k tt (World (memory w) (g (others w))).
Proof. done. Qed.

(** Step over the blind commands. *)
Ltac peel H :=
  repeat (let E := fresh "E" in
          lazymatch type of H with mbind _ _ _ = _ => idtac end;
          apply bind_blind in H as (? & ? & H & E); [|solve [blindly]];
          apply globals_eq in E as (? & ? & ?)).

(** A worker leaves only if the lock is free; the lock is free again, and there is one
    worker less. *)
Lemma leave_worker_globals p w b w' : leave_worker p w = Val (b, w') ->
  worker_lock (others w) = MutexFree /\ worker_lock (others w') = MutexFree /\
  num_workers (others w') = u32 (num_workers (others w) - 1) /\
  current_id (others w') = current_id (others w).
Proof.
  unfold leave_worker. intros H. apply bind_lock in H as [Hfree H]. rewrite bind_modify in H. peel H.
  unfold unlock in H. rewrite bind_modify in H. peel H. apply blind_keeps, globals_eq in H as (? & ? & ?); [|apply blind_heap].
  cbn in *. split_and!; congruence.
Qed.

(** The lock when it has been destroyed. *)
Lemma leave_worker_stuck p w : worker_lock (others w) = MutexDestroyed -> leave_worker p w = Stuck.
Proof. intros H. unfold leave_worker, lock, mbind, cmd_bind, on_rest. by rewrite H. Qed.

(** worker_proc up to destroy_worker's lock. *)
Definition serve (fuel : nat) (routes : option (Array.array_header_t Route.route)) (f : File.file)
    (p : ptr) (rounds : list round) : cmd world Z :=
  y ← worker_at p;
  _ ← set_worker p (set_running true);
  ret ← worker_loop fuel routes (call_route fuel f) p (w_base y) rounds;
  _ ← close_worker fuel p;
  mret ret.

Lemma worker_proc_halves fuel routes f p rounds w :
  worker_proc fuel routes (call_route fuel f) p rounds w =
    (ret ← serve fuel routes f p rounds; _ ← leave_worker p; mret ret) w.
Proof.
  unfold worker_proc, serve. cbv zeta. do 3 (rewrite bind_assoc; apply bind_ext; intros ? ?).
  etransitivity; [by apply bind_same, destroy_worker_halves|]. by rewrite !bind_assoc.
Qed.

Lemma blind_serve fuel routes f p rounds : blind (serve fuel routes f p rounds).
Proof.
  pose proof (blind_worker_loop fuel routes f). pose proof blind_close_worker. unfold serve. blindly.
Qed.

(** What a worker's thread still does when its loop has [rounds] to go. *)
Definition thread_rest (fuel : nat) (routes : option (Array.array_header_t Route.route))
    (f : File.file) (rounds : ptr -> list round) (p : ptr) : cmd world unit :=
  y ← worker_at p;
  _ ← worker_loop fuel routes (call_route fuel f) p (w_base y) (rounds p);
  destroy_worker fuel p.

(** When it has been told to stop, it closes what it has, and leaves. *)
Lemma thread_rest_stopped fuel routes f rounds p h r y : workers r !! p = Some y -> w_running y = false ->
  thread_rest fuel routes f rounds p (World h r) = (_ ← close_worker fuel p; leave_worker p) (World h r).
Proof.
  intros Hy Hrun. rewrite <- destroy_worker_halves. unfold thread_rest. etransitivity.
  { eapply bind_run. unfold worker_at, on_rest. cbn [others memory]. by rewrite Hy. }
  assert (forall rs, worker_loop fuel routes (call_route fuel f) p (w_base y) rs (World h r) = Val (0, World h r)) as E.
  { intros rs. destruct rs; cbn [worker_loop]; (etransitivity; [eapply bind_run; unfold worker_at, on_rest;
      cbn [others memory]; by rewrite Hy|]); by rewrite Hrun. }
  exact (bind_run _ _ _ _ _ (E _)).
Qed.

(** *** Executions that never return *)
Definition never {A} (c : cmd world A) (w : world) : Prop := forall a w', c w <> Val (a, w').

Lemma never_bind {A B} (c : cmd world A) (k : A -> cmd world B) w : never c w -> never (c ≫= k) w.
Proof.
  intros Hc b w' H. unfold mbind, cmd_bind in H. destruct (c w) as [[a w1]| | | |] eqn:E; [|done..].
  by eapply Hc.
Qed.

Lemma never_run {A B} (c : cmd world A) (k : A -> cmd world B) w a w1 :
  c w = Val (a, w1) -> never (k a) w1 -> never (c ≫= k) w.
Proof. intros E Hk b w'. erewrite bind_run by exact E. apply Hk. Qed.

Lemma never_loop {A B} n (body : A -> cmd world (A + B)) a w :
  never (body a) w -> never (loop n body a) w.
Proof. intros H. destruct n as [|n]; [done|]. cbn [loop]. by apply never_bind. Qed.

(** What main does before it stops the workers: the lock is gone, the workers are not. *)
Lemma give_back_shares ipcfd f h r h1 r1 : give_back ipcfd f (World h r) = Val (tt, World h1 r1) ->
  h1 = h /\ workers r1 = workers r /\ worker_lock r1 = MutexDestroyed.
Proof.
  assert (forall r0 h2 r2, close_database (World h r0) = Val (tt, World h2 r2) ->
    h2 = h /\ workers r2 = workers r0 /\ worker_lock r2 = worker_lock r0) as Hcl.
  { intros r0 h2 r2. unfold close_database, mbind, cmd_bind, on_db, on_rest. cbn [others memory].
    destruct (Db.Db.close_db (store r0)) as [[[] d]| | | |]; [|done..]. by intros [= <- <-]. }
  unfold give_back. destruct (File.unmap_file f); intros H%Hcl; exact H.
Qed.

(** It gives the database back, and a connection of a worker does not notice. *)
Lemma give_back_closes ipcfd f h r : Db.Db.lock (store r) <> Db.Db.Freed ->
  exists r1, give_back ipcfd f (World h r) = Val (tt, World h r1) /\ workers r1 = workers r /\
    conns r1 = conns r /\ outside r1 = outside r /\ Db.Db.lock (store r1) = Db.Db.Freed.
Proof.
  intros Hl. destruct (proj1 (wp_Val _ _ _) (Db.DbSpec.close_db_wp _ Hl)) as ([] & d & E & _ & Hd).
  assert (forall r0, store r0 = store r ->
    close_database (World h r0) = Val (tt, World h (made (Release Database) (set_store d r0)))) as Hcl.
  { intros r0 Hr. unfold close_database, mbind, cmd_bind, on_db, on_rest. cbn [others memory]. by rewrite Hr, E. }
  set (r0 := made (Release SockPath) (made (SysClose ipcfd) (made (Release WorkerLock)
    (set_worker_lock MutexDestroyed (made (Release AddrInfo) r))))).
  set (r1 := if File.unmap_file f then made (Release IndexMap) r0 else r0).
  assert (give_back ipcfd f (World h r) = close_database (World h r1)) as ->
    by (unfold give_back, r1; by destruct (File.unmap_file f)).
  assert (store r1 = store r /\ workers r1 = workers r /\ conns r1 = conns r /\ outside r1 = outside r)
    as (Hs & Hr) by (unfold r1; by destruct (File.unmap_file f)).
  rewrite (Hcl r1 Hs). eexists. split; [reflexivity|]. by split_and!; try apply Hr.
Qed.

Lemma hload_run l v h r : h !! l = Some v -> on_heap (hload l) (World h r) = Val (v, World h r).
Proof. intros H. unfold on_heap, hload. cbn. by rewrite H. Qed.

Lemma close_worker_fuel p w w' : close_worker 0 p w = Val (tt, w') -> False.
Proof.
  destruct w as [h r]. unfold close_worker, mbind, cmd_bind, on_heap, hload. cbn [memory others].
  by repeat (case_match; simplify_eq/=).
Qed.

(** The first of the workers is running and the lock is gone. *)
Lemma stop_running_worker fuel routes f rounds p n h r y :
  p <> workers_head -> workers r !! p = Some y -> w_running y = true ->
  worker_lock r = MutexDestroyed ->
  never (stop_next (thread_rest fuel routes f rounds) (p, n)) (World h r).
Proof.
  intros Hp Hy Hrun Hlock. unfold stop_next. replace (p =? workers_head) with false by zlia.
  apply never_bind. unfold shutdown_worker.
  eapply never_run.
  { unfold worker_at, on_rest. cbn [others memory]. by rewrite Hy. }
  rewrite Hrun. eapply never_run.
  { unfold set_worker, on_rest. cbn [others memory]. by rewrite Hy. }
  intros a w' H. erewrite thread_rest_stopped in H; [|apply lookup_insert_eq|done].
  apply bind_blind in H as (b & w1 & H & E); [|apply blind_close_worker].
  apply leave_worker_globals in H as [H _]. apply globals_eq in E as [E _]. cbn in E. congruence.
Qed.

(** Its connections can be closed: then it comes to the lock. *)
Lemma stop_running_stuck fuel routes f rounds p n h r y w2 :
  p <> workers_head -> workers r !! p = Some y -> w_running y = true -> worker_lock r = MutexDestroyed ->
  close_worker fuel p (World h (set_workers (<[p := set_running false y]> (workers r)) r)) = Val (tt, w2) ->
  stop_next (thread_rest fuel routes f rounds) (p, n) (World h r) = Stuck.
Proof.
  intros Hp Hy Hrun Hlock Hclose. unfold stop_next. replace (p =? workers_head) with false by zlia.
  assert (shutdown_worker (thread_rest fuel routes f rounds) p (World h r) = Stuck) as E;
    [|unfold mbind, cmd_bind; by rewrite E].
  unfold shutdown_worker. etransitivity.
  { eapply bind_run. unfold worker_at, on_rest. cbn [others memory]. by rewrite Hy. }
  cbv beta. rewrite Hrun. etransitivity.
  { eapply bind_run. unfold set_worker, on_rest. cbn [others memory]. by rewrite Hy. }
  cbv beta. erewrite thread_rest_stopped; [|apply lookup_insert_eq|done].
  etransitivity; [by eapply bind_run|]. apply leave_worker_stuck.
  apply blind_keeps, globals_eq in Hclose as [E _]; [|apply blind_close_worker]. by rewrite E.
Qed.

(** ** Theorems *)
Module SharedThm.

(** C25: A worker's thread, whatever its connections do, leaves what the threads share
    alone until it ends.  worker_proc is a part [serve], up to the end of
    destroy_worker's closing, that is blind to worker_lock, num_workers and current_id:
    run with any other values of the three it does and answers the same and leaves those;
    and then [leave_worker]: lock, num_workers--, out of the list, unlock, free.  So if
    the thread ends, the lock was free and is free again, there is one worker less, and
    no id has been given. *)
Theorem worker_proc_globals fuel routes f p rounds :
  (forall w, worker_proc fuel routes (call_route fuel f) p rounds w =
     (ret ← serve fuel routes f p rounds; _ ← leave_worker p; mret ret) w) /\
  blind (serve fuel routes f p rounds) /\
  forall w ret w', worker_proc fuel routes (call_route fuel f) p rounds w = Val (ret, w') ->
    worker_lock (others w) = MutexFree /\ worker_lock (others w') = MutexFree /\
    num_workers (others w') = u32 (num_workers (others w) - 1) /\
    current_id (others w') = current_id (others w).
Proof.
  split_and!; [apply worker_proc_halves|apply blind_serve|]. intros w ret w' H.
  rewrite worker_proc_halves in H. apply bind_blind in H as (a & w1 & H & E); [|apply blind_serve].
  unfold mbind, cmd_bind in H. destruct (leave_worker p w1) as [[[] w2]| | | |] eqn:E2; [|done..].
  injection H as <- <-. apply leave_worker_globals in E2. apply globals_eq in E as (<- & <- & <-). exact E2.
Qed.

(** C22: main cannot end properly while a worker runs.  It destroys worker_lock before it
    stops the workers, and a worker that has been told to stop takes that lock on its way
    out.  So if the first worker of the list is running, no execution of main from the
    label out on comes to its return without undefined behaviour; and as soon as the
    worker has closed its connections, its socket and its event base, the execution is
    undefined: it locks a mutex that has been destroyed. *)
Theorem shutdown_locks_destroyed fuel routes f rounds ipcfd code h r p n y :
  h !! (workers_head, Next) = Some p -> p <> workers_head -> h !! (p, Next) = Some n ->
  workers r !! p = Some y -> w_running y = true ->
  let finish := finish_main (thread_rest fuel routes f rounds) fuel ipcfd f code in
  (forall ret w', finish (World h r) <> Val (ret, w')) /\
  forall r1 w2, give_back ipcfd f (World h r) = Val (tt, World h r1) ->
    close_worker fuel p (World h (set_workers (<[p := set_running false y]> (workers r1)) r1)) = Val (tt, w2) ->
    finish (World h r) = Stuck.
Proof.
  intros Hh Hp Hn Hy Hrun finish. split.
  - change (never finish (World h r)). intros ret w' H. unfold finish, finish_main in H.
    unfold mbind at 1, cmd_bind at 1 in H.
    destruct (give_back ipcfd f (World h r)) as [[[] [h1 r1]]| | | |] eqn:E; [|done..].
    apply give_back_shares in E as (-> & Hw & Hl). revert ret w' H.
    change (never (_ ← stop_workers (thread_rest fuel routes f rounds) fuel; mret code) (World h r1)).
    apply never_bind. unfold stop_workers. do 2 (eapply never_run; [by apply hload_run|]).
    apply never_loop. apply (stop_running_worker _ _ _ _ _ _ _ _ y); congruence.
  - intros r1 w2 E Hclose. pose proof (give_back_shares _ _ _ _ _ _ E) as (_ & Hw & Hl). rewrite <- Hw in Hy.
    unfold finish, finish_main. etransitivity; [by eapply bind_run|]. cbv beta.
    assert (stop_workers (thread_rest fuel routes f rounds) fuel (World h r1) = Stuck) as Estop;
      [|unfold mbind, cmd_bind; by rewrite Estop].
    unfold stop_workers. do 2 (etransitivity; [by eapply bind_run, hload_run|]; cbv beta).
    destruct fuel as [|k]; [by apply close_worker_fuel in Hclose|]. cbn [loop].
    unfold mbind, cmd_bind. by rewrite (stop_running_stuck _ _ _ _ _ _ _ _ y w2).
Qed.

(** C24: main closes the database while the workers still serve.  It closes it before it
    stops the first worker, so that a worker which reads, after that and before it is
    stopped, a request that needs the database (a GET of a number or a POST of a paste, cut
    in any way) takes the lock of a struct that has been freed. *)
Theorem closed_database_used fuel f gs routes c h r x k u v hs b ipcfd :
  (forall i, gs i <> None) -> add_routes gs = Val routes ->
  arrives fuel c r x k u v hs b -> asks_store k u (sent_body hs b) = true ->
  Db.Db.lock (store r) <> Db.Db.Freed ->
  exists r1, give_back ipcfd f (World h r) = Val (tt, World h r1) /\
    workers r1 = workers r /\ conns r1 = conns r /\
    read_data fuel routes (call_route fuel f) c (World h r1) = Stuck.
Proof.
  intros Hgs Hadd Harr Hask Hl. destruct (add_routes_ok gs Hgs) as (routes' & E & Hok).
  rewrite Hadd in E. injection E as <-.
  destruct (give_back_closes ipcfd f h r Hl) as (r1 & Hrun & Hw & Hc & Ho & Hd). exists r1.
  split_and!; [done..|]. eapply arrives_closed; [done|by eapply arrives_ext|done|done].
Qed.

(** *** A worker that has been started, and the end of its thread *)
Import CaskThm.
Definition ex_started : world :=
  match start_worker (World WorkerThm.ex_boot (WorkerThm.ex_boot_rest 0)) with
  | Val (_, w) => w
  | _ => World ∅ (WorkerThm.ex_boot_rest 0)
  end.
Definition ex_running : rest :=
  set_workers (set_running true <$> workers (others ex_started)) (others ex_started).

Lemma worker_proc_globals_witness : exists ret w',
  worker_proc 5 None (call_route 5 ex_file) 24 [MkRound 0 [] true] ex_started = Val (ret, w') /\
  num_workers (others ex_started) = 1 /\ num_workers (others w') = 0.
Proof.
  destruct (worker_proc 5 None (call_route 5 ex_file) 24 [MkRound 0 [] true] ex_started)
    as [[ret w']| | | |] eqn:E; [|by vm_compute in E..].
  exists ret, w'. split; [reflexivity|]. split; [by vm_compute|].
  destruct (worker_proc_globals 5 None ex_file 24 [MkRound 0 [] true]) as (_ & _ & H).
  destruct (H _ _ _ E) as (_ & _ & Hn & _). rewrite Hn. by vm_compute.
Defined.

Lemma closed_database_used_witness : exists r1,
  give_back 7 ex_file (World ∅ ex_posting) = Val (tt, World ∅ r1) /\
  read_data 3 ex_table (call_route 3 ex_file) 64 (World ∅ r1) = Stuck.
Proof.
  destruct (closed_database_used 3 ex_file ex_zeros ex_table 64 ∅ ex_posting (ReadThm.ex_conn (Buffer.MkBuffer 0 0 None))
    HTTP_METHOD_POST [47] HTTP_VERSION_11 ParserSpec.ex_headers (bytes_of "hello") 7) as (r1 & E & _ & _ & Hr).
  - done.
  - by vm_compute.
  - exact ex_arrives.
  - by vm_compute.
  - by vm_compute.
  - exists r1. split; [exact E|exact Hr].
Defined.

Lemma shutdown_locks_destroyed_witness :
  (forall ret w', finish_main (thread_rest 5 None ex_file (fun _ => [])) 5 7 ex_file 1
     (World (memory ex_started) ex_running) <> Val (ret, w')) /\
  finish_main (thread_rest 5 None ex_file (fun _ => [])) 5 7 ex_file 1
    (World (memory ex_started) ex_running) = Stuck.
Proof.
  destruct (shutdown_locks_destroyed 5 None ex_file (fun _ => []) 7 1 (memory ex_started) ex_running 24 workers_head
    (MkWorker 0 3 true 0 48)) as [H1 H2]; [by vm_compute..|].
  split; [exact H1|]. eapply H2; by vm_compute.
Defined.
End SharedThm.
