(* ===== verification/Registry.v ===== *)
(** The list of workers while it changes: handle_ipc answers the monitor in the main
    thread, and workers end in theirs.

    What the two do under worker_lock is taken apart into its accesses to the shared
    members ([answer_steps], [leave_steps]); [handle_ipc_steps] and [destroy_worker_steps]
    say that these are the functions of cask.c and worker.c.  The threads take their steps
    in any order ([step]); the workers that do not end go on serving, which changes their
    own members.  [pwp] is the weakest precondition of the steps of the thread that holds
    the lock, whatever the others do in between.  Module [RegistryThm]: no thread ever
    does anything undefined or blocks the others for good, and the monitor is sent the
    workers that were there when the lock was taken. *)
From S2P Require Import Prelude Prog Heap Clist Timer World Event EventSpec Connection Worker Ipc.

Module Registry.
Import Clist Event Worker Ipc.

(** ** Under the lock *)

(** The loop over the workers; the members of one are read one after the other. *)
Fixpoint send_steps (fd : Z) (n : nat) (iter : ptr) : prog world unit :=
  match n with
  | O => mret tt
  | S n =>
      id ← act (y ← worker_at iter; mret (w_id y));
      running ← act (y ← worker_at iter; mret (w_running y));
      num_conns ← act (y ← worker_at iter; mret (w_num_conns y));
      _ ← act (write fd (put_worker (MkWorkerStatus id running num_conns)));
      iter ← act (on_heap (hload (iter, Next)));
      send_steps fd n iter
  end.

Definition answer_steps (fd uptime : Z) : prog world unit :=
  n ← act (on_rest (gets num_workers));
  _ ← act (write fd (le_bytes 4 IPC_CMD_STATUS));
  _ ← act (write fd (put_status (MkIpcStatus uptime n)));
  iter ← act (on_heap (LIST_HEAD workers_head));
  send_steps fd (Z.to_nat n) iter.

(** num_workers-- and list_del_entry(worker, node) *)
Definition leave_steps (w : ptr) : prog world unit :=
  n ← act (on_rest (gets num_workers));
  _ ← act (on_rest (modify (set_num_workers (u32 (n - 1)))));
  p ← act (on_heap (hload (w, Prev)));
  n ← act (on_heap (hload (w, Next)));
  _ ← act (on_heap (hstore (n, Prev) p));
  _ ← act (on_heap (hstore (p, Next) n));
  _ ← act (on_heap (hstore (w, Next) NULL));
  act (on_heap (hstore (w, Prev) NULL)).

(** free(worker) *)
Definition free_worker (w : ptr) : cmd world unit :=
  _ ← drop_worker w;
  on_heap (hfree (worker_members w)).

(** ** Threads *)

(** A thread serves, waits for the lock, holds it with these steps to go, has given it
    back, or is done. *)
Inductive status := Serving | Waiting | Inside (p : prog world unit) | Leaving | Gone.

(** A step of a thread that does [crit] under the lock and [after] when it has given it
    back; it waits while the lock is held. *)
Inductive moves (crit : prog world unit) (after : cmd world unit) : status -> world -> status -> world -> Prop :=
  | moves_lock W W' : lock W = Val (tt, W') -> moves crit after Waiting W (Inside crit) W'
  | moves_act {B} (c : cmd world B) k b W W' : c W = Val (b, W') ->
      moves crit after (Inside (Act c k)) W (Inside (k b)) W'
  | moves_unlock W W' : unlock W = Val (tt, W') -> moves crit after (Inside (Ret tt)) W Leaving W'
  | moves_after W W' : after W = Val (tt, W') -> moves crit after Leaving W Gone W'.

(** What a worker that serves may do: change what it has and whatever is not shared, and
    send to its own clients.  It does not write to the monitor's socket. *)
Record serves (fd : Z) (w : ptr) (r r' : rest) : Prop := {
  sv_lock : worker_lock r' = worker_lock r;
  sv_count : num_workers r' = num_workers r;
  sv_id : current_id r' = current_id r;
  sv_sent : pieces_on fd (trace r') = pieces_on fd (trace r);
  sv_reads : writes (outside r') = writes (outside r);
  sv_worker : exists y y', workers r !! w = Some y /\ workers r' = <[w := y']> (workers r) /\
    w_id y' = w_id y /\ w_sock y' = w_sock y /\ w_base y' = w_base y;
}.

(** The main thread, which answers on [fd], and the workers' threads.  The memory is that
    of the list and of the workers. *)
Record config := Config { c_world : world; c_main : status; c_crew : list (ptr * status) }.

Section step.
Variable fd uptime : Z.

Inductive step : config -> config -> Prop :=
  | step_main W m W' m' crew : moves (answer_steps fd uptime) (close fd) m W m' W' ->
      step (Config W m crew) (Config W' m' crew)
  | step_crew i w st st' W W' m crew : crew !! i = Some (w, st) ->
      moves (leave_steps w) (free_worker w) st W st' W' ->
      step (Config W m crew) (Config W' m (<[i := (w, st')]> crew))
  | step_serve i w h r r' m crew : crew !! i = Some (w, Serving) -> serves fd w r r' ->
      step (Config (World h r) m crew) (Config (World h r') m crew)
  | step_leave i w W m crew : crew !! i = Some (w, Serving) ->
      step (Config W m crew) (Config W m (<[i := (w, Waiting)]> crew)).
End step.

(** The threads of a configuration, with what they do under the lock and after it. *)
Inductive thread (fd uptime : Z) (c : config) : prog world unit -> cmd world unit -> status -> Prop :=
  | thread_main : thread fd uptime c (answer_steps fd uptime) (close fd) (c_main c)
  | thread_crew i w st : c_crew c !! i = Some (w, st) ->
      thread fd uptime c (leave_steps w) (free_worker w) st.

Definition start (W : world) (ws : list ptr) : config :=
  Config W Waiting ((fun w => (w, Serving)) <$> ws).

End Registry.

Module RegistrySpec.
Import Clist ClistSpec Event Worker Ipc IpcSpec Registry.

(** ** The steps are the functions *)
Lemma member_run {B} (f : worker -> B) w y h r : workers r !! w = Some y ->
  (y ← worker_at w; mret (f y)) (World h r) = Val (f y, World h r).
Proof. intros Hy. unfold mbind, cmd_bind, worker_at, on_rest. cbn [others memory]. by rewrite Hy. Qed.

Lemma run_send_steps fd n : forall iter W, run (send_steps fd n iter) W = send_workers fd n iter W.
Proof.
  induction n as [|n IH]; intros iter [h r]; [done|]. cbn [send_steps send_workers].
  destruct (workers r !! iter) as [y|] eqn:Hy.
  - do 3 (rewrite run_act; etransitivity; [by eapply bind_run, member_run|]; cbv beta).
    symmetry. etransitivity.
    { eapply bind_run. unfold worker_at, on_rest. cbn [others memory]. by rewrite Hy. }
    symmetry. rewrite run_act. apply bind_ext. intros [] W. rewrite run_act. apply bind_ext. intros p W'. apply IH.
  - rewrite run_act. unfold mbind, cmd_bind, worker_at, on_rest. cbn [others memory]. by rewrite Hy.
Qed.

#[local] Hint Resolve run_send_steps : steps.

Definition answer_body (fd uptime : Z) : cmd world unit :=
  n ← on_rest (gets num_workers);
  _ ← write fd (le_bytes 4 IPC_CMD_STATUS);
  _ ← write fd (put_status (MkIpcStatus uptime n));
  iter ← on_heap (LIST_HEAD workers_head);
  send_workers fd (Z.to_nat n) iter.

Lemma run_answer fd uptime W : run (answer_steps fd uptime) W = answer_body fd uptime W.
Proof. unfold answer_steps, answer_body. along. Qed.

(** handle_ipc, with the steps between the lock and the unlock. *)
Definition handle_ipc_locked (started_at : Z) : cmd world unit :=
  fd ← ask pop_accept;
  if fd <? 0 then mret tt
  else
    ans ← read;
    match ans with
    | RecvErr _ => mret tt
    | RecvData bs =>
        if (SIZEOF_IPC_REQUEST <? length bs)%nat then stuck
        else if negb (length bs =? SIZEOF_IPC_REQUEST)%nat then mret tt
        else
          _ ← (if command (get_request bs) =? IPC_CMD_STATUS then
                 time ← now;
                 _ ← lock;
                 _ ← run (answer_steps fd (u64 (time - started_at) / 1000000000));
                 unlock
               else mret tt);
          close fd
    end.

Lemma handle_ipc_steps started W : handle_ipc started W = handle_ipc_locked started W.
Proof.
  unfold handle_ipc, handle_ipc_locked. apply bind_ext. intros fd W1. destruct (fd <? 0); [done|].
  apply bind_ext. intros [e|bs] W2; [done|]. destruct (_ <? _)%nat; [done|]. destruct (negb _); [done|].
  apply bind_same. destruct (_ =? _); [|done]. cbv zeta. apply bind_ext. intros time W3.
  apply bind_ext. intros [] W4. symmetry. etransitivity; [apply bind_same, run_answer|].
  unfold answer_body. rewrite bind_assoc. apply bind_ext. intros n W5. rewrite bind_assoc. apply bind_ext. intros [] W6.
  rewrite bind_assoc. apply bind_ext. intros [] W7. by rewrite bind_assoc.
Qed.

(** destroy_worker, likewise. *)
Definition destroy_worker_locked (fuel : nat) (w : ptr) : cmd world unit :=
  let head := conns_head w in
  p ← on_heap (hload (head, Next));
  n ← on_heap (hload (p, Next));
  _ ← loop fuel (close_next fuel head) (p, n);
  y ← worker_at w;
  _ ← close (w_sock y);
  _ ← destroy_event_base (w_base y);
  _ ← lock;
  _ ← run (leave_steps w);
  _ ← unlock;
  free_worker w.

(** A deletion from a list, one access after the other. *)
Definition leave_body (w : ptr) : cmd world unit :=
  _ ← on_rest (modify (fun r => set_num_workers (u32 (num_workers r - 1)) r));
  on_heap (list_del w).

Lemma run_leave w W : run (leave_steps w) W = leave_body w W.
Proof.
  destruct W as [h r]. unfold leave_steps, leave_body. cbn [run mbind prog_mbind prog_bind act].
  unfold list_del, _list_del, mbind, cmd_bind, on_heap, on_rest. cbn [memory others gets modify].
  repeat (case_match; simplify_eq/=; try done).
Qed.

Lemma destroy_worker_steps fuel w W : destroy_worker fuel w W = destroy_worker_locked fuel w W.
Proof.
  unfold destroy_worker, destroy_worker_locked. cbv zeta.
  apply bind_ext. intros p W1. apply bind_ext. intros n W2. apply bind_ext. intros [] W3.
  apply bind_ext. intros y W4. apply bind_ext. intros [] W5. apply bind_ext. intros [] W6.
  apply bind_ext. intros [] W7. symmetry. etransitivity; [apply bind_same, run_leave|].
  unfold leave_body. rewrite bind_assoc. apply bind_ext. intros [] W8. done.
Qed.

(** ** The holder of the lock among the others *)

(** [E r r2]: what the others may do between two steps; [G r r']: what a step does. *)
Section pwp.
Context (E G : rest -> rest -> Prop).
Context (E_refl : forall r, E r r) (E_trans : forall r1 r2 r3, E r1 r2 -> E r2 r3 -> E r1 r3).

Fixpoint pwp {A} (p : prog world A) (Q : A -> rest -> heapProp) (r : rest) : heapProp :=
  match p with
  | Ret a => ∀ r2, ⌜E r r2⌝ -∗ Q a r2
  | Act c k => ∀ r2, ⌜E r r2⌝ -∗ wwp c (fun b r3 => ⌜G r2 r3⌝ ∗ pwp (k b) Q r3) r2
  end%I.

Lemma pwp_later {A} (p : prog world A) (Q : A -> rest -> heapProp) r r1 : E r r1 -> pwp p Q r ⊢ pwp p Q r1.
Proof.
  intros H. destruct p as [a|B c k]; cbn [pwp]; iIntros "Hp" (r2 H2); iApply "Hp"; iPureIntro; by eapply E_trans.
Qed.

Lemma pwp_act {A B} (c : cmd world B) (k : B -> prog world A) (Q : A -> rest -> heapProp) r :
  (∀ r2, ⌜E r r2⌝ -∗ wwp c (fun b r3 => ⌜G r2 r3⌝ ∗ pwp (k b) Q r3) r2) ⊢ pwp (b ← act c; k b) Q r.
Proof. done. Qed.

Lemma pwp_last {B} (c : cmd world B) (Q : B -> rest -> heapProp) r :
  (∀ r2, ⌜E r r2⌝ -∗ wwp c (fun b r3 => ⌜G r2 r3⌝ ∗ ∀ r4, ⌜E r3 r4⌝ -∗ Q b r4) r2) ⊢ pwp (act c) Q r.
Proof. done. Qed.

(** A step on the memory does nothing else. *)
Lemma pwp_heap {A B} (c : cmd heap B) (k : B -> prog world A) (Q : A -> rest -> heapProp) r :
  (forall r, G r r) ->
  (∀ r2, ⌜E r r2⌝ -∗ hwp c (fun b => pwp (k b) Q r2)) ⊢ pwp (b ← act (on_heap c); k b) Q r.
Proof.
  intros HG. iIntros "H". iApply pwp_act. iIntros (r2 H2). w_step. iApply (hwp_wand with "[H]"); [by iApply "H"|].
  iIntros (b) "$". by iPureIntro.
Qed.
End pwp.

(** *** What the workers in [ws] keep while the lock is held *)
Section holding.
Context (fd uptime : Z) (ids : ptr -> Z).

Definition known (ws : list ptr) (r : rest) : Prop :=
  forall w, w ∈ ws -> exists y, workers r !! w = Some y /\ w_id y = ids w.

Record elsewhere (ws : list ptr) (r r2 : rest) : Prop := {
  el_lock : worker_lock r2 = worker_lock r;
  el_count : num_workers r2 = num_workers r;
  el_sent : pieces_on fd (trace r2) = pieces_on fd (trace r);
  el_reads : writes (outside r2) = writes (outside r);
  el_known : known ws r -> known ws r2;
}.

(** A step of the holder; [quiet]: it sends nothing to the monitor. *)
Record held_step (quiet : bool) (r r' : rest) : Prop := {
  hs_workers : workers r' = workers r;
  hs_lock : worker_lock r' = worker_lock r;
  hs_reads : writes (outside r') = writes (outside r);
  hs_sent : quiet = true -> pieces_on fd (trace r') = pieces_on fd (trace r);
}.

Lemma elsewhere_refl ws r : elsewhere ws r r.
Proof. by split. Qed.
Lemma elsewhere_trans ws r1 r2 r3 : elsewhere ws r1 r2 -> elsewhere ws r2 r3 -> elsewhere ws r1 r3.
Proof. intros [? ? ? ? ?] [? ? ? ? ?]. split; [congruence..|auto]. Qed.
Lemma held_step_refl quiet r : held_step quiet r r.
Proof. by split. Qed.
#[local] Hint Resolve elsewhere_refl held_step_refl : core.

(** What the monitor has been sent about [ws], of which there are [n]. *)
Definition status_start (n : Z) : list (list Z) :=
  [le_bytes 4 IPC_CMD_STATUS; put_status (MkIpcStatus uptime n)].
Definition reported (n : Z) (ws : list ptr) (r : rest) : Prop :=
  exists ss, Forall2 (fun w s => ws_id s = ids w) ws ss /\
    pieces_on fd (trace r) = status_start n ++ (put_worker <$> ss).

Lemma known_at ws r w : known ws r -> w ∈ ws -> exists y, workers r !! w = Some y /\ w_id y = ids w.
Proof. auto. Qed.

Lemma pieces_made bs r : pieces_on fd (trace (made (SysSend fd bs) r)) = pieces_on fd (trace r) ++ [bs].
Proof.
  unfold made. cbn [trace]. rewrite pieces_on_app. f_equal. apply (pieces_on_pieces fd [bs]).
Qed.

Abbreviation hpwp ws quiet := (pwp (elsewhere ws) (held_step quiet)).

(** A member of a worker in the list is read. *)
Lemma read_member_ok {A B} ws (f : worker -> B) w (k : B -> prog world A) (Q : A -> rest -> heapProp) r :
  known ws r -> w ∈ ws ->
  (∀ y r2, ⌜elsewhere ws r r2 /\ w_id y = ids w⌝ -∗ hpwp ws false (k (f y)) Q r2) ⊢
  hpwp ws false (b ← act (y ← worker_at w; mret (f y)); k b) Q r.
Proof.
  intros Hk Hw. iIntros "H". iApply pwp_act. iIntros (r2 H2).
  destruct (el_known _ _ _ H2 Hk w Hw) as (y & Hy & Hid). w_step. w_step. w_step.
  iSplit; [by iPureIntro|]. iApply "H". by iPureIntro.
Qed.

Lemma write_act_ok {A} ws bs (k : unit -> prog world A) (Q : A -> rest -> heapProp) r : writes (outside r) = [] ->
  (∀ r2, ⌜elsewhere ws r r2⌝ -∗ hpwp ws false (k tt) Q (made (SysSend fd bs) r2)) ⊢
  hpwp ws false (b ← act (write fd bs); k b) Q r.
Proof.
  intros Hw. iIntros "H". iApply pwp_act. iIntros (r2 H2). iApply write_ok; [by rewrite (el_reads _ _ _ H2)|].
  iSplit; [iPureIntro; by split|]. by iApply "H".
Qed.

Lemma send_steps_ok ws n ws2 : forall ws1 d r (Q : unit -> rest -> heapProp),
  ws = ws1 ++ ws2 -> writes (outside r) = [] -> known ws r -> reported n ws1 r ->
  ring workers_head ws ⊢
  (∀ r', ring workers_head ws -∗
     ⌜known ws r' /\ num_workers r' = num_workers r /\ reported n ws r'⌝ -∗ Q tt r') -∗
  hpwp ws false (send_steps fd (length ws2) (default d (list.head ws2))) Q r.
Proof.
  induction ws2 as [|w ws2 IH]; intros ws1 d r Q Hws Hwr Hk Hr; iIntros "R HQ".
  - cbn [length send_steps pwp]. iIntros (r2 H2). iApply ("HQ" with "R"). iPureIntro.
    rewrite app_nil_r in Hws. subst ws1. split; [by apply H2|]. split; [apply H2|].
    destruct Hr as (ss & Hs & Hp). exists ss. by rewrite (el_sent _ _ _ H2).
  - cbn [length send_steps list.head default from_option id]. assert (w ∈ ws) as Hw by set_solver.
    iApply (read_member_ok ws w_id w with "[-]"); [done|done|]. iIntros (y1 r1 [E1 Hid]).
    iApply (read_member_ok ws w_running w with "[-]"); [by apply E1|done|]. iIntros (y2 r2 [E2 _]).
    iApply (read_member_ok ws w_num_conns w with "[-]"); [by apply E2, E1|done|]. iIntros (y3 r3 [E3 _]).
    assert (elsewhere ws r r3) as E0 by eauto using elsewhere_trans.
    iApply write_act_ok; [by rewrite (el_reads _ _ _ E0)|]. iIntros (r4 E4). iApply pwp_heap; [done|]. iIntros (r5 E5).
    assert (elsewhere ws r r4) as E' by eauto using elsewhere_trans.
    set (s := MkWorkerStatus _ _ _) in *.
    iEval (unfold ring; rewrite Hws, links_app) in "R". iDestruct "R" as "[R1 R2]".
    iDestruct (links_next with "R2") as "[N R2]". iApply (hwp_load with "N"). iIntros "N".
    iDestruct ("R2" with "N") as "R2". iApply (IH (ws1 ++ [w]) workers_head with "[R1 R2]").
    + by rewrite <- (assoc_L (++)).
    + rewrite (el_reads _ _ _ E5). cbn. by rewrite (el_reads _ _ _ E').
    + by apply E5, E'.
    + destruct Hr as (ss & Hs & Hp). exists (ss ++ [s]). split.
      { apply Forall2_app; [done|]. by repeat constructor. }
      rewrite (el_sent _ _ _ E5), pieces_made, (el_sent _ _ _ E'), Hp, fmap_app. by rewrite (assoc_L (++)).
    + unfold ring. rewrite Hws, links_app. iFrame.
    + iIntros (r6) "R (%H1 & %H2 & %H3)". iApply ("HQ" with "R"). iPureIntro. split_and!; [done| |done].
      by rewrite H2, (el_count _ _ _ E5), <- (el_count _ _ _ E').
Qed.

Lemma answer_ok ws r (Q : unit -> rest -> heapProp) :
  writes (outside r) = [] -> workers_head ∉ ws -> known ws r -> num_workers r = Z.of_nat (length ws) ->
  pieces_on fd (trace r) = [] ->
  ring workers_head ws ⊢
  (∀ r', ring workers_head ws -∗
     ⌜num_workers r' = Z.of_nat (length ws) /\ reported (Z.of_nat (length ws)) ws r'⌝ -∗ Q tt r') -∗
  hpwp ws false (answer_steps fd uptime) Q r.
Proof.
  intros Hwr Hhead Hk Hn Hp. iIntros "R HQ". unfold answer_steps.
  iApply pwp_act. iIntros (r1 E1). iApply wwp_rest; [done|]. iSplit; [by iPureIntro|].
  rewrite (el_count _ _ _ E1), Hn, Nat2Z.id.
  iApply write_act_ok; [by rewrite (el_reads _ _ _ E1)|]. iIntros (r2 E2).
  assert (writes (outside r2) = []) as Hwr2 by by rewrite (el_reads _ _ _ E2), (el_reads _ _ _ E1).
  iApply write_act_ok; [done|]. iIntros (r3 E3).
  assert (writes (outside r3) = []) as Hwr3 by by rewrite (el_reads _ _ _ E3).
  iApply pwp_heap; [done|]. iIntros (r4 E4).
  iApply (LIST_HEAD_ok with "[$R]"); [done|]. iIntros "R".
  assert (num_workers r4 = Z.of_nat (length ws)) as Hn4.
  { rewrite (el_count _ _ _ E4). cbn. rewrite (el_count _ _ _ E3). cbn.
    by rewrite (el_count _ _ _ E2), (el_count _ _ _ E1). }
  iApply (send_steps_ok ws (Z.of_nat (length ws)) ws [] with "R"); [done|by rewrite (el_reads _ _ _ E4)| | |].
  - by apply E4, E3, E2, E1.
  - exists []. split; [done|]. rewrite (el_sent _ _ _ E4), pieces_made, (el_sent _ _ _ E3), pieces_made.
    by rewrite (el_sent _ _ _ E2), (el_sent _ _ _ E1), Hp.
  - iIntros (r') "R (%H1 & %H2 & %H3)". iApply ("HQ" with "R"). iPureIntro. by rewrite H2.
Qed.

(** A worker takes itself out. *)
Lemma leave_ok l1 w l2 r (Q : unit -> rest -> heapProp) :
  num_workers r = Z.of_nat (length (l1 ++ w :: l2)) -> Z.of_nat (length (l1 ++ w :: l2)) < 2 ^ 32 ->
  ring workers_head (l1 ++ w :: l2) ⊢
  (∀ r', ring workers_head (l1 ++ l2) -∗ unlinked w -∗
     ⌜num_workers r' = Z.of_nat (length (l1 ++ l2))⌝ -∗ Q tt r') -∗
  hpwp (l1 ++ w :: l2) true (leave_steps w) Q r.
Proof.
  intros Hn Hmax. set (ws := l1 ++ w :: l2) in *. assert (forall r, held_step true r r) as HG by done.
  iIntros "R HQ". unfold leave_steps.
  iApply pwp_act. iIntros (r1 E1). iApply wwp_rest; [done|]. iSplit; [by iPureIntro|].
  rewrite (el_count _ _ _ E1), Hn. set (m := Z.of_nat (length (l1 ++ l2))).
  assert (u32 (Z.of_nat (length ws) - 1) = m) as ->.
  { unfold ws, m in *. rewrite length_app in *. cbn [length] in *. rewrite length_app.
    rewrite wrap_small; lia. }
  iApply pwp_act. iIntros (r2 E2). iApply wwp_rest; [done|]. iSplit; [iPureIntro; by split|].
  unfold ring, ws. rewrite links_app, (links_last workers_head l1 w), (links_first w l2 workers_head).
  iDestruct "R" as "[(H1 & H2 & H) (H3 & H4 & H')]".
  iApply pwp_heap; [done|]. iIntros (r3 E3). h_step. iApply pwp_heap; [done|]. iIntros (r4 E4). h_step.
  iApply pwp_heap; [done|]. iIntros (r5 E5). h_step. iApply pwp_heap; [done|]. iIntros (r6 E6). h_step.
  iApply pwp_heap; [done|]. iIntros (r7 E7). h_step. iApply pwp_last. iIntros (r8 E8). w_step. h_step.
  iSplit; [by iPureIntro|]. iIntros (r9 E9).
  iAssert (ring workers_head (l1 ++ l2) ∗ unlinked w)%I with "[-HQ]" as "[R U]".
  { destruct l2 as [|y l2]; cbn [list.head default from_option id].
    - iDestruct ("H" with "[$] [$]") as "R". rewrite app_nil_r. iFrame "R". iExists _, _. iFrame.
    - iDestruct ("H'" $! (default workers_head (last l1)) with "[$] [$]") as "(H1 & H2 & H')".
      unfold ring. rewrite links_app. iDestruct ("H" with "[$] [$]") as "R". iFrame "R H'". iExists _, _. iFrame. }
  iApply ("HQ" with "R U"). iPureIntro. rewrite (el_count _ _ _ E9), (el_count _ _ _ E8), (el_count _ _ _ E7), (el_count _ _ _ E6).
  by rewrite (el_count _ _ _ E5), (el_count _ _ _ E4), (el_count _ _ _ E3).
Qed.
End holding.

(** ** The invariant *)
Definition is_inside (st : status) : bool := match st with Inside _ => true | _ => false end.
Definition registered (st : status) : bool := match st with Serving | Waiting => true | _ => false end.

(** The workers in the list, apart from one that is just leaving it. *)
Definition live (crew : list (ptr * status)) : list ptr :=
  (List.filter (fun t => registered (snd t)) crew).*1.

Lemma live_app c1 c2 : live (c1 ++ c2) = live c1 ++ live c2.
Proof. unfold live. by rewrite List.filter_app, fmap_app. Qed.

Lemma live_sublist crew : live crew `sublist_of` crew.*1.
Proof.
  unfold live. induction crew as [|[w st] crew IH]; [done|]. cbn. destruct (registered st); cbn.
  - by constructor.
  - by constructor.
Qed.

Lemma live_elem w crew : w ∈ live crew -> exists st, (w, st) ∈ crew /\ registered st = true.
Proof.
  unfold live. intros ([w' st] & -> & H)%list_elem_of_fmap. apply list_elem_of_In, filter_In in H as [H1 H2].
  exists st. split; [by apply list_elem_of_In|done].
Qed.

(** Threads that differ in ways the list of workers does not see. *)
Definition alike (t t' : ptr * status) : Prop :=
  fst t = fst t' /\ registered (snd t) = registered (snd t') /\
  (is_inside (snd t) = true \/ is_inside (snd t') = true -> t = t').

Lemma live_alike crew crew' : Forall2 alike crew crew' -> live crew = live crew'.
Proof.
  unfold live. induction 1 as [|[w st] [w' st'] crew crew' (H1 & H2 & _) _ IH]; [done|]. cbn in *. subst w'.
  rewrite H2. destruct (registered st'); cbn; [by rewrite IH|done].
Qed.

Lemma alike_insert crew i w st st' : crew !! i = Some (w, st) ->
  registered st = registered st' -> is_inside st = false -> is_inside st' = false ->
  Forall2 alike crew (<[i := (w, st')]> crew).
Proof.
  intros Hi H1 H2 H3. assert (Forall2 alike crew crew) as Hrefl by by apply Forall_Forall2_diag, Forall_forall.
  rewrite <- (list_insert_id crew i (w, st)) at 1 by done. apply Forall2_insert; [done|].
  split; [done|]. split; [done|]. cbn. rewrite H2, H3. by intros [?|?].
Qed.

(** What a worker's thread has in memory, apart from its place in the list. *)
Definition own_rest (w : ptr) : heapProp := ([∗ list] l ∈ drop 2 (worker_members w), ∃ v, l ↦ v)%I.
Definition has (t : ptr * status) : heapProp :=
  match snd t with
  | Serving | Waiting | Inside _ => own_rest (fst t)
  | Leaving => own_rest (fst t) ∗ unlinked (fst t)
  | Gone => emp
  end%I.

Section invariant.
Context (fd uptime : Z) (ids : ptr -> Z) (ws0 : list ptr).
Context (Hnd : NoDup ws0) (Hhead : workers_head ∉ ws0) (Hmax : Z.of_nat (length ws0) < 2 ^ 32).

Abbreviation hpwp ws quiet := (pwp (elsewhere fd ids ws) (held_step fd quiet)).
Abbreviation count l := (Z.of_nat (length l)).
Implicit Types (crew : list (ptr * status)) (m : status).

Record facts (m : status) (crew : list (ptr * status)) (r : rest) : Prop := {
  fa_crew : crew.*1 = ws0;
  fa_main : m <> Serving;
  fa_known : forall w st, (w, st) ∈ crew -> st <> Gone -> exists y, workers r !! w = Some y /\ w_id y = ids w;
  fa_before : m = Waiting -> pieces_on fd (trace r) = [];
  fa_after : m = Leaving \/ m = Gone -> exists ws, live crew `sublist_of` ws /\ ws `sublist_of` ws0 /\
    reported fd uptime ids (count ws) ws r;
  fa_reads : writes (outside r) = [];
}.

(** Nobody holds the lock, the main thread does, or a worker. *)
Definition lock_free (m : status) (crew : list (ptr * status)) (r : rest) : heapProp :=
  (⌜is_inside m = false /\ (forall t, t ∈ crew -> is_inside (snd t) = false) /\
    worker_lock r = MutexFree /\ num_workers r = count (live crew)⌝ ∗ ring workers_head (live crew))%I.

Definition main_holds (m : status) (crew : list (ptr * status)) (r : rest) : heapProp :=
  (∃ p, ⌜m = Inside p /\ (forall t, t ∈ crew -> is_inside (snd t) = false) /\ worker_lock r = MutexHeld⌝ ∗
   hpwp (live crew) false p (fun _ r' => ring workers_head (live crew) ∗
     ⌜num_workers r' = count (live crew) /\ reported fd uptime ids (count (live crew)) (live crew) r'⌝) r)%I.

Definition crew_holds (m : status) (crew : list (ptr * status)) (r : rest) : heapProp :=
  (∃ j w p, ⌜is_inside m = false /\ crew !! j = Some (w, Inside p) /\
     (forall i t, crew !! i = Some t -> is_inside (snd t) = true -> i = j) /\ worker_lock r = MutexHeld⌝ ∗
   let l1 := live (take j crew) in
   let l2 := live (drop (S j) crew) in
   hpwp (l1 ++ w :: l2) true p (fun _ r' => ring workers_head (l1 ++ l2) ∗ unlinked w ∗
     ⌜num_workers r' = count (l1 ++ l2)⌝) r)%I.

Definition lock_inv (m : status) (crew : list (ptr * status)) (r : rest) : heapProp :=
  (lock_free m crew r ∨ main_holds m crew r ∨ crew_holds m crew r)%I.

Definition inv (m : status) (crew : list (ptr * status)) (r : rest) : heapProp :=
  (⌜facts m crew r⌝ ∗ lock_inv m crew r ∗ [∗ list] t ∈ crew, has t)%I.

(** The list of workers with the one that leaves is of workers that are not gone. *)
Lemma around crew j w p ws : crew !! j = Some (w, Inside p) ->
  ws = live (take j crew) ++ w :: live (drop (S j) crew) ->
  ws `sublist_of` crew.*1 /\ forall x, x ∈ ws -> exists st, (x, st) ∈ crew /\ st <> Gone.
Proof.
  intros Hj ->. pose proof (take_drop_middle _ _ _ Hj) as E. split.
  - rewrite <- E at 3. rewrite fmap_app. apply sublist_app; [apply live_sublist|]. cbn. constructor. apply live_sublist.
  - intros x [H|[->|H]%elem_of_cons]%elem_of_app.
    + apply live_elem in H as (st & H & Hr). exists st. split; [|by intros ->].
      apply (sublist_subseteq _ _ (sublist_take _ _)) in H. done.
    + exists (Inside p). split; [by eapply list_elem_of_lookup_2|done].
    + apply live_elem in H as (st & H & Hr). exists st. split; [|by intros ->].
      apply (sublist_subseteq _ _ (sublist_drop _ _)) in H. done.
Qed.

(** The rest of the world changes behind the holder's back. *)
Lemma lock_inv_elsewhere m crew r r' :
  (forall ws, (forall x, x ∈ ws -> exists st, (x, st) ∈ crew /\ st <> Gone) -> elsewhere fd ids ws r r') ->
  lock_inv m crew r ⊢ lock_inv m crew r'.
Proof.
  intros H. assert (elsewhere fd ids (live crew) r r') as Hl.
  { apply H. intros x (st & Hx & Hr)%live_elem. exists st. split; [done|]. by intros ->. }
  iIntros "[[(%H1 & %H2 & %H3 & %H4) R]|[(%p & (%H1 & %H2 & %H3) & P)|(%j & %w & %p & (%H1 & %H2 & %H3 & %H4) & P)]]".
  - iLeft. iFrame. iPureIntro. split_and!; [done|done|by rewrite (el_lock _ _ _ _ _ Hl)|by rewrite (el_count _ _ _ _ _ Hl)].
  - iRight. iLeft. iExists p. iSplit; [iPureIntro; split_and!; [done|done|by rewrite (el_lock _ _ _ _ _ Hl)]|].
    iApply (pwp_later with "P"); [apply elsewhere_trans|done].
  - iRight. iRight. iExists j, w, p.
    iSplit; [iPureIntro; split_and!; [done|done|done|by rewrite (el_lock _ _ _ _ _ Hl)]|].
    iApply (pwp_later with "P"); [apply elsewhere_trans|]. apply H. by eapply around.
Qed.

(** Another thread goes on without the list being concerned. *)
Lemma lock_inv_alike m m' crew crew' r : Forall2 alike crew crew' ->
  is_inside m = false /\ is_inside m' = false \/ m = m' -> lock_inv m crew r ⊢ lock_inv m' crew' r.
Proof.
  intros Ha Hm. assert (is_inside m = is_inside m') as Hm' by by destruct Hm as [[-> ->]| ->].
  pose proof (live_alike _ _ Ha) as Hl.
  assert ((forall t, t ∈ crew -> is_inside (snd t) = false) -> forall t, t ∈ crew' -> is_inside (snd t) = false) as Hno.
  { intros Hc t' (i & Hi)%list_elem_of_lookup. destruct (Forall2_lookup_r _ _ _ _ _ Ha Hi) as (t & Ht & _ & _ & Hs).
    destruct (is_inside (snd t')) eqn:E; [|done]. rewrite <- E, <- Hs by auto. apply Hc. by eapply list_elem_of_lookup_2. }
  iIntros "[[(%H1 & %H2 & %H3 & %H4) R]|[(%p & (%H1 & %H2 & %H3) & P)|(%j & %w & %p & (%H1 & %H2 & %H3 & %H4) & P)]]".
  - iLeft. unfold lock_free. rewrite <- Hl. iFrame. iPureIntro. split_and!; [congruence|auto..].
  - iRight. iLeft. iExists p. rewrite <- Hl. iFrame. iPureIntro.
    destruct Hm as [[Hm _]| <-]; [by rewrite H1 in Hm|]. split_and!; auto.
  - iRight. iRight. destruct (Forall2_lookup_l _ _ _ _ _ Ha H2) as (t' & Ht' & _ & _ & Hs).
    rewrite <- Hs in Ht' by auto. iExists j, w, p. iSplit.
    + iPureIntro. split_and!; [congruence|done| |done]. intros i t2 Hi Hin.
      destruct (Forall2_lookup_r _ _ _ _ _ Ha Hi) as (t & Ht & _ & _ & Hs2). rewrite <- Hs2 in Hin by auto. eauto.
    + rewrite <- (live_alike (take j crew) (take j crew')) by by apply Forall2_take.
      rewrite <- (live_alike (drop (S j) crew) (drop (S j) crew')) by by apply Forall2_drop. done.
Qed.

(** *** Every step keeps it *)
Lemma elem_insert {A} (l : list A) i x t : t ∈ <[i := x]> l -> t = x \/ t ∈ l.
Proof.
  intros (j & Hj)%list_elem_of_lookup. apply list_lookup_insert_Some in Hj as [(_ & -> & _)|[_ Hj]]; [by left|].
  right. by eapply list_elem_of_lookup_2.
Qed.

Lemma facts_update m crew r m' crew' r' : facts m crew r ->
  crew'.*1 = crew.*1 -> m' <> Serving -> live crew' `sublist_of` live crew ->
  (forall w st', (w, st') ∈ crew' -> st' <> Gone -> exists st, (w, st) ∈ crew /\ st <> Gone /\
     forall y, workers r !! w = Some y -> w_id y = ids w -> exists y', workers r' !! w = Some y' /\ w_id y' = ids w) ->
  (m' = Waiting -> m = Waiting) -> (m' = Leaving \/ m' = Gone -> m = Leaving \/ m = Gone) ->
  (m' = Waiting \/ m' = Leaving \/ m' = Gone -> pieces_on fd (trace r') = pieces_on fd (trace r)) ->
  writes (outside r') = writes (outside r) -> facts m' crew' r'.
Proof.
  intros [F1 F2 F3 F4 F5 F6] H1 H2 H3 H4 H5 H6 H7 H8. split; [congruence|done| | | |congruence].
  - intros w st' Hw Hne. destruct (H4 w st' Hw Hne) as (st & Hst & Hne' & Hy).
    destruct (F3 w st Hst Hne') as (y & ? & ?). eauto.
  - intros Hm. rewrite H7 by auto. auto.
  - intros Hm. destruct (F5 (H6 Hm)) as (ws & S1 & S2 & ss & Hss & Hp). exists ws. split; [by etrans|].
    split; [done|]. exists ss. rewrite H7 by auto. done.
Qed.

Lemma live_insert crew i w st st' : crew !! i = Some (w, st) -> registered st' = false \/ registered st = true ->
  live (<[i := (w, st')]> crew) `sublist_of` live crew.
Proof.
  intros Hi Hst. rewrite <- (take_drop_middle _ _ _ Hi) at 2.
  rewrite insert_take_drop by by eapply lookup_lt_Some. rewrite !live_app. apply sublist_app; [done|].
  unfold live at 1 2. cbn. destruct (registered st') eqn:E', (registered st) eqn:E; cbn; try done.
  - by destruct Hst.
  - by constructor.
Qed.

Lemma crew_insert crew i w st st' : crew !! i = Some (w, st) -> (<[i := (w, st')]> crew).*1 = crew.*1.
Proof. intros Hi. rewrite list_fmap_insert. apply list_insert_id. by rewrite list_lookup_fmap, Hi. Qed.

(** One thread of the crew goes on, and the members of the workers stay. *)
Lemma facts_crew m crew r r' i w st st' : facts m crew r -> crew !! i = Some (w, st) -> st <> Gone ->
  registered st' = false \/ registered st = true ->
  workers r' = workers r -> pieces_on fd (trace r') = pieces_on fd (trace r) ->
  writes (outside r') = writes (outside r) -> facts m (<[i := (w, st')]> crew) r'.
Proof.
  intros F Hi Hne Hst Hw Hp Hwr. eapply facts_update; try done.
  - by eapply crew_insert.
  - apply F.
  - by eapply live_insert.
  - rewrite Hw. intros x stx [[= -> ->]|Hx]%elem_insert Hg; [|by exists stx; eauto].
    exists st. split; [by eapply list_elem_of_lookup_2|]. eauto.
Qed.

(** The main thread goes on. *)
Lemma facts_main m m' crew r r' : facts m crew r -> m' <> Serving -> workers r' = workers r ->
  (m' = Waiting -> m = Waiting) -> (m' = Leaving \/ m' = Gone -> m = Leaving \/ m = Gone) ->
  (m' = Waiting \/ m' = Leaving \/ m' = Gone -> pieces_on fd (trace r') = pieces_on fd (trace r)) ->
  writes (outside r') = writes (outside r) -> facts m' crew r'.
Proof.
  intros F H1 Hw H2 H3 H4 H5. eapply facts_update; try done. rewrite Hw. intros w st Hst Hg. exists st. eauto.
Qed.

(** Who may take the lock. *)
Lemma lock_inv_free m crew r : worker_lock r = MutexFree -> lock_inv m crew r ⊢ lock_free m crew r.
Proof.
  intros H. iIntros "[$|[(%p & (%H1 & %H2 & %H3) & _)|(%j & %w & %p & (%H1 & %H2 & %H3 & %H4) & _)]]"; congruence.
Qed.
Lemma lock_inv_main p crew r : lock_inv (Inside p) crew r ⊢
  ⌜(forall t, t ∈ crew -> is_inside (snd t) = false) /\ worker_lock r = MutexHeld⌝ ∗
  hpwp (live crew) false p (fun _ r' => ring workers_head (live crew) ∗
    ⌜num_workers r' = count (live crew) /\ reported fd uptime ids (count (live crew)) (live crew) r'⌝) r.
Proof.
  iIntros "[[(%H1 & _) _]|[(%q & (%H1 & %H2 & %H3) & P)|(%j & %w & %q & (%H1 & _) & _)]]"; [done| |done].
  injection H1 as <-. iFrame. by iPureIntro.
Qed.

(** A thread of the crew is inside at one place only. *)
Definition alone (crew : list (ptr * status)) (j : nat) : Prop :=
  forall i t, crew !! i = Some t -> is_inside (snd t) = true -> i = j.

Lemma lock_inv_crew m crew r i w p : crew !! i = Some (w, Inside p) -> lock_inv m crew r ⊢
  ⌜is_inside m = false /\ alone crew i /\ worker_lock r = MutexHeld⌝ ∗
  let l1 := live (take i crew) in
  let l2 := live (drop (S i) crew) in
  hpwp (l1 ++ w :: l2) true p (fun _ r' => ring workers_head (l1 ++ l2) ∗ unlinked w ∗
     ⌜num_workers r' = count (l1 ++ l2)⌝) r.
Proof.
  intros Hi. assert ((w, Inside p) ∈ crew) as Hin by by eapply list_elem_of_lookup_2.
  iIntros "[[(%H1 & %H2 & _) _]|[(%q & (%H1 & %H2 & %H3) & _)|(%j & %x & %q & (%H1 & %H2 & %H3 & %H4) & P)]]".
  - by specialize (H2 _ Hin).
  - by specialize (H2 _ Hin).
  - pose proof (H3 _ _ Hi eq_refl) as ->. rewrite Hi in H2. injection H2 as -> ->. iFrame. by iPureIntro.
Qed.

Lemma live_known m crew r : facts m crew r -> known ids (live crew) r.
Proof.
  intros F w (st & Hw & Hr)%live_elem. apply (fa_known _ _ _ F w st Hw). by intros ->.
Qed.
Lemma live_head m crew r : facts m crew r -> workers_head ∉ live crew.
Proof.
  intros F H. apply Hhead. rewrite <- (fa_crew _ _ _ F). by apply (sublist_subseteq _ _ (live_sublist crew)).
Qed.

(** **** The main thread *)
Lemma main_lock_ok crew r : worker_lock r = MutexFree ->
  inv Waiting crew r ⊢ inv (Inside (answer_steps fd uptime)) crew (set_worker_lock MutexHeld r).
Proof.
  intros Hf. iIntros "(%F & L & C)". iFrame "C". iSplit.
  { iPureIntro. eapply facts_main; [exact F|done..| | |done]; naive_solver. }
  rewrite lock_inv_free by done. iDestruct "L" as "[(%H1 & %H2 & %H3 & %H4) R]".
  iRight. iLeft. iExists _. iSplit; [by iPureIntro|].
  iApply (answer_ok with "R"); [exact (fa_reads _ _ _ F)|by eapply live_head| |done| |].
  - exact (live_known _ _ _ F).
  - exact (fa_before _ _ _ F eq_refl).
  - iIntros (r') "R [%Hn %Hr]". iFrame. by iPureIntro.
Qed.

Lemma main_act_ok {B} (c : cmd world B) k crew r :
  inv (Inside (Act c k)) crew r ⊢ wwp c (fun b r' => inv (Inside (k b)) crew r') r.
Proof.
  iIntros "(%F & L & C)". rewrite lock_inv_main. iDestruct "L" as "[[%H1 %H2] P]". cbn [pwp].
  iDestruct ("P" $! r with "[]") as "P"; [iPureIntro; apply elsewhere_refl|].
  iApply (wwp_wand with "P"). iIntros (b r') "[%G P]". iFrame "C". iSplit.
  - iPureIntro. eapply facts_main; [exact F|done|apply G| | | |apply G]; naive_solver.
  - iRight. iLeft. iExists _. iFrame. iPureIntro. split_and!; [done|done|]. by rewrite (hs_lock _ _ _ _ G).
Qed.

Lemma main_unlock_ok crew r : inv (Inside (Ret tt)) crew r ⊢ inv Leaving crew (set_worker_lock MutexFree r).
Proof.
  iIntros "(%F & L & C)". rewrite lock_inv_main. iDestruct "L" as "[[%H1 %H2] P]". cbn [pwp].
  iDestruct ("P" $! r with "[]") as "[R [%Hn %Hr]]"; [iPureIntro; apply elsewhere_refl|]. iFrame "C". iSplit.
  - iPureIntro. destruct F as [F1 F2 F3 F4 F5 F6]. split; try done. intros _. exists (live crew).
    split; [done|]. split; [rewrite <- F1; apply live_sublist|done].
  - iLeft. iFrame. by iPureIntro.
Qed.

Lemma main_after_ok crew r : inv Leaving crew r ⊢ inv Gone crew (made (SysClose fd) r).
Proof.
  assert (pieces_on fd (trace (made (SysClose fd) r)) = pieces_on fd (trace r)) as Hp.
  { unfold made. cbn [trace]. rewrite pieces_on_app. apply app_nil_r. }
  iIntros "(%F & L & C)". iFrame "C". iSplit.
  - iPureIntro. eapply facts_main; [exact F|done|done| | | |done]; naive_solver.
  - iApply (lock_inv_alike Leaving); [by apply Forall_Forall2_diag, Forall_forall|by left|].
    iApply (lock_inv_elsewhere with "L"). by intros ws _.
Qed.

(** **** The threads of the crew *)
Lemma live_at crew i w st : (i < length crew)%nat ->
  live (<[i := (w, st)]> crew) = live (take i crew) ++ (if registered st then [w] else []) ++ live (drop (S i) crew).
Proof.
  intros Hi. rewrite insert_take_drop, live_app by done. f_equal. unfold live. cbn. by destruct (registered st).
Qed.

Lemma live_split crew i w st : crew !! i = Some (w, st) ->
  live crew = live (take i crew) ++ (if registered st then [w] else []) ++ live (drop (S i) crew).
Proof. intros Hi. rewrite <- (live_at crew i w st) by by eapply lookup_lt_Some. by rewrite list_insert_id. Qed.

Lemma has_insert crew i w st st' : crew !! i = Some (w, st) ->
  ([∗ list] t ∈ crew, has t) ⊢ has (w, st) ∗ (has (w, st') -∗ [∗ list] t ∈ <[i := (w, st')]> crew, has t).
Proof. intros Hi. rewrite (big_sepL_insert_acc _ _ _ _ Hi). iIntros "[$ H]". iApply "H". Qed.

Lemma crew_lock_ok m crew r i w : crew !! i = Some (w, Waiting) -> worker_lock r = MutexFree ->
  inv m crew r ⊢ inv m (<[i := (w, Inside (leave_steps w))]> crew) (set_worker_lock MutexHeld r).
Proof.
  intros Hi Hf. pose proof (lookup_lt_Some _ _ _ Hi) as Hlt. iIntros "(%F & L & C)".
  iDestruct (has_insert _ _ _ _ (Inside (leave_steps w)) Hi with "C") as "[O C]".
  iDestruct ("C" with "O") as "C". iFrame "C". iSplit.
  { iPureIntro. by eapply facts_crew; [exact F|done|done|by left|..]. }
  rewrite lock_inv_free by done. iDestruct "L" as "[(%H1 & %H2 & %H3 & %H4) R]".
  iRight. iRight. iExists i, w, _. rewrite take_insert_ge, drop_insert_lt by lia.
  pose proof (live_split _ _ _ _ Hi) as Hl. cbn [registered app] in Hl. rewrite Hl in H4 |- *. cbv zeta. iSplit.
  - iPureIntro. split_and!; [done|by apply list_lookup_insert_eq| |done].
    intros j t [(-> & _ & _)|[_ Hj]]%list_lookup_insert_Some Hin; [done|].
    by rewrite H2 in Hin by by eapply list_elem_of_lookup_2.
  - iApply (leave_ok with "R"); [done| |].
    + rewrite <- Hl. eapply Z.le_lt_trans; [|exact Hmax]. apply inj_le. rewrite <- (fa_crew _ _ _ F).
      apply sublist_length, live_sublist.
    + iIntros (r') "R U %Hn". iFrame. by iPureIntro.
Qed.

Lemma crew_act_ok {B} (c : cmd world B) k m crew r i w : crew !! i = Some (w, Inside (Act c k)) ->
  inv m crew r ⊢ wwp c (fun b r' => inv m (<[i := (w, Inside (k b))]> crew) r') r.
Proof.
  intros Hi. pose proof (lookup_lt_Some _ _ _ Hi) as Hlt. iIntros "(%F & L & C)".
  iDestruct (lock_inv_crew _ _ _ _ _ _ Hi with "L") as "[(%H1 & %H2 & %H3) P]". cbv zeta. cbn [pwp].
  iDestruct ("P" $! r with "[]") as "P"; [iPureIntro; apply elsewhere_refl|].
  iApply (wwp_wand with "P"). iIntros (b r') "[%G P]".
  iDestruct (has_insert _ _ _ _ (Inside (k b)) Hi with "C") as "[O C]".
  iDestruct ("C" with "O") as "C". iFrame "C". iSplit.
  - iPureIntro. eapply facts_crew; [exact F|done|done|by left|apply G|by apply G|apply G].
  - iRight. iRight. iExists i, w, _. rewrite take_insert_ge, drop_insert_lt by lia. cbv zeta. iFrame.
    iPureIntro. split_and!; [done|by apply list_lookup_insert_eq| |by rewrite (hs_lock _ _ _ _ G)].
    intros j t [(-> & _ & _)|[_ Hj]]%list_lookup_insert_Some Hin; [done|by eapply H2].
Qed.

Lemma crew_unlock_ok m crew r i w : crew !! i = Some (w, Inside (Ret tt)) ->
  inv m crew r ⊢ inv m (<[i := (w, Leaving)]> crew) (set_worker_lock MutexFree r).
Proof.
  intros Hi. pose proof (lookup_lt_Some _ _ _ Hi) as Hlt. iIntros "(%F & L & C)".
  iDestruct (lock_inv_crew _ _ _ _ _ _ Hi with "L") as "[(%H1 & %H2 & %H3) P]". cbv zeta. cbn [pwp].
  iDestruct ("P" $! r with "[]") as "(R & U & %Hn)"; [iPureIntro; apply elsewhere_refl|].
  iDestruct (has_insert _ _ _ _ Leaving Hi with "C") as "[O C]". cbn [has snd fst].
  iDestruct ("C" with "[$O $U]") as "C". iFrame "C". iSplit.
  - iPureIntro. by eapply facts_crew; [exact F|done|done|by left|..].
  - iLeft. unfold lock_free. rewrite live_at by done. cbn [registered app]. iFrame. iPureIntro.
    split_and!; [done| |done|done]. intros t (j & Hj)%list_elem_of_lookup.
    apply list_lookup_insert_Some in Hj as [(_ & <- & _)|[Hne Hj]]; [done|].
    destruct (is_inside (snd t)) eqn:E; [|done]. by specialize (H2 _ _ Hj E).
Qed.

(** What is freed belongs to no other thread. *)
Lemma free_elsewhere m crew r i w st ws : facts m crew r -> crew !! i = Some (w, st) ->
  (forall x, x ∈ ws -> exists stx, (x, stx) ∈ <[i := (w, Gone)]> crew /\ stx <> Gone) ->
  elsewhere fd ids ws r (set_workers (delete w (workers r)) r).
Proof.
  intros F Hi Hws. split; try done. intros Hk x Hx. destruct (Hk x Hx) as (y & Hy & Hid). exists y.
  split; [|done]. cbn. rewrite lookup_delete_ne; [done|]. intros <-.
  destruct (Hws w Hx) as (stx & (j & Hj)%list_elem_of_lookup & Hne).
  apply list_lookup_insert_Some in Hj as [(_ & [= <-] & _)|[Hij Hj]]; [done|]. apply Hij.
  apply (NoDup_lookup ws0 i j w Hnd); rewrite <- (fa_crew _ _ _ F), list_lookup_fmap; [by rewrite Hi|by rewrite Hj].
Qed.

Lemma crew_after_ok m crew r i w : crew !! i = Some (w, Leaving) ->
  inv m crew r ⊢ wwp (free_worker w) (fun _ r' => inv m (<[i := (w, Gone)]> crew) r') r.
Proof.
  intros Hi. iIntros "(%F & L & C)".
  iDestruct (has_insert _ _ _ _ Gone Hi with "C") as "[[O (%n & %p & N & P)] C]". cbn [has snd fst].
  iDestruct ("C" with "[]") as "C"; [done|]. unfold free_worker. w_step. iApply wwp_rest; [done|]. w_step.
  iApply (hwp_free with "[O N P]").
  { iSplitL "P"; [by iExists _|]. iSplitL "N"; [by iExists _|]. iApply "O". }
  iFrame "C". iSplit.
  - iPureIntro. eapply facts_update; [exact F|by eapply crew_insert|apply F|by eapply live_insert; [|left]| | | | |]; try done.
    intros x stx Hx Hne. pose proof (elem_insert _ _ _ _ Hx) as [[= -> ->]|Hold]; [done|]. exists stx.
    split; [done|]. split; [done|]. intros y Hy Hid. apply (el_known _ _ _ _ _ (free_elsewhere m crew r i w Leaving [x] F Hi
      ltac:(intros z ->%list_elem_of_singleton; by exists stx))); [|by apply list_elem_of_singleton].
    intros z ->%list_elem_of_singleton. by exists y.
  - iApply (lock_inv_elsewhere _ _ r); [intros ws Hws; by eapply free_elsewhere|].
    iApply (lock_inv_alike with "L"); [by eapply alike_insert|by right].
Qed.

Lemma serve_ok m crew r r' i w : crew !! i = Some (w, Serving) -> serves fd w r r' ->
  inv m crew r ⊢ inv m crew r'.
Proof.
  intros Hi [S1 S2 S3 S4 S5 (y & y' & Hy & Hw & Hid & _)].
  assert (forall x z, workers r !! x = Some z -> w_id z = ids x -> exists z', workers r' !! x = Some z' /\ w_id z' = ids x) as Hk.
  { intros x z Hz Hidz. rewrite Hw. destruct (decide (w = x)) as [->|Hne].
    - exists y'. rewrite lookup_insert_eq. split; [done|]. congruence.
    - exists z. by rewrite lookup_insert_ne. }
  iIntros "(%F & L & C)". iFrame "C". iSplit.
  - iPureIntro. eapply facts_update; [exact F|done|apply F|done| |done|done|done|done].
    intros x st Hx Hne. exists st. eauto.
  - iApply (lock_inv_elsewhere with "L"). intros ws _. split; [done..|].
    intros Hkn x Hx. destruct (Hkn x Hx) as (z & Hz & Hidz). eauto.
Qed.

Lemma wait_ok m crew r i w : crew !! i = Some (w, Serving) -> inv m crew r ⊢ inv m (<[i := (w, Waiting)]> crew) r.
Proof.
  intros Hi. iIntros "(%F & L & C)". iDestruct (has_insert _ _ _ _ Waiting Hi with "C") as "[O C]".
  iDestruct ("C" with "O") as "C". iFrame "C". iSplit.
  - iPureIntro. by eapply facts_crew; [exact F|done|done|by right|..].
  - iApply (lock_inv_alike with "L"); [by eapply alike_insert|by right].
Qed.

(** *** Reachable configurations *)
Definition inv_at (c : config) : Prop := inv (c_main c) (c_crew c) (others (c_world c)) (memory (c_world c)).

Lemma wwp_exec {A} P (c : cmd world A) Q W b W' : (P ⊢ wwp c Q (others W)) -> P (memory W) ->
  c W = Val (b, W') -> Q b (others W') (memory W').
Proof.
  intros H HP E. destruct W as [h r].
  destruct (wtriple_run P r c Q h (wtriple_wwp _ _ _ _ H) HP) as (b' & h' & r' & E' & HQ).
  rewrite E in E'. by injection E' as -> ->.
Qed.

Lemma entails_at (P Q : heapProp) h : (P ⊢ Q) -> P h -> Q h.
Proof. intros [H]. apply H. Qed.

Lemma lock_val W W' : lock W = Val (tt, W') ->
  worker_lock (others W) = MutexFree /\ W' = World (memory W) (set_worker_lock MutexHeld (others W)).
Proof. unfold lock, on_rest. destruct (worker_lock (others W)); by intros [= <-]. Qed.

Lemma main_moves_inv m W m' W' crew : moves (answer_steps fd uptime) (close fd) m W m' W' ->
  inv_at (Config W m crew) -> inv_at (Config W' m' crew).
Proof.
  unfold inv_at. cbn [c_main c_crew c_world]. intros [W1 W2 [Hf ->]%lock_val|B c k b W1 W2 E|W1 W2 E|W1 W2 E] H.
  - revert H. apply (entails_at (inv Waiting crew (others W1))). by apply main_lock_ok.
  - eapply wwp_exec in E; [exact E|apply main_act_ok|exact H].
  - injection E as <-. revert H. apply (entails_at (inv (Inside (Ret tt)) crew (others W1))), main_unlock_ok.
  - injection E as <-. revert H. apply (entails_at (inv Leaving crew (others W1))), main_after_ok.
Qed.

Lemma crew_moves_inv i w st st' W W' m crew : crew !! i = Some (w, st) ->
  moves (leave_steps w) (free_worker w) st W st' W' ->
  inv_at (Config W m crew) -> inv_at (Config W' m (<[i := (w, st')]> crew)).
Proof.
  unfold inv_at. cbn [c_main c_crew c_world].
  intros Hi Hm. revert Hi.
  destruct Hm as [W1 W2 [Hf ->]%lock_val|B c k b W1 W2 E|W1 W2 E|W1 W2 E]; intros Hi H.
  - revert H. apply (entails_at (inv m crew (others W1))). by apply crew_lock_ok.
  - eapply wwp_exec in E; [exact E|by apply crew_act_ok|exact H].
  - injection E as <-. revert H. apply (entails_at (inv m crew (others W1))). by apply crew_unlock_ok.
  - eapply wwp_exec in E; [exact E|by apply crew_after_ok|exact H].
Qed.

Lemma steps_inv_at c c' : rtc (step fd uptime) c c' -> inv_at c -> inv_at c'.
Proof.
  induction 1 as [|c1 c2 c3 Hs _ IH]; [done|]. intros H. apply IH. clear IH.
  destruct Hs as [W m W' m' crew Hm|i w st st' W W' m crew Hi Hm|i w h r r' m crew Hi Hs|i w W m crew Hi].
  - by eapply main_moves_inv.
  - by eapply crew_moves_inv.
  - revert H. apply (entails_at (inv m crew r)). by apply (serve_ok _ _ _ _ i w).
  - revert H. apply (entails_at (inv m crew (others W))). by apply wait_ok.
Qed.

Lemma start_inv_at h r : worker_lock r = MutexFree -> num_workers r = count ws0 ->
  pieces_on fd (trace r) = [] -> known ids ws0 r -> writes (outside r) = [] ->
  (ring workers_head ws0 ∗ [∗ list] w ∈ ws0, own_rest w)%I h -> inv_at (start (World h r) ws0).
Proof.
  intros Hl Hn Hp Hk Hwr. unfold inv_at, start. cbn [c_main c_crew c_world others memory]. apply entails_at.
  set (crew := (fun w => (w, Serving)) <$> ws0).
  assert (crew.*1 = ws0) as Hc by (unfold crew; rewrite <- list_fmap_compose; apply list_fmap_id).
  assert (live crew = ws0) as Hlive.
  { unfold live, crew. clear. by induction ws0 as [|w ws IH]; cbn; [|rewrite IH]. }
  assert (forall w st, (w, st) ∈ crew -> w ∈ ws0 /\ st = Serving) as Hin.
  { intros w st (x & [= -> ->] & Hx)%list_elem_of_fmap. done. }
  iIntros "[R O]". iSplit.
  - iPureIntro. split; try done; [|by intros [|]]. intros w st [Hw _]%Hin _. by apply Hk.
  - iSplitL "R"; [iLeft|].
    + unfold lock_free. rewrite Hlive. iFrame. iPureIntro. split_and!; [done| |done|done].
      by intros [w st] [_ ->]%Hin.
    + unfold crew. rewrite big_sepL_fmap. iFrame.
Qed.

(** Somebody inside, if the lock is held. *)
Lemma held_inside m crew r h : inv m crew r h -> worker_lock r <> MutexFree ->
  (exists p, m = Inside p) \/ exists j w p, crew !! j = Some (w, Inside p).
Proof.
  intros H Hl. assert (inv m crew r ⊢ ⌜(exists p, m = Inside p) \/ exists j w p, crew !! j = Some (w, Inside p)⌝) as Hi.
  { iIntros "(_ & [[(_ & _ & % & _) _]|[(%p & (%Hm & _) & _)|(%j & %w & %p & (_ & %Hj & _) & _)]] & _)"; [done|..];
      iPureIntro; eauto 6. }
  exact (entails_at _ _ h Hi H).
Qed.

Lemma free_list m crew r h : inv m crew r h -> worker_lock r = MutexFree ->
  num_workers r = count (live crew) /\ (ring workers_head (live crew)) h.
Proof.
  intros H Hl. assert (inv m crew r ⊢ ⌜num_workers r = count (live crew)⌝ ∧ ring workers_head (live crew)) as Hi.
  { iIntros "(_ & L & _)". rewrite lock_inv_free by done. iDestruct "L" as "[(_ & _ & _ & %Hn) R]". by iSplit. }
  exact (entails_at _ _ h Hi H).
Qed.

Lemma inv_facts m crew r h : inv m crew r h -> facts m crew r.
Proof.
  intros H. assert (inv m crew r ⊢ ⌜facts m crew r⌝) as Hi by iIntros "[$ _]". exact (entails_at _ _ h Hi H).
Qed.

Lemma wwp_can {A} P (c : cmd world A) Q W : (P ⊢ wwp c Q (others W)) -> P (memory W) ->
  exists b W', c W = Val (b, W').
Proof.
  intros H HP. destruct W as [h r].
  destruct (wtriple_run P r c Q h (wtriple_wwp _ _ _ _ H) HP) as (b & h' & r' & E & _). eauto.
Qed.

Lemma lock_can W : worker_lock (others W) = MutexFree -> exists W', lock W = Val (tt, W').
Proof. intros H. unfold lock, on_rest. rewrite H. eauto. Qed.

(** A thread that is not waiting for the lock goes on. *)
Lemma main_can m W crew : inv_at (Config W m crew) -> m = Leaving \/ is_inside m = true ->
  exists m' W', moves (answer_steps fd uptime) (close fd) m W m' W'.
Proof.
  unfold inv_at. cbn [c_main c_crew c_world]. intros H [->|Hm].
  - eexists _, _. by apply moves_after.
  - destruct m as [| |[[]|B c k]| |]; try done.
    + eexists _, _. by apply moves_unlock.
    + destruct (wwp_can _ _ _ _ (main_act_ok c k crew (others W)) H) as (b & W' & E).
      eexists _, _. by eapply moves_act.
Qed.

Lemma crew_can i w st m W crew : inv_at (Config W m crew) -> crew !! i = Some (w, st) ->
  st = Leaving \/ is_inside st = true -> exists st' W', moves (leave_steps w) (free_worker w) st W st' W'.
Proof.
  unfold inv_at. cbn [c_main c_crew c_world]. intros H Hi [->|Hm].
  - destruct (wwp_can _ _ _ _ (crew_after_ok m crew (others W) i w Hi) H) as ([] & W' & E).
    eexists _, _. by eapply moves_after.
  - destruct st as [| |[[]|B c k]| |]; try done.
    + eexists _, _. by apply moves_unlock.
    + destruct (wwp_can _ _ _ _ (crew_act_ok c k m crew (others W) i w Hi) H) as (b & W' & E).
      eexists _, _. by eapply moves_act.
Qed.
End invariant.
End RegistrySpec.

Module RegistryThm.
Import Clist ClistSpec Event Worker Ipc Registry RegistrySpec.

(** C11: The monitor, which reads what it is sent, is answered while workers end.  However the accesses of handle_ipc and
    of the workers that end interleave, and whatever the other workers do meanwhile: a
    thread that is not waiting for worker_lock can go on, without undefined behaviour,
    and one that waits can as soon as another, which can, has given the lock back; when
    the lock is free, the list is that of the workers that have not left and num_workers
    their number; and when the answer is complete, it gives the number of the workers of
    one moment and, in their order, their ids, all of them workers there were at the
    start, among them all that have not left since. *)
Theorem status_while_workers_end fd uptime ids ws h r c :
  NoDup ws -> workers_head ∉ ws -> Z.of_nat (length ws) < 2 ^ 32 ->
  worker_lock r = MutexFree -> num_workers r = Z.of_nat (length ws) ->
  pieces_on fd (trace r) = [] -> known ids ws r -> writes (outside r) = [] ->
  (ring workers_head ws ∗ [∗ list] w ∈ ws, own_rest w)%I h ->
  rtc (step fd uptime) (start (World h r) ws) c ->
  (forall crit after st, thread fd uptime c crit after st ->
     st = Serving \/ st = Gone \/ (exists st' W', moves crit after st (c_world c) st' W') \/
     st = Waiting /\ exists crit' after' p, thread fd uptime c crit' after' (Inside p)) /\
  (worker_lock (others (c_world c)) = MutexFree ->
     num_workers (others (c_world c)) = Z.of_nat (length (live (c_crew c))) /\
     (ring workers_head (live (c_crew c))) (memory (c_world c))) /\
  (c_main c = Leaving \/ c_main c = Gone ->
     exists ws', live (c_crew c) `sublist_of` ws' /\ ws' `sublist_of` ws /\
       reported fd uptime ids (Z.of_nat (length ws')) ws' (others (c_world c))).
Proof.
  intros Hnd Hhead Hmax Hl Hn Hp Hk Hwr Hh Hsteps.
  assert (inv_at fd uptime ids ws c) as Hinv.
  { eapply steps_inv_at; [exact Hnd|exact Hhead|exact Hmax|exact Hsteps|by apply start_inv_at]. }
  destruct c as [W m crew]. split_and!.
  - intros crit after st Ht.
    assert (st = Leaving \/ is_inside st = true -> exists st' W', moves crit after st W st' W') as Hcan.
    { destruct Ht as [|i w st Hi]; [by eapply main_can|by eapply crew_can]. }
    destruct st as [| |p| |]; [by left| |by right; right; left; auto..|by right; left].
    right. right. assert (worker_lock (others W) = MutexFree \/ worker_lock (others W) <> MutexFree) as [Hfree|Hheld]
      by (destruct (worker_lock (others W)); auto).
    + left. destruct (lock_can W Hfree) as [W' E]. eexists _, _. by apply moves_lock.
    + right. split; [done|]. destruct (held_inside _ _ _ _ _ _ _ _ Hinv Hheld) as [(p & Hm)|(j & w & p & Hj)].
      * exists (answer_steps fd uptime), (close fd), p. cbn in Hm. rewrite <- Hm. apply thread_main.
      * exists (leave_steps w), (free_worker w), p. by eapply thread_crew.
  - intros Hfree. by eapply (free_list fd uptime ids ws).
  - by apply (inv_facts fd uptime ids ws m crew (others W) (memory W) Hinv).
Qed.

(** *** Two workers, one of which ends while the monitor is answered *)

(** A thread takes its next step, if it can; a worker of the crew starts to leave. *)
Inductive choice := Main | Crew (i : nat) | Leave (i : nat).

Definition next (crit : prog world unit) (after : cmd world unit) (st : status) (W : world) : option (status * world) :=
  match st with
  | Waiting => match lock W with Val (_, W') => Some (Inside crit, W') | _ => None end
  | Inside (Act c k) => match c W with Val (b, W') => Some (Inside (k b), W') | _ => None end
  | Inside (Ret _) => match unlock W with Val (_, W') => Some (Leaving, W') | _ => None end
  | Leaving => match after W with Val (_, W') => Some (Gone, W') | _ => None end
  | _ => None
  end.

Lemma next_moves crit after st W st' W' : next crit after st W = Some (st', W') -> moves crit after st W st' W'.
Proof.
  unfold next. destruct st as [| |[[]|B c k]| |]; try done.
  - destruct (lock W) as [[[] W1]| | | |] eqn:E; try done. intros [= <- <-]. by apply moves_lock.
  - intros [= <- <-]. by apply moves_unlock.
  - destruct (c W) as [[b W1]| | | |] eqn:E; try done. intros [= <- <-]. by eapply moves_act.
  - destruct (after W) as [[[] W1]| | | |] eqn:E; try done. intros [= <- <-]. by apply moves_after.
Qed.

Definition turn (fd uptime : Z) (c : config) (ch : choice) : option config :=
  match ch with
  | Main =>
      '(m, W) ← next (answer_steps fd uptime) (close fd) (c_main c) (c_world c);
      Some (Config W m (c_crew c))
  | Crew i =>
      '(w, st) ← c_crew c !! i;
      '(st', W) ← next (leave_steps w) (free_worker w) st (c_world c);
      Some (Config W (c_main c) (<[i := (w, st')]> (c_crew c)))
  | Leave i =>
      match c_crew c !! i with
      | Some (w, Serving) => Some (Config (c_world c) (c_main c) (<[i := (w, Waiting)]> (c_crew c)))
      | _ => None
      end
  end.

Lemma turn_takes_step fd uptime c ch c' : turn fd uptime c ch = Some c' -> step fd uptime c c'.
Proof.
  destruct c as [W m crew], ch as [|i|i]; cbn.
  - destruct (next _ _ m W) as [[m' W']|] eqn:E; [|done]. intros [= <-]. by apply step_main, next_moves.
  - destruct (crew !! i) as [[w st]|] eqn:Hi; [|done]. cbn.
    destruct (next _ _ st W) as [[st' W']|] eqn:E; [|done]. intros [= <-]. by eapply step_crew, next_moves.
  - destruct (crew !! i) as [[w []]|] eqn:Hi; try done. intros [= <-]. by apply step_leave.
Qed.

Definition turns (fd uptime : Z) (c : config) (chs : list choice) : option config :=
  foldl (fun c ch => c ← c; turn fd uptime c ch) (Some c) chs.

Lemma turns_reach fd uptime chs : forall c c', turns fd uptime c chs = Some c' -> rtc (step fd uptime) c c'.
Proof.
  induction chs as [|ch chs IH]; intros c c'; unfold turns; cbn [foldl]; [by intros [= <-]|].
  cbn. destruct (turn fd uptime c ch) as [c1|] eqn:E.
  - intros H. eapply rtc_l; [by eapply turn_takes_step|]. by apply IH.
  - clear. intros H. exfalso. by induction chs.
Qed.

Definition ex_two : heap := list_to_map (IpcThm.ex_cells ++
  ((fun l => (l, 0)) <$> (drop 2 (worker_members 24) ++ drop 2 (worker_members 48)))).
Definition ex_two_rest : rest := IpcThm.ex_asked [].
Definition ex_begin : config := start (World ex_two ex_two_rest) [24; 48].
Definition ex_choices : list choice :=
  replicate 4 Main ++ [Leave 0%nat] ++ replicate 13 Main ++ replicate 11 (Crew 0%nat).
Definition ex_end : config := default ex_begin (turns 7 65 ex_begin ex_choices).

Lemma ex_reach : rtc (step 7 65) ex_begin ex_end.
Proof. apply (turns_reach 7 65 ex_choices). by vm_compute. Qed.

Lemma ex_two_holds : (ring workers_head [24; 48] ∗ [∗ list] w ∈ [24; 48], own_rest w)%I ex_two.
Proof.
  apply holds_of_cells; [by_compute|]. unfold ring, owns, own_rest. cbn.
  iIntros "($ & $ & $ & $ & $ & $ & H)". iRevert "H".
  iIntros "(A1 & A2 & A3 & A4 & A5 & A6 & A7 & B1 & B2 & B3 & B4 & B5 & B6 & B7 & _)".
  iSplitL "A1 A2 A3 A4 A5 A6 A7"; [|iSplitL; [|done]]; iFrame.
Qed.

Lemma status_while_workers_end_witness : exists ws',
  live (c_crew ex_end) = [48] /\ c_main ex_end = Gone /\ num_workers (others (c_world ex_end)) = 1 /\
  [48] `sublist_of` ws' /\ ws' `sublist_of` [24; 48] /\
  reported 7 65 (fun w => if w =? 24 then 0 else 1) (Z.of_nat (length ws')) ws' (others (c_world ex_end)).
Proof.
  destruct (status_while_workers_end 7 65 (fun w => if w =? 24 then 0 else 1) [24; 48] ex_two ex_two_rest ex_end)
    as (_ & Hfree & Hdone).
  - by_compute.
  - by_compute.
  - by_compute.
  - reflexivity.
  - reflexivity.
  - reflexivity.
  - intros w [->|[->|[]%elem_of_nil]%elem_of_cons]%elem_of_cons; eexists; split; by vm_compute.
  - reflexivity.
  - exact ex_two_holds.
  - exact ex_reach.
  - assert (live (c_crew ex_end) = [48]) as Hl by by vm_compute. rewrite Hl in Hfree, Hdone.
    destruct Hdone as (ws' & H1 & H2 & H3); [right; by vm_compute|].
    exists ws'. split; [exact Hl|]. split; [by vm_compute|]. split; [apply Hfree; by vm_compute|].
    split; [exact H1|]. split; [exact H2|exact H3].
Defined.
End RegistryThm.
