(* ===== verification/Answer.v ===== *)
(** From the request to the bytes of the answer on the wire: send_response fills the
    buffer, arms the timer and the event, sends, and goes on to the next request or
    closes; with CaskSpec.v, what a client of the server gets.

    The proof of [send_response_ok] runs through begin_send, send_data and then
    begin_read or close_connection; module [AnswerThm] has the theorem. *)
From stdpp Require Import sorting.
From S2P Require Import Prelude Buffer Http Request RequestSpec Heap Clist Rbtree RbtreeSpec RbtreeInv RbtreeDel.
From S2P Require Db.
From S2P Require Import RbtreeSearch Timer TimerSpec RbtreeThm World Event EventSpec Connection ReadSpec SendSpec.
From S2P Require Import ConnSpec ConnThm Route FileMap Cask Store CaskSpec CaskThm.
Import Rbtree Rep Timer Event Clist ClistSpec Connection Buffer Http Request ParserSpec.

(** ** The answers of the outside *)

(** epoll_ctl does not fail. *)
Definition ctls_ok (r : rest) : Prop := Forall (fun ret => ret = 0) (ctls (outside r)).

(** [r'] is [r] but for connection [c], which is [x'], the answers of epoll_ctl and
    of the clock used up, and calls that send nothing. *)
Record quiet (c : ptr) (x' : connection) (r r' : rest) : Prop := {
  quiet_ctls : ctls_ok r';
  quiet_sends : sends (outside r') = sends (outside r);
  quiet_conns : conns r' = <[c := x']> (conns r);
  quiet_workers : workers r' = workers r;
  quiet_store : store r' = store r;
  quiet_trace : forall fd, sent_on fd (trace r') = sent_on fd (trace r);
}.

Lemma ctl_rest_quiet s c x' r r0 : (forall ret fd, sent_by fd (s ret) = None) ->
  quiet c x' r0 r -> ctl_ret r = 0 /\ quiet c x' r0 (ctl_rest s r).
Proof.
  intros Hs [H1 H2 H3 H4 H5 H6]. unfold ctl_rest, ctl_ret, pop_ctl, ctls_ok in *.
  destruct r as [cs ws n i lk o tr st], o as [rv sn [|ret ct] al ca ck ac fc sk su ep th];
    cbn [outside ctls] in *; try (apply Forall_cons in H1 as [-> H1]); cbn;
    (split; [done|]); split; try done; cbn in *; intros fd; rewrite sent_on_app, H6;
    unfold sent_on; cbn; by rewrite Hs, app_nil_r.
Qed.

Lemma armed_rest_quiet c x x' e ev r : ctls_ok r ->
  armed_ret c x e r = 0 /\ quiet c x' r (armed_rest c x x' e ev r).
Proof.
  intros H. unfold armed_ret, armed_rest.
  assert (quiet c (reset_conn x) r (reset c x e r)) as Hq.
  { unfold reset. set (r1 := set_conns _ _).
    assert (quiet c (reset_conn x) r r1) as H1.
    { split; try done; unfold r1, ctls_ok, pop_clock in *; cbn; by destruct (clock (outside r)). }
    destruct (event_active (e_flags e)); [|done]. by apply ctl_rest_quiet. }
  split; [eapply (ctl_rest_quiet (fun ret => EpollAdd (c_fd x) ev c ret)); [done|exact Hq]|].
  apply ctl_rest_quiet; [done|]. destruct Hq. by split.
Qed.

Lemma wwp_liftr {A} (m : res A) a (Q : A -> rest -> heapProp) r : m = Val a ->
  Q a r ⊢ wwp (liftr m) Q r.
Proof. intros ->. apply wwp_ret. Qed.

(** A command that is known to go on as another one, whatever the memory. *)
Lemma wwp_goes_on {A} (cm cm' : cmd world A) (P : rest -> Prop) (Q : A -> rest -> heapProp) r :
  (forall h, exists r', cm (World h r) = cm' (World h r') /\ P r') ->
  (∀ r', ⌜P r'⌝ -∗ wwp cm' Q r') ⊢ wwp cm Q r.
Proof.
  intros H. split. intros h Hall hf Hd. destruct (H (h ∪ hf)) as (r' & E & HP). rewrite E.
  specialize (Hall r' ∅ ltac:(by apply map_disjoint_empty_r) HP). rewrite (right_id_L ∅ (∪)) in Hall.
  by apply Hall.
Qed.

(** A connection that waits for its next request. *)
Definition waits (x x' : connection) : Prop :=
  c_worker x' = c_worker x /\ c_fd x' = c_fd x /\ c_flags x' = c_flags x /\
  c_state x' = CONNECTION_STATE_IN /\ wf (c_buffer x') /\ size (c_buffer x') = 0 /\
  c_write_bytes x' = 0 /\ c_req x' = zero_request.

(** The world when the answer [text] has been sent on connection [c], which was [x],
    of a worker that was [y]; [alive]: the connection is kept. *)
Record answered (c : ptr) (x : connection) (y : worker) (alive : bool) (text : list Z) (r r' : rest) : Prop := {
  answered_sent : sent_on (c_fd x) (trace r') = sent_on (c_fd x) (trace r) ++ text;
  answered_store : store r' = store r;
  answered_conn : if alive then exists x', conns r' = <[c := x']> (conns r) /\ waits x x'
                  else conns r' = delete c (conns r);
  answered_workers : workers r' = if alive then workers r
    else <[c_worker x := set_num_conns (u64 (w_num_conns y - 1)) y]> (workers r);
  answered_closed : if alive then True else SysClose (c_fd x) ∈ trace r';
}.

(** The memory then: [t1] is the tree without the connection's timer. *)
Definition answered_rep (c : ptr) (x : connection) (y : worker) (ep : Z) (t1 : tree) (head : ptr)
    (l1 l2 : list ptr) (alive : bool) : heapProp :=
  (if alive then
     ring head (l1 ++ c :: l2) ∗
     event_rep c (MkEvent (c_fd x) (Z.lor EPOLLIN EPOLLET) EVENT_FLAG_ACTIVE IO_CALLBACK c) ∗
     (∃ t2 due, loop_rep (w_base y) ep t2 ∗
        ⌜rb_ok t2 /\ ordered t2 /\ entries t2 ≡ₚ (c, members (armed due (idle_timer c))) :: entries t1⌝)
   else
     ring head (l1 ++ l2) ∗ (∃ t2, loop_rep (w_base y) ep t2 ∗ ⌜rb_ok t2 /\ ordered t2 /\ entries t2 = entries t1⌝))%I.

Definition kept (x : connection) : bool := negb (Z.land (c_flags x) CONNECTION_FLAG_KEEPALIVE =? 0).

Section finishing.
Context (fuel : nat) (c : ptr) (x : connection) (y : worker) (ep : Z) (t t1 : tree) (m : timer) (e : event).
Context (head : ptr) (l1 l2 : list ptr) (r : rest).
Context (Hx : conns r !! c = Some x) (Hy : workers r !! c_worker x = Some y) (Hwf : wf (c_buffer x)).
Context (Hrb : rb_ok t) (Ho1 : ordered t1) (Hf : (iterations (length (entries t)) <= fuel)%nat).
Context (Hfd : e_fd e = c_fd x) (Hctl : ctls_ok r).

(** What follows the last byte of an answer. *)
Lemma finish_ok (Q : unit -> rest -> heapProp) :
  loop_rep (w_base y) ep t ⊢ timer_of c m t t1 -∗ event_rep c e -∗ ring head (l1 ++ c :: l2) -∗
  (∀ r', answered_rep c x y ep t1 head l1 l2 (kept x) -∗
     ⌜answered c x y (kept x) [] r r'⌝ -∗ Q tt r') -∗
  wwp (finish fuel c x) Q r.
Proof.
  iIntros "L T E R HQ". unfold finish, answered_rep. fold (kept x). destruct (kept x).
  - iApply (begin_read_ok fuel c x y ep t t1 m e r with "L T E"); [done..|].
    iIntros "[%Hrb1 %Hle] L E". unfold armed_event.
    destruct (armed_rest_quiet c x (reading_conn x) e (Z.lor EPOLLIN EPOLLET) r Hctl) as [Hret Hq].
    rewrite Hret. change (0 =? 0) with true. cbn iota. w_step.
    iApply ("HQ" with "[L E R]").
    + iFrame. iExists (clock_now r). iPureIntro. split; [by apply rb_ok_insert|]. split; [by apply ordered_insert|].
      destruct (entries_insert c (members (armed (clock_now r) (idle_timer c))) t1 Ho1)
        as (k1 & k2 & He1 & He2 & _). unfold rearmed. rewrite He2, He1. symmetry. apply Permutation_middle.
    + iPureIntro. destruct Hq as [_ _ Hc Hw Hs Ht]. split; try done.
      * by rewrite app_nil_r.
      * exists (reading_conn x). split; [done|]. unfold waits. cbn.
        destruct (clear_buffer_wf _ Hwf). by split_and!.
  - iApply (close_connection_ok fuel c x y ep t m t1 with "L T E R"); [done|done|done| |].
    { pose proof (rb_ok_height t Hrb). lia. }
    iIntros "[%Hrb1 %Hle] L R". iApply ("HQ" with "[L R]"); [by iFrame|].
    iPureIntro. unfold closed. destruct (ctl_rest_quiet (EpollDel (e_fd e)) c x r r) as [_ [_ _ Hc Hw Hs Ht]].
    { done. }
    { split; try done. by rewrite insert_id. }
    split; cbn.
    + rewrite app_nil_r. rewrite !sent_on_app. unfold sent_on at 2 3. cbn. by rewrite !app_nil_r.
    + done.
    + done.
    + done.
    + apply elem_of_app. right. by left.
Qed.
End finishing.

(** The text of a response on a connection. *)
Definition reply_text (x : connection) (st : http_status) (txt : list Z) : list Z :=
  response_text (version (c_req x)) st (kept x) txt.

(** One more quiet step. *)
Lemma quiet_answered c x x2 y alive text r1 r2 r' :
  quiet c x2 r1 r2 -> c_fd x2 = c_fd x -> c_worker x2 = c_worker x -> c_flags x2 = c_flags x ->
  answered c x2 y alive text r2 r' ->
  answered c x y alive text r1 r'.
Proof.
  intros [_ _ Hc Hw Hs Ht] Hfd Hwk Hfl [A1 A2 A3 A4 A5]. rewrite Hfd, ?Hwk in *.
  split; [by rewrite A1, Ht|by rewrite A2| |by rewrite A4, Hw|done].
  destruct alive.
  - destruct A3 as (x' & -> & W). exists x'. rewrite Hc, insert_insert_eq. split; [done|].
    unfold waits in *. by rewrite Hfd, Hwk, Hfl in W.
  - rewrite A3, Hc. by rewrite delete_insert_eq.
Qed.

Section answering.
Context (fuel : nat) (c : ptr) (x : connection) (y : worker) (ep : Z) (t t1 : tree) (m : timer) (e : event).
Context (head : ptr) (l1 l2 : list ptr) (r : rest) (st : http_status) (txt : list Z).
Context (ns : list nat) (l : list send_result).
Context (Hx : conns r !! c = Some x) (Hy : workers r !! c_worker x = Some y) (Hwf : wf (c_buffer x)).
Context (Hrb : rb_ok t) (Ho : ordered t) (Hf : (iterations (S (length (entries t))) <= fuel)%nat).
Context (Hclock : Forall (fun en => node_key (snd en) < trigger_at (clock_now r) TIMEOUT) (entries t)).
Context (Hctl : ctls_ok r) (Hal : allocs_ok (outside r)).
Context (Hv : version (c_req x) <> HTTP_VERSION_UNKNOWN) (Hst : st <> HTTP_STATUS_UNKNOWN).
Context (Hlen : Z.of_nat (length txt) < 2 ^ 62).
Context (Hsends : sends (outside r) = (Sent <$> ns) ++ l).
Context (Htakes : takes (length (reply_text x st txt)) ns).
Context (Hall : sum_list ns = length (reply_text x st txt)) (Hns : (length ns < fuel)%nat).

(** The tree and the timer when the connection has been armed for sending. *)
Lemma timer_after : rb_ok t1 -> ordered t1 -> (length (entries t1) <= length (entries t))%nat ->
  Forall (fun en => node_key (snd en) < trigger_at (clock_now r) TIMEOUT) (entries t1) ->
  let t2 := rearmed c r t1 in
  exists t3, rb_ok t2 /\ (iterations (length (entries t2)) <= fuel)%nat /\ ordered t3 /\
    removable c (armed (clock_now r) (idle_timer c)) t2 t3 /\ entries t3 = entries t1.
Proof.
  intros Hrb1 Ho1 Hle Hlt. cbv zeta. pose proof (rearmed_last c r t1 Ho1 Hlt) as He.
  assert (rb_ok (rearmed c r t1)) as Hrb2 by by apply rb_ok_insert.
  destruct (last_removable c _ _ _ Hrb2 He) as (t3 & Hrem & He3). exists t3. split_and!; [apply Hrb2..| | |done|done].
  - rewrite He, length_app. cbn. pose proof (iterations_mono (length (entries t1) + 1) (S (length (entries t)))). lia.
  - unfold ordered. by rewrite He3.
Qed.

(** send_response from the buffer's contents on. *)
Lemma begin_send_text_ok (x1 : connection) (r1 : rest) (Q : unit -> rest -> heapProp) :
  conns r1 !! c = Some x1 -> workers r1 !! c_worker x1 = Some y -> wf (c_buffer x1) ->
  ctls_ok r1 -> clock_now r1 = clock_now r -> sends (outside r1) = sends (outside r) ->
  contents (c_buffer x1) = reply_text x st txt ->
  loop_rep (w_base y) ep t ⊢ timer_of c m t t1 -∗ event_rep c e -∗ ring head (l1 ++ c :: l2) -∗
  (∀ r' t3, ⌜entries t3 = entries t1⌝ -∗ answered_rep c x1 y ep t3 head l1 l2 (kept x1) -∗
     ⌜answered c x1 y (kept x1) (reply_text x st txt) r1 r'⌝ -∗ Q tt r') -∗
  wwp (begin_send fuel c) Q r1.
Proof.
  intros Hx1 Hy1 Hwf1 Hctl1 Hck Hsn Htext. iIntros "L T E R HQ".
  pose proof (iterations_mono (length (entries t)) (S (length (entries t)))).
  iAssert (⌜ordered t1 /\ Forall (fun en => node_key (snd en) < trigger_at (clock_now r) TIMEOUT)
    (entries t1)⌝)%I as %[Ho1 Hlt1].
  { iDestruct "T" as "[[_ %Hr]|[[_ ->] _]]"; [|done]. iPureIntro.
    split; [by eapply ordered_removable|].
    destruct (removable_entries c m t t1 Hrb Hr) as (_ & es1 & es2 & He & ->). rewrite He in Hclock.
    apply Forall_app in Hclock as [H1 H2]. apply Forall_cons in H2 as [_ H2]. by apply Forall_app. }
  iApply (begin_send_ok fuel c x1 y ep t t1 m e r1 with "L T E"); [done|done|done|lia|].
  iIntros "[%Hrb1 %Hle] L E". unfold armed_event.
  destruct (armed_rest_quiet c x1 (sending_conn x1) e (Z.lor EPOLLOUT EPOLLET) r1 Hctl1) as [Hret Hq].
  rewrite Hret. change (0 =? 0) with true. cbn iota.
  destruct (timer_after Hrb1 Ho1 Hle Hlt1) as (t3 & Hrb2 & Hf2 & Ho3 & Hrem & He3).
  assert (rearmed c r1 t1 = rearmed c r t1) as -> by by unfold rearmed; rewrite Hck.
  set (x2 := sending_conn x1) in *. set (r2 := armed_rest _ _ _ _ _ _) in *.
  assert (unsent x2 = reply_text x st txt) as Hun by by unfold unsent; cbn; rewrite drop_0.
  assert (conns r2 !! c = Some x2) as Hx2 by by rewrite (quiet_conns _ _ _ _ Hq), lookup_insert_eq.
  iApply (wwp_goes_on _ (finish fuel c x2) (fun r3 => exists pieces,
    concat pieces = reply_text x st txt /\ r3 = with_sent c x2 pieces l r2)).
  { intros h. destruct (send_data_ends fuel c h r2 x2 ns l) as (pieces & Hp & _ & E); try done.
    - cbn. destruct Hwf1. lia.
    - by rewrite Hun.
    - rewrite Hall. unfold reply_text, response_text. rewrite !length_app. cbn. lia.
    - by rewrite Hun.
    - by rewrite (quiet_sends _ _ _ _ Hq), Hsn.
    - eexists. split; [exact E|]. exists pieces. split; [|done].
      rewrite Hp, Hall, Hun. apply firstn_all. }
  iIntros (r3 (pieces & Hp & ->)).
  set (x3 := set_c_write_bytes (c_write_bytes x2 + Z.of_nat (length (concat pieces))) x2).
  set (r3 := with_sent c x2 pieces l r2). change (finish fuel c x2) with (finish fuel c x3).
  iApply (finish_ok fuel c x3 y ep (rearmed c r t1) t3 (armed (clock_now r) (idle_timer c))
    (MkEvent (c_fd x1) (Z.lor EPOLLOUT EPOLLET) (flags_on 0 0) IO_CALLBACK c) head l1 l2 r3
    with "L [] E R"); try done.
  - apply with_sent_conn.
  - change (workers r2 !! c_worker x1 = Some y). by rewrite (quiet_workers _ _ _ _ Hq).
  - apply Hq.
  - iLeft. iPureIntro. by split; [apply active_activated|].
  - iIntros (r') "M %Hans". iApply ("HQ" $! r' t3 He3 with "M"). iPureIntro.
    apply (quiet_answered c x1 x2 y (kept x1) _ r1 r2 r'); [exact Hq|done..|].
    destruct Hans as [A1 A2 A3 A4 A5]. split; [|done| |done|done].
    + change (c_fd x3) with (c_fd x2) in A1. rewrite A1, app_nil_r. unfold r3, with_sent. cbn [trace]. by rewrite sent_on_app, sent_on_pieces, Hp.
    + change (kept x3) with (kept x1) in A3. destruct (kept x1).
      * destruct A3 as (x' & -> & W). exists x'. split; [|done]. cbn. by rewrite insert_insert_eq.
      * rewrite A3. cbn. by rewrite delete_insert_eq.
Qed.

(** send_response. *)
Lemma send_response_ok (Q : unit -> rest -> heapProp) :
  loop_rep (w_base y) ep t ⊢ timer_of c m t t1 -∗ event_rep c e -∗ ring head (l1 ++ c :: l2) -∗
  (∀ r' t3, ⌜entries t3 = entries t1⌝ -∗ answered_rep c x y ep t3 head l1 l2 (kept x) -∗
     ⌜answered c x y (kept x) (reply_text x st txt) r r'⌝ -∗ Q tt r') -∗
  wwp (send_response fuel c st txt (Z.of_nat (length txt))) Q r.
Proof.
  iIntros "L T E R HQ". unfold send_response. w_step. w_step. w_step. w_step.
  destruct (pop_alloc_ok (outside r) Hal) as (g & al & -> & _). w_step.
  destruct (fill_response_ok g (c_buffer x) (c_req x) (c_flags x) st txt (length txt))
    as (b & Hb & Hwb & Htext); try done.
  iApply wwp_liftr; [exact Hb|]. w_step. w_step. cbn [conns set_outside].
  rewrite firstn_all in Htext. set (r1 := set_conns _ _). set (x1 := set_c_buffer b x) in *.
  iApply (begin_send_text_ok x1 r1 with "L T E R"); try done.
  - apply lookup_insert_eq.
  - unfold clock_now, pop_clock. cbn. by destruct (clock (outside r)).
  - iIntros (r' t3) "%He M %Hans". iApply ("HQ" $! r' t3 He with "M"). iPureIntro.
    destruct Hans as [A1 A2 A3 A4 A5]. change (kept x1) with (kept x) in *. split; try done.
    destruct (kept x).
    + destruct A3 as (x' & -> & W). exists x'. split; [|done]. cbn. by rewrite insert_insert_eq.
    + rewrite A3. cbn. by rewrite delete_insert_eq.
Qed.
End answering.

(** The texts of the replies are short enough for their length to be written. *)
Lemma reply_short f nb vals d k u b (a := fst (CaskSpec.reply f vals k u b)) :
  CaskSpec.file_ok f -> good nb vals d ->
  fst a <> HTTP_STATUS_UNKNOWN /\ Z.of_nat (length (snd a)) < 2 ^ 62.
Proof.
  intros [Hsize Hf] [[Hs _] _]. change (2 ^ 62) with 4611686018427387904 in *.
  assert (forall st txt, st <> HTTP_STATUS_UNKNOWN -> (length txt <= 24)%nat ->
    fst ((st, txt) : CaskSpec.answer) <> HTTP_STATUS_UNKNOWN /\
    Z.of_nat (length (snd ((st, txt) : CaskSpec.answer))) < 4611686018427387904) as Hshort.
  { intros st txt Hst Hl. split; [done|]. cbn [snd]. lia. }
  unfold a, CaskSpec.reply. destruct u as [|z u].
  { destruct k; cbn [fst]; (apply Hshort; [done|cbn; lia]). }
  destruct (decide (z = 47)) as [->|Hz].
  2: { destruct k; try (cbn [fst]; (apply Hshort; [done|cbn; lia])); destruct u;
       rewrite CaskSpec.slash_case by done; cbn [fst]; (apply Hshort; [done|cbn; lia]). }
  destruct k; try (destruct u; cbn [fst]; (apply Hshort; [done|cbn; lia])).
  - destruct u as [|a0 u]; cbn [fst snd].
    + split; [done|]. unfold CaskSpec.index_text. destruct (Z.eqb_spec (File.size f) 0); [cbn; lia|].
      destruct (Hf n) as (dt & -> & Hd). cbn. lia.
    + unfold CaskSpec.get_reply. destruct (CaskSpec.paste_id _) as [id|]; [|(apply Hshort; [done|cbn; lia])].
      destruct (vals !! Z.to_nat id) as [w|] eqn:Ew; [|(apply Hshort; [done|cbn; lia])].
      split; [done|]. destruct (Db.DbSpec.stored_fits _ _ _ _ _ Hs) as [Hfit _].
      rewrite Forall_lookup in Hfit. specialize (Hfit _ _ Ew). cbn [snd]. pow2. lia.
  - destruct u; [|cbn [fst]; (apply Hshort; [done|cbn; lia])].
    unfold CaskSpec.post_reply. destruct b; cbn [fst]; [(apply Hshort; [done|cbn; lia])|].
    apply Hshort; [done|].
    destruct (CMem.dec_spec (Z.of_nat (length vals))) as (_ & _ & Hd); [|lia].
    pose proof (Db.DbSpec.stored_cnt _ _ _ _ _ Hs). lia.
Qed.

Module AnswerThm.
Import Cask CaskSpec.

(** C8: From the bytes of a request to the bytes of its answer.  A whole well-formed
    request has arrived on a connection whose timer and event are as begin_read left
    them, the timer, if active, at a node with at most one child, and the clock has gone
    forward; recv gives it in any pieces, with no EAGAIN between them, and then EAGAIN;
    send takes the answer in any pieces; there is a free bucket if it is a paste; no call
    fails.  Then io_callback's read_data sends on that descriptor exactly the text
    of the response that the abstract server gives: status line, keep-alive headers
    if the connection is kept, Content-Length and body, once and in order.  The
    database holds what the abstract server then holds.  A connection that is kept
    ends up waiting for the next request, in its place in the worker's list, its event
    registered for input and its timer armed; any other is closed, out of the list,
    the tree and the count, its descriptor closed. *)
Theorem request_answered fuel f gs routes c x y ep t t1 m e head l1 l2 r k u v hs b nb vals ns l :
  (forall i, gs i <> None) -> add_routes gs = Val routes -> file_ok f ->
  arrives fuel c r x k u v hs b -> good nb vals (store r) ->
  let answer := reply f vals k u (sent_body hs b) in
  let x0 := set_c_flags (keepalive v (c_flags x)) x in
  let text := response_text v (fst (fst answer)) (kept x0) (snd (fst answer)) in
  room nb (snd answer) ->
  workers r !! c_worker x = Some y -> rb_ok t -> ordered t ->
  (iterations (S (length (entries t))) <= fuel)%nat ->
  Forall (fun en => node_key (snd en) < trigger_at (clock_now r) TIMEOUT) (entries t) ->
  ctls_ok r -> sends (outside r) = (Sent <$> ns) ++ l ->
  takes (length text) ns -> sum_list ns = length text -> (length ns < fuel)%nat ->
  wtriple (loop_rep (w_base y) ep t ∗ timer_of c m t t1 ∗ event_rep c e ∗ ring head (l1 ++ c :: l2))%I r
    (read_data fuel routes (call_route fuel f) c)
    (fun _ r' => ∃ t3, answered_rep c x y ep t3 head l1 l2 (kept x0) ∗
       ⌜entries t3 = entries t1 /\ good nb (snd answer) (store r') /\
        sent_on (c_fd x) (trace r') = sent_on (c_fd x) (trace r) ++ text /\
        workers r' = (if kept x0 then workers r
          else <[c_worker x := set_num_conns (u64 (w_num_conns y - 1)) y]> (workers r)) /\
        if kept x0 then exists x', conns r' = <[c := x']> (conns r) /\ waits x0 x'
        else conns r' = delete c (conns r) /\ SysClose (c_fd x) ∈ trace r'⌝)%I.
Proof.
  intros Hgs Hadd Hfile Harr Hgood answer x0 text Hroom Hy Hrb Ho Hf Hclock Hctl Hsends Htakes Hsum Hns.
  destruct (add_routes_ok gs Hgs) as (routes' & E & Hok). rewrite Hadd in E. injection E as <-.
  destruct (reply_short f nb vals (store r) k u (sent_body hs b) Hfile Hgood) as [Hst Hlen].
  fold answer in Hst, Hlen.
  apply wtriple_wwp. iIntros "(L & T & E & R)".
  iApply (wwp_goes_on _ (give fuel c (fst answer)) (fun r0 =>
    served_from c x v r r0 /\ good nb (snd answer) (store r0))).
  { intros h. destruct (server_replies_ok fuel f routes c h r x k u v hs b nb vals) as (r0 & E & ?); try done.
    by exists r0. }
  iIntros (r0 ((buf & req & lr & al & d & Hwf & Hv & Hal & ->) & Hg0)).
  set (x1 := with_request req (keepalive v (c_flags x)) (set_c_buffer buf x)).
  set (r0 := set_store d _) in *.
  assert (reply_text x1 (fst (fst answer)) (snd (fst answer)) = text) as Htext
    by (unfold reply_text, text; cbn; by rewrite Hv).
  iApply (send_response_ok fuel c x1 y ep t t1 m e head l1 l2 r0 (fst (fst answer)) (snd (fst answer)) ns l
    with "L T E R"); try done.
  - apply lookup_insert_eq.
  - assert (clock_now r0 = clock_now r) as ->; [|done].
    unfold clock_now, pop_clock. cbn. by destruct (clock (outside r)).
  - change (version req <> HTTP_VERSION_UNKNOWN). rewrite Hv. apply (ok_version _ _ _ _ _ (arr_ok _ _ _ _ _ _ _ _ _ Harr)).
  - by rewrite Htext.
  - by rewrite Htext.
  - rewrite Htext. change (kept x1) with (kept x0). iIntros (r' t3) "%He M %Hans". iExists t3.
    iSplitL "M"; [iExact "M"|]. iPureIntro. destruct Hans as [A1 A2 A3 A4 A5].
    split_and!; [done|by rewrite A2|exact A1|exact A4|]. destruct (kept x0).
    + destruct A3 as (x' & -> & W). exists x'. split; [|exact W]. cbn. by rewrite insert_insert_eq.
    + rewrite A3. split; [|done]. cbn. by rewrite delete_insert_eq.
Qed.

(** *** A paste posted to the connection at 16 of the example of ConnThm *)
Import ConnThm RbtreeThm.

Definition ex_text : list Z := response_text HTTP_VERSION_11 HTTP_STATUS_200 true (bytes_of "1").
Definition ex_wire : rest :=
  MkRest (conns ex_served) (workers ex_served) 1 1 MutexFree
    (MkOs ((RecvData <$> [take 20 CaskThm.ex_post; drop 20 CaskThm.ex_post]) ++ [RecvErr EAGAIN])
       [Sent 10; Sent (length ex_text - 10)] [] [] [] [MkTimespec 0 0 400] [] [] [] [] [] [] []) []
    (Db.DbSpec.image_db 4 [[7; 8]]).

Lemma ex_wire_arrives : arrives 9 16 ex_wire (ex_idle 5) HTTP_METHOD_POST [47] HTTP_VERSION_11
  ex_headers (bytes_of "hello").
Proof.
  destruct CaskThm.ex_arrives as [_ _ _ _ Hok Hlen _ _].
  split; [done|by split|done|done|exact Hok|exact Hlen|constructor|].
  exists [take 20 CaskThm.ex_post; drop 20 CaskThm.ex_post], []. split; [by vm_compute|].
  split; [repeat constructor; by_compute|]. split; [done|by_compute].
Qed.

Lemma ex_wire_memory : (loop_rep 1 9 ex_tree ∗ timer_of 16 (MkTimer 100 5000 3 7 16) ex_tree
    (T RBBLK E 32 (ex_timer 32 200) (T RBRED E 48 (ex_timer 48 300) E)) ∗
  event_rep 16 ex_event ∗ ring 200 ([] ++ 16 :: [32; 48]))%I ex_memory.
Proof.
  assert (loop_rep 1 9 ex_tree ∗ event_rep 16 ex_event ∗ ring 200 [16; 32; 48] ⊢
    loop_rep 1 9 ex_tree ∗ timer_of 16 (MkTimer 100 5000 3 7 16) ex_tree
      (T RBBLK E 32 (ex_timer 32 200) (T RBRED E 48 (ex_timer 48 300) E)) ∗
    event_rep 16 ex_event ∗ ring 200 ([] ++ 16 :: [32; 48]))%I as [Hp]; [|apply Hp, ex_memory_holds].
  iIntros "($ & $ & $)". iLeft. iPureIntro. split; [done|].
  exists RBRED, E, E, [Fr L RBBLK 32 (ex_timer 32 200) (T RBRED E 48 (ex_timer 48 300) E)].
  split; [done|]. split; [by left|done].
Qed.

Lemma ex_wire_takes : takes (length ex_text) [10; length ex_text - 10]%nat.
Proof. by_compute. Qed.

Lemma request_answered_witness : exists h' r',
  read_data 9 CaskThm.ex_table (call_route 9 CaskThm.ex_file) 16 (World ex_memory ex_wire) =
    Val (tt, World h' r') /\
  sent_on 5 (trace r') = ex_text /\ good 4 [[7; 8]; bytes_of "hello"] (store r').
Proof.
  pose proof (request_answered 9 CaskThm.ex_file CaskThm.ex_zeros CaskThm.ex_table 16 (ex_idle 5)
    (MkWorker 0 3 true 3 1) 9 ex_tree (T RBBLK E 32 (ex_timer 32 200) (T RBRED E 48 (ex_timer 48 300) E))
    (MkTimer 100 5000 3 7 16) ex_event 200 [] [32; 48] ex_wire HTTP_METHOD_POST [47] HTTP_VERSION_11
    ex_headers (bytes_of "hello") 4 [[7; 8]] [10; length ex_text - 10]%nat []) as H0.
  destruct (wtriple_run _ _ _ _ ex_memory (H0 ltac:(done) ltac:(by vm_compute) ltac:(by split)
    ex_wire_arrives CaskThm.ex_good CaskThm.ex_room ex_worker ex_rb_ok ex_ordered ex_fuel' ex_later
    (Forall_nil_2 _) eq_refl ex_wire_takes eq_refl ltac:(by_compute)) ex_wire_memory)
    as ([] & h' & r' & H & t3 & h1 & h2 & _ & _ & _ & _ & Hg & Hs & _).
  exists h', r'. split; [exact H|]. split; [exact Hs|exact Hg].
Defined.
End AnswerThm.
