(* ===== verification/Session.v ===== *)
(** What a worker promises to its clients, as a transition system: the
    connections it holds, what it still has to send on each, the pastes, and what
    has gone out on the wire.

    Module [Session] has the abstract worker: its states ([server]), what can
    happen to it ([input]) and the step relation; SessionSpec.v relates its states
    to worlds, SessionThm.v proves that event_base_iter takes these steps. *)
From S2P Require Import Prelude Http Request RequestSpec Timer World Event Connection ReadSpec SendSpec.
From S2P Require Import FileMap Store CaskSpec.
Import Http Request ParserSpec Event Connection.

Module Session.

(** ** States *)

(** A connection: the structure at [a_id], its descriptor and its keep-alive
    flag; the bytes of the answer that send has not taken (none: it waits for a
    request); when its timer was armed. *)
Record aconn := AConn {
  a_id : ptr;
  a_fd : Z;
  a_flags : Z;
  a_unsent : list Z;
  a_armed : Z;
}.

#[export] Instance aconn_eq_dec : EqDecision aconn.
Proof. solve_decision. Defined.

(** When the connection times out. *)
Definition a_due (a : aconn) : Z := Timer.trigger_at (a_armed a) TIMEOUT.

Definition a_kept (a : aconn) : bool := negb (Z.land (a_flags a) CONNECTION_FLAG_KEEPALIVE =? 0).

(** The connections in the order of their arrival, the pastes in that of their
    ids, and what has been sent, each time on which descriptor. *)
Record server := Server {
  s_conns : list aconn;
  s_pastes : list (list Z);
  s_wire : list (Z * list Z);
}.

(** What has been sent on a descriptor. *)
Definition wire_on (fd : Z) (log : list (Z * list Z)) : list Z :=
  concat (omap (fun p => if fst p =? fd then Some (snd p) else None) log).

Lemma wire_on_app fd l1 l2 : wire_on fd (l1 ++ l2) = wire_on fd l1 ++ wire_on fd l2.
Proof. unfold wire_on. by rewrite omap_app, concat_app. Qed.

Lemma wire_on_one fd fd' bs : wire_on fd [(fd', bs)] = if fd' =? fd then bs else [].
Proof. unfold wire_on. cbn. destruct (fd' =? fd); cbn; [apply app_nil_r|done]. Qed.

(** ** What happens *)

(** A request. *)
Record query := Query {
  q_method : http_method;
  q_uri : list Z;
  q_version : http_version;
  q_headers : list header_text;
  q_body : list Z;
}.

Definition q_text (q : query) : list Z :=
  render (q_method q) (q_uri q) (q_version q) (q_headers q) (q_body q).

Record q_ok (q : query) : Prop := {
  q_wf : request_ok (q_method q) (q_uri q) (q_version q) (q_headers q) (q_body q);
  q_len : Z.of_nat (length (q_text q)) + READ_CHUNK < 2 ^ 31;
}.

(** How a turn of sending ends: with the last byte, where send would block, or
    with another error, but not EPIPE, which ends the process. *)
Inductive ending := AllSent | WouldBlock | SendFails (errno : Z).

(** A client connects, on descriptor [fd]; a client asks, in pieces [chunks], and
    its answer goes out in pieces of [ns] bytes; there is room to send again; while a
    request is waited for, a client goes away or sends what is not one, [chunks] and then
    [ans]; an event without the flag waited for.
    The clock readings are those the reaction takes. *)
Inductive input :=
  | Connects (fd : Z) (t : Timer.timespec)
  | Asks (c : ptr) (q : query) (chunks : list (list Z)) (t : Timer.timespec)
      (ns : list nat) (e : ending) (ts : list Timer.timespec)
  | Drains (c : ptr) (ns : list nat) (e : ending) (ts : list Timer.timespec)
  | Drops (c : ptr) (chunks : list (list Z)) (ans : recv_result)
  | Breaks (c : ptr).

(** The pieces that recv may give. *)
Definition pieces_ok (chunks : list (list Z)) : Prop :=
  Forall (fun bs => (0 < length bs)%nat /\ Z.of_nat (length bs) <= READ_CHUNK) chunks.

(** What send takes of [text] when the turn ends with [e]. *)
Definition turn_ok (text : list Z) (ns : list nat) (e : ending) : Prop :=
  takes (length text) ns /\
  match e with
  | AllSent => sum_list ns = length text
  | WouldBlock => (sum_list ns < length text)%nat
  | SendFails errno => (sum_list ns < length text)%nat /\ errno <> EAGAIN /\ errno <> EPIPE
  end.

(** What becomes of a connection that had [text] to send; [ts] are the readings of
    the clock for that. *)
Inductive settles (a : aconn) (text : list Z) (ns : list nat) : ending -> list Timer.timespec -> option aconn -> Prop :=
  | settles_kept t : a_kept a = true ->
      settles a text ns AllSent [t] (Some (AConn (a_id a) (a_fd a) (a_flags a) [] (Timer.get_time t)))
  | settles_closed : a_kept a = false -> settles a text ns AllSent [] None
  | settles_blocked : settles a text ns WouldBlock []
      (Some (AConn (a_id a) (a_fd a) (a_flags a) (drop (sum_list ns) text) (a_armed a)))
  | settles_failed errno : settles a text ns (SendFails errno) [] None.

Lemma settles_unsent a u text ns e ts after : settles a text ns e ts after ->
  settles (AConn (a_id a) (a_fd a) (a_flags a) u (a_armed a)) text ns e ts after.
Proof.
  set (a' := AConn _ _ _ _ _). intros [t H|H| |errno].
  - exact (settles_kept a' text ns t H).
  - exact (settles_closed a' text ns H).
  - exact (settles_blocked a' text ns).
  - exact (settles_failed a' text ns errno).
Qed.

(** The reply to a request; its text, on a connection with these flags, and the
    pastes after it. *)
Definition q_reply (f : File.file) (ps : list (list Z)) (q : query) : CaskSpec.answer * list (list Z) :=
  CaskSpec.reply f ps (q_method q) (q_uri q) (CaskSpec.sent_body (q_headers q) (q_body q)).
Definition respond (f : File.file) (ps : list (list Z)) (flags : Z) (q : query) : list Z * list (list Z) :=
  let answer := q_reply f ps q in
  (response_text (q_version q) (fst (fst answer))
     (negb (Z.land (keepalive (q_version q) flags) CONNECTION_FLAG_KEEPALIVE =? 0)) (snd (fst answer)),
   snd answer).

(** ** Steps

    [nb] is the number of buckets of the database, [f] the index file, [cap] the most
    connections at a time.  An event comes with the flags epoll_wait reports. *)
Section steps.
Variable f : File.file.
Variable nb : nat.
Variable cap : nat.

Inductive step : Z * input -> server -> server -> Prop :=
  | step_connect m c fd t conns ps wire :
      Z.land m EPOLLIN <> 0 -> 0 <= fd -> (length conns < cap)%nat -> c ∉ a_id <$> conns ->
      step (m, Connects fd t) (Server conns ps wire)
        (Server (conns ++ [AConn c fd 0 [] (Timer.get_time t)]) ps wire)
  | step_ask m l1 a l2 ps wire q chunks t ns e ts after :
      let answer := respond f ps (a_flags a) q in
      let a1 := AConn (a_id a) (a_fd a) (keepalive (q_version q) (a_flags a)) [] (Timer.get_time t) in
      Z.land m EPOLLIN <> 0 -> a_unsent a = [] ->
      q_ok q -> concat chunks = q_text q -> pieces_ok chunks ->
      room nb (snd answer) ->
      turn_ok (fst answer) ns e -> settles a1 (fst answer) ns e ts after ->
      step (m, Asks (a_id a) q chunks t ns e ts) (Server (l1 ++ a :: l2) ps wire)
        (Server (l1 ++ option_list after ++ l2) (snd answer)
           (wire ++ [(a_fd a, take (sum_list ns) (fst answer))]))
  | step_drain m l1 a l2 ps wire ns e ts after :
      Z.land m EPOLLOUT <> 0 -> a_unsent a <> [] ->
      turn_ok (a_unsent a) ns e -> settles a (a_unsent a) ns e ts after ->
      step (m, Drains (a_id a) ns e ts) (Server (l1 ++ a :: l2) ps wire)
        (Server (l1 ++ option_list after ++ l2) ps (wire ++ [(a_fd a, take (sum_list ns) (a_unsent a))]))
  | step_drop m l1 a l2 ps wire chunks ans :
      Z.land m EPOLLIN <> 0 -> a_unsent a = [] ->
      Z.of_nat (length (concat chunks)) + READ_CHUNK < 2 ^ 31 -> pieces_ok chunks ->
      unanswered (concat chunks) ans ->
      step (m, Drops (a_id a) chunks ans) (Server (l1 ++ a :: l2) ps wire) (Server (l1 ++ l2) ps wire)
  | step_break m l1 a l2 ps wire :
      Z.land m (match a_unsent a with [] => EPOLLIN | _ => EPOLLOUT end) = 0 ->
      step (m, Breaks (a_id a)) (Server (l1 ++ a :: l2) ps wire) (Server (l1 ++ l2) ps wire).

(** Several events, one after the other. *)
Inductive steps : list (Z * input) -> server -> server -> Prop :=
  | steps_nil s : steps [] s s
  | steps_cons i ins s1 s2 s3 : step i s1 s2 -> steps ins s2 s3 -> steps (i :: ins) s1 s3.

(** Events that can come one after the other, whatever structure a connection gets. *)
Inductive admits : list (Z * input) -> server -> Prop :=
  | admits_nil s : admits [] s
  | admits_cons i ins s s1 : step i s s1 -> (forall s2, step i s s2 -> admits ins s2) -> admits (i :: ins) s.

(** The connections that are due at [now] time out. *)
Definition expire (now : Z) (s : server) : server :=
  Server (filter (fun a => now < a_due a) (s_conns s)) (s_pastes s) (s_wire s).

(** A round: the reading of the clock when it begins, then the events. *)
Definition round (t : Timer.timespec) (ins : list (Z * input)) (s1 s2 : server) : Prop :=
  steps ins (expire (Timer.get_time t) s1) s2.

(** Rounds, one after the other. *)
Inductive rounds : list (Timer.timespec * list (Z * input)) -> server -> server -> Prop :=
  | rounds_nil s : rounds [] s s
  | rounds_cons t ins log s1 s2 s3 : round t ins s1 s2 -> rounds log s2 s3 -> rounds ((t, ins) :: log) s1 s3.

(** Rounds whose events can happen, whatever structures the connections get. *)
Inductive playable : list (Timer.timespec * list (Z * input)) -> server -> Prop :=
  | playable_nil s : playable [] s
  | playable_cons t ins log s : admits ins (expire (Timer.get_time t) s) ->
      (forall s', round t ins s s' -> playable log s') -> playable ((t, ins) :: log) s.

(** ** The answers of a connection

    [answers c fl ps ins] are the texts that answer the requests of connection [c]
    among [ins], in order, when its flags are [fl] and the pastes [ps] at the start. *)
Definition flags_after (c : ptr) (fl : Z) (i : Z * input) : Z :=
  match snd i with
  | Asks c' q _ _ _ _ _ => if c' =? c then keepalive (q_version q) fl else fl
  | _ => fl
  end.
Definition pastes_after (ps : list (list Z)) (i : Z * input) : list (list Z) :=
  match snd i with Asks _ q _ _ _ _ _ => snd (q_reply f ps q) | _ => ps end.
Definition answer_to (c : ptr) (fl : Z) (ps : list (list Z)) (i : Z * input) : list Z :=
  match snd i with
  | Asks c' q _ _ _ _ _ => if c' =? c then fst (respond f ps fl q) else []
  | _ => []
  end.
Fixpoint answers (c : ptr) (fl : Z) (ps : list (list Z)) (ins : list (Z * input)) : list Z :=
  match ins with
  | [] => []
  | i :: ins => answer_to c fl ps i ++ answers c (flags_after c fl i) (pastes_after ps i) ins
  end.

(** [a] is the only connection on descriptor [fd]; there is none. *)
Definition sole (fd : Z) (a : aconn) (s : server) : Prop :=
  a ∈ s_conns s /\ a_fd a = fd /\ forall b, b ∈ s_conns s -> a_fd b = fd -> b = a.
Definition nobody (fd : Z) (s : server) : Prop := forall b, b ∈ s_conns s -> a_fd b <> fd.
Definition not_connecting (fd : Z) (i : Z * input) : Prop :=
  match snd i with Connects fd' _ => fd' <> fd | _ => True end.

(** What the client of [a] has been sent and is still to get. *)
Definition stream (fd : Z) (a : aconn) (s : server) : list Z := wire_on fd (s_wire s) ++ a_unsent a.

(** [s'] is [s] with [b'], if anything, in the place of connection [b], and [bs]
    sent on its descriptor. *)
Record becomes (b : aconn) (b' : option aconn) (bs : list Z) (s s' : server) : Prop := {
  be_conns : exists l1 l2, s_conns s = l1 ++ b :: l2 /\ s_conns s' = l1 ++ option_list b' ++ l2;
  be_same : match b' with Some b' => a_id b' = a_id b /\ a_fd b' = a_fd b | None => True end;
  be_wire : forall fd, wire_on fd (s_wire s') = wire_on fd (s_wire s) ++ if a_fd b =? fd then bs else [];
}.

Lemma becomes_ids b b' bs s s' : becomes b b' bs s s' -> NoDup (a_id <$> s_conns s) -> NoDup (a_id <$> s_conns s').
Proof.
  intros [(l1 & l2 & -> & ->) Hs _] Hnd. rewrite fmap_app, fmap_cons in Hnd.
  destruct b' as [b'|].
  - change (option_list (Some b') ++ l2) with (b' :: l2). rewrite fmap_app, fmap_cons. by destruct Hs as [-> _].
  - rewrite fmap_app. eapply sublist_NoDup; [exact Hnd|]. apply sublist_app; [done|]. by apply sublist_cons.
Qed.

(** For a connection that is alone on its descriptor. *)
Lemma becomes_sole b b' bs s s' fd a : becomes b b' bs s s' -> NoDup (a_id <$> s_conns s) -> sole fd a s ->
  (a_id b = a_id a /\ b = a /\
     match b' with
     | Some a' => sole fd a' s' /\ stream fd a' s' = wire_on fd (s_wire s) ++ bs ++ a_unsent a'
     | None => nobody fd s'
     end) \/
  (a_id b <> a_id a /\ sole fd a s' /\ stream fd a s' = stream fd a s).
Proof.
  intros [(l1 & l2 & E1 & E2) Hs Hw] Hnd (Hin & Hfd & Hall). rewrite E1 in Hnd, Hin, Hall.
  unfold sole, stream, nobody. rewrite E2, Hw. destruct (decide (b = a)) as [->|Hne].
  - left. split; [done|]. split; [done|]. rewrite Hfd, Z.eqb_refl.
    assert (forall x, x ∈ l1 ++ l2 -> a_fd x <> fd) as Hothers.
    { intros x Hx Efd. assert (x = a) as -> by (apply Hall; set_solver).
      rewrite fmap_app, fmap_cons, <- Permutation_middle in Hnd. apply NoDup_cons in Hnd as [Hnot _].
      apply Hnot. rewrite <- fmap_app. by apply list_elem_of_fmap_2. }
    destruct b' as [a'|]; [|done]. change (option_list (Some a') ++ l2) with (a' :: l2).
    split; [|by rewrite (assoc_L (++))]. split; [set_solver|]. destruct Hs as [_ Hs]. split; [by rewrite Hs|].
    intros x Hx Efd. apply elem_of_app in Hx as [Hx|[->|Hx]%elem_of_cons]; [|done|];
      by destruct (Hothers x); [set_solver|].
  - right. assert (a ∈ l1 ++ l2) as Ha by set_solver.
    assert (a_id b <> a_id a) as Hid.
    { intros E. rewrite fmap_app, fmap_cons, <- Permutation_middle in Hnd. apply NoDup_cons in Hnd as [Hnot _].
      apply Hnot. rewrite <- fmap_app, E. by apply list_elem_of_fmap_2. }
    assert (a_fd b <> fd) as Hbfd. { intros E. apply Hne, Hall; [set_solver|done]. }
    replace (a_fd b =? fd) with false by zlia. rewrite app_nil_r. split; [done|]. split; [|done].
    split; [set_solver|]. split; [done|]. intros x Hx Efd.
    apply elem_of_app in Hx as [Hx|[Hx|Hx]%elem_of_app]; [apply Hall; set_solver| |apply Hall; set_solver].
    destruct b' as [b'|]; [|by apply elem_of_nil in Hx]. apply list_elem_of_singleton in Hx as ->.
    destruct Hs as [_ Hs]. congruence.
Qed.

(** What a turn of sending leaves. *)
Lemma settles_rest a text ns e ts after : turn_ok text ns e -> settles a text ns e ts after ->
  match after with
  | Some a' => a_id a' = a_id a /\ a_fd a' = a_fd a /\ a_flags a' = a_flags a /\
               a_unsent a' = drop (sum_list ns) text
  | None => True
  end.
Proof.
  intros [_ Ht] Hset. destruct Hset; try done. cbn. by rewrite Ht, drop_all.
Qed.

(** What a step does to the connections: one more, or another in the place of one. *)
Lemma step_shape i s s' : step i s s' ->
  (exists fd t c, snd i = Connects fd t /\ ~ (c ∈ a_id <$> s_conns s) /\
     s_conns s' = s_conns s ++ [AConn c fd 0 [] (Timer.get_time t)] /\
     s_wire s' = s_wire s /\ s_pastes s' = s_pastes s) \/
  (exists b b' bs, becomes b b' bs s s' /\ s_pastes s' = pastes_after (s_pastes s) i /\
     (forall a, a_id b <> a_id a -> answer_to (a_id a) (a_flags a) (s_pastes s) i = [] /\
        flags_after (a_id a) (a_flags a) i = a_flags a) /\
     match b' with
     | Some b' => a_flags b' = flags_after (a_id b) (a_flags b) i /\
         bs ++ a_unsent b' = a_unsent b ++ answer_to (a_id b) (a_flags b) (s_pastes s) i
     | None => True
     end).
Proof.
  intros Hstep. destruct Hstep as [m c fd t conns ps wire Hm Hfd Hl Hc
    |m l1 b l2 ps wire q chunks t ns e ts after ans a1 Hm Hun Hq Hch Hpc Hroom Hturn Hset
    |m l1 b l2 ps wire ns e ts after Hm Hun Hturn Hset
    |m l1 b l2 ps wire chunks ans Hm Hun Hlen Hpc Hgone
    |m l1 b l2 ps wire Hm]; [left; by exists fd, t, c|right..].
  - pose proof (settles_rest _ _ _ _ _ _ Hturn Hset) as Hrest.
    exists b, after, (take (sum_list ns) (fst ans)). split; [|split; [done|split]].
    + split; [by exists l1, l2|destruct after; [by destruct Hrest as (-> & -> & _)|done]|].
      intros fd. cbn [s_wire]. by rewrite wire_on_app, wire_on_one.
    + intros a Hne. unfold answer_to, flags_after. cbn. by replace (a_id b =? a_id a) with false by zlia.
    + destruct after as [a'|]; [|done]. destruct Hrest as (_ & _ & -> & ->).
      unfold answer_to, flags_after. cbn. rewrite Z.eqb_refl, Hun. split; [done|]. apply take_drop.
  - pose proof (settles_rest _ _ _ _ _ _ Hturn Hset) as Hrest.
    exists b, after, (take (sum_list ns) (a_unsent b)). split; [|split; [done|split; [done|]]].
    + split; [by exists l1, l2|destruct after; [by destruct Hrest as (-> & -> & _)|done]|].
      intros fd. cbn [s_wire]. by rewrite wire_on_app, wire_on_one.
    + destruct after as [a'|]; [|done]. destruct Hrest as (_ & _ & -> & ->). split; [done|].
      rewrite take_drop. symmetry. apply app_nil_r.
  - exists b, None, []. split; [|done]. split; [by exists l1, l2|done|].
    intros fd. cbn. destruct (_ =? _); by rewrite app_nil_r.
  - exists b, None, []. split; [|done]. split; [by exists l1, l2|done|].
    intros fd. cbn. destruct (_ =? _); by rewrite app_nil_r.
Qed.

Lemma step_keeps i s s' : NoDup (a_id <$> s_conns s) -> step i s s' ->
  NoDup (a_id <$> s_conns s') /\ s_pastes s' = pastes_after (s_pastes s) i.
Proof.
  intros Hnd [(fd & t & c & Hi & Hc & -> & _ & ->)|(b & b' & bs & Hb & Hps & _)]%step_shape.
  - split; [|unfold pastes_after; by rewrite Hi]. rewrite fmap_app. apply NoDup_app. split; [done|].
    split; [|apply NoDup_singleton]. intros x Hx ->%list_elem_of_singleton. done.
  - split; [by eapply becomes_ids|done].
Qed.

(** A step, seen by the client on [fd]. *)
Lemma step_stream i s s' fd a : NoDup (a_id <$> s_conns s) -> step i s s' -> not_connecting fd i -> sole fd a s ->
  (exists a', sole fd a' s' /\ a_id a' = a_id a /\ a_flags a' = flags_after (a_id a) (a_flags a) i /\
     stream fd a' s' = stream fd a s ++ answer_to (a_id a) (a_flags a) (s_pastes s) i) \/ nobody fd s'.
Proof.
  intros Hnd Hstep Hnc Hs.
  apply step_shape in Hstep as [(fd' & t & c & Hi & Hc & E & Ew & _)|(b & b' & bs & Hb & _ & Hother & Hb')].
  - left. exists a. unfold not_connecting, answer_to, flags_after, stream, sole in *. rewrite Hi in *.
    rewrite E, Ew, app_nil_r. destruct Hs as (Hin & Hfd & Hall). split_and!; try done.
    + apply elem_of_app. by left.
    + intros x [Hx|Hx%list_elem_of_singleton]%elem_of_app Efd; [by apply Hall|]. by subst x.
  - destruct (becomes_sole _ _ _ _ _ _ _ Hb Hnd Hs) as [(_ & -> & H)|(Hid & H1 & H2)].
    + destruct b' as [a'|]; [|by right]. left. exists a'. destruct H as [H Hst], Hb' as [Hf Hu].
      split_and!; [done|apply (be_same _ _ _ _ _ Hb)|done|]. rewrite Hst, Hu. unfold stream.
      by rewrite (assoc_L (++)).
    + left. destruct (Hother a Hid) as [-> ->]. exists a. by rewrite app_nil_r.
Qed.

Lemma nobody_step i s s' fd : step i s s' -> not_connecting fd i -> nobody fd s -> nobody fd s'.
Proof.
  intros Hstep Hnc Hno.
  apply step_shape in Hstep as [(fd' & t & c & Hi & Hc & E & _)|(b & b' & bs & [(l1 & l2 & E1 & E2) Hsame _] & _)].
  - unfold not_connecting in Hnc. rewrite Hi in Hnc. intros x Hx. rewrite E in Hx.
    apply elem_of_app in Hx as [Hx|Hx%list_elem_of_singleton]; [by apply Hno|by subst x].
  - unfold nobody in *. rewrite E1 in Hno. rewrite E2. intros x Hx.
    apply elem_of_app in Hx as [Hx|[Hx|Hx]%elem_of_app]; [apply Hno; set_solver| |apply Hno; set_solver].
    destruct b' as [b'|]; [|by apply elem_of_nil in Hx]. apply list_elem_of_singleton in Hx as ->.
    destruct Hsame as [_ ->]. apply Hno. set_solver.
Qed.

Lemma steps_nobody ins : forall s s' fd, steps ins s s' -> Forall (not_connecting fd) ins -> nobody fd s ->
  nobody fd s'.
Proof.
  induction ins as [|i ins IH]; intros s s' fd Hsteps Hnc Hno; inversion Hsteps; subst; [done|].
  apply Forall_cons in Hnc as [? Hnc]. eapply IH; [done..|]. by eapply nobody_step.
Qed.

(** Any number of steps, and of rounds. *)
Lemma steps_stream ins : forall s s' fd a, NoDup (a_id <$> s_conns s) -> steps ins s s' ->
  Forall (not_connecting fd) ins -> sole fd a s ->
  (exists a', sole fd a' s' /\ a_id a' = a_id a /\
     a_flags a' = foldl (flags_after (a_id a)) (a_flags a) ins /\
     stream fd a' s' = stream fd a s ++ answers (a_id a) (a_flags a) (s_pastes s) ins) \/ nobody fd s'.
Proof.
  induction ins as [|i ins IH]; intros s s' fd a Hnd Hsteps Hnc Hs; inversion Hsteps as [|i' ins' s1 s2 s3 H1 H2]; subst.
  - left. exists a. cbn. by rewrite app_nil_r.
  - apply Forall_cons in Hnc as [Hnc1 Hnc]. destruct (step_keeps _ _ _ Hnd H1) as [Hnd2 Hps].
    destruct (step_stream _ _ _ _ _ Hnd H1 Hnc1 Hs) as [(a2 & Hs2 & Hid & Hf & Hst)|Hno].
    + destruct (IH _ _ _ _ Hnd2 H2 Hnc Hs2) as [(a3 & Hs3 & Hid3 & Hf3 & Hst3)|]; [|by right].
      left. exists a3. split_and!; [done|congruence| |].
      * rewrite Hf3, Hid, Hf. done.
      * rewrite Hst3, Hst, Hid, Hf, Hps. cbn [answers]. by rewrite (assoc_L (++)).
    + right. by eapply steps_nobody.
Qed.

Lemma steps_keep ins : forall s s', NoDup (a_id <$> s_conns s) -> steps ins s s' ->
  NoDup (a_id <$> s_conns s') /\ s_pastes s' = foldl pastes_after (s_pastes s) ins.
Proof.
  induction ins as [|i ins IH]; intros s s' Hnd Hsteps; inversion Hsteps; subst; [done|].
  cbn [foldl]. edestruct step_keeps as [Hnd1 <-]; [done..|]. by apply IH.
Qed.

Lemma expire_ids now s : NoDup (a_id <$> s_conns s) -> NoDup (a_id <$> s_conns (expire now s)).
Proof. intros H. cbn. eapply sublist_NoDup; [exact H|]. apply fmap_sublist, sublist_filter. Qed.

(** All the events of some rounds. *)
Definition all_events (log : list (Timer.timespec * list (Z * input))) : list (Z * input) := concat (snd <$> log).

Lemma answers_app c fl ps ins1 ins2 : answers c fl ps (ins1 ++ ins2) =
  answers c fl ps ins1 ++ answers c (foldl (flags_after c) fl ins1) (foldl pastes_after ps ins1) ins2.
Proof.
  revert fl ps. induction ins1 as [|i ins1 IH]; intros fl ps; [done|].
  cbn [app answers foldl]. by rewrite IH, (assoc_L (++)).
Qed.

Lemma rounds_nobody log : forall s s' fd, rounds log s s' -> Forall (not_connecting fd) (all_events log) ->
  nobody fd s -> nobody fd s'.
Proof.
  induction log as [|[t ins] log IH]; intros s s' fd Hr Hnc Hno; inversion Hr as [|t' ins' log' s1 s2 s3 H1 H2]; subst; [done|].
  unfold all_events in Hnc. cbn in Hnc. apply Forall_app in Hnc as [Hnc1 Hnc].
  eapply IH; [done..|]. eapply steps_nobody; [done..|]. intros b [_ Hb]%list_elem_of_filter. by apply Hno.
Qed.

(** The answers of a connection go out in the order of its requests, each once; what
    has not gone out is still to be sent; nothing else is sent on its descriptor. *)
Lemma rounds_stream log : forall s s' fd a, NoDup (a_id <$> s_conns s) -> rounds log s s' ->
  Forall (not_connecting fd) (all_events log) -> sole fd a s ->
  (exists a', sole fd a' s' /\ a_id a' = a_id a /\
     stream fd a' s' = stream fd a s ++ answers (a_id a) (a_flags a) (s_pastes s) (all_events log)) \/ nobody fd s'.
Proof.
  induction log as [|[t ins] log IH]; intros s s' fd a Hnd Hr Hnc Hs; inversion Hr as [|t' ins' log' s1 s2 s3 H1 H2]; subst.
  - left. exists a. cbn. by rewrite app_nil_r.
  - unfold all_events in *. cbn [fmap list_fmap snd concat] in *. apply Forall_app in Hnc as [Hnc1 Hnc].
    pose proof (expire_ids (Timer.get_time t) s Hnd) as Hnd1. destruct (steps_keep _ _ _ Hnd1 H1) as [Hnd2 Hps].
    destruct Hs as (Hin & Hfd & Hall). destruct (decide (Timer.get_time t < a_due a)) as [Hdue|Hdue].
    + assert (sole fd a (expire (Timer.get_time t) s)) as Hs1.
      { split; [by apply list_elem_of_filter|]. split; [done|]. intros b [_ Hb]%list_elem_of_filter. by apply Hall. }
      destruct (steps_stream _ _ _ _ _ Hnd1 H1 Hnc1 Hs1) as [(a2 & Hs2 & Hid & Hf & Hst)|Hno].
      * destruct (IH _ _ _ _ Hnd2 H2 Hnc Hs2) as [(a3 & Hs3 & Hid3 & Hst3)|]; [|by right].
        left. exists a3. split_and!; [done|congruence|].
        rewrite Hst3, Hst, Hid, Hf, Hps, answers_app. by rewrite (assoc_L (++)).
      * right. by eapply rounds_nobody.
    + right. eapply rounds_nobody; [done..|]. eapply steps_nobody; [done..|].
      intros b [Hb Hbin]%list_elem_of_filter Efd. by rewrite (Hall b Hbin Efd) in Hb.
Qed.

End steps.

(** ** The answers the outside gives *)

(** Those of recv, send, the clock and accept. *)
Record supply := Supply {
  p_recvs : list recv_result;
  p_sends : list send_result;
  p_clock : list Timer.timespec;
  p_accepts : list Z;
}.

Definition no_supply : supply := Supply [] [] [] [].
Definition join_supply (p1 p2 : supply) : supply :=
  Supply (p_recvs p1 ++ p_recvs p2) (p_sends p1 ++ p_sends p2) (p_clock p1 ++ p_clock p2)
    (p_accepts p1 ++ p_accepts p2).

Lemma join_supply_assoc p1 p2 p3 :
  join_supply (join_supply p1 p2) p3 = join_supply p1 (join_supply p2 p3).
Proof. unfold join_supply. cbn. by rewrite <- !(assoc_L (++)). Qed.

(** What send answers in a turn. *)
Definition turn_answers (ns : list nat) (e : ending) : list send_result :=
  (Sent <$> ns) ++ match e with AllSent => [] | WouldBlock => [SendErr EAGAIN] | SendFails errno => [SendErr errno] end.

Definition supply_of (i : input) : supply :=
  match i with
  | Connects fd t => Supply [] [] [t] [fd]
  | Asks _ _ chunks t ns e ts =>
      Supply ((RecvData <$> chunks) ++ [RecvErr EAGAIN]) (turn_answers ns e) (t :: ts) []
  | Drains _ ns e ts => Supply [] (turn_answers ns e) ts []
  | Drops _ chunks ans => Supply ((RecvData <$> chunks) ++ [ans]) [] [] []
  | Breaks _ => no_supply
  end.

Definition supplies (ins : list (Z * input)) : supply :=
  foldr (fun i p => join_supply (supply_of (snd i)) p) no_supply ins.

(** For some rounds: the clock is read first. *)
Definition supply_rounds (log : list (Timer.timespec * list (Z * input))) : supply :=
  foldr (fun rd p => let p := join_supply (supplies (snd rd)) p in
    Supply (p_recvs p) (p_sends p) (fst rd :: p_clock p) (p_accepts p)) no_supply log.

(** No call that can fail without a client's doing does. *)
Record benign (o : os) : Prop := {
  benign_ctls : Forall (fun ret => ret = 0) (ctls o);
  benign_allocs : Forall (fun a => a <> None) (allocs o);
  benign_callocs : Forall (fun ok => ok = true) (callocs o);
  benign_fcntls : Forall (fun ret => 0 <= ret) (fcntls o);
}.

(** The answers to come: [p], and nothing fails. *)
Record offers (p : supply) (o : os) : Prop := {
  offers_benign : benign o;
  offers_recvs : recvs o = p_recvs p;
  offers_sends : sends o = p_sends p;
  offers_clock : clock o = p_clock p;
  offers_accepts : accepts o = p_accepts p;
}.

(** The pointer that comes with an event, as it was registered: the connection, or
    the worker [w] for the listening socket. *)
Definition source (w : ptr) (i : input) : ptr :=
  match i with
  | Connects _ _ => w
  | Asks c _ _ _ _ _ _ | Drains c _ _ _ | Drops c _ _ | Breaks c => c
  end.
Definition reported (w : ptr) (ins : list (Z * input)) : list (Z * ptr) :=
  (fun i => (fst i, source w (snd i))) <$> ins.

(** The loops of read_data and send_data end within [fuel]. *)
Definition short (fuel : nat) (i : input) : Prop :=
  match i with
  | Connects _ _ | Breaks _ => True
  | Asks _ _ chunks _ ns _ _ => (length chunks < fuel)%nat /\ (length ns < fuel)%nat
  | Drains _ ns _ _ => (length ns < fuel)%nat
  | Drops _ chunks _ => (length chunks < fuel)%nat
  end.

End Session.
