(* ===== verification/SessionTimers.v ===== *)
(** The tree of timers of the abstract worker of Session.v.

    What happens to a worker puts timers of its connections into the tree and takes them
    out again ([ops_of]).  rbtree_delete takes out the timer it is asked for only from a
    node with at most one child; [move] is a step of the worker in which all its timers
    could be taken out, and [can_run] and [can_play] say that this holds all along.  With
    at most two connections it always does ([admits_can_run], [playable_can_play]). *)
From stdpp Require Import sorting.
From S2P Require Import Prelude Heap Rbtree RbtreeSpec RbtreeInv RbtreeDel RbtreeSearch Timer TimerSpec.
From S2P Require Import World Event EventSpec Connection ConnSpec FileMap Session.
Import Rep Timer Connection.

Module SessionTimers.
Import Session.

(** ** The timers of the connections *)

(** A connection's timer, and its entry in the tree. *)
Definition a_timer (a : aconn) : timer := armed (a_armed a) (idle_timer (a_id a)).
Definition a_entry (a : aconn) : ptr * list Z := (a_id a, members (a_timer a)).

(** A valid tree with these entries; with those of the connections. *)
Definition tree_of (es : list (ptr * list Z)) (t : tree) : Prop :=
  rb_ok t /\ ordered t /\ entries t ≡ₚ es.
Definition tree_ok (s : server) : tree -> Prop := tree_of (a_entry <$> s_conns s).

(** When the timer of [c] was armed. *)
Fixpoint armed_at (c : ptr) (l : list aconn) : Z :=
  match l with
  | [] => 0
  | a :: l => if a_id a =? c then a_armed a else armed_at c l
  end.

(** What the end of a turn of sending does to the timers, when that of [c] was armed at
    [now], and what a step from [s] to [s'] does. *)
Definition settle_ops (c : ptr) (now : Z) (e : ending) (ts : list timespec) : list timer_op :=
  match e, ts with
  | AllSent, t :: _ => [Disarm c (armed now (idle_timer c)); Arm c (armed (get_time t) (idle_timer c))]
  | WouldBlock, _ => []
  | _, _ => [Disarm c (armed now (idle_timer c))]
  end.
Definition ops_of (i : input) (s s' : server) : list timer_op :=
  match i with
  | Connects _ _ => match last (s_conns s') with Some a => [Arm (a_id a) (a_timer a)] | None => [] end
  | Asks c _ _ t _ e ts =>
      Disarm c (armed (armed_at c (s_conns s)) (idle_timer c)) :: Arm c (armed (get_time t) (idle_timer c)) ::
      settle_ops c (get_time t) e ts
  | Drains c _ e ts => settle_ops c (armed_at c (s_conns s)) e ts
  | Drops c _ _ | Breaks c => [Disarm c (armed (armed_at c (s_conns s)) (idle_timer c))]
  end.

(** What closing all connections, in the order of the list, does. *)
Definition stop_ops (l : list aconn) : list timer_op := (fun a => Disarm (a_id a) (a_timer a)) <$> l.

Lemma armed_at_focus l1 a l2 : NoDup (a_id <$> l1 ++ a :: l2) -> armed_at (a_id a) (l1 ++ a :: l2) = a_armed a.
Proof.
  induction l1 as [|b l1 IH]; cbn; [by rewrite Z.eqb_refl|].
  intros [Hnot Hnd]%NoDup_cons. destruct (Z.eqb_spec (a_id b) (a_id a)) as [E|]; [|by apply IH].
  destruct Hnot. rewrite E, fmap_app. set_solver.
Qed.

(** ** The tree after one operation *)
Lemma tree_of_perm es es' t : es ≡ₚ es' -> tree_of es t -> tree_of es' t.
Proof. intros Hp (Hrb & Ho & He). split_and!; [done|done|by rewrite He]. Qed.

Lemma tree_of_arm c m es t : tree_of es t -> tree_of ((c, members m) :: es) (rb_insert c (members m) t).
Proof.
  intros (Hrb & Ho & He). split_and!; [by apply rb_ok_insert|by apply ordered_insert|].
  destruct (entries_insert c (members m) t Ho) as (k1 & k2 & E1 & -> & _).
  rewrite <- Permutation_middle, <- E1. by f_equiv.
Qed.

Lemma tree_of_disarm c m es t t1 : tree_of ((c, members m) :: es) t -> removable c m t t1 -> tree_of es t1.
Proof.
  intros (Hrb & Ho & He) Hr. pose proof (ordered_removable _ _ _ _ Hrb Ho Hr) as Ho1.
  destruct (removable_entries _ _ _ _ Hrb Hr) as (Hrb1 & es1 & es2 & E & E1). split_and!; [done|done|].
  rewrite E, <- Permutation_middle in He. rewrite E1. by eapply Permutation_cons_inv.
Qed.

(** With at most two timers in the tree any of them can be taken out. *)
Lemma few_removable c m es t : tree_of ((c, members m) :: es) t -> (length es <= 1)%nat ->
  exists t1, removable c m t t1.
Proof.
  intros (Hrb & _ & He) Hl.
  assert ((c, members m) ∈ entries t) as Hin' by (rewrite He; by left).
  assert (length (entries t) <= 2)%nat as Hl' by (rewrite He; cbn; lia).
  apply list_elem_of_split in Hin' as (es1 & es2 & He').
  destruct (position _ _ _ _ _ He') as (col & l & r & k & -> & H1 & H2).
  assert (l = E \/ r = E) as Hlr.
  { rewrite He', length_app in Hl'. rewrite <- H1, <- H2 in Hl'. cbn in Hl'. rewrite !length_app in Hl'.
    destruct l as [|? ? ? ? ?]; [by left|]. destruct r as [|? ? ? ? ?]; [by right|].
    cbn in Hl'. rewrite !length_app in Hl'. cbn in Hl'. lia. }
  destruct (delete_at col l c (members m) r k) as [[t1 y] vy] eqn:Hd.
  destruct (delete_at_one _ _ _ _ _ _ _ _ _ Hlr Hrb Hd) as (-> & -> & Hrb1 & He1).
  exists t1. by exists col, l, r, k.
Qed.

(** *** Whether it can be done

    Where [c] is in the tree; the tree without it, if its node has at most one child; the
    tree after some operations. *)
Fixpoint locate (c : ptr) (t : tree) (k : path) : option (Z * tree * list Z * tree * path) :=
  match t with
  | E => None
  | T col l x v r =>
      if x =? c then Some (col, l, v, r, k)
      else match locate c l (Fr L col x v r :: k) with
           | Some z => Some z
           | None => locate c r (Fr R col x v l :: k)
           end
  end.
Definition take_out (c : ptr) (m : timer) (t : tree) : option tree :=
  match locate c t [] with
  | Some (col, l, v, r, k) =>
      if bool_decide (v = members m) then
        match l, r with
        | E, _ | _, E => Some (fst (fst (delete_at col l c v r k)))
        | _, _ => None
        end
      else None
  | None => None
  end.
Fixpoint replay (ops : list timer_op) (t : tree) : option tree :=
  match ops with
  | [] => Some t
  | Arm c m :: ops => replay ops (rb_insert c (members m) t)
  | Disarm c m :: ops => t1 ← take_out c m t; replay ops t1
  end.

Lemma locate_plug c t : forall k col l v r k', locate c t k = Some (col, l, v, r, k') ->
  plug t k = plug (T col l c v r) k'.
Proof.
  induction t as [|col0 l0 IHl x0 v0 r0 IHr]; intros k col l v r k' H; [done|]. cbn in H.
  destruct (Z.eqb_spec x0 c) as [->|_]; [by injection H as -> -> -> -> ->|].
  destruct (locate c l0 _) as [z|] eqn:El.
  - injection H as ->. by apply IHl in El.
  - by apply IHr in H.
Qed.

Lemma take_out_removable c m t t1 : take_out c m t = Some t1 -> removable c m t t1.
Proof.
  unfold take_out. destruct (locate c t []) as [[[[[col l] v] r] k]|] eqn:El; [|done].
  apply locate_plug in El. cbn [plug] in El. destruct (bool_decide_reflect (v = members m)) as [->|]; [|done].
  intros H. assert (l = E \/ r = E) as Hlr by (destruct l, r; (by left) || (by right) || done).
  exists col, l, r, k. split; [done|]. split; [done|].
  assert (Some (delete_at col l c (members m) r k).1.1 = Some t1) as [= <-] by (destruct l, r; done).
  by destruct l, r; destruct Hlr.
Qed.

Lemma replay_retimed ops : forall t t', replay ops t = Some t' -> retimed ops t t'.
Proof.
  induction ops as [|[c m|c m] ops IH]; intros t t'; cbn [replay].
  - intros [= <-]. constructor.
  - intros H. constructor. by apply IH.
  - destruct (take_out c m t) as [t1|] eqn:E; [|done]. intros H. econstructor; [by apply take_out_removable|by apply IH].
Qed.

(** ** The timers that are due *)

(** They are taken out in order. *)
Definition sweeps (now : Z) (t t' : tree) : Prop :=
  exists es1 es2, entries t = es1 ++ es2 /\ Forall (expired now) es1 /\
    Forall (fun e => ~ expired now e) es2 /\ swept es1 t t'.

Lemma swept_tree_of es1 t t' : swept es1 t t' -> forall es2, tree_of (es1 ++ es2) t -> tree_of es2 t'.
Proof.
  induction 1 as [t|c m es t t1 t' Hr _ IH]; intros es2 Ht; [done|].
  apply IH. by eapply tree_of_disarm.
Qed.

Lemma filter_same (P1 P2 : aconn -> Prop) `{!forall a, Decision (P1 a), !forall a, Decision (P2 a)} (l : list aconn) :
  (forall a, a ∈ l -> P1 a <-> P2 a) -> filter P1 l = filter P2 l.
Proof.
  induction l as [|a l IH]; intros Hl; [done|]. rewrite !filter_cons, IH by (intros b Hb; apply Hl; by right).
  specialize (Hl a (list_elem_of_here a l)). destruct (decide (P1 a)), (decide (P2 a)); tauto.
Qed.

(** The timers that have not expired are those of the connections that stay. *)
Lemma expire_entries now l (es1 es2 : list (ptr * list Z)) : NoDup (a_id <$> l) ->
  es1 ++ es2 ≡ₚ a_entry <$> l ->
  Forall (expired now) es1 -> Forall (fun e => ~ expired now e) es2 ->
  filter (fun a => a_id a ∉ fst <$> es1) l = filter (fun a => now < a_due a) l /\
  es2 ≡ₚ a_entry <$> filter (fun a => now < a_due a) l.
Proof.
  intros Hnd He H1 H2. rewrite Forall_forall in H1, H2.
  assert (forall a, a ∈ l -> a_id a ∈ fst <$> es1 <-> expired now (a_entry a)) as Hin.
  { intros a Ha. split.
    - intros (e & Ee & Hein)%list_elem_of_fmap. assert (e ∈ a_entry <$> l) as Hl.
      { rewrite <- He. apply elem_of_app. by left. }
      apply list_elem_of_fmap in Hl as (b & -> & Hb). cbn in Ee.
      assert (a = b) as ->; [|by apply H1].
      apply list_elem_of_lookup in Ha as [i Hi]. apply list_elem_of_lookup in Hb as [j Hj].
      assert (i = j) as ->; [|congruence].
      eapply (NoDup_lookup (a_id <$> l)); [done| |]; rewrite list_lookup_fmap, ?Hi, ?Hj; cbn; by rewrite ?Ee.
    - intros Hdue. assert (a_entry a ∈ es1 ++ es2) as [Hi|Hi]%elem_of_app.
      { rewrite He. by apply list_elem_of_fmap_2. }
      + by apply (list_elem_of_fmap_2 fst) in Hi.
      + by apply H2 in Hi. }
  assert (forall a, expired now (a_entry a) <-> ~ now < a_due a) as Hdue.
  { intros a. unfold expired. change (node_key (snd (a_entry a))) with (a_due a). lia. }
  split.
  - apply filter_same. intros a Ha. rewrite (Hin a Ha), Hdue. destruct (decide (now < a_due a)); tauto.
  - set (P := fun e : ptr * list Z => now < node_key (snd e)).
    assert (forall k : list aconn, filter P (a_entry <$> k) = a_entry <$> filter (fun a => now < a_due a) k) as Hf.
    { induction k as [|a k IH]; [done|]. rewrite fmap_cons, !filter_cons, IH.
      change (P (a_entry a)) with (now < a_due a). by destruct (decide _). }
    rewrite <- Hf, <- He, filter_app.
    assert (filter P es1 = [] /\ filter P es2 = es2) as [-> ->]; [|done]. split.
    + clear -H1. induction es1 as [|e es1 IH]; [done|]. rewrite filter_cons_False, IH; [done| |].
      * intros x Hx. apply H1. by right.
      * specialize (H1 e (list_elem_of_here _ _)). unfold P, expired in *. lia.
    + clear -H2. induction es2 as [|e es2 IH]; [done|]. rewrite filter_cons_True, IH; [done| |].
      * intros x Hx. apply H2. by right.
      * specialize (H2 e (list_elem_of_here _ _)). unfold P, expired in *. lia.
Qed.

Lemma sweeps_tree_ok now s t t' : NoDup (a_id <$> s_conns s) -> tree_ok s t -> sweeps now t t' ->
  tree_ok (expire now s) t'.
Proof.
  intros Hnd Ht (es1 & es2 & He & H1 & H2 & Hsw).
  pose proof Ht as (_ & _ & Hp). rewrite He in Hp.
  destruct (expire_entries now _ _ _ Hnd Hp H1 H2) as [_ E]. unfold tree_ok. eapply tree_of_perm; [exact E|].
  eapply swept_tree_of; [exact Hsw|]. by eapply tree_of_perm.
Qed.

(** ** Steps, with the tree *)

Lemma retimed_nil_inv t t' : retimed [] t t' -> t' = t.
Proof. by inversion 1. Qed.

Lemma retimed_arm_inv c m ops t t' : retimed (Arm c m :: ops) t t' -> retimed ops (rb_insert c (members m) t) t'.
Proof. by inversion 1. Qed.

Lemma retimed_disarm_inv c m ops t t' : retimed (Disarm c m :: ops) t t' ->
  exists t1, removable c m t t1 /\ retimed ops t1 t'.
Proof. inversion 1; subst. by eexists. Qed.

Lemma settle_tree_of a text ns e ts after es t t' : settles a text ns e ts after ->
  tree_of (a_entry a :: es) t -> retimed (settle_ops (a_id a) (a_armed a) e ts) t t' ->
  tree_of ((a_entry <$> option_list after) ++ es) t'.
Proof.
  intros Hset Ht Hr. destruct Hset as [tk Hk|Hk| |errno]; cbn [settle_ops] in Hr.
  - apply retimed_disarm_inv in Hr as (t1 & Hr & ->%retimed_arm_inv%retimed_nil_inv).
    apply (tree_of_arm (a_id a)). by eapply tree_of_disarm.
  - apply retimed_disarm_inv in Hr as (t1 & Hr & ->%retimed_nil_inv). by eapply tree_of_disarm.
  - by apply retimed_nil_inv in Hr as ->.
  - apply retimed_disarm_inv in Hr as (t1 & Hr & ->%retimed_nil_inv). by eapply tree_of_disarm.
Qed.

Lemma settle_few a text ns e ts after es t : settles a text ns e ts after ->
  tree_of (a_entry a :: es) t -> (length es <= 1)%nat ->
  exists t', retimed (settle_ops (a_id a) (a_armed a) e ts) t t'.
Proof.
  intros Hset Ht Hl. destruct (few_removable _ _ _ _ Ht Hl) as [t1 Hr].
  destruct Hset; cbn [settle_ops]; eexists; first [eapply retimed_disarm; [exact Hr|repeat constructor]|constructor].
Qed.

Section moves.
Variable f : File.file.
Variable nb : nat.
Variable cap : nat.
Abbreviation step := (step f nb cap).

(** A step, some steps, in which the timers can be taken out. *)
Definition move (i : Z * input) (s : server) (t : tree) (s' : server) (t' : tree) : Prop :=
  step i s s' /\ retimed (ops_of (snd i) s s') t t'.

Inductive moves : list (Z * input) -> server -> tree -> server -> tree -> Prop :=
  | moves_nil s t : moves [] s t s t
  | moves_cons i ins s1 t1 s2 t2 s3 t3 :
      move i s1 t1 s2 t2 -> moves ins s2 t2 s3 t3 -> moves (i :: ins) s1 t1 s3 t3.

(** Events that can come one after the other, whatever structure a connection gets. *)
Inductive can_run : list (Z * input) -> server -> tree -> Prop :=
  | can_run_nil s t : can_run [] s t
  | can_run_cons i ins s t s1 t1 : move i s t s1 t1 ->
      (forall s2 t2, move i s t s2 t2 -> can_run ins s2 t2) -> can_run (i :: ins) s t.

(** A round. *)
Definition full_round (now : timespec) (ins : list (Z * input)) (s : server) (t : tree) (s' : server) (t' : tree) : Prop :=
  exists t1, sweeps (get_time now) t t1 /\ moves ins (expire (get_time now) s) t1 s' t'.
Definition can_round (now : timespec) (ins : list (Z * input)) (s : server) (t : tree) : Prop :=
  forall t1, sweeps (get_time now) t t1 -> can_run ins (expire (get_time now) s) t1.
(** Rounds, and then every connection is closed. *)
Inductive can_play : list (timespec * list (Z * input)) -> server -> tree -> Prop :=
  | can_play_nil s t t' : retimed (stop_ops (s_conns s)) t t' -> can_play [] s t
  | can_play_cons now ins log s t : can_round now ins s t ->
      (forall s' t', full_round now ins s t s' t' -> can_play log s' t') -> can_play ((now, ins) :: log) s t.

Lemma moves_steps ins s t s' t' : moves ins s t s' t' -> steps f nb cap ins s s'.
Proof. induction 1 as [|i ins s1 t1 s2 t2 s3 t3 [Hs _] _ IH]; by econstructor. Qed.

Lemma full_round_round now ins s t s' t' : full_round now ins s t s' t' -> round f nb cap now ins s s'.
Proof. intros (t1 & _ & H). by eapply moves_steps. Qed.

(** ** The tree and the connections agree *)
Record tidy (s : server) (t : tree) : Prop := {
  tidy_nodup : NoDup (a_id <$> s_conns s);
  tidy_few : (length (s_conns s) <= cap)%nat;
  tidy_tree : tree_ok s t;
}.

Lemma tree_focus l1 a l2 ps wire t : tree_ok (Server (l1 ++ a :: l2) ps wire) t <->
  tree_of (a_entry a :: (a_entry <$> l1 ++ l2)) t.
Proof.
  unfold tree_ok. cbn [s_conns]. split; apply tree_of_perm; rewrite !fmap_app, fmap_cons.
  - symmetry. apply Permutation_middle.
  - apply Permutation_middle.
Qed.

Lemma tree_option l1 o l2 ps wire t : tree_ok (Server (l1 ++ option_list o ++ l2) ps wire) t <->
  tree_of ((a_entry <$> option_list o) ++ (a_entry <$> l1 ++ l2)) t.
Proof.
  destruct o as [a|]; [apply tree_focus|done].
Qed.

Lemma step_few i s s' : (length (s_conns s) <= cap)%nat -> step i s s' -> (length (s_conns s') <= cap)%nat.
Proof.
  intros Hl Hstep. destruct Hstep; cbn [s_conns] in *; rewrite ?length_app in *; cbn in *; try lia.
  - destruct after; cbn; lia.
  - destruct after; cbn; lia.
Qed.

Lemma move_tree_ok i s t s' t' : NoDup (a_id <$> s_conns s) -> tree_ok s t -> move i s t s' t' -> tree_ok s' t'.
Proof.
  intros Hnd Ht [Hstep Hr].
  destruct Hstep as [m c fd tk conns ps wire Hm Hfd Hl Hc
    |m l1 a l2 ps wire q chunks tk ns e ts after ans a1 Hm Hun Hq Hch Hpc Hroom Hturn Hset
    |m l1 a l2 ps wire ns e ts after Hm Hun Hturn Hset
    |m l1 a l2 ps wire chunks ans Hm Hun Hlen Hpc Hgone
    |m l1 a l2 ps wire Hm]; cbn [snd ops_of s_conns] in Hr, Hnd; rewrite ?armed_at_focus in Hr by done.
  - rewrite last_snoc in Hr. apply retimed_arm_inv, retimed_nil_inv in Hr as ->.
    apply (tree_focus conns _ []). rewrite app_nil_r. by apply (tree_of_arm c).
  - apply retimed_disarm_inv in Hr as (t1 & Hr & Hr1%retimed_arm_inv).
    apply tree_option. apply tree_focus in Ht. eapply (settle_tree_of a1); [exact Hset| |exact Hr1].
    apply (tree_of_arm (a_id a)). by eapply tree_of_disarm.
  - apply tree_option. apply tree_focus in Ht. by eapply settle_tree_of.
  - apply retimed_disarm_inv in Hr as (t1 & Hr & ->%retimed_nil_inv). apply tree_focus in Ht. by eapply tree_of_disarm.
  - apply retimed_disarm_inv in Hr as (t1 & Hr & ->%retimed_nil_inv). apply tree_focus in Ht. by eapply tree_of_disarm.
Qed.

Lemma move_tidy i s t s' t' : tidy s t -> move i s t s' t' -> tidy s' t'.
Proof.
  intros [Hnd Hl Ht] Hmv. pose proof Hmv as [Hstep _]. split.
  - by eapply step_keeps.
  - by eapply step_few.
  - by eapply move_tree_ok.
Qed.

Lemma moves_tidy ins s t s' t' : tidy s t -> moves ins s t s' t' -> tidy s' t'.
Proof. intros H Hm. revert H. induction Hm as [|i ins s1 t1 s2 t2 s3 t3 Hmv _ IH]; [done|]. intros H. by eapply IH, move_tidy. Qed.

Lemma expire_tidy now s t t' : tidy s t -> sweeps now t t' -> tidy (expire now s) t'.
Proof.
  intros [Hnd Hl Ht] Hsw. split; [by apply expire_ids| |by eapply sweeps_tree_ok].
  cbn. etransitivity; [apply length_filter|done].
Qed.

Lemma full_round_tidy now ins s t s' t' : tidy s t -> full_round now ins s t s' t' -> tidy s' t'.
Proof. intros H (t1 & Hsw & Hm). eapply moves_tidy; [|done]. by eapply expire_tidy. Qed.

(** With at most two connections every timer can be taken out. *)
Section few.
Hypothesis Hcap : (cap <= 2)%nat.

Lemma step_move i s t s' : tidy s t -> step i s s' -> exists t', move i s t s' t'.
Proof.
  intros [Hnd Hl Ht] Hstep.
  enough (exists t', retimed (ops_of (snd i) s s') t t') as [t' Hr] by by exists t'.
  destruct Hstep as [m c fd tk conns ps wire Hm Hfd Hl' Hc
    |m l1 a l2 ps wire q chunks tk ns e ts after ans a1 Hm Hun Hq Hch Hpc Hroom Hturn Hset
    |m l1 a l2 ps wire ns e ts after Hm Hun Hturn Hset
    |m l1 a l2 ps wire chunks ans Hm Hun Hlen Hpc Hgone
    |m l1 a l2 ps wire Hm]; cbn [snd ops_of s_conns] in *; rewrite ?armed_at_focus by done.
  { rewrite last_snoc. eexists. apply retimed_arm, retimed_nil. }
  all: apply tree_focus in Ht; assert (length (a_entry <$> l1 ++ l2) <= 1)%nat as Hfew
    by (rewrite length_fmap; rewrite length_app in *; cbn in Hl; lia);
    destruct (few_removable _ _ _ _ Ht Hfew) as [t1 Hr].
  - destruct (settle_few a1 _ _ _ _ _ (a_entry <$> l1 ++ l2)
      (rb_insert (a_id a) (members (armed (get_time tk) (idle_timer (a_id a)))) t1) Hset) as [t2 Hr2]; [|done|].
    + apply (tree_of_arm (a_id a)). by eapply tree_of_disarm.
    + exists t2. eapply retimed_disarm; [exact Hr|]. by apply retimed_arm.
  - by eapply settle_few.
  - eexists. eapply retimed_disarm; [exact Hr|constructor].
  - eexists. eapply retimed_disarm; [exact Hr|constructor].
Qed.

Lemma admits_can_run ins : forall s t, tidy s t -> admits f nb cap ins s -> can_run ins s t.
Proof.
  induction ins as [|i ins IH]; intros s t Ht Had; [constructor|].
  inversion Had as [|i' ins' s' s1 Hstep Hnext]; subst. destruct (step_move _ _ _ _ Ht Hstep) as [t1 Hmv].
  econstructor; [exact Hmv|]. intros s2 t2 Hmv2. apply IH; [by eapply move_tidy|]. apply Hnext, Hmv2.
Qed.

Lemma admits_can_round now ins s t : tidy s t -> admits f nb cap ins (expire (get_time now) s) ->
  can_round now ins s t.
Proof. intros Ht Had t1 Hsw. apply admits_can_run; [by eapply expire_tidy|done]. Qed.

Lemma stop_few l : forall t, tree_of (a_entry <$> l) t -> (length l <= 2)%nat -> exists t', retimed (stop_ops l) t t'.
Proof.
  induction l as [|a l IH]; intros t Ht Hl; [by exists t; constructor|]. cbn in Hl, Ht.
  destruct (few_removable _ _ _ _ Ht) as [t1 Hr]; [rewrite length_fmap; lia|].
  destruct (IH t1) as [t' Hr']; [by eapply tree_of_disarm|lia|]. exists t'. by econstructor.
Qed.

Lemma playable_can_play log : forall s t, tidy s t -> playable f nb cap log s -> can_play log s t.
Proof.
  induction log as [|[now ins] log IH]; intros s t Ht Hp.
  { destruct (stop_few (s_conns s) t) as [t' Hr]; [apply Ht|destruct Ht; lia|]. by econstructor. }
  inversion Hp as [|now' ins' log' s' Had Hnext]; subst. constructor; [by apply admits_can_round|].
  intros s' t' Hr. apply IH; [by eapply full_round_tidy|]. apply Hnext. by eapply full_round_round.
Qed.
End few.
End moves.
End SessionTimers.
