(* ===== verification/SessionSpec.v ===== *)
(** The worlds of the abstract worker of Session.v, and what the functions of
    connection.c, event.c and worker.c make of them.

    [SessionSpec.session] relates an abstract state to the memory and the rest of
    the world; the lemmas are one per thing that can happen to a connection. *)
From stdpp Require Import sorting.
From S2P Require Import Prelude Buffer Http Request RequestSpec Array Heap Clist Rbtree RbtreeSpec RbtreeInv RbtreeDel.
From S2P Require Db.
From S2P Require Import RbtreeSearch Timer TimerSpec World Event EventSpec Connection ReadSpec SendSpec.
From S2P Require Import ConnSpec ConnThm Worker Route FileMap Cask Store CaskSpec Answer Session SessionTimers.
Import Rbtree Rep Timer Event Clist ClistSpec Connection Buffer Http Request ParserSpec.

Module SessionSpec.
Import Worker Cask CaskSpec Session SessionTimers.

(** ** What is left of the answers *)

Lemma offers_ctl s p r : offers p (outside r) ->
  ctl_ret r = 0 /\ offers p (outside (ctl_rest s r)).
Proof.
  intros [[Hc Ha Hca Hf] H1 H2 H3 H4]. unfold ctl_rest, ctl_ret, pop_ctl.
  destruct r as [cs ws n i lk o tr st], o as [rv sn [|ret ct] al ca ck ac fc sk su ep th]; cbn in *.
  - split; [done|]. by split.
  - apply Forall_cons in Hc as [-> Hc]. split; [done|]. by split.
Qed.

Definition tick (t : timespec) (p : supply) : supply :=
  Supply (p_recvs p) (p_sends p) (t :: p_clock p) (p_accepts p).

Lemma offers_clock t p o : offers (tick t p) o ->
  fst (pop_clock o) = t /\ offers p (snd (pop_clock o)).
Proof.
  intros [[Hc Ha Hca Hf] H1 H2 H3 H4]. unfold pop_clock.
  destruct o as [rv sn ct al ca ck ac fc sk su ep th]; cbn in *. subst ck. split; [done|]. by split.
Qed.

Lemma offers_alloc p o : offers p o -> exists g o', pop_alloc o = (Some g, o') /\ offers p o'.
Proof.
  intros [[Hc Ha Hca Hf] H1 H2 H3 H4]. destruct (pop_alloc_ok o Ha) as (g & al & E & Hal).
  exists g, (read_os (recvs o) al o). split; [done|]. by split.
Qed.

(** After begin_read or begin_send. *)
Lemma offers_armed t p c x x' e ev r : offers (tick t p) (outside r) ->
  armed_ret c x e r = 0 /\ clock_now r = get_time t /\ offers p (outside (armed_rest c x x' e ev r)).
Proof.
  intros H. unfold clock_now. destruct (offers_clock _ _ _ H) as [Hck Ho]. rewrite Hck.
  assert (offers p (outside (reset c x e r))) as Hr.
  { unfold reset. destruct (event_active (e_flags e)); [|done].
    by apply (offers_ctl (EpollDel (e_fd e))). }
  unfold armed_ret, armed_rest. split; [apply (offers_ctl (fun ret => EpollAdd (c_fd x) ev c ret) _ _ Hr)|].
  split; [done|]. by apply offers_ctl.
Qed.

Lemma offers_closed p c x y fd r : offers p (outside r) -> offers p (outside (closed c x y fd r)).
Proof. intros H. exact (proj2 (offers_ctl (EpollDel fd) p (set_workers _ r) H)). Qed.

Lemma closed_sent c x y fd r fd' : sent_on fd' (trace (closed c x y fd r)) = sent_on fd' (trace r).
Proof.
  unfold closed. cbn. rewrite !sent_on_app. unfold sent_on at 2 3. cbn. by rewrite !app_nil_r.
Qed.

Lemma offers_sends p o l : offers p o ->
  offers (Supply (p_recvs p) l (p_clock p) (p_accepts p)) (send_os l o).
Proof. intros [[] ? ? ? ?]. by split. Qed.

Lemma offers_reads p o l al : offers p o -> Forall (fun a => a <> None) al ->
  offers (Supply l (p_sends p) (p_clock p) (p_accepts p)) (read_os l al o).
Proof. intros [[] ? ? ? ?] Hal. by split. Qed.

Lemma offers_ctls_ok p r : offers p (outside r) -> ctls_ok r.
Proof. intros H. apply H. Qed.

(** ** The worker *)
Section worker.
Context (w : ptr) (sock : Z) (y : worker) (ep : Z) (nb cap : nat) (Hcap : Z.of_nat cap < 2 ^ 64).

(** The event of a connection. *)
Definition a_event (a : aconn) : event :=
  MkEvent (a_fd a) (Z.lor (match a_unsent a with [] => EPOLLIN | _ => EPOLLOUT end) EPOLLET)
    EVENT_FLAG_ACTIVE IO_CALLBACK (a_id a).

(** The listening socket's. *)
Definition listening : event := MkEvent sock (Z.lor EPOLLIN EPOLLET) EVENT_FLAG_ACTIVE ON_ACCEPT w.

(** The rest of a connection. *)
Record is_conn (a : aconn) (x : connection) : Prop := {
  ic_worker : c_worker x = w;
  ic_fd : c_fd x = a_fd a;
  ic_flags : c_flags x = a_flags a;
  ic_wf : wf (c_buffer x);
  ic_state : match a_unsent a with
    | [] => c_state x = CONNECTION_STATE_IN /\ size (c_buffer x) = 0 /\ c_req x = zero_request
    | _ => c_state x = CONNECTION_STATE_OUT /\ 0 <= c_write_bytes x <= size (c_buffer x) /\
           unsent x = a_unsent a
    end;
}.

(** Everything but the memory. *)
Record crew_ok (s : server) (r : rest) : Prop := {
  crew_conns : Forall (fun a => exists x, conns r !! a_id a = Some x /\ is_conn a x) (s_conns s);
  crew_only : forall c x, conns r !! c = Some x -> c_worker x = w -> c ∈ a_id <$> s_conns s;
  crew_nodup : NoDup (a_id <$> s_conns s);
  crew_few : (length (s_conns s) <= cap)%nat;
  crew_worker : workers r !! w = Some (set_num_conns (Z.of_nat (length (s_conns s))) y);
  crew_store : good nb (s_pastes s) (store r);
  crew_wire : forall fd, sent_on fd (trace r) = wire_on fd (s_wire s);
}.

(** The memory without the tree of timers, and all of it. *)
Definition crew (s : server) : heapProp :=
  ((w_base y, Fd) ↦ ep ∗ ring (conns_head w) (a_id <$> s_conns s) ∗
   ([∗ list] a ∈ s_conns s, event_rep (a_id a) (a_event a)) ∗ event_rep w listening)%I.

(** A state whose timers are in the tree [t]. *)
Definition session (s : server) (t : tree) (r : rest) : heapProp :=
  (crew s ∗ ⌜crew_ok s r⌝ ∗ rbtree_rep (w_base y) t ∗ ⌜tree_ok s t⌝)%I.

(** *** The rest of the world *)

(** [r'] is [r] with [x'] in the place of connection [c], pastes and wire apart. *)
Record loosened (c : ptr) (x' : connection) (ps : list (list Z)) (wire : list (Z * list Z))
    (r r' : rest) : Prop := {
  lo_conns : conns r' = <[c := x']> (conns r);
  lo_workers : workers r' = workers r;
  lo_store : good nb ps (store r');
  lo_wire : forall fd, sent_on fd (trace r') = wire_on fd wire;
}.

Lemma loosened_self s r a x : crew_ok s r -> conns r !! a_id a = Some x ->
  loosened (a_id a) x (s_pastes s) (s_wire s) r r.
Proof. intros H Hx. split; [by rewrite insert_id|done|apply H|apply H]. Qed.

Lemma loosened_conn c x' ps wire r r' : loosened c x' ps wire r r' -> conns r' !! c = Some x'.
Proof. intros [-> _ _ _]. apply lookup_insert_eq. Qed.

(** A quiet change after it. *)
Lemma loosened_quiet c x1 x2 ps wire r r1 r2 :
  loosened c x1 ps wire r r1 -> quiet c x2 r1 r2 -> loosened c x2 ps wire r r2.
Proof.
  intros [H1 H2 H3 H4] [_ _ Q1 Q2 Q3 Q4]. split.
  - by rewrite Q1, H1, insert_insert_eq.
  - by rewrite Q2.
  - by rewrite Q3.
  - intros fd. by rewrite Q4.
Qed.

(** And after sending. *)
Lemma loosened_sent c x ps wire pieces l r r1 (x' := set_c_write_bytes (c_write_bytes x + Z.of_nat (length (concat pieces))) x) :
  loosened c x ps wire r r1 ->
  loosened c x' ps (wire ++ [(c_fd x, concat pieces)]) r (with_sent c x pieces l r1).
Proof.
  intros [H1 H2 H3 H4]. split; try done.
  - cbn. by rewrite H1, insert_insert_eq.
  - intros fd. cbn. rewrite sent_on_app, H4, wire_on_app, wire_on_one. f_equal.
    destruct (Z.eqb_spec (c_fd x) fd) as [<-|Hne]; [by apply sent_on_pieces|].
    unfold sent_on. induction pieces as [|p pieces IH]; [done|]. cbn.
    by replace (c_fd x =? fd) with false by zlia.
Qed.

(** The closing of descriptor [fd], for the rest of the world. *)
Record closing (fd : Z) (r r' : rest) : Prop := {
  cl_offers : forall p, offers p (outside r) -> offers p (outside r');
  cl_lock : worker_lock r' = worker_lock r;
  cl_num : num_workers r' = num_workers r;
  cl_workers : delete w (workers r') = delete w (workers r);
  cl_trace : trace r `prefix_of` trace r';
  cl_closed : SysClose fd ∈ trace r';
}.

Lemma closed_closing c x y1 fd r : c_worker x = w -> closing (c_fd x) r (closed c x y1 fd r).
Proof.
  intros Hw. split; try done.
  - intros p. apply offers_closed.
  - cbn. by rewrite Hw, delete_insert_eq.
  - cbn. rewrite <- (assoc_L (++)). by apply prefix_app_r.
  - cbn. apply elem_of_app. right. by left.
Qed.

Section focus.
Context (l1 : list aconn) (a : aconn) (l2 : list aconn) (ps : list (list Z)) (wire : list (Z * list Z)) (r : rest).
Context (Hok : crew_ok (Server (l1 ++ a :: l2) ps wire) r).

Lemma crew_at : exists x, conns r !! a_id a = Some x /\ is_conn a x.
Proof. pose proof (crew_conns _ _ Hok) as H. by apply Forall_app in H as [_ [H _]%Forall_cons]. Qed.

Lemma focus_nodup : NoDup (a_id a :: (a_id <$> l1 ++ l2)).
Proof.
  pose proof (crew_nodup _ _ Hok) as H. cbn [s_conns] in H.
  rewrite fmap_app, fmap_cons, <- Permutation_middle in H. by rewrite fmap_app.
Qed.

Lemma focus_others r' x' : conns r' = <[a_id a := x']> (conns r) \/ conns r' = delete (a_id a) (conns r) ->
  forall a2, a2 ∈ l1 ++ l2 -> exists x, conns r' !! a_id a2 = Some x /\ is_conn a2 x.
Proof.
  intros Hr' a2 Hin. pose proof focus_nodup as [Hnot _]%NoDup_cons.
  assert (a_id a <> a_id a2) as Hne.
  { intros E. apply Hnot. rewrite E. by apply list_elem_of_fmap_2. }
  pose proof (crew_conns _ _ Hok) as H. cbn [s_conns] in H. rewrite Forall_forall in H.
  destruct (H a2) as (x2 & Hx2 & H2).
  { rewrite elem_of_app, elem_of_cons. apply elem_of_app in Hin as [|]; auto. }
  exists x2. split; [|done]. destruct Hr' as [-> | ->]; [by rewrite lookup_insert_ne|by rewrite lookup_delete_ne].
Qed.

(** The connection comes back as [a']. *)
Lemma crew_replace a' x' ps' wire' r' :
  loosened (a_id a) x' ps' wire' r r' -> a_id a' = a_id a -> is_conn a' x' ->
  crew_ok (Server (l1 ++ a' :: l2) ps' wire') r'.
Proof.
  intros [H1 H2 H3 H4] Hid Hc.
  assert (a_id <$> l1 ++ a' :: l2 = a_id <$> l1 ++ a :: l2) as Hids
    by by rewrite !fmap_app, !fmap_cons, Hid.
  assert (length (l1 ++ a' :: l2) = length (l1 ++ a :: l2)) as Hlen by by rewrite !length_app.
  split; cbn [s_conns s_pastes s_wire]; rewrite ?Hids, ?Hlen; try done.
  - assert (forall a2, a2 ∈ l1 ++ l2 -> exists x, conns r' !! a_id a2 = Some x /\ is_conn a2 x) as Ho
      by (eapply focus_others; by left).
    apply Forall_app. split; [|constructor].
    + apply Forall_forall. intros a2 Hin. apply Ho. apply elem_of_app. by left.
    + exists x'. rewrite Hid, H1. split; [apply lookup_insert_eq|done].
    + apply Forall_forall. intros a2 Hin. apply Ho. apply elem_of_app. by right.
  - intros c x. rewrite H1. destruct (decide (c = a_id a)) as [->|Hne].
    + intros _ _. rewrite fmap_app, fmap_cons. set_solver.
    + rewrite lookup_insert_ne by done. apply (crew_only _ _ Hok).
  - apply Hok.
  - apply Hok.
  - rewrite H2. apply Hok.
Qed.

(** It is gone, when it had been made [x']. *)
Lemma crew_remove x' ps' wire' fd r1 (y1 := set_num_conns (Z.of_nat (length (l1 ++ a :: l2))) y) :
  loosened (a_id a) x' ps' wire' r r1 -> c_worker x' = w ->
  workers r1 !! w = Some y1 /\ crew_ok (Server (l1 ++ l2) ps' wire') (closed (a_id a) x' y1 fd r1).
Proof.
  intros [H1 H2 H3 H4] Hw. pose proof focus_nodup as Hnd. apply NoDup_cons in Hnd as [Hnot Hnd].
  pose proof (crew_few _ _ Hok) as Hfew. cbn [s_conns] in Hfew.
  split; [rewrite H2; apply Hok|]. split; cbn [s_conns s_pastes s_wire].
  - apply Forall_forall. apply (focus_others _ x'). right. cbn. by rewrite H1, delete_insert_eq.
  - intros c x Hx Hcw. cbn in Hx. rewrite H1, delete_insert_eq in Hx.
    apply lookup_delete_Some in Hx as [Hne Hx].
    pose proof (crew_only _ _ Hok c x Hx Hcw) as Hin. cbn [s_conns] in Hin.
    rewrite fmap_app, fmap_cons in Hin. rewrite fmap_app. set_solver.
  - done.
  - rewrite length_app in *. cbn in Hfew. lia.
  - cbn. rewrite Hw, lookup_insert_eq. unfold y1. f_equal. unfold set_num_conns. cbn. f_equal.
    rewrite !length_app in *. cbn [length] in *.
    rewrite wrap_small by (pow2; lia). lia.
  - exact H3.
  - intros fd'. by rewrite closed_sent.
Qed.
End focus.

(** *** The memory *)

(** What belongs to the worker but not to connection [c], which is between [l1] and
    [l2] and whose event is [e]. *)
Definition about (l1 l2 : list aconn) (c : ptr) (e : event) : heapProp :=
  (ring (conns_head w) ((a_id <$> l1) ++ c :: (a_id <$> l2)) ∗ event_rep c e ∗
   ([∗ list] b ∈ (l1 ++ l2), event_rep (a_id b) (a_event b)) ∗ event_rep w listening)%I.

(** The timer [m] of [c] is in the tree [t], which has those of [l1] and [l2] besides;
    it can be taken out, which leaves [t1]. *)
Record spare (l1 l2 : list aconn) (c : ptr) (m : timer) (t t1 : tree) : Prop := {
  spare_tree : tree_of ((c, members m) :: (a_entry <$> l1 ++ l2)) t;
  spare_few : (length (l1 ++ l2) < cap)%nat;
  spare_active : is_active (flags m) = true;
  spare_removable : removable c m t t1;
}.

Lemma spare_rb l1 l2 c m t t1 : spare l1 l2 c m t t1 -> rb_ok t.
Proof. by intros [[? _] _ _ _]. Qed.

Lemma spare_tree1 l1 l2 c m t t1 : spare l1 l2 c m t t1 -> tree_of (a_entry <$> l1 ++ l2) t1.
Proof. intros [Ht _ _ Hr]. by eapply tree_of_disarm. Qed.

Lemma session_focus l1 l2 a ps wire t r : session (Server (l1 ++ a :: l2) ps wire) t r ⊢
  loop_rep (w_base y) ep t ∗ about l1 l2 (a_id a) (a_event a) ∗
    ⌜tree_of (a_entry a :: (a_entry <$> l1 ++ l2)) t /\ (length (l1 ++ l2) < cap)%nat /\
     crew_ok (Server (l1 ++ a :: l2) ps wire) r⌝.
Proof.
  unfold session, crew, about, loop_rep. cbn [s_conns]. rewrite !fmap_app, fmap_cons, !big_sepL_app.
  iIntros "((B & R & (E1 & E2 & E3) & W) & %Hok & T & %Ht)". iFrame. iPureIntro.
  apply tree_focus in Ht. rewrite fmap_app in Ht. split; [done|]. split; [|done].
  pose proof (crew_few _ _ Hok) as Hl. cbn in Hl. rewrite length_app in *. cbn in Hl. lia.
Qed.

Lemma session_replace l1 l2 a ps wire t r : crew_ok (Server (l1 ++ a :: l2) ps wire) r ->
  tree_of (a_entry a :: (a_entry <$> l1 ++ l2)) t ->
  loop_rep (w_base y) ep t ∗ about l1 l2 (a_id a) (a_event a) ⊢ session (Server (l1 ++ a :: l2) ps wire) t r.
Proof.
  intros Hok Ht%(tree_focus _ _ _ ps wire). unfold session, crew, about, loop_rep. cbn [s_conns].
  rewrite !fmap_app, fmap_cons, !big_sepL_app.
  iIntros "([$ $] & $ & E2 & [$ $] & $)". by iFrame.
Qed.

Lemma session_remove l1 l2 ps wire t r : crew_ok (Server (l1 ++ l2) ps wire) r ->
  tree_of (a_entry <$> l1 ++ l2) t ->
  loop_rep (w_base y) ep t ∗ ring (conns_head w) ((a_id <$> l1) ++ (a_id <$> l2)) ∗
    ([∗ list] b ∈ (l1 ++ l2), event_rep (a_id b) (a_event b)) ∗ event_rep w listening ⊢
  session (Server (l1 ++ l2) ps wire) t r.
Proof.
  intros Hok Ht. unfold session, crew, loop_rep. cbn [s_conns]. rewrite fmap_app.
  iIntros "([$ $] & $ & $ & $)". done.
Qed.

Section turns.
Context (fuel : nat) (Hfuel : (2 * cap < fuel)%nat).
Context (l1 : list aconn) (a : aconn) (l2 : list aconn) (ps0 : list (list Z)) (wire0 : list (Z * list Z)) (r : rest).
Context (Hok : crew_ok (Server (l1 ++ a :: l2) ps0 wire0) r).
Context (ps : list (list Z)).

Lemma fuel_enough es t : tree_of es t -> (length es <= cap)%nat ->
  (iterations (length (entries t)) <= fuel)%nat /\ (height t < fuel)%nat.
Proof.
  intros (Hrb & _ & He) Hl. pose proof (rb_ok_height t Hrb) as Hh. rewrite He in *. unfold iterations in *.
  pose proof (Nat.log2_lt_lin (S (length es)) ltac:(lia)). lia.
Qed.

Lemma spare_fuel c m t t1 : spare l1 l2 c m t t1 ->
  (iterations (length (entries t)) <= fuel)%nat /\ (height t < fuel)%nat.
Proof. intros [Ht Hl _ _]. eapply fuel_enough; [exact Ht|]. cbn. rewrite length_fmap. lia. Qed.

Lemma spare_timer c m t t1 : spare l1 l2 c m t t1 -> ⊢ timer_of c m t t1.
Proof. intros []. iLeft. by iPureIntro. Qed.

(** close_connection. *)
Lemma close_turn wire x r1 m t t1 e (Q : unit -> rest -> heapProp) :
  loosened (a_id a) x ps wire r r1 -> c_worker x = w -> spare l1 l2 (a_id a) m t t1 ->
  loop_rep (w_base y) ep t ⊢ about l1 l2 (a_id a) e -∗
  (∀ r', session (Server (l1 ++ l2) ps wire) t1 r' -∗ ⌜closing (c_fd x) r1 r'⌝ -∗ Q tt r') -∗
  wwp (close_connection fuel (a_id a)) Q r1.
Proof.
  intros Hlo Hw Hs. iIntros "L (R & E & Es & W) HQ".
  destruct (crew_remove l1 a l2 ps0 wire0 r Hok x ps wire (e_fd e) r1 Hlo Hw) as [Hy Hok'].
  set (y1 := set_num_conns _ y) in *. rewrite <- Hw in Hy.
  iPoseProof (spare_timer _ _ _ _ Hs) as "T".
  iApply (close_connection_ok fuel (a_id a) x y1 ep t m t1 e with "[$L] T E R").
  - by eapply loosened_conn.
  - done.
  - by eapply spare_rb.
  - by destruct (spare_fuel _ _ _ _ Hs).
  - iIntros "[%Hrb %Hl] L R". iApply ("HQ" with "[L R Es W]").
    + iApply (session_remove l1 l2 ps wire t1 _ Hok' with "[$L $R $Es $W]"). by eapply spare_tree1.
    + iPureIntro. by apply closed_closing.
Qed.

(** begin_read. *)
Lemma read_turn wire x r1 m t t1 e p ts (Q : unit -> rest -> heapProp) :
  loosened (a_id a) x ps wire r r1 -> c_worker x = w -> wf (c_buffer x) ->
  spare l1 l2 (a_id a) m t t1 -> offers (tick ts p) (outside r1) ->
  loop_rep (w_base y) ep t ⊢ about l1 l2 (a_id a) e -∗
  (∀ r', session (Server (l1 ++ AConn (a_id a) (c_fd x) (c_flags x) [] (get_time ts) :: l2) ps wire)
     (rb_insert (a_id a) (members (armed (get_time ts) (idle_timer (a_id a)))) t1) r' -∗
     ⌜offers p (outside r')⌝ -∗ Q tt r') -∗
  wwp (begin_read fuel (a_id a)) Q r1.
Proof.
  intros Hlo Hw Hwf Hs Hp. iIntros "L (R & E & Es & W) HQ".
  assert (workers r1 !! c_worker x = Some (set_num_conns (Z.of_nat (length (l1 ++ a :: l2))) y)) as Hy.
  { rewrite (lo_workers _ _ _ _ _ _ Hlo), Hw. apply Hok. }
  iPoseProof (spare_timer _ _ _ _ Hs) as "T".
  iApply (begin_read_ok fuel (a_id a) x (set_num_conns (Z.of_nat (length (l1 ++ a :: l2))) y) ep t t1 m e r1
    with "[$L] T E").
  - by eapply loosened_conn.
  - done.
  - by eapply spare_rb.
  - by destruct (spare_fuel _ _ _ _ Hs).
  - iIntros "[%Hrb %Hl] L E".
    destruct (offers_armed _ _ (a_id a) x (reading_conn x) e (Z.lor EPOLLIN EPOLLET) _ Hp) as (Hret & Hck & Hp').
    destruct (armed_rest_quiet (a_id a) x (reading_conn x) e (Z.lor EPOLLIN EPOLLET) r1) as [_ Hq];
      [by eapply offers_ctls_ok|].
    unfold armed_event. rewrite Hret. change (0 =? 0) with true. cbn iota. w_step.
    iApply ("HQ" with "[-]"); [|done].
    unfold rearmed. rewrite Hck.
    set (a' := AConn _ _ _ _ _). iApply (session_replace l1 l2 a' with "[$L $R $E $Es $W]").
    + eapply crew_replace; [done|by eapply loosened_quiet|done|].
      destruct (clear_buffer_wf _ Hwf). by split.
    + apply (tree_of_arm (a_id a')). by eapply spare_tree1.
Qed.

(** *** Sending *)

(** [a1] is what the connection is when it has something to send, [x] its structure. *)
Section sending.
Context (wire : list (Z * list Z)) (a1 : aconn) (x : connection) (r1 : rest) (t : tree).
Context (Hid : a_id a1 = a_id a) (Hne : a_unsent a1 <> []) (Hx : is_conn a1 x).
Context (Hlo : loosened (a_id a) x ps wire r r1).
Context (Ht : tree_of (a_entry a1 :: (a_entry <$> l1 ++ l2)) t) (Hfew : (length (l1 ++ l2) < cap)%nat).

Lemma sending_conn_ok : wf (c_buffer x) /\ 0 <= c_write_bytes x <= size (c_buffer x) /\ unsent x = a_unsent a1.
Proof. destruct Hx as [_ _ _ Hwf Hst]. destruct (a_unsent a1); [done|]. by destruct Hst as (_ & ? & ?). Qed.

Lemma sending_pos : (0 < length (a_unsent a1))%nat.
Proof. destruct (a_unsent a1); [done|cbn; lia]. Qed.

Lemma unsent_length : Z.of_nat (length (unsent x)) = size (c_buffer x) - c_write_bytes x.
Proof.
  destruct sending_conn_ok as ([] & Hw & _). unfold unsent, contents. rewrite length_drop, length_take. lia.
Qed.

(** What follows the bytes of a turn of send_data. *)
Definition after_turn (e : ending) : cmd world unit :=
  match e with
  | AllSent => finish fuel (a_id a) x
  | WouldBlock => mret tt
  | SendFails _ => close_connection fuel (a_id a)
  end.

(** The structure, and the wire, when [n] bytes have been sent. *)
Definition sent_conn (n : nat) : connection := set_c_write_bytes (c_write_bytes x + Z.of_nat n) x.
Definition sent_wire (n : nat) : list (Z * list Z) := wire ++ [(a_fd a1, take n (a_unsent a1))].

Lemma send_pieces_turn ns e p ts (Q : unit -> rest -> heapProp) :
  turn_ok (a_unsent a1) ns e -> (length ns < fuel)%nat ->
  offers (join_supply (Supply [] (turn_answers ns e) ts []) p) (outside r1) ->
  (∀ r2, ⌜loosened (a_id a) (sent_conn (sum_list ns)) ps (sent_wire (sum_list ns)) r r2 /\
     (sum_list ns <= length (a_unsent a1))%nat /\
     offers (Supply (p_recvs p) (p_sends p) (ts ++ p_clock p) (p_accepts p)) (outside r2)⌝ -∗
     wwp (after_turn e) Q r2) ⊢
  wwp (send_data fuel (a_id a)) Q r1.
Proof.
  intros [Htakes Hturn] Hns [Hben Hrv Hsn Hck Hac]. cbn in Hrv, Hsn, Hck, Hac.
  unfold turn_answers in Hsn. rewrite <- (assoc_L (++)) in Hsn.
  destruct sending_conn_ok as (Hwf & Hw & Hun). rewrite <- Hun in Htakes, Hturn |- *.
  assert (conns r1 !! a_id a = Some x) as Hx1 by by eapply loosened_conn.
  pose proof sending_pos as Hpos. rewrite <- Hun in Hpos.
  assert (sum_list ns <= length (unsent x))%nat as Hle by (destruct e; lia).
  iIntros "HQ". iApply (wwp_goes_on _ (after_turn e) (fun r2 => exists pieces,
    concat pieces = take (sum_list ns) (unsent x) /\ r2 = with_sent (a_id a) x pieces (p_sends p) r1)).
  { intros h. destruct e as [| |errno].
    - destruct (send_data_ends fuel (a_id a) h r1 x ns (p_sends p)) as (pieces & Hp & _ & E); try done; [lia|].
      eexists. split; [exact E|]. by exists pieces.
    - destruct (send_data_stops fuel (a_id a) h r1 x ns (p_sends p)) as (pieces & Hp & _ & E); try done.
      eexists. split; [exact E|]. by exists pieces.
    - destruct Hturn as (Hlt & Herr & Hpipe).
      destruct (send_data_fails fuel (a_id a) h r1 x ns (p_sends p)) with (errno := errno)
        as (pieces & Hp & _ & E); try done. eexists. split; [exact E|]. by exists pieces. }
  iIntros (r2 (pieces & Hp & ->)). iApply "HQ". iPureIntro.
  destruct Hx as [_ Hfd _ _ _]. split_and!; [|done|].
  - replace (sent_conn (sum_list ns)) with (set_c_write_bytes (c_write_bytes x + Z.of_nat (length (concat pieces))) x).
    2: { unfold sent_conn. by rewrite Hp, length_take, Nat.min_l. }
    unfold sent_wire. rewrite <- Hun, <- Hp, <- Hfd. by apply loosened_sent.
  - split; try done. by destruct Hben.
Qed.

(** Where send would block the connection stays, with less to send. *)
Lemma blocked_turn n r2 (a2 := AConn (a_id a1) (a_fd a1) (a_flags a1) (drop n (a_unsent a1)) (a_armed a1)) :
  (n < length (a_unsent a1))%nat ->
  loosened (a_id a) (sent_conn n) ps (sent_wire n) r r2 ->
  loop_rep (w_base y) ep t ∗ about l1 l2 (a_id a) (a_event a1) ⊢
  session (Server (l1 ++ a2 :: l2) ps (sent_wire n)) t r2.
Proof.
  intros Hn Hlo2. destruct sending_conn_ok as (Hwf & Hw & Hun). pose proof unsent_length as Hlen.
  assert (exists b bs, drop n (a_unsent a1) = b :: bs) as (b & bs & Hdrop).
  { destruct (drop _ _) eqn:E; [|by eexists _, _]. apply (f_equal length) in E.
    rewrite length_drop in E. cbn in E. lia. }
  assert (a_event a1 = a_event a2) as ->.
  { unfold a_event, a2. cbn. rewrite Hdrop. by destruct (a_unsent a1). }
  rewrite <- Hid. change (a_id a1) with (a_id a2). apply session_replace.
  - eapply crew_replace; [exact Hok|exact Hlo2|done|].
    destruct Hx as [H1 H2 H3 H4 Hst]. split; try done. cbn [a_unsent a2]. rewrite Hdrop, <- Hun in *.
    assert (unsent (sent_conn n) = drop n (unsent x)) as ->.
    { unfold unsent, sent_conn. cbn. rewrite drop_drop. f_equal. lia. }
    split_and!; [|cbn; lia|cbn; lia|done].
    destruct (unsent x); [done|]. by destruct Hst.
  - exact Ht.
Qed.

(** What [settles] says of the whole state. *)
Lemma settled_turn ns e ts after t' p (Q : unit -> rest -> heapProp) :
  turn_ok (a_unsent a1) ns e -> settles a1 (a_unsent a1) ns e ts after -> (length ns < fuel)%nat ->
  retimed (settle_ops (a_id a1) (a_armed a1) e ts) t t' ->
  offers (join_supply (Supply [] (turn_answers ns e) ts []) p) (outside r1) ->
  loop_rep (w_base y) ep t ⊢ about l1 l2 (a_id a) (a_event a1) -∗
  (∀ r', session (Server (l1 ++ option_list after ++ l2) ps (sent_wire (sum_list ns))) t' r' -∗
     ⌜offers p (outside r')⌝ -∗ Q tt r') -∗
  wwp (send_data fuel (a_id a)) Q r1.
Proof.
  intros Hturn Hset Hns Hre Hp. iIntros "L A HQ".
  iApply (send_pieces_turn ns e p ts); [done..|]. iIntros (r2 (Hlo2 & Hle & Hp2)).
  destruct Hx as [Hcw Hfd Hfl Hwf _]. destruct Hturn as [_ Hturn].
  assert (forall t1, removable (a_id a1) (a_timer a1) t t1 -> spare l1 l2 (a_id a) (a_timer a1) t t1) as Hspare.
  { intros t1. rewrite Hid. intros Hr. split; [|done|done|done]. rewrite <- Hid. exact Ht. }
  assert (forall t1 (R : unit -> rest -> heapProp), ts = [] -> removable (a_id a1) (a_timer a1) t t1 ->
    loop_rep (w_base y) ep t ⊢ about l1 l2 (a_id a) (a_event a1) -∗
    (∀ r', session (Server (l1 ++ l2) ps (sent_wire (sum_list ns))) t1 r' -∗ ⌜offers p (outside r')⌝ -∗ R tt r') -∗
    wwp (close_connection fuel (a_id a)) R r2) as Hclose.
  { intros t1 R -> Hr. iIntros "L A HR". iApply (close_turn (sent_wire (sum_list ns)) (sent_conn (sum_list ns)) r2 (a_timer a1) t t1 (a_event a1) with "L A [HR]"); [done|done|by apply Hspare|].
    iIntros (r') "S %Ho". iApply ("HR" with "S"). iPureIntro. apply (cl_offers _ _ _ Ho). by destruct p. }
  change (finish fuel (a_id a) x) with (finish fuel (a_id a) (sent_conn (sum_list ns))).
  inversion Hset as [tk Hk|Hk| |errno]; subst e ts after; cbn [option_list app after_turn settle_ops] in *.
  - apply retimed_disarm_inv in Hre as (t1 & Hr & ->%retimed_arm_inv%retimed_nil_inv).
    unfold finish, a_kept in *. change (c_flags (sent_conn _)) with (c_flags x). rewrite Hfl, Hk.
    iApply (read_turn (sent_wire (sum_list ns)) (sent_conn (sum_list ns)) r2 (a_timer a1) t t1 (a_event a1) p tk with "L A [HQ]"); [done..|by apply Hspare|done|].
    change (c_fd (sent_conn _)) with (c_fd x). change (c_flags (sent_conn _)) with (c_flags x).
    by rewrite Hfd, Hfl, <- Hid.
  - apply retimed_disarm_inv in Hre as (t1 & Hr & ->%retimed_nil_inv).
    unfold finish, a_kept in *. change (c_flags (sent_conn _)) with (c_flags x). rewrite Hfl, Hk.
    by iApply (Hclose with "L A HQ").
  - apply retimed_nil_inv in Hre as ->. w_step. iApply ("HQ" with "[L A]"); [|iPureIntro; by destruct p].
    iApply (blocked_turn with "[$L $A]"); done.
  - apply retimed_disarm_inv in Hre as (t1 & Hr & ->%retimed_nil_inv). by iApply (Hclose with "L A HQ").
Qed.
End sending.

(** *** Answering *)

(** begin_send, when the buffer holds [text]. *)
Lemma send_text_turn wire x r1 m t t1 t' ev text tk ns e ts after p (Q : unit -> rest -> heapProp)
    (a1 := AConn (a_id a) (c_fd x) (c_flags x) text (get_time tk)) :
  loosened (a_id a) x ps wire r r1 -> c_worker x = w -> wf (c_buffer x) -> contents (c_buffer x) = text ->
  text <> [] -> spare l1 l2 (a_id a) m t t1 ->
  turn_ok text ns e -> settles a1 text ns e ts after -> (length ns < fuel)%nat ->
  retimed (Arm (a_id a) (armed (get_time tk) (idle_timer (a_id a))) :: settle_ops (a_id a) (get_time tk) e ts) t1 t' ->
  offers (tick tk (join_supply (Supply [] (turn_answers ns e) ts []) p)) (outside r1) ->
  loop_rep (w_base y) ep t ⊢ about l1 l2 (a_id a) ev -∗
  (∀ r', session (Server (l1 ++ option_list after ++ l2) ps
      (wire ++ [(c_fd x, take (sum_list ns) text)])) t' r' -∗ ⌜offers p (outside r')⌝ -∗ Q tt r') -∗
  wwp (begin_send fuel (a_id a)) Q r1.
Proof.
  intros Hlo Hw Hwf Htext Hne Hs Hturn Hset Hns Hre%retimed_arm_inv Hp. iIntros "L (R & E & Es & W) HQ".
  set (yn := set_num_conns (Z.of_nat (length (l1 ++ a :: l2))) y).
  assert (workers r1 !! c_worker x = Some yn) as Hy.
  { rewrite (lo_workers _ _ _ _ _ _ Hlo), Hw. apply Hok. }
  iPoseProof (spare_timer _ _ _ _ Hs) as "T".
  iApply (begin_send_ok fuel (a_id a) x yn ep t t1 m ev r1 with "[$L] T E").
  - by eapply loosened_conn.
  - done.
  - by eapply spare_rb.
  - by destruct (spare_fuel _ _ _ _ Hs).
  - iIntros "[%Hrb %Hl] L E".
    destruct (offers_armed _ _ (a_id a) x (sending_conn x) ev (Z.lor EPOLLOUT EPOLLET) _ Hp) as (Hret & Hck & Hp').
    destruct (armed_rest_quiet (a_id a) x (sending_conn x) ev (Z.lor EPOLLOUT EPOLLET) r1) as [_ Hq];
      [by eapply offers_ctls_ok|].
    unfold rearmed. rewrite Hck. unfold armed_event. rewrite Hret. change (0 =? 0) with true. cbn iota.
    iApply (settled_turn wire a1 (sending_conn x) with "L [R E Es W] [HQ]"); try done.
    + split; try done. cbn [a_unsent a1]. destruct text as [|b bs] eqn:Et; [done|]. rewrite <- Et in *.
      split_and!; [done|cbn; destruct Hwf; lia|cbn; destruct Hwf; lia|].
      unfold unsent. cbn. by rewrite drop_0.
    + by eapply loosened_quiet.
    + apply (tree_of_arm (a_id a1)). by eapply spare_tree1.
    + apply Hs.
    + unfold about. iFrame. unfold a_event, a1. cbn [a_unsent a_fd a_id]. by destruct text.
Qed.

End turns.

(** ** Events on a connection *)
Section conn_events.
Context (fuel : nat) (Hfuel : (2 * cap < fuel)%nat).
Context (f : File.file) (Hfile : file_ok f) (routes : option (Array.array_header_t Route.route)) (Hroutes : routes_ok routes).
Context (l1 : list aconn) (a : aconn) (l2 : list aconn) (ps : list (list Z)) (wire : list (Z * list Z)) (r : rest) (t t' : tree).

Lemma respond_some fl q : fst (respond f ps fl q) <> [].
Proof.
  intros H. apply (f_equal length) in H. unfold respond, response_text in H. cbn [fst] in H.
  rewrite !length_app in H. cbn in H. lia.
Qed.

(** A request. *)
Lemma ask_turn q chunks tk ns e ts after p (Q : unit -> rest -> heapProp)
    (answer := respond f ps (a_flags a) q)
    (a1 := AConn (a_id a) (a_fd a) (keepalive (q_version q) (a_flags a)) [] (get_time tk)) :
  a_unsent a = [] -> q_ok q -> concat chunks = q_text q -> pieces_ok chunks -> room nb (snd answer) ->
  turn_ok (fst answer) ns e -> settles a1 (fst answer) ns e ts after ->
  (length chunks < fuel)%nat -> (length ns < fuel)%nat ->
  retimed (Disarm (a_id a) (a_timer a) :: Arm (a_id a) (armed (get_time tk) (idle_timer (a_id a))) ::
    settle_ops (a_id a) (get_time tk) e ts) t t' ->
  offers (join_supply (supply_of (Asks (a_id a) q chunks tk ns e ts)) p) (outside r) ->
  session (Server (l1 ++ a :: l2) ps wire) t r ⊢
  (∀ r', session (Server (l1 ++ option_list after ++ l2) (snd answer)
      (wire ++ [(a_fd a, take (sum_list ns) (fst answer))])) t' r' -∗ ⌜offers p (outside r')⌝ -∗ Q tt r') -∗
  wwp (read_data fuel routes (call_route fuel f) (a_id a)) Q r.
Proof.
  intros Hun [Hq Hlen] Hch Hpieces Hroom Hturn Hset Hf Hns (t1 & Hr & Hre)%retimed_disarm_inv Hp. iIntros "S HQ".
  iDestruct (session_focus with "S") as "(L & A & %Ht & %Hfew & %Hok)".
  destruct (crew_at _ _ _ _ _ _ Hok) as (x & Hx & [Hxw Hfd Hfl Hwf Hst]).
  rewrite Hun in Hst. destruct Hst as (_ & Hsize & Hreq).
  destruct Hp as [Hben Hrv Hsn Hck Hac]. cbn in Hrv, Hsn, Hck, Hac. rewrite <- (assoc_L (++)) in Hrv. cbn in Hrv.
  iApply (wwp_goes_on _ (give fuel (a_id a) (fst (q_reply f ps q)))
    (fun r0 => exists buf req al d, wf buf /\ version req = q_version q /\ Forall (fun a => a <> None) al /\
      r0 = set_store d (set_conns (<[a_id a := with_request req (keepalive (q_version q) (c_flags x))
             (set_c_buffer buf x)]> (conns r)) (set_outside (read_os (p_recvs p) al (outside r)) r)) /\
      good nb (snd answer) d)).
  { intros h. destruct (server_replies_pieces fuel f routes (a_id a) h r x (q_method q) (q_uri q) (q_version q)
      (q_headers q) (q_body q) nb ps chunks (p_recvs p)) as (buf & req & al & d & H1 & H2 & H3 & E & H4);
      try done; [apply Hben|apply Hok|].
    eexists. split; [exact E|]. by exists buf, req, al, d. }
  iIntros (r0 (buf & req & al & d & Hwb & Hv & Hal & -> & Hd)).
  set (x1 := with_request _ _ _). set (r0 := set_store d _).
  destruct (reply_short f nb ps (store r) (q_method q) (q_uri q) (sent_body (q_headers q) (q_body q)))
    as [Hstat Hlong]; [done|apply Hok|]. fold (q_reply f ps q) in Hstat, Hlong.
  unfold give, send_response. w_step. iApply wwp_conn; [apply lookup_insert_eq|]. fold x1.
  w_step. w_step.
  destruct (offers_alloc (Supply (p_recvs p) (turn_answers ns e ++ p_sends p) (tk :: ts ++ p_clock p) (p_accepts p))
    (outside r0)) as (g & o & Ho & Hoff).
  { split; try done. by destruct Hben. }
  rewrite Ho. w_step.
  destruct (fill_response_ok g buf req (keepalive (q_version q) (c_flags x)) (fst (fst (q_reply f ps q)))
    (snd (fst (q_reply f ps q))) (length (snd (fst (q_reply f ps q))))) as (b & Hb & Hwfb & Htext); try done.
  { rewrite Hv. apply (ok_version _ _ _ _ _ Hq). }
  iApply wwp_liftr; [exact Hb|]. w_step. iApply wwp_set_conn; [apply lookup_insert_eq|].
  rewrite firstn_all, Hv, Hfl in Htext. fold answer in Htext.
  iApply (send_text_turn fuel Hfuel l1 a l2 ps wire r Hok (snd answer) wire (set_c_buffer b x1) _
    (a_timer a) t t1 t' (a_event a) (fst answer) tk ns e ts after p with "L A"); try done.
  - split; [|done|done|apply Hok]. cbn. by rewrite !insert_insert_eq.
  - apply respond_some.
  - change (c_fd (set_c_buffer b x1)) with (c_fd x). rewrite Hfd.
    change (c_flags (set_c_buffer b x1)) with (keepalive (q_version q) (c_flags x)). rewrite Hfl.
    exact (settles_unsent _ (fst answer) _ _ _ _ _ Hset).
  - change (c_fd (set_c_buffer b x1)) with (c_fd x). by rewrite Hfd.
Qed.
(** Room to send again. *)
Lemma drain_turn ns e ts after p (Q : unit -> rest -> heapProp) :
  a_unsent a <> [] -> turn_ok (a_unsent a) ns e -> settles a (a_unsent a) ns e ts after ->
  (length ns < fuel)%nat -> retimed (settle_ops (a_id a) (a_armed a) e ts) t t' ->
  offers (join_supply (supply_of (Drains (a_id a) ns e ts)) p) (outside r) ->
  session (Server (l1 ++ a :: l2) ps wire) t r ⊢
  (∀ r', session (Server (l1 ++ option_list after ++ l2) ps
      (wire ++ [(a_fd a, take (sum_list ns) (a_unsent a))])) t' r' -∗ ⌜offers p (outside r')⌝ -∗ Q tt r') -∗
  wwp (send_data fuel (a_id a)) Q r.
Proof.
  intros Hne Hturn Hset Hns Hre Hp. iIntros "S HQ".
  iDestruct (session_focus with "S") as "(L & A & %Ht & %Hfew & %Hok)".
  destruct (crew_at _ _ _ _ _ _ Hok) as (x & Hx & Hc).
  iApply (settled_turn fuel Hfuel l1 a l2 ps wire r Hok ps wire a x r t with "L A HQ"); try done.
  by eapply (loosened_self _ _ a x Hok).
Qed.

(** The client goes away, or sends what is not a request. *)
Lemma drop_turn chunks ans p (Q : unit -> rest -> heapProp) :
  a_unsent a = [] -> Z.of_nat (length (concat chunks)) + READ_CHUNK < 2 ^ 31 -> pieces_ok chunks ->
  unanswered (concat chunks) ans -> (length chunks < fuel)%nat -> retimed [Disarm (a_id a) (a_timer a)] t t' ->
  offers (join_supply (supply_of (Drops (a_id a) chunks ans)) p) (outside r) ->
  session (Server (l1 ++ a :: l2) ps wire) t r ⊢
  (∀ r', session (Server (l1 ++ l2) ps wire) t' r' -∗ ⌜offers p (outside r')⌝ -∗ Q tt r') -∗
  wwp (read_data fuel routes (call_route fuel f) (a_id a)) Q r.
Proof.
  intros Hun Hlen Hpieces Hans Hf (t1 & Hr & ->%retimed_nil_inv)%retimed_disarm_inv Hp. iIntros "S HQ".
  iDestruct (session_focus with "S") as "(L & A & %Ht & %Hfew & %Hok)".
  destruct (crew_at _ _ _ _ _ _ Hok) as (x & Hx & [Hxw Hfd Hfl Hwf Hst]).
  rewrite Hun in Hst. destruct Hst as (_ & Hsize & Hreq).
  destruct Hp as [Hben Hrv Hsn Hck Hac]. cbn in Hrv, Hsn, Hck, Hac. rewrite <- (assoc_L (++)) in Hrv. cbn in Hrv.
  iApply (wwp_goes_on _ (close_connection fuel (a_id a)) (fun r0 => exists x' al,
    c_worker x' = w /\ Forall (fun a => a <> None) al /\
    r0 = set_conns (<[a_id a := x']> (conns r)) (set_outside (read_os (p_recvs p) al (outside r)) r))).
  { intros h. destruct (read_data_drops fuel routes (call_route fuel f) (a_id a) h r x chunks ans (p_recvs p))
      as (x' & al & Hw & _ & Hal & E); try done; [apply Hben|].
    eexists. split; [exact E|]. exists x', al. by rewrite Hw, Hxw. }
  iIntros (r0 (x' & al & Hw & Hal & ->)).
  iApply (close_turn fuel Hfuel l1 a l2 ps wire r Hok ps wire x' _ (a_timer a) t t1 (a_event a) with "L A [HQ]").
  - split; [done|done|apply Hok|apply Hok].
  - done.
  - done.
  - iIntros (r') "S %Ho". iApply ("HQ" with "S"). iPureIntro. apply (cl_offers _ _ _ Ho). split; try done. by destruct Hben.
Qed.

(** An event without the flag that is waited for. *)
Lemma break_turn p (Q : unit -> rest -> heapProp) :
  retimed [Disarm (a_id a) (a_timer a)] t t' -> offers p (outside r) ->
  session (Server (l1 ++ a :: l2) ps wire) t r ⊢
  (∀ r', session (Server (l1 ++ l2) ps wire) t' r' -∗ ⌜offers p (outside r')⌝ -∗ Q tt r') -∗
  wwp (close_connection fuel (a_id a)) Q r.
Proof.
  intros (t1 & Hr & ->%retimed_nil_inv)%retimed_disarm_inv Hp. iIntros "S HQ". iDestruct (session_focus with "S") as "(L & A & %Ht & %Hfew & %Hok)".
  destruct (crew_at _ _ _ _ _ _ Hok) as (x & Hx & Hc).
  iApply (close_turn fuel Hfuel l1 a l2 ps wire r Hok ps wire x r (a_timer a) t t1 (a_event a) with "L A [HQ]").
  - exact (loosened_self _ _ a x Hok Hx).
  - apply Hc.
  - done.
  - iIntros (r') "S %Ho". iApply ("HQ" with "S"). iPureIntro. by apply (cl_offers _ _ _ Ho).
Qed.

(** io_callback is one of them. *)
Lemma io_callback_ok m fd x (Q : unit -> rest -> heapProp) :
  conns r !! a_id a = Some x -> is_conn a x ->
  wwp (match a_unsent a with
       | [] => if negb (Z.land m EPOLLIN =? 0) then read_data fuel routes (call_route fuel f) (a_id a)
               else close_connection fuel (a_id a)
       | _ => if negb (Z.land m EPOLLOUT =? 0) then send_data fuel (a_id a)
              else close_connection fuel (a_id a)
       end) Q r ⊢
  wwp (io_callback fuel routes (call_route fuel f) fd m (a_id a)) Q r.
Proof.
  intros Hx [_ _ _ _ Hst]. iIntros "H". unfold io_callback. w_step. w_step.
  destruct (a_unsent a); by destruct Hst as (-> & _).
Qed.

End conn_events.
End worker.
End SessionSpec.
