(* ===== verification/SessionRun.v ===== *)
(** Rounds of the event loop on the worker of Session.v: accepting a connection,
    timing out, and the events of a round one after the other. *)
From stdpp Require Import sorting.
From S2P Require Import Prelude Buffer Http Request RequestSpec Array Heap Clist Rbtree RbtreeSpec RbtreeInv RbtreeDel.
From S2P Require Db.
From S2P Require Import RbtreeSearch Timer TimerSpec World Event EventSpec Connection ReadSpec SendSpec.
From S2P Require Import ConnSpec ConnThm Worker Route FileMap Cask CaskSpec Answer Session SessionTimers SessionSpec.
Import Rbtree Rep Timer Event Clist ClistSpec Connection Buffer Http Request ParserSpec.

Module SessionRun.
Import Worker Cask CaskSpec Session SessionTimers SessionSpec.

Lemma event_rep_ne c1 c2 e1 e2 : event_rep c1 e1 ⊢ event_rep c2 e2 -∗ ⌜c1 <> c2⌝.
Proof.
  unfold event_rep. iIntros "(F1 & _) (F2 & _)". iDestruct (pointsto_ne with "F1 F2") as %H.
  iPureIntro. by intros ->.
Qed.

Lemma event_rep_fresh c e l : event_rep c e ⊢ ([∗ list] a ∈ l, event_rep (a_id a) (a_event a)) -∗
  ⌜c ∉ a_id <$> l⌝.
Proof.
  induction l as [|a l IH]; iIntros "E Es"; [iPureIntro; apply not_elem_of_nil|].
  rewrite big_sepL_cons. iDestruct "Es" as "[E1 Es]". iDestruct (event_rep_ne with "E E1") as %Hne.
  iDestruct (IH with "E Es") as %Hin. iPureIntro. rewrite fmap_cons. by apply not_elem_of_cons.
Qed.

Section worker.
Context (w : ptr) (sock : Z) (y : worker) (ep : Z) (nb cap : nat) (Hcap : Z.of_nat cap < 2 ^ 64).
Abbreviation session := (session w sock y ep nb cap).
Abbreviation crew_ok := (crew_ok w y nb cap).
Context (fuel : nat) (Hfuel : (2 * cap < fuel)%nat).

(** ** Accepting *)
Lemma offers_accept fd p o : 0 <= fd -> offers (Supply (p_recvs p) (p_sends p) (p_clock p) (fd :: p_accepts p)) o ->
  exists o', accepts_fd o fd o' /\ offers p o'.
Proof.
  intros Hfd [[Hc Ha Hca Hf] H1 H2 H3 H4]. destruct o as [rv sn ct al ca ck ac fc sk su ep0 th wr].
  cbn in *. subst rv sn ck ac.
  set (o1 := MkOs (p_recvs p) (p_sends p) ct al ca (p_clock p) (p_accepts p) fc sk su ep0 th wr).
  assert (offers p o1) as Ho1 by by split.
  assert (exists ret o2, pop_fcntl o1 = (ret, o2) /\ 0 <= ret /\ offers p o2) as (ret & o2 & E2 & Hret & Ho2).
  { destruct fc as [|ret fc]; [by exists 0, o1|]. apply Forall_cons in Hf as [Hret Hf].
    by exists ret, (MkOs (p_recvs p) (p_sends p) ct al ca (p_clock p) (p_accepts p) fc sk su ep0 th wr). }
  assert (exists o3, pop_calloc o2 = (true, o3) /\ offers p o3) as (o3 & E3 & Ho3).
  { destruct Ho2 as [[Hc2 Ha2 Hca2 Hf2] G1 G2 G3 G4]. destruct o2 as [rv2 sn2 ct2 al2 [|b ca2] ck2 ac2 fc2 sk2 su2 ep2 th2 wr2].
    - eexists. by split.
    - cbn in Hca2. apply Forall_cons in Hca2 as [-> Hca2]. eexists. by split. }
  destruct (offers_alloc p o3 Ho3) as (g & o4 & E4 & Ho4). exists o4. split; [|done].
  exists ret, o1, o2, o3, g. done.
Qed.

(** The state with one connection more. *)
Lemma crew_add s r c x' r' a : crew_ok s r -> (length (s_conns s) < cap)%nat -> a_id a = c ->
  c ∉ a_id <$> s_conns s -> is_conn w a x' ->
  conns r' = <[c := x']> (conns r) ->
  workers r' = <[w := set_num_conns (u64 (Z.of_nat (length (s_conns s)) + 1)) y]> (workers r) ->
  store r' = store r -> (forall fd, sent_on fd (trace r') = sent_on fd (trace r)) ->
  crew_ok (Server (s_conns s ++ [a]) (s_pastes s) (s_wire s)) r'.
Proof.
  intros [H1 H2 H3 H4 H5 H6 H7] Hl <- Hnot Hc E1 E2 E3 E4. split; cbn [s_conns s_pastes s_wire].
  - rewrite E1. apply Forall_app. split.
    + eapply Forall_impl; [apply Forall_and; split; [exact H1|]|].
      { apply Forall_forall. intros b Hb. exact (list_elem_of_fmap_2 a_id _ _ Hb). }
      cbn. intros b [(xb & Hxb & Hb) Hin]. exists xb. rewrite lookup_insert_ne; [done|].
      intros E. by rewrite E in Hnot.
    + constructor; [|constructor]. exists x'. by rewrite lookup_insert_eq.
  - intros c x Hx Hw. rewrite E1 in Hx. rewrite fmap_app. apply elem_of_app.
    destruct (decide (c = a_id a)) as [->|Hne]; [right; by left|]. left.
    rewrite lookup_insert_ne in Hx by done. by eapply H2.
  - rewrite fmap_app. apply NoDup_app. split; [done|]. split; [|apply NoDup_singleton].
    intros c Hin. change (a_id <$> [a]) with [a_id a]. rewrite list_elem_of_singleton. by intros ->.
  - rewrite length_app. cbn. lia.
  - rewrite E2, lookup_insert_eq, length_app. cbn. rewrite wrap_small by (pow2; lia).
    do 2 f_equal. lia.
  - by rewrite E3.
  - intros fd. by rewrite E4.
Qed.

Lemma connect_turn fd0 m fd t s tr r p (Q : unit -> rest -> heapProp) :
  Z.land m EPOLLIN <> 0 -> 0 <= fd -> (length (s_conns s) < cap)%nat ->
  offers (join_supply (supply_of (Connects fd t)) p) (outside r) ->
  session s tr r ⊢
  (∀ r' c, ⌜c ∉ a_id <$> s_conns s⌝ -∗
     session (Server (s_conns s ++ [AConn c fd 0 [] (get_time t)]) (s_pastes s) (s_wire s))
       (rb_insert c (members (armed (get_time t) (idle_timer c))) tr) r' -∗
     ⌜offers p (outside r')⌝ -∗ Q tt r') -∗
  wwp (on_accept fuel fd0 m w) Q r.
Proof.
  intros Hm Hfd Hl Hp. iIntros "((B & R & Es & W) & %Hok & T & %Ht) HQ". pose proof Ht as (Hrb & Ho & He).
  destruct (offers_accept fd (tick t p) (outside r) Hfd) as (o & Hacc & Hoff); [by destruct Hp|].
  unfold on_accept. replace (Z.land m EPOLLIN =? 0) with false by zlia. cbn [negb]. w_step.
  iApply (accept_connection_ok fuel w _ ep tr with "[B T] R"); [apply Hok|exact Hacc|done| | |].
  { by destruct (fuel_enough cap fuel Hfuel _ tr Ht); rewrite ?length_fmap; [lia|]. }
  { unfold loop_rep. iFrame. }
  iIntros (c Hc) "L E R". set (x := new_conn w fd). set (r0 := set_conns (<[c := x]> (conns r)) (set_outside o r)).
  destruct (offers_armed t p c x (reading_conn x) zero_event (Z.lor EPOLLIN EPOLLET) r0 Hoff) as (Hret & Hck & Hp').
  destruct (armed_rest_quiet c x (reading_conn x) zero_event (Z.lor EPOLLIN EPOLLET) r0) as [_ Hq];
    [exact (offers_ctls_ok _ r0 Hoff)|].
  rewrite Hret. change (0 =? 0) with true. cbn iota. w_step.
  change (negb (OK =? OK)) with false. cbn iota.
  set (yn := set_num_conns (Z.of_nat (length (s_conns s))) y).
  iApply (wwp_set_worker _ yn); [rewrite (quiet_workers _ _ _ _ Hq); apply Hok|].
  iDestruct (event_rep_fresh with "E Es") as %Hnot.
  set (a := AConn c fd 0 [] (get_time t)).
  assert (is_conn w a (reading_conn x)) as Hconn by by split.
  iApply ("HQ" $! _ c with "[//] [-]"); [|by iPureIntro].
  set (r2 := set_workers _ _).
  assert (crew_ok (Server (s_conns s ++ [a]) (s_pastes s) (s_wire s)) r2) as Hok2.
  { apply (crew_add s r c (reading_conn x) r2 a Hok Hl eq_refl Hnot Hconn).
    - etransitivity; [exact (quiet_conns _ _ _ _ Hq)|]. cbn. by rewrite insert_insert_eq.
    - unfold r2. change (workers (set_workers ?m _)) with m. by rewrite (quiet_workers _ _ _ _ Hq).
    - apply (quiet_store _ _ _ _ Hq).
    - apply (quiet_trace _ _ _ _ Hq). }
  iDestruct "L" as "[B T]". unfold SessionSpec.session, crew. cbn [s_conns].
  rewrite fmap_app, big_sepL_app. cbn [fmap list_fmap big_opL]. iFrame "B R Es W".
  unfold armed_event. rewrite Hret. iFrame "E". iSplit; [done|].
  unfold rearmed. rewrite Hck. iFrame "T". iPureIntro. apply (tree_focus (s_conns s) a []).
  rewrite app_nil_r. by apply (tree_of_arm (a_id a)).
Qed.

(** ** Timing out *)

(** The connections that are left when those in [cs] have been closed. *)
Definition without (cs : list ptr) (l : list aconn) : list aconn := filter (fun a => a_id a ∉ cs) l.

Lemma without_nil l : without [] l = l.
Proof.
  unfold without. induction l as [|a l IH]; [done|]. rewrite filter_cons_True, IH; [done|].
  apply not_elem_of_nil.
Qed.

Lemma without_split cs l a : NoDup (a_id <$> l) -> a ∈ l -> a_id a ∉ cs ->
  exists l1 l2, without cs l = l1 ++ a :: l2 /\ without (cs ++ [a_id a]) l = l1 ++ l2.
Proof.
  intros Hnd Hin Hcs. apply list_elem_of_split in Hin as (k1 & k2 & ->).
  rewrite fmap_app, fmap_cons in Hnd. apply NoDup_app in Hnd as (_ & Hnd1 & Hnd2).
  apply NoDup_cons in Hnd2 as [Hnd2 _].
  assert (forall k, (forall b, b ∈ k -> a_id b <> a_id a) -> without (cs ++ [a_id a]) k = without cs k) as Hk.
  { intros k Hne. apply filter_same. intros b Hb. specialize (Hne b Hb).
    rewrite elem_of_app, list_elem_of_singleton. tauto. }
  exists (without cs k1), (without cs k2). split; [unfold without; by rewrite filter_app, filter_cons_True|].
  rewrite <- (Hk k1), <- (Hk k2).
  - unfold without. rewrite filter_app, filter_cons_False; [done|set_solver].
  - intros b Hb E. apply Hnd2. rewrite <- E. by apply list_elem_of_fmap_2.
  - intros b Hb E. apply (Hnd1 (a_id b)); [by apply list_elem_of_fmap_2|]. rewrite E. by left.
Qed.

Lemma members_inj m1 m2 : members m1 = members m2 -> m1 = m2.
Proof. destruct m1, m2. by intros [= <- <- <- <- <-]. Qed.

Lemma crew_outside s r o : crew_ok s r -> crew_ok s (set_outside o r).
Proof. intros []. by split. Qed.

Lemma expire_turn t s tr r p (Q : unit -> rest -> heapProp) : offers (tick t p) (outside r) ->
  session s tr r ⊢
  (∀ t' r', ⌜sweeps (get_time t) tr t'⌝ -∗ session (expire (get_time t) s) t' r' -∗ ⌜offers p (outside r')⌝ -∗ Q tt r') -∗
  wwp (run_timers (call_timer fuel) fuel (w_base y)) Q r.
Proof.
  destruct s as [l ps wire]. intros Hp. iIntros "(C & %Hok & T & %Ht) HQ". pose proof Ht as (Hrb & Ho & He). cbn [s_conns] in He.
  assert (length (entries tr) < fuel)%nat as Hl.
  { rewrite He, length_fmap. pose proof (crew_few _ _ _ _ _ _ Hok) as H. cbn in H. lia. }
  destruct (offers_clock t p (outside r) Hp) as [Hts Hoff].
  destruct (pop_clock (outside r)) as [ts o] eqn:Hpop. cbn in Hts, Hoff. subst ts.
  assert (NoDup (fst <$> entries tr)) as Hnd.
  { rewrite He, <- list_fmap_compose. apply (crew_nodup _ _ _ _ _ _ Hok). }
  set (st := fun done : list (ptr * list Z) => Server (without (fst <$> done) l) ps wire).
  set (I := fun (done : list (ptr * list Z)) (r' : rest) =>
    (crew w sock y ep (st done) ∗ ⌜crew_ok (st done) r' /\ offers p (outside r')⌝)%I).
  iApply (run_timers_ok (w_base y) (call_timer fuel) I tr fuel r t o with "T [C]"); try done.
  - intros done x m later r' R Hes.
    assert ((x, members m) ∈ a_entry <$> l) as Hx.
    { rewrite <- He, Hes. apply elem_of_app. right. by left. }
    apply list_elem_of_fmap in Hx as (a & Ha & Hal). apply pair_eq in Ha as [-> ->%members_inj].
    rewrite Hes, fmap_app in Hnd. apply NoDup_app in Hnd as (_ & Hnd & _).
    assert (a_id a ∉ fst <$> done) as Hnot by (intros Hx; apply (Hnd _ Hx); by left).
    destruct (without_split (fst <$> done) l a (crew_nodup _ _ _ _ _ _ Hok) Hal Hnot) as (l1 & l2 & H1 & H2).
    unfold I, st. rewrite fmap_app. cbn [fmap list_fmap fst]. rewrite H1, H2.
    iIntros "(T & (B & Rg & Es & W) & %Hok' & %Hp') HR". cbn [s_conns].
    rewrite big_sepL_app, fmap_app, fmap_cons. iDestruct "Es" as "(E1 & Ex & E2)".
    destruct (crew_at _ _ _ _ _ _ _ _ _ _ Hok') as (xc & Hxc & [Hxw Hfd _ _ _]).
    unfold call_timer. change (TimerSpec.cb (a_timer a) =? TIMEOUT_CALLBACK) with true. cbn iota.
    change (TimerSpec.data (a_timer a)) with (a_id a). unfold timeout_callback.
    destruct (crew_remove _ _ _ _ Hcap l1 a l2 ps wire r' Hok' xc ps wire (e_fd (a_event a)) r'
      (loosened_self _ _ _ _ _ _ a xc Hok' Hxc) Hxw) as [Hy Hrem].
    rewrite <- Hxw in Hy. change (w_base y) with (w_base (set_num_conns (Z.of_nat (length (l1 ++ a :: l2))) y)).
    iApply (close_expired_ok fuel (a_id a) xc _ ep _ (a_event a) with "T B Ex Rg"); [done|done|apply active_deactivated|].
    iIntros "B Rg". iApply "HR". unfold crew. cbn [s_conns]. rewrite big_sepL_app, fmap_app. iFrame.
    iPureIntro. split; [done|]. by apply offers_closed.
  - apply Forall_forall. intros e. rewrite He. intros (a & -> & _)%list_elem_of_fmap. by exists (a_timer a).
  - unfold I, st. cbn [fmap list_fmap]. rewrite without_nil. iFrame. iPureIntro. split; [by apply crew_outside|done].
  - iIntros (t' es1 es2 r' (G1 & G2 & G3 & G4 & G5 & G6 & G7)) "T [C [%Hok' %Hp']]".
    assert (sweeps (get_time t) tr t') as Hsw by by exists es1, es2.
    rewrite G3 in He. destruct (expire_entries _ _ _ _ (crew_nodup _ _ _ _ _ _ Hok) He G5 G6) as [E1 E2].
    unfold st, without in *. cbn [s_conns] in E1, E2. rewrite E1 in Hok'. rewrite E1. iApply ("HQ" $! t' with "[//] [C T]"); [|done].
    iFrame. iSplit; [done|]. iPureIntro. split_and!; [done|done|]. by rewrite G4.
Qed.

(** ** The events of a round *)
Context (f : File.file) (Hfile : file_ok f) (routes : option (Array.array_header_t Route.route)) (Hroutes : routes_ok routes).
Abbreviation move := (move f nb cap).
Abbreviation call := (call_event fuel routes (call_route fuel f)).

(** What run_events reads of an event before it calls its callback. *)
Lemma read_event_ok e m (k : ptr -> Z -> ptr -> cmd world unit) (Q : unit -> rest -> heapProp) r :
  event_rep e m ⊢ (event_rep e m -∗ wwp (k (e_cb m) (e_fd m) (e_data m)) Q r) -∗
  wwp (cb ← on_heap (hload (e, EventCb)); fd ← on_heap (hload (e, Fd)); d ← on_heap (hload (e, EventData));
       k cb fd d) Q r.
Proof.
  unfold event_rep. iIntros "(E1 & E2 & E3 & E4 & E5) HQ".
  w_step. w_step. h_step. w_step. w_step. h_step. w_step. w_step. h_step. iApply "HQ". iFrame.
Qed.

Lemma read_conn_event l1 a l2 ps wire t k (Q : unit -> rest -> heapProp) r :
  session (Server (l1 ++ a :: l2) ps wire) t r ⊢
  (∀ x, ⌜conns r !! a_id a = Some x /\ is_conn w a x⌝ -∗ session (Server (l1 ++ a :: l2) ps wire) t r -∗
     wwp (k IO_CALLBACK (a_fd a) (a_id a)) Q r) -∗
  wwp (cb ← on_heap (hload (a_id a, EventCb)); fd ← on_heap (hload (a_id a, Fd));
       d ← on_heap (hload (a_id a, EventData)); k cb fd d) Q r.
Proof.
  unfold SessionSpec.session, crew. cbn [s_conns]. rewrite big_sepL_app.
  iIntros "((B & R & (E1 & E & E2) & W) & %Hok & T) HQ".
  iApply (read_event_ok with "E"). iIntros "E". cbn [a_event e_cb e_fd e_data].
  destruct (crew_at _ _ _ _ _ _ _ _ _ _ Hok) as (x & Hx & Hc).
  iApply ("HQ" $! x with "[//]"). iFrame. done.
Qed.

Lemma read_listening s t k (Q : unit -> rest -> heapProp) r :
  session s t r ⊢ (session s t r -∗ wwp (k ON_ACCEPT sock w) Q r) -∗
  wwp (cb ← on_heap (hload (w, EventCb)); fd ← on_heap (hload (w, Fd));
       d ← on_heap (hload (w, EventData)); k cb fd d) Q r.
Proof.
  unfold SessionSpec.session, crew. iIntros "((B & R & Es & W) & %Hok & T) HQ".
  iApply (read_event_ok with "W"). iIntros "W". cbn [listening e_cb e_fd e_data]. iApply "HQ". by iFrame.
Qed.

(** One event: the callback takes the step. *)
Lemma event_turn m i s t s1 t1 r p (Q : unit -> rest -> heapProp) (next : cmd world unit) :
  move (m, i) s t s1 t1 -> short fuel i -> offers (join_supply (supply_of i) p) (outside r) ->
  session s t r ⊢
  (∀ s' t' r', ⌜move (m, i) s t s' t'⌝ -∗ session s' t' r' -∗ ⌜offers p (outside r')⌝ -∗ wwp next Q r') -∗
  wwp (cb ← on_heap (hload (source w i, EventCb)); fd ← on_heap (hload (source w i, Fd));
       d ← on_heap (hload (source w i, EventData)); _ ← call cb fd m d; next) Q r.
Proof.
  intros Hmove Hshort Hp. pose proof Hmove as [Hstep Hre]. iIntros "S HQ".
  iAssert (⌜NoDup (a_id <$> s_conns s)⌝)%I as %Hnd.
  { iDestruct "S" as "(_ & %Hok & _)". iPureIntro. apply Hok. }
  inversion Hstep as [m0 c fd tk conns ps wire Hm Hfd Hl Hc
    |m0 l1 a l2 ps wire q chunks tk ns e ts after ans a1 Hm Hun Hq Hch Hpc Hroom Hturn Hset
    |m0 l1 a l2 ps wire ns e ts after Hm Hun Hturn Hset
    |m0 l1 a l2 ps wire chunks ans Hm Hun Hlen Hpc Hgone
    |m0 l1 a l2 ps wire Hm]; subst; cbn [source].
  - iApply (read_listening with "S"). iIntros "S". unfold call_event at 1.
    change (ON_ACCEPT =? IO_CALLBACK) with false. change (ON_ACCEPT =? ON_ACCEPT) with true. cbn iota.
    w_step. iApply (connect_turn sock m fd tk with "S"); [done|done|done|exact Hp|].
    iIntros (r' c' Hc') "S %Hp'". iApply ("HQ" with "[%] S [//]"). split; [by constructor|].
    cbn [snd ops_of s_conns]. rewrite last_snoc. by repeat constructor.
  - iApply (read_conn_event with "S"). iIntros (x [Hx Hic]) "S". unfold call_event at 1.
    change (IO_CALLBACK =? IO_CALLBACK) with true. cbn iota. w_step. destruct Hshort as [Hs1 Hs2].
    iApply (io_callback_ok w fuel f routes a r m (a_fd a) x); [done|done|]. rewrite Hun.
    replace (Z.land m EPOLLIN =? 0) with false by zlia. cbn [negb].
    cbn [snd ops_of s_conns] in Hre, Hnd. rewrite armed_at_focus in Hre by done.
    iApply (ask_turn w sock y ep nb cap Hcap fuel Hfuel f Hfile routes Hroutes l1 a l2 ps wire r with "S"); try done.
    iIntros (r') "S %Hp'". iApply ("HQ" with "[//] S [//]").
  - iApply (read_conn_event with "S"). iIntros (x [Hx Hic]) "S". unfold call_event at 1.
    change (IO_CALLBACK =? IO_CALLBACK) with true. cbn iota. w_step.
    iApply (io_callback_ok w fuel f routes a r m (a_fd a) x); [done|done|].
    replace (Z.land m EPOLLOUT =? 0) with false by zlia. cbn [negb].
    destruct (a_unsent a) as [|b bs] eqn:Eu; [done|]. rewrite <- Eu in *.
    cbn [snd ops_of s_conns] in Hre, Hnd. rewrite armed_at_focus in Hre by done.
    iApply (drain_turn w sock y ep nb cap Hcap fuel Hfuel l1 a l2 ps wire r with "S"); try done.
    iIntros (r') "S %Hp'". iApply ("HQ" with "[//] S [//]").
  - iApply (read_conn_event with "S"). iIntros (x [Hx Hic]) "S". unfold call_event at 1.
    change (IO_CALLBACK =? IO_CALLBACK) with true. cbn iota. w_step.
    iApply (io_callback_ok w fuel f routes a r m (a_fd a) x); [done|done|]. rewrite Hun.
    replace (Z.land m EPOLLIN =? 0) with false by zlia. cbn [negb].
    cbn [snd ops_of s_conns] in Hre, Hnd. rewrite armed_at_focus in Hre by done.
    iApply (drop_turn w sock y ep nb cap Hcap fuel Hfuel f routes l1 a l2 ps wire r with "S"); try done.
    iIntros (r') "S %Hp'". iApply ("HQ" with "[//] S [//]").
  - iApply (read_conn_event with "S"). iIntros (x [Hx Hic]) "S". unfold call_event at 1.
    change (IO_CALLBACK =? IO_CALLBACK) with true. cbn iota. w_step.
    iApply (io_callback_ok w fuel f routes a r m (a_fd a) x); [done|done|].
    assert (offers p (outside r)) as Hp' by (by destruct p).
    cbn [snd ops_of s_conns] in Hre, Hnd. rewrite armed_at_focus in Hre by done.
    destruct (a_unsent a) eqn:Eu; rewrite Hm; change (negb (0 =? 0)) with false; cbn iota;
      (iApply (break_turn w sock y ep nb cap Hcap fuel Hfuel l1 a l2 ps wire r t t1 p _ Hre Hp' with "S");
       iIntros (r') "S %Hp2"; iApply ("HQ" with "[//] S [//]")).
Qed.

(** All of them. *)
Lemma run_events_turn ins : forall s t r p (Q : unit -> rest -> heapProp), can_run f nb cap ins s t ->
  Forall (fun i => short fuel (snd i)) ins -> offers (join_supply (supplies ins) p) (outside r) ->
  session s t r ⊢
  (∀ s' t' r', ⌜moves f nb cap ins s t s' t'⌝ -∗ session s' t' r' -∗ ⌜offers p (outside r')⌝ -∗ Q tt r') -∗
  wwp (run_events call (length ins) (reported w ins)) Q r.
Proof.
  induction ins as [|[m i] ins IH]; intros s t r p Q Had Hsh Hp; iIntros "S HQ".
  - cbn [length run_events]. w_step. iApply ("HQ" with "[%] S [%]"); [constructor|by destruct p].
  - inversion Had as [|i' ins' s' t' s1 t1 Hstep Hnext]; subst. apply Forall_cons in Hsh as [Hsh1 Hsh].
    cbn [length run_events reported fmap list_fmap fst snd].
    iApply (event_turn m i s t s1 t1 r (join_supply (supplies ins) p) with "S"); [done|done| |].
    { by rewrite <- join_supply_assoc. }
    iIntros (s2 t2 r2 Hs2) "S %Hp2". iApply (IH with "S"); [by apply Hnext|done|done|].
    iIntros (s3 t3 r3 Hs3) "S %Hp3". iApply ("HQ" with "[%] S [//]"). by econstructor.
Qed.

(** A round. *)
Lemma round_turn now ins s t r p (Q : Z -> rest -> heapProp) :
  can_round f nb cap now ins s t -> Forall (fun i => short fuel (snd i)) ins ->
  offers (tick now (join_supply (supplies ins) p)) (outside r) ->
  session s t r ⊢
  (∀ s' t' r', ⌜full_round f nb cap now ins s t s' t'⌝ -∗ session s' t' r' -∗ ⌜offers p (outside r')⌝ -∗ Q OK r') -∗
  wwp (event_base_iter (call_timer fuel) call fuel (w_base y) (Z.of_nat (length ins)) (reported w ins)) Q r.
Proof.
  intros Had Hsh Hp. iIntros "S HQ". unfold event_base_iter, run_io. w_step.
  iApply (expire_turn with "S"); [done|]. iIntros (t1 r1 Hsw) "S %Hp1".
  w_step. w_step. iDestruct "S" as "((B & R) & H)". iApply (hwp_load with "B"). iIntros "B".
  iAssert (session (expire (get_time now) s) t1 r1) with "[B R H]" as "S".
  { unfold SessionSpec.session, crew. iFrame. }
  destruct (Z.eqb_spec (Z.of_nat (length ins)) 0) as [E|E]; cbn [negb].
  - destruct ins as [|]; [|cbn in E; lia]. change (Z.of_nat (length []) <? 0) with false. cbn iota. w_step.
    iApply ("HQ" with "[%] S [%]"); [exists t1; by split; [|constructor]|by destruct p].
  - rewrite Nat2Z.id. w_step. iApply (run_events_turn with "S"); [by apply Had|done..|].
    iIntros (s2 t2 r2 Hs2) "S %Hp2". w_step. iApply ("HQ" with "[%] S [//]"). by exists t1.
Qed.
End worker.
End SessionRun.
