(* ===== verification/SessionThm.v ===== *)
(** The theorems on a worker that serves its clients: each round of its event loop
    is a round of the abstract worker of Session.v; it does not get stuck; and each client
    gets the answers to its requests in their order.  The clients and the system keep to
    the rules of [lawful] below.

    The theorems hold for any number of connections as long as every timer that is taken out of
    the tree is at a node with at most one child (SessionTimers.v), and so without any
    such condition for two connections. *)
From stdpp Require Import sorting.
From S2P Require Import Prelude Buffer Http Request RequestSpec Array Heap Clist Rbtree RbtreeSpec RbtreeInv RbtreeDel.
From S2P Require Db.
From S2P Require Import RbtreeSearch Timer TimerSpec World Event EventSpec Connection ReadSpec SendSpec.
From S2P Require Import ConnSpec ConnThm Worker Route FileMap Cask Store CaskSpec CaskThm Answer Session SessionTimers SessionSpec SessionRun.
Import Rbtree Rep Timer Event Clist ClistSpec Connection Buffer Http Request ParserSpec.

Module SessionThm.
Import Worker Cask CaskSpec Session SessionTimers SessionSpec SessionRun.

(** ** Plays

    What the outside does, round by round: when the clock is read, what happens, the
    answers of the system calls; the next round may depend on the world it finds. *)
Inductive play :=
  | Done
  | Round (t : timespec) (ins : list (Z * input)) (o : os) (next : world -> play).

Section plays.
Context (fuel : nat) (f : File.file) (routes : option (Array.array_header_t Route.route)).
Context (w : ptr) (sock : Z) (y : worker) (ep : Z) (nb cap : nat).
Abbreviation session := (session w sock y ep nb cap).

(** One round of the event loop. *)
Definition iterate (ins : list (Z * input)) : cmd world Z :=
  event_base_iter (call_timer fuel) (call_event fuel routes (call_route fuel f)) fuel (w_base y)
    (Z.of_nat (length ins)) (reported w ins).

(** The event loop on a play: what has happened, and the world at the end. *)
Fixpoint exec (p : play) (wd : world) : res (list (timespec * list (Z * input)) * world) :=
  match p with
  | Done => Val ([], wd)
  | Round t ins o next =>
      r ← iterate ins (World (memory wd) (set_outside o (others wd)));
      e ← exec (next (snd r)) (snd r);
      Val ((t, ins) :: fst e, snd e)
  end.

(** The rules.  In each round the events are steps of the abstract worker: a client
    connects, on a descriptor and while there are fewer than [cap] connections; sends a
    whole well-formed request, all of whose pieces are there when the worker reads, and,
    when it is a paste, there is a free bucket for it; makes room for more of its answer;
    goes away, after any bytes, while it is waited for, or sends bytes that the parser
    rejects, after which the worker closes the connection; or an event comes without the
    flag that is waited for.  A send stops with EAGAIN, or fails in another way than with EPIPE;
    no other call fails, and the clock goes forward.  Not within the rules are a request
    of which the worker sees a part first (read_data_spins), one with a
    negative length (negative_length_overreads), a client that is gone when it is sent to
    (gone_client_kills), and a paste without a free bucket (db_insert_collision).
    [lawful]: these; [fair]: and every timer that is taken out of the tree is at a node
    with at most one child (middle_disconnect_use_after_free). *)
Fixpoint fair (p : play) (s : server) (t : tree) (wd : world) : Prop :=
  match p with
  | Done => True
  | Round now ins o next =>
      can_round f nb cap now ins s t /\ Forall (fun i => short fuel (snd i)) ins /\
      offers (tick now (supplies ins)) o /\
      forall s' t' wd', full_round f nb cap now ins s t s' t' -> session s' t' (others wd') (memory wd') ->
        fair (next wd') s' t' wd'
  end.
Fixpoint lawful (p : play) (s : server) (wd : world) : Prop :=
  match p with
  | Done => True
  | Round now ins o next =>
      admits f nb cap ins (expire (get_time now) s) /\ Forall (fun i => short fuel (snd i)) ins /\
      offers (tick now (supplies ins)) o /\
      forall s' t' wd', round f nb cap now ins s s' -> session s' t' (others wd') (memory wd') ->
        lawful (next wd') s' wd'
  end.

Lemma lawful_fair p : forall s t wd, (cap <= 2)%nat -> tidy cap s t -> lawful p s wd -> fair p s t wd.
Proof.
  induction p as [|now ins o next IH]; intros s t wd Hcap Ht; cbn [lawful fair]; [done|].
  intros (Had & Hsh & Hp & Hnext). split_and!; [by apply admits_can_round|done|done|].
  intros s' t' wd' Hr Hs. apply IH; [done|by eapply full_round_tidy|]. eapply Hnext; [|exact Hs].
  by eapply full_round_round.
Qed.

Context (Hcap : Z.of_nat cap < 2 ^ 64) (Hfuel : (2 * cap < fuel)%nat) (Hfile : file_ok f) (Hroutes : routes_ok routes).

Lemma join_nothing p : join_supply p no_supply = p.
Proof. destruct p. unfold join_supply. cbn. by rewrite !app_nil_r. Qed.

Lemma iterate_ok now ins s t r :
  can_round f nb cap now ins s t -> Forall (fun i => short fuel (snd i)) ins ->
  offers (tick now (supplies ins)) (outside r) ->
  wtriple (session s t r) r (iterate ins)
    (fun ret r' => ∃ s' t', session s' t' r' ∗ ⌜ret = OK /\ full_round f nb cap now ins s t s' t'⌝)%I.
Proof.
  intros Had Hsh Hp. apply wtriple_wwp. iIntros "S".
  iApply (round_turn w sock y ep nb cap Hcap fuel Hfuel f Hfile routes Hroutes now ins s t r no_supply with "S"); [done|done| |].
  - by rewrite join_nothing.
  - iIntros (s' t' r' Hr) "S _". iExists s', t'. by iFrame.
Qed.

Lemma session_outside s t r o h : session s t r h -> session s t (set_outside o r) h.
Proof.
  enough (session s t r ⊢ session s t (set_outside o r)) as [H] by apply H.
  iIntros "($ & %Hok & $)". iPureIntro. by apply crew_outside.
Qed.

(** What is pure in a session. *)
Lemma session_crew s t r h : session s t r h -> crew_ok w y nb cap s r /\ tidy cap s t.
Proof.
  intros H. assert (session s t r ⊢ ⌜crew_ok w y nb cap s r /\ tidy cap s t⌝) as [He].
  { iIntros "(_ & %Hok & _ & %Ht)". iPureIntro. split; [done|]. split; [apply Hok|apply Hok|done]. }
  by specialize (He h H).
Qed.

Lemma exec_ok p : forall s t h r, session s t r h -> fair p s t (World h r) ->
  exists log h' r' s' t', exec p (World h r) = Val (log, World h' r') /\ rounds f nb cap log s s' /\
    session s' t' r' h'.
Proof.
  induction p as [|now ins o next IH]; intros s t h r Hs Hfair; cbn [exec fair] in *.
  - exists [], h, r, s, t. split; [done|]. by split; [constructor|].
  - destruct Hfair as (Had & Hsh & Hp & Hnext).
    destruct (wtriple_run _ _ _ _ h (iterate_ok now ins s t (set_outside o r) Had Hsh Hp) (session_outside _ _ _ _ _ Hs))
      as (ret & h1 & r1 & E & s1 & t1 & ha & hb & -> & Hd & Hs1 & (-> & Hround)).
    assert (session s1 t1 r1 (ha ∪ hb)) as Hs1'.
    { eapply hp_mono; [exact Hs1|]. by apply map_union_subseteq_l. }
    destruct (IH _ s1 t1 _ _ Hs1' (Hnext s1 t1 (World (ha ∪ hb) r1) Hround Hs1')) as (log & h' & r' & s' & t' & E' & Hl & Hs').
    exists ((now, ins) :: log), h', r', s', t'. split; [|split; [econstructor; [by eapply full_round_round|done]|done]].
    cbn [memory others]. rewrite E. cbn [mbind res_bind fst snd]. by rewrite E'.
Qed.

(** Abstract runs keep few connections, and the pastes. *)
Lemma reply_prefix q ps : ps `prefix_of` snd (q_reply f ps q).
Proof.
  unfold q_reply, reply. destruct (q_method q), (q_uri q) as [|z u]; try done.
  all: destruct (decide (z = 47)) as [->|Hz]; [|destruct u; by rewrite ?slash_case].
  all: destruct u; try done. unfold post_reply. destruct (sent_body _ _); [done|]. by apply prefix_app_r.
Qed.

Lemma pastes_grow ins : forall ps, ps `prefix_of` foldl (pastes_after f) ps ins.
Proof.
  induction ins as [|[m i] ins IH]; intros ps; [done|]. cbn [foldl]. etransitivity; [|apply IH].
  unfold pastes_after. destruct i; try done. apply reply_prefix.
Qed.

Lemma rounds_pastes log : forall s s', NoDup (a_id <$> s_conns s) -> rounds f nb cap log s s' ->
  s_pastes s `prefix_of` s_pastes s'.
Proof.
  induction log as [|[t ins] log IH]; intros s s' Hnd Hr; inversion Hr as [|t' ins' log' s1 s2 s3 H1 H2]; subst; [done|].
  apply (expire_ids (get_time t)) in Hnd. destruct (steps_keep _ _ _ _ _ _ Hnd H1) as [Hnd2 Hps].
  etransitivity; [|by eapply IH]. rewrite Hps. apply pastes_grow.
Qed.

(** The bytes that are still to be sent on a connection. *)
Definition pending (x : connection) : list Z :=
  match c_state x with CONNECTION_STATE_OUT => unsent x | _ => [] end.

Lemma is_conn_pending a x : is_conn w a x -> pending x = a_unsent a.
Proof.
  intros [_ _ _ _ Hst]. unfold pending. destruct (a_unsent a) eqn:E.
  - by destruct Hst as (-> & _).
  - by destruct Hst as (-> & _ & ->).
Qed.

End plays.

(** C2: A round of the event loop is a round of the abstract worker, within the rules of
    [fair].  From a world that represents state [s] with timers [t], with any number of
    connections up to [cap]: when epoll_wait reports events that can happen in [s] (a
    client connecting, a whole well-formed request arriving, with a free bucket if it is a
    paste, or bytes that the parser rejects, room to send again, a client gone that is not
    being sent to), recv, send, accept and the clock answer as those events say and no other call fails, and the
    timers that are to be taken out of the tree are at nodes with at most one child,
    event_base_iter returns OK and the world then
    represents a state the specification allows: the connections that are due have timed
    out and each event has had its effect, in order.  The representation is the invariant
    of the whole worker: the tree of timers is a valid red-black tree with exactly one
    armed timer per connection, the list and the count have exactly the connections, each
    event is registered for what its connection waits for, each buffer is well-formed and
    holds what is still to be sent, and the database holds the pastes. *)
Theorem round_refines fuel f gs routes w sock y ep nb cap now ins s t r :
  Z.of_nat cap < 2 ^ 64 -> (2 * cap < fuel)%nat ->
  (forall i, gs i <> None) -> add_routes gs = Val routes -> file_ok f ->
  can_round f nb cap now ins s t -> Forall (fun i => short fuel (snd i)) ins ->
  offers (tick now (supplies ins)) (outside r) ->
  wtriple (session w sock y ep nb cap s t r) r
    (event_base_iter (call_timer fuel) (call_event fuel routes (call_route fuel f)) fuel (w_base y)
       (Z.of_nat (length ins)) (reported w ins))
    (fun ret r' => ∃ s' t', session w sock y ep nb cap s' t' r' ∗
       ⌜ret = OK /\ full_round f nb cap now ins s t s' t'⌝)%I.
Proof.
  intros Hcap Hfuel Hgs Hadd Hfile Had Hsh Hp.
  destruct (add_routes_ok gs Hgs) as (routes' & E & Hok). rewrite Hadd in E. injection E as <-.
  exact (iterate_ok fuel f routes w sock y ep nb cap Hcap Hfuel Hfile Hok now ins s t r Had Hsh Hp).
Qed.

(** C3: Within the rules, a worker never gets stuck and forgets nothing.  The rules are
    those of [fair]: what a client sends comes whole and is a well-formed request or
    rejected by the parser, a paste finds a free bucket, no client is gone when it is sent to, no call fails but a send or recv on a connection,
    which is then closed, and every timer that is taken out of the tree is at a node with
    at most one child.  Then, round after round, the event loop runs every round to its
    end: it never touches memory that is not its own and never loops for ever; what it has
    done is a run of the abstract worker, it still has at most [cap] connections, and the
    pastes it had are still there under their numbers. *)
Theorem worker_never_stuck fuel f gs routes w sock y ep nb cap p s t h r :
  Z.of_nat cap < 2 ^ 64 -> (2 * cap < fuel)%nat ->
  (forall i, gs i <> None) -> add_routes gs = Val routes -> file_ok f ->
  session w sock y ep nb cap s t r h -> fair fuel f w sock y ep nb cap p s t (World h r) ->
  exists log h' r' s' t', exec fuel f routes w y p (World h r) = Val (log, World h' r') /\
    rounds f nb cap log s s' /\ session w sock y ep nb cap s' t' r' h' /\
    (length (s_conns s') <= cap)%nat /\ s_pastes s `prefix_of` s_pastes s' /\
    Db.DbSpec.holds nb (s_pastes s') (store r').
Proof.
  intros Hcap Hfuel Hgs Hadd Hfile Hs Hfair.
  destruct (add_routes_ok gs Hgs) as (routes' & E & Hok). rewrite Hadd in E. injection E as <-.
  destruct (exec_ok fuel f routes w sock y ep nb cap Hcap Hfuel Hfile Hok p s t h r Hs Hfair)
    as (log & h' & r' & s' & t' & E & Hl & Hs').
  destruct (session_crew _ _ _ _ _ _ _ _ _ _ Hs) as [Hc _], (session_crew _ _ _ _ _ _ _ _ _ _ Hs') as [Hc' _].
  exists log, h', r', s', t'. split_and!; try done; try apply Hc'.
  eapply rounds_pastes; [apply Hc|done].
Qed.

(** C4: A worker with at most two connections needs no condition on its timers.  When its
    clients keep to the rules of [lawful] (whole requests, well-formed or rejected by the
    parser, a free bucket for a paste, nobody gone when sent to, no failing call but on a connection that is then
    closed), every round of the event loop runs to its end, as a run of the abstract
    worker, and no paste is forgotten. *)
Theorem two_connections_never_stuck fuel f gs routes w sock y ep nb p s t h r :
  (4 < fuel)%nat -> (forall i, gs i <> None) -> add_routes gs = Val routes -> file_ok f ->
  session w sock y ep nb 2 s t r h -> lawful fuel f w sock y ep nb 2 p s (World h r) ->
  exists log h' r' s' t', exec fuel f routes w y p (World h r) = Val (log, World h' r') /\
    rounds f nb 2 log s s' /\ session w sock y ep nb 2 s' t' r' h' /\ s_pastes s `prefix_of` s_pastes s'.
Proof.
  intros Hfuel Hgs Hadd Hfile Hs Hlaw.
  destruct (add_routes_ok gs Hgs) as (routes' & E & Hok). rewrite Hadd in E. injection E as <-.
  destruct (session_crew _ _ _ _ _ _ _ _ _ _ Hs) as [Hc Ht].
  destruct (exec_ok fuel f routes w sock y ep nb 2 ltac:(done) ltac:(lia) Hfile Hok p s t h r Hs)
    as (log & h' & r' & s' & t' & E & Hl & Hs'); [by apply lawful_fair|].
  exists log, h', r', s', t'. split_and!; try done. eapply rounds_pastes; [apply Hc|done].
Qed.

(** C1: Each client gets the answers to its requests, in the order of the requests, each
    once and whole, in a run within the rules of [fair]: all clients, the others too, send
    whole requests, well-formed or rejected by the parser (which ends the connection), a
    paste finds a free bucket, nobody is gone when it is sent to, and no call fails but on
    a connection that is then closed.  How the events of the
    clients mix and how send cuts the answers up is free.  Take a connection that is alone
    on its descriptor, and a run in which nobody else connects on that descriptor.  At the
    end either there is no connection on the descriptor, or it is the same one, and what it has been sent in the run together
    with what is still in its buffer is what was in its buffer at the start followed by
    the answers of the abstract server to its requests.  Here as well the timers that
    are taken out of the tree are at nodes with at most one child. *)
Theorem answers_in_order fuel f gs routes w sock y ep nb cap p s t h r a fd :
  Z.of_nat cap < 2 ^ 64 -> (2 * cap < fuel)%nat ->
  (forall i, gs i <> None) -> add_routes gs = Val routes -> file_ok f ->
  session w sock y ep nb cap s t r h -> fair fuel f w sock y ep nb cap p s t (World h r) -> sole fd a s ->
  exists log h' r', exec fuel f routes w y p (World h r) = Val (log, World h' r') /\
    (Forall (not_connecting fd) (all_events log) ->
     (exists x, conns r' !! a_id a = Some x /\ c_fd x = fd /\
        sent_on fd (trace r') ++ pending x =
        sent_on fd (trace r) ++ a_unsent a ++
          answers f (a_id a) (a_flags a) (s_pastes s) (all_events log)) \/
     (forall c x, conns r' !! c = Some x -> c_worker x = w -> c_fd x <> fd)).
Proof.
  intros Hcap Hfuel Hgs Hadd Hfile Hs Hfair Hsole.
  destruct (add_routes_ok gs Hgs) as (routes' & E & Hok). rewrite Hadd in E. injection E as <-.
  destruct (exec_ok fuel f routes w sock y ep nb cap Hcap Hfuel Hfile Hok p s t h r Hs Hfair)
    as (log & h' & r' & s' & t' & E & Hl & Hs').
  destruct (session_crew _ _ _ _ _ _ _ _ _ _ Hs) as [Hc _], (session_crew _ _ _ _ _ _ _ _ _ _ Hs') as [Hc' _].
  exists log, h', r'. split; [done|]. intros Hnc.
  destruct (rounds_stream f nb cap log s s' fd a (crew_nodup _ _ _ _ _ _ Hc) Hl Hnc Hsole) as [(a' & Hsole' & Hid & Hst)|Hno].
  - left. destruct Hsole' as (Hin & Hfd & _). pose proof (crew_conns _ _ _ _ _ _ Hc') as Hall.
    rewrite Forall_forall in Hall. destruct (Hall a' Hin) as (x & Hx & Hconn). exists x.
    rewrite Hid in Hx. split; [done|]. split; [by rewrite (ic_fd _ _ _ Hconn)|].
    rewrite (is_conn_pending w a' x Hconn), (crew_wire _ _ _ _ _ _ Hc'), (crew_wire _ _ _ _ _ _ Hc).
    unfold stream in Hst. by rewrite Hst, (assoc_L (++)).
  - right. intros c x Hx Hw. pose proof (crew_only _ _ _ _ _ _ Hc' c x Hx Hw) as Hin.
    apply list_elem_of_fmap in Hin as (a' & -> & Hin). pose proof (crew_conns _ _ _ _ _ _ Hc') as Hall.
    rewrite Forall_forall in Hall. destruct (Hall a' Hin) as (x' & Hx' & Hconn). rewrite Hx in Hx'. injection Hx' as <-.
    rewrite (ic_fd _ _ _ Hconn). by apply Hno.
Qed.

(** *** A client on descriptor 5 of a worker at 192

    It posts a paste; the first 10 bytes of the answer go out at once, the rest in the
    next round. *)
Import RbtreeThm.

Definition ex_client : aconn := AConn 16 5 0 [] 100.
Definition ex_state : server := Server [ex_client] [[7; 8]] [].
Definition ex_y : worker := MkWorker 0 3 true 0 1.
Definition ex_timers : tree := T RBBLK E 16 (members (a_timer ex_client)) E.
Definition ex_cells : list (loc * Z) :=
  ((1, Fd), 9) :: Cells.rbtree_cells 1 NULL ex_timers ++
  [((200, Next), 16); ((16, Prev), 200); ((16, Next), 200); ((200, Prev), 16);
   ((16, Fd), 5); ((16, Events), Z.lor EPOLLIN EPOLLET); ((16, EventFlags), 1);
   ((16, EventCb), IO_CALLBACK); ((16, EventData), 16);
   ((192, Fd), 3); ((192, Events), Z.lor EPOLLIN EPOLLET); ((192, EventFlags), 1);
   ((192, EventCb), ON_ACCEPT); ((192, EventData), 192)].
Definition ex_memory : heap := list_to_map ex_cells.

Definition ex_query : query := Query HTTP_METHOD_POST [47] HTTP_VERSION_11 ex_headers (bytes_of "hello").
Definition ex_answer : list Z := response_text HTTP_VERSION_11 HTTP_STATUS_200 true (bytes_of "1").
Definition ex_time (n : Z) : timespec := MkTimespec 0 0 n.
Definition ex_ask : input :=
  Asks 16 ex_query [take 20 CaskThm.ex_post; drop 20 CaskThm.ex_post] (ex_time 201) [10%nat] WouldBlock [].
Definition ex_drain : input := Drains 16 [(length ex_answer - 10)%nat] AllSent [ex_time 203].
Definition ex_asking : list (Z * input) := [(EPOLLIN, ex_ask)].
Definition ex_draining : list (Z * input) := [(EPOLLOUT, ex_drain)].
Definition ex_os (t : timespec) (ins : list (Z * input)) : os :=
  let p := tick t (supplies ins) in
  MkOs (p_recvs p) (p_sends p) [] [] [] (p_clock p) (p_accepts p) [] [] [] [] [] [].
Definition ex_rest (o : os) : rest :=
  MkRest {[16 := new_conn 192 5]} {[192 := MkWorker 0 3 true 1 1]} 1 1 MutexFree o []
    (Db.DbSpec.image_db 4 [[7; 8]]).
Definition ex_play : play :=
  Round (ex_time 200) ex_asking (ex_os (ex_time 200) ex_asking) (fun _ =>
  Round (ex_time 202) ex_draining (ex_os (ex_time 202) ex_draining) (fun _ => Done)).

Lemma ex_owns o : owns ex_cells ⊢ session 192 3 ex_y 9 4 2 ex_state ex_timers (ex_rest o).
Proof.
  unfold ex_cells. rewrite (app_comm_cons _ _ ((1, Fd), 9)).
  rewrite Cells.owns_app. iIntros "[[B T] H2]". iSplitR "T"; [|iSplitR].
  - unfold crew, event_rep, ring, owns. cbn. iFrame.
    iDestruct "H2" as "($ & $ & $ & $ & $ & $ & $ & $ & $ & $ & $ & $ & $ & $ & _)".
  - iPureIntro. split; cbn [ex_state s_conns s_pastes s_wire ex_rest].
    + constructor; [|constructor]. exists (new_conn 192 5). split; [done|]. by split.
    + intros c x Hx _. change (({[16 := new_conn 192 5]} : gmap ptr connection) !! c = Some x) in Hx.
      apply lookup_singleton_Some in Hx as [<- _]. by left.
    + by_compute.
    + cbn. lia.
    + done.
    + exact CaskThm.ex_good.
    + done.
  - rewrite <- Cells.owns_rbtree; [iFrame|by repeat constructor]. iPureIntro.
    split; [split; [done|]; exists 1%nat; repeat constructor|]. split; [|done].
    unfold ordered. cbn. repeat constructor.
Qed.

Lemma ex_session o : session 192 3 ex_y 9 4 2 ex_state ex_timers (ex_rest o) ex_memory.
Proof. apply holds_of_cells; [by_compute|apply ex_owns]. Qed.

Lemma ex_query_ok : q_ok ex_query.
Proof. destruct CaskThm.ex_arrives as [_ _ _ _ Hok Hlen _ _]. by split. Qed.

Lemma ex_respond : respond CaskThm.ex_file [[7; 8]] 0 ex_query = (ex_answer, [[7; 8]; bytes_of "hello"]).
Proof. by vm_compute. Qed.

(** The state after the first round. *)
Definition ex_halfway : server :=
  Server [AConn 16 5 (keepalive HTTP_VERSION_11 0) (drop 10 ex_answer) 201]
    [[7; 8]; bytes_of "hello"] [(5, take 10 ex_answer)].

Definition ex_blocked : aconn := AConn 16 5 (keepalive HTTP_VERSION_11 0) (drop 10 ex_answer) 201.

(** Whatever other connections there are. *)
Lemma ex_ask_step cap l : step CaskThm.ex_file 4 cap (EPOLLIN, ex_ask) (Server (ex_client :: l) [[7; 8]] [])
  (Server (ex_blocked :: l) [[7; 8]; bytes_of "hello"] [(5, take 10 ex_answer)]).
Proof.
  pose proof (step_ask CaskThm.ex_file 4 cap EPOLLIN [] ex_client l [[7; 8]] [] ex_query
    [take 20 CaskThm.ex_post; drop 20 CaskThm.ex_post] (ex_time 201) [10%nat] WouldBlock [] (Some ex_blocked)) as H.
  cbv zeta in H. change (a_flags ex_client) with 0 in H. rewrite ex_respond in H. apply H; clear H.
  - by_compute.
  - done.
  - exact ex_query_ok.
  - by vm_compute.
  - repeat constructor; by_compute.
  - exact CaskThm.ex_room.
  - split; by_compute.
  - apply settles_blocked.
Qed.

(** What is not a request ends the connection. *)
Example ex_drop_step cap l :
  step CaskThm.ex_file 4 cap (EPOLLIN, Drops 16 [bytes_of "FETCH / HTTP/1.1" ++ crlf ++ crlf] (RecvErr EAGAIN))
    (Server (ex_client :: l) [[7; 8]] []) (Server l [[7; 8]] []).
Proof.
  apply (step_drop CaskThm.ex_file 4 cap EPOLLIN [] ex_client l); [by_compute|done|by_compute|..].
  - repeat constructor; by_compute.
  - right. split; [done|]. apply ex_rejected.
Qed.

(** It is the only step. *)
Lemma ex_asking_only s' : step CaskThm.ex_file 4 2 (EPOLLIN, ex_ask) ex_state s' -> s' = ex_halfway.
Proof.
  unfold ex_state, ex_ask. intros H.
  inversion H as [|m l1 b l2 ps wire q chunks t ns e ts after ans a1 Hm Hun Hq Hch Hpc Hroom Hturn Hset E1 E2| | |].
  destruct l1 as [|b1 l1]; [|by destruct l1]. injection E2 as -> ->. subst. unfold ans in *.
  change (a_flags ex_client) with 0 in *. rewrite ex_respond in *.
  inversion Hset; subst. by vm_compute.
Qed.

Lemma ex_draining_step : exists s', step CaskThm.ex_file 4 2 (EPOLLOUT, ex_drain) ex_halfway s'.
Proof.
  eexists. apply (step_drain CaskThm.ex_file 4 2 EPOLLOUT [] ex_blocked [] [[7; 8]; bytes_of "hello"] [(5, take 10 ex_answer)]
    [(length ex_answer - 10)%nat] AllSent [ex_time 203]).
  - by_compute.
  - by vm_compute.
  - split; by_compute.
  - apply (settles_kept _ _ _ (ex_time 203)). by vm_compute.
Qed.

Lemma ex_lawful : lawful 9 CaskThm.ex_file 192 3 ex_y 9 4 2 ex_play ex_state
  (World ex_memory (ex_rest (ex_os (ex_time 0) []))).
Proof.
  cbn [lawful ex_play]. split_and!.
  - eapply admits_cons; [apply ex_ask_step|]. intros s2 _. constructor.
  - repeat constructor; by_compute.
  - split; [by repeat constructor|done..].
  - intros s' t' wd' Hround _. inversion Hround as [|i ins s1 s2 s3 H1 H2]; subst. inversion H2; subst.
    apply ex_asking_only in H1 as ->. split_and!.
    + destruct ex_draining_step as [s3 H3]. eapply admits_cons; [exact H3|]. intros s2 _. constructor.
    + repeat constructor; by_compute.
    + split; [by repeat constructor|done..].
    + done.
Qed.

Lemma ex_tidy : tidy 2 ex_state ex_timers.
Proof. apply (session_crew _ _ _ _ _ _ _ _ _ _ (ex_session (ex_os (ex_time 0) []))). Qed.

Lemma ex_fair : fair 9 CaskThm.ex_file 192 3 ex_y 9 4 2 ex_play ex_state ex_timers
  (World ex_memory (ex_rest (ex_os (ex_time 0) []))).
Proof. apply lawful_fair; [lia|exact ex_tidy|exact ex_lawful]. Qed.

Lemma worker_never_stuck_witness : exists log h' r',
  exec 9 CaskThm.ex_file CaskThm.ex_table 192 ex_y ex_play (World ex_memory (ex_rest (ex_os (ex_time 0) []))) =
    Val (log, World h' r').
Proof.
  destruct (worker_never_stuck 9 CaskThm.ex_file CaskThm.ex_zeros CaskThm.ex_table 192 3 ex_y 9 4 2 ex_play ex_state
    ex_timers ex_memory (ex_rest (ex_os (ex_time 0) [])) ltac:(lia) ltac:(lia) ltac:(done) ltac:(by vm_compute)
    ltac:(by split) (ex_session _) ex_fair) as (log & h' & r' & s' & t' & H & _).
  by exists log, h', r'.
Defined.

Lemma two_connections_never_stuck_witness : exists log h' r',
  exec 9 CaskThm.ex_file CaskThm.ex_table 192 ex_y ex_play (World ex_memory (ex_rest (ex_os (ex_time 0) []))) =
    Val (log, World h' r').
Proof.
  destruct (two_connections_never_stuck 9 CaskThm.ex_file CaskThm.ex_zeros CaskThm.ex_table 192 3 ex_y 9 4 ex_play ex_state
    ex_timers ex_memory (ex_rest (ex_os (ex_time 0) [])) ltac:(lia) ltac:(done) ltac:(by vm_compute)
    ltac:(by split) (ex_session _) ex_lawful) as (log & h' & r' & s' & t' & H & _).
  by exists log, h', r'.
Defined.

Lemma answers_in_order_witness : exists log h' r',
  exec 9 CaskThm.ex_file CaskThm.ex_table 192 ex_y ex_play (World ex_memory (ex_rest (ex_os (ex_time 0) []))) =
    Val (log, World h' r').
Proof.
  destruct (answers_in_order 9 CaskThm.ex_file CaskThm.ex_zeros CaskThm.ex_table 192 3 ex_y 9 4 2 ex_play ex_state
    ex_timers ex_memory (ex_rest (ex_os (ex_time 0) [])) ex_client 5 ltac:(lia) ltac:(lia) ltac:(done)
    ltac:(by vm_compute) ltac:(by split) (ex_session _) ex_fair) as (log & h' & r' & H & _).
  - split; [by left|]. split; [done|]. intros b Hb _. by apply list_elem_of_singleton in Hb.
  - exists log, h', r'. exact H.
Defined.

(** *** Three clients

    The same client asks; the root of the tree is the timer of the second. *)
Definition ex_second : aconn := AConn 32 6 0 [] 110.
Definition ex_third : aconn := AConn 48 7 0 [] 120.
Definition ex_three : server := Server [ex_client; ex_second; ex_third] [[7; 8]] [].
Definition three_tree : tree :=
  T RBBLK (T RBRED E 16 (members (a_timer ex_client)) E) 32 (members (a_timer ex_second))
    (T RBRED E 48 (members (a_timer ex_third)) E).
Definition event_cells (e : ptr) (m : event) : list (loc * Z) :=
  [((e, Fd), e_fd m); ((e, Events), e_events m); ((e, EventFlags), e_flags m); ((e, EventCb), e_cb m);
   ((e, EventData), e_data m)].
Definition three_cells : list (loc * Z) :=
  ((1, Fd), 9) :: Cells.rbtree_cells 1 NULL three_tree ++
  [((200, Next), 16); ((16, Prev), 200); ((16, Next), 32); ((32, Prev), 16); ((32, Next), 48); ((48, Prev), 32);
   ((48, Next), 200); ((200, Prev), 48)] ++
  event_cells 16 (a_event ex_client) ++ event_cells 32 (a_event ex_second) ++ event_cells 48 (a_event ex_third) ++
  event_cells 192 (listening 192 3).
Definition three_memory : heap := list_to_map three_cells.
Definition three_rest (o : os) : rest :=
  MkRest {[16 := new_conn 192 5; 32 := new_conn 192 6; 48 := new_conn 192 7]}
    {[192 := MkWorker 0 3 true 3 1]} 1 1 MutexFree o [] (Db.DbSpec.image_db 4 [[7; 8]]).

Lemma owns_event e m : owns (event_cells e m) ⊣⊢ event_rep e m.
Proof. unfold owns, event_cells, event_rep. cbn. by rewrite bi.sep_emp. Qed.

Lemma three_tree_ok : tree_ok ex_three three_tree.
Proof.
  split; [split; [done|]; exists 1%nat; repeat constructor|]. split; [|done].
  unfold ordered. repeat constructor; unfold le_key; by_compute.
Qed.

Lemma three_crew o : crew_ok 192 ex_y 4 3 ex_three (three_rest o).
Proof.
  split; cbn [ex_three s_conns s_pastes s_wire three_rest conns workers store trace].
  - repeat constructor; eexists; (split; [by vm_compute|by split]).
  - intros c x [[<- _]|[_ [[<- _]|[_ [<- _]%lookup_singleton_Some]]%lookup_insert_Some]]%lookup_insert_Some _;
      by_compute.
  - by_compute.
  - by_compute.
  - done.
  - exact CaskThm.ex_good.
  - done.
Qed.

Lemma three_session o : session 192 3 ex_y 9 4 3 ex_three three_tree (three_rest o) three_memory.
Proof.
  apply holds_of_cells; [by_compute|]. unfold three_cells. rewrite (app_comm_cons _ _ ((1, Fd), 9)).
  rewrite !Cells.owns_app, !owns_event. iIntros "[[B T] (R & E1 & E2 & E3 & W)]".
  iDestruct (Cells.owns_rbtree with "T") as "T"; [by repeat constructor|]. unfold SessionSpec.session.
  iFrame "T". iSplit; [|iPureIntro; split; [apply three_crew|apply three_tree_ok]].
  unfold crew, ring, owns. cbn. iFrame.
  iDestruct "R" as "($ & $ & $ & $ & $ & $ & $ & $ & _)".
Qed.

Definition three_after : server :=
  Server [ex_blocked; ex_second; ex_third] [[7; 8]; bytes_of "hello"] [(5, take 10 ex_answer)].

(** No timer is due, and that of the client that asks is at a leaf. *)
Lemma three_can_round : can_round CaskThm.ex_file 4 3 (ex_time 200) ex_asking ex_three three_tree.
Proof.
  intros t1 (es1 & es2 & He & H1 & _ & Hsw). destruct es1 as [|e es1].
  - assert (t1 = three_tree) as -> by by inversion Hsw.
    destruct (replay (ops_of ex_ask ex_three three_after) three_tree) as [t2|] eqn:Er; [|by vm_compute in Er].
    apply (can_run_cons _ _ _ _ _ _ _ three_after t2); [|intros; constructor].
    split; [apply ex_ask_step|apply replay_retimed, Er].
  - exfalso. injection He as <- _. apply Forall_cons in H1 as [H1 _]. by vm_compute in H1.
Qed.

Lemma round_refines_witness : exists ret h' r',
  event_base_iter (call_timer 9) (call_event 9 CaskThm.ex_table (call_route 9 CaskThm.ex_file)) 9 1 1 [(EPOLLIN, 16)]
    (World three_memory (three_rest (ex_os (ex_time 200) ex_asking))) = Val (ret, World h' r') /\ ret = OK.
Proof.
  pose proof (round_refines 9 CaskThm.ex_file CaskThm.ex_zeros CaskThm.ex_table 192 3 ex_y 9 4 3 (ex_time 200) ex_asking
    ex_three three_tree (three_rest (ex_os (ex_time 200) ex_asking)) ltac:(lia) ltac:(lia) ltac:(done) ltac:(by vm_compute)
    ltac:(by split) three_can_round ltac:(repeat constructor; by_compute) ltac:(split; [by repeat constructor|done..]))
    as H0.
  destruct (wtriple_run _ _ _ _ three_memory H0 (three_session _))
    as (ret & h' & r' & H & s' & t' & h1 & h2 & _ & _ & _ & (Hret & _)).
  exists ret, h', r'. split; [exact H|exact Hret].
Defined.
End SessionThm.
