(* ===== verification/SessionStop.v ===== *)
(** The end of a worker that serves the clients of Session.v: destroy_worker closes
    every connection and gives everything back, and the thread as a whole runs its
    rounds and ends. *)
From stdpp Require Import sorting.
From S2P Require Import Prelude Buffer Http Request RequestSpec Array Heap Clist Rbtree RbtreeSpec RbtreeInv RbtreeDel.
From S2P Require Db.
From S2P Require Import RbtreeSearch Timer TimerSpec World Event EventSpec Connection ReadSpec SendSpec.
From S2P Require Import ConnSpec ConnThm Worker WorkerThm Route FileMap Cask Store CaskSpec CaskThm Shared Answer Session SessionTimers SessionSpec SessionRun SessionThm.
Import Rbtree Rep Timer Event Clist ClistSpec Connection Buffer Http Request ParserSpec.

Module SessionStop.
Import Worker Cask CaskSpec Session SessionTimers SessionSpec SessionRun SessionThm.

(** A blind command keeps the globals, next to what it does. *)
Lemma wwp_blind {A} (c : cmd world A) (Q : A -> rest -> heapProp) r : blind c ->
  wwp c (fun a r' => ⌜globals r' = globals r⌝ -∗ Q a r')%I r ⊢ wwp c Q r.
Proof.
  intros Hk. split. intros h H hf Hd. destruct (H hf Hd) as (a & h' & r' & E & Hd' & HQ).
  exists a, h', r'. split_and!; [done|done|].
  pose proof (HQ ∅) as HQ'. rewrite (right_id_L ∅ (∪)) in HQ'.
  apply HQ'; [by apply map_disjoint_empty_r|]. exact (blind_keeps _ _ _ _ Hk E).
Qed.

(** *** Closing all connections *)

Section stopping.
Context (w : ptr) (sock : Z) (y : worker) (ep : Z) (nb cap : nat) (Hcap : Z.of_nat cap < 2 ^ 64).
Abbreviation session := (session w sock y ep nb cap).
Context (fuel : nat) (Hfuel : (2 * cap < fuel)%nat).

(** All the descriptors of [l] have been closed, and nothing but this worker's
    connections has changed. *)
Record all_closed (l : list aconn) (r r' : rest) : Prop := {
  ac_lock : worker_lock r' = worker_lock r;
  ac_num : num_workers r' = num_workers r;
  ac_workers : delete w (workers r') = delete w (workers r);
  ac_trace : trace r `prefix_of` trace r';
  ac_closed : Forall (fun a => SysClose (a_fd a) ∈ trace r') l;
}.

Lemma all_closed_cons a l r r1 r' : closing w (a_fd a) r r1 -> all_closed l r1 r' -> all_closed (a :: l) r r'.
Proof.
  intros [_ H2 H3 H4 H5 H6] [G2 G3 G4 G5 G6]. split; try congruence; [by etransitivity|].
  constructor; [|done]. destruct G5 as [tr ->]. apply elem_of_app. by left.
Qed.

Lemma close_first l a ps wire t t1 r (Q : unit -> rest -> heapProp) : removable (a_id a) (a_timer a) t t1 ->
  session (Server (a :: l) ps wire) t r ⊢
  (∀ r', session (Server l ps wire) t1 r' -∗ ⌜closing w (a_fd a) r r'⌝ -∗ Q tt r') -∗
  wwp (close_connection fuel (a_id a)) Q r.
Proof.
  intros Hr. iIntros "S HQ". iDestruct (session_focus w sock y ep nb cap [] l a with "S") as "(L & A & %Ht & %Hl & %Hok)".
  destruct (crew_at _ _ _ _ [] _ _ _ _ _ Hok) as (x & Hx & Hc). rewrite <- (ic_fd _ _ _ Hc).
  iApply (close_turn w sock y ep nb cap Hcap fuel Hfuel [] a l ps wire r Hok ps wire x r (a_timer a) t t1 (a_event a)
    with "L A HQ").
  - exact (loosened_self _ _ _ _ _ _ a x Hok Hx).
  - apply Hc.
  - done.
Qed.

Lemma session_second s t r : session s t r ⊢
  (default (conns_head w) (head (a_id <$> s_conns s)), Next) ↦ second (conns_head w) (a_id <$> s_conns s) ∗
  ((default (conns_head w) (head (a_id <$> s_conns s)), Next) ↦ second (conns_head w) (a_id <$> s_conns s) -∗
   session s t r).
Proof.
  iIntros "((B & R & E) & H)". iDestruct (ring_second with "R") as "[$ R]". iIntros "N".
  iDestruct ("R" with "N") as "R". unfold SessionSpec.session, crew. iFrame.
Qed.

Lemma session_first s t r : session s t r ⊢
  (conns_head w, Next) ↦ default (conns_head w) (head (a_id <$> s_conns s)) ∗
  ((conns_head w, Next) ↦ default (conns_head w) (head (a_id <$> s_conns s)) -∗ session s t r).
Proof.
  iIntros "((B & R & E) & H)". iDestruct (links_next with "R") as "[$ R]". iIntros "N".
  iDestruct ("R" with "N") as "R". unfold SessionSpec.session, crew. iFrame.
Qed.

Lemma close_all_ok l : forall ps wire t t' r n (Q : unit -> rest -> heapProp), (length l < n)%nat ->
  retimed (stop_ops l) t t' ->
  session (Server l ps wire) t r ⊢
  (∀ r', session (Server [] ps wire) t' r' -∗ ⌜all_closed l r r'⌝ -∗ Q tt r') -∗
  wwp (loop n (close_next fuel (conns_head w))
    (default (conns_head w) (head (a_id <$> l)), second (conns_head w) (a_id <$> l))) Q r.
Proof.
  induction l as [|a l IH]; intros ps wire t t' r [|n] Q Hn Hre; try (cbn in Hn; lia); iIntros "S HQ"; iApply wwp_loop.
  - cbn [fmap list_fmap head default from_option second close_next]. rewrite Z.eqb_refl. w_step.
    apply retimed_nil_inv in Hre as ->. iApply ("HQ" with "S"). iPureIntro. by split.
  - apply retimed_disarm_inv in Hre as (t1 & Hr & Hre). cbn [fmap list_fmap head default from_option id second close_next].
    iAssert (⌜a_id a <> conns_head w⌝)%I as %Hne.
    { iDestruct "S" as "((B & R & E) & H)". iDestruct (links_cons_ne with "R") as %H. done. }
    replace (a_id a =? conns_head w) with false by zlia.
    w_step. iApply (close_first with "S"); [exact Hr|]. iIntros (r1) "S %Hc".
    iDestruct (session_second with "S") as "[N S]". w_step. w_step. cbn [s_conns].
    iApply (hwp_load with "N"). iIntros "N". iDestruct ("S" with "N") as "S". w_step.
    iApply (IH with "S"); [cbn in Hn; lia|done|]. iIntros (r2) "S %Hc2". iApply ("HQ" with "S"). iPureIntro.
    by eapply all_closed_cons.
Qed.

(** *** destroy_worker *)

(** Nothing of the worker is left: its connections and its structure are gone, and
    their descriptors closed. *)
Record destroyed (s : server) (r r' : rest) : Prop := {
  de_conns : forall c x, conns r' !! c = Some x -> c_worker x <> w;
  de_workers : workers r' = delete w (workers r);
  de_num : num_workers r' = u32 (num_workers r - 1);
  de_lock : worker_lock r' = MutexFree;
  de_closed : Forall (fun a => SysClose (a_fd a) ∈ trace r') (s_conns s);
  de_sock : SysClose (w_sock y) ∈ trace r';
  de_epoll : 0 <= ep -> SysClose ep ∈ trace r';
  de_store : good nb (s_pastes s) (store r');
  de_wire : forall fd, sent_on fd (trace r') = wire_on fd (s_wire s);
}.

Lemma destroy_worker_ok s t t' ws1 ws2 r (Q : unit -> rest -> heapProp) :
  worker_lock r = MutexFree -> retimed (stop_ops (s_conns s)) t t' ->
  session s t r ⊢ ring workers_head (ws1 ++ w :: ws2) -∗
  (∀ r', ring workers_head (ws1 ++ ws2) -∗ ⌜destroyed s r r'⌝ -∗ Q tt r') -∗
  wwp (destroy_worker fuel w) Q r.
Proof.
  destruct s as [l ps wire]. intros Hl Hre. iIntros "S R HQ". unfold destroy_worker. cbv zeta.
  iAssert (⌜(length l <= cap)%nat⌝)%I as %Hfew.
  { iDestruct "S" as "(_ & %Hok & _)". iPureIntro. apply (crew_few _ _ _ _ _ _ Hok). }
  iDestruct (session_first with "S") as "[N S]". w_step. w_step. iApply (hwp_load with "N"). iIntros "N".
  iDestruct ("S" with "N") as "S". cbn [s_conns].
  iDestruct (session_second with "S") as "[N S]". w_step. w_step. cbn [s_conns]. iApply (hwp_load with "N").
  iIntros "N". iDestruct ("S" with "N") as "S".
  w_step. iApply (close_all_ok with "S"); [lia|exact Hre|]. iIntros (r1) "S %Hc".
  iDestruct "S" as "((B & RC & _ & W) & %Hok & T & (%Hrb & _ & %He))".
  cbn in He. apply Permutation_nil_r, entries_nil in He. subst t'.
  iEval (unfold rbtree_rep, focus; cbn [path_rep top]) in "T". iDestruct "T" as "[[_ Root] _]".
  pose proof (crew_worker _ _ _ _ _ _ Hok) as Hy. cbn [s_conns length Z.of_nat] in Hy.
  w_step. w_step. w_step. w_step. w_step.
  iApply (destroy_event_base_ok _ ep with "[B Root]"); [unfold base_rep; iFrame|].
  set (r2 := if 0 <=? ep then _ else _).
  assert (worker_lock r2 = MutexFree) as Hl2.
  { unfold r2. destruct (0 <=? ep); cbn; by rewrite (ac_lock _ _ _ Hc). }
  w_step. unfold lock. iApply wwp_rest; [cbn; by rewrite Hl2|].
  w_step. iApply wwp_rest; [done|]. w_step. w_step.
  iApply (list_del_ok workers_head ws1 w ws2 workers_head with "R"). iIntros "(R & N & P)".
  w_step. unfold unlock. iApply wwp_rest; [done|]. w_step. unfold drop_worker. iApply wwp_rest; [done|].
  w_step. iApply (hwp_free with "[N P RC W]").
  { unfold event_rep, ring. cbn. iDestruct "W" as "(E1 & E2 & E3 & E4 & E5)".
    iDestruct "RC" as "[HN HP]". iFrame. }
  iApply ("HQ" with "R"). iPureIntro. destruct Hok as [_ Honly _ _ _ Hst Hwi]. cbn in Honly, Hst, Hwi.
  assert (conns r2 = conns r1 /\ workers r2 = workers r1 /\ num_workers r2 = num_workers r1 /\
    store r2 = store r1 /\
    trace r2 = trace r1 ++ SysClose (w_sock y) :: (if 0 <=? ep then [SysClose ep] else [])) as (E1 & E2 & E3 & E4 & E5).
  { unfold r2. destruct (0 <=? ep); cbn; [|done]. by rewrite <- (assoc_L (++)). }
  split; cbn [conns workers num_workers worker_lock trace store set_workers set_worker_lock set_num_workers].
  - intros c x. rewrite E1. intros Hx Hw. specialize (Honly c x Hx Hw). by apply elem_of_nil in Honly.
  - by rewrite E2, (ac_workers _ _ _ Hc).
  - by rewrite E3, (ac_num _ _ _ Hc).
  - done.
  - eapply Forall_impl; [exact (ac_closed _ _ _ Hc)|]. intros a Ha. rewrite E5. apply elem_of_app. by left.
  - rewrite E5. apply elem_of_app. right. by left.
  - intros Hep. rewrite E5. replace (0 <=? ep) with true by zlia. apply elem_of_app. right. right. by left.
  - by rewrite E4.
  - intros fd. rewrite E5, sent_on_app, Hwi. unfold sent_on. destruct (0 <=? ep); cbn; apply app_nil_r.
Qed.
End stopping.

(** ** The thread *)

(** What epoll_wait reports in some rounds; the main thread clears [running] in the
    last one. *)
Fixpoint rounds_of (w : ptr) (log : list (timespec * list (Z * input))) : list Worker.round :=
  match log with
  | [] => []
  | rd :: log =>
      MkRound (Z.of_nat (length (snd rd))) (reported w (snd rd)) (match log with [] => true | _ => false end) ::
      rounds_of w log
  end.

Section thread.
Context (fuel : nat) (f : File.file) (routes : option (Array.array_header_t Route.route)).
Context (w : ptr) (sock : Z) (ep : Z) (nb cap : nat) (Hcap : Z.of_nat cap < 2 ^ 64).
Context (Hfuel : (2 * cap < fuel)%nat) (Hfile : file_ok f) (Hroutes : routes_ok routes).
Abbreviation session := (session w sock).

Lemma session_worker y s t r : session y ep nb cap s t r ⊢
  ⌜workers r !! w = Some (set_num_conns (Z.of_nat (length (s_conns s))) y)⌝.
Proof. iIntros "(_ & %Hok & _)". iPureIntro. apply Hok. Qed.

(** [running] is set or cleared. *)
Lemma session_running b y s t r x : session y ep nb cap s t r ⊢
  session (set_running b y) ep nb cap s t
    (set_workers (<[w := set_running b (set_num_conns (Z.of_nat (length (s_conns s))) y)]> x) r).
Proof.
  iIntros "(C & %Hok & T)". unfold SessionSpec.session. change (w_base (set_running b y)) with (w_base y).
  iFrame. iPureIntro. destruct Hok. split; try done. cbn [workers set_workers]. by rewrite lookup_insert_eq.
Qed.

Lemma worker_loop_ok log : forall y s t r (Q : Z -> rest -> heapProp), log <> [] -> w_running y = true ->
  can_play f nb cap log s t -> Forall (fun i => short fuel (snd i)) (all_events log) ->
  offers (supply_rounds log) (outside r) ->
  session y ep nb cap s t r ⊢
  (∀ s' t' r', ⌜rounds f nb cap log s s' /\ exists t0, retimed (stop_ops (s_conns s')) t' t0⌝ -∗
     session (set_running false y) ep nb cap s' t' r' -∗ Q 0 r') -∗
  wwp (worker_loop fuel routes (call_route fuel f) w (w_base y) (rounds_of w log)) Q r.
Proof.
  induction log as [|[now ins] log IH]; intros y s t r Q Hne Hrun Hplay Hsh Hp; [done|].
  inversion Hplay as [|now' ins' log' s0 t0 Had Hnext]; subst. unfold all_events in Hsh. cbn in Hsh.
  apply Forall_app in Hsh as [Hsh1 Hsh].
  iIntros "S HQ". cbn [rounds_of worker_loop snd]. iDestruct (session_worker with "S") as %Hy.
  w_step. w_step. change (w_running (set_num_conns _ y)) with (w_running y). rewrite Hrun. cbn [negb Worker.ready Worker.evs Worker.stops].
  w_step. iApply (round_turn w sock y ep nb cap Hcap fuel Hfuel f Hfile routes Hroutes now ins s t r (supply_rounds log)
    with "S"); [done|done|exact Hp|].
  iIntros (s1 t1 r1 Hr1) "S %Hp1". change (negb (OK =? OK)) with false. cbn iota.
  pose proof (full_round_round _ _ _ _ _ _ _ _ _ Hr1) as Hr1'. apply Hnext in Hr1.
  iDestruct (session_worker with "S") as %Hy1.
  destruct log as [|rd log]; cbn [when].
  - w_step. w_step. iDestruct (session_running false y s1 t1 r1 (workers r1) with "S") as "S".
    cbn [rounds_of worker_loop]. iDestruct (session_worker with "S") as %Hy2.
    w_step. w_step. change (w_running (set_num_conns _ (set_running false y))) with false. cbn [negb]. w_step.
    iApply ("HQ" with "[%] S"). inversion Hr1 as [s2 t2 t3 Hstop|]; subst.
    split; [econstructor; [done|constructor]|by exists t3].
  - w_step. w_step. iApply (IH y with "S"); [done|done|done|done|done|].
    iIntros (s2 t2 r2 [Hr2 Hstop]) "S". iApply ("HQ" with "[%] S"). split; [by econstructor|done].
Qed.

(** What is left of the rest of the world when the thread has ended in state [s]. *)
Record ended (y : worker) (s : server) (r r' : rest) : Prop := {
  en_conns : forall c x, conns r' !! c = Some x -> c_worker x <> w;
  en_worker : workers r' !! w = None;
  en_num : num_workers r' = u32 (num_workers r - 1);
  en_lock : worker_lock r' = MutexFree;
  en_closed : Forall (fun fd => SysClose fd ∈ trace r') (w_sock y :: (a_fd <$> s_conns s));
  en_epoll : 0 <= ep -> SysClose ep ∈ trace r';
  en_store : good nb (s_pastes s) (store r');
  en_wire : forall fd, sent_on fd (trace r') = wire_on fd (s_wire s);
}.

Lemma worker_proc_ok log y s t ws1 ws2 r : log <> [] -> worker_lock r = MutexFree ->
  can_play f nb cap log s t -> Forall (fun i => short fuel (snd i)) (all_events log) ->
  offers (supply_rounds log) (outside r) ->
  wtriple (session y ep nb cap s t r ∗ ring workers_head (ws1 ++ w :: ws2))%I r
    (worker_proc fuel routes (call_route fuel f) w (rounds_of w log))
    (fun ret r' => ring workers_head (ws1 ++ ws2) ∗
       ⌜ret = 0 /\ exists s', rounds f nb cap log s s' /\ ended y s' r r'⌝)%I.
Proof.
  intros Hne Hlock Hplay Hsh Hp. apply wtriple_wwp. iIntros "[S R]". unfold worker_proc. cbv zeta.
  iDestruct (session_worker with "S") as %Hy. w_step. w_step. w_step. w_step.
  iDestruct (session_running true y s t r (workers r) with "S") as "S".
  set (r1 := set_workers _ r). w_step. iApply wwp_blind; [apply blind_worker_loop|].
  iApply (worker_loop_ok log (set_running true y) s t r1 with "S"); [done..|].
  iIntros (s2 t2 r2 [Hr2 [t3 Hstop]]) "S %Hg". change (globals r1) with (globals r) in Hg. apply globals_eq in Hg as (Hl2 & Hn2 & _).
  w_step. iApply (destroy_worker_ok w sock (set_running false (set_running true y)) ep nb cap Hcap fuel Hfuel s2 t2 t3
    ws1 ws2 r2 with "S R"); [by rewrite Hl2|done|].
  iIntros (r3) "R %Hd". w_step. iFrame "R". iPureIntro. split; [done|]. exists s2. split; [done|].
  destruct Hd as [H1 H2 H3 H4 H5 H6 H7 H8 H9]. split; try done.
  - rewrite H2. apply lookup_delete_eq.
  - by rewrite H3, Hn2.
  - constructor; [exact H6|]. by apply Forall_fmap.
Qed.
End thread.

(** C5: The whole life of a worker's thread.  From the list of workers and a world
    that represents state [s] with timers [t], with a free lock, worker_proc runs any
    rounds within the rules of [fair] (whole requests, well-formed or rejected by the
    parser, a free bucket for a paste, nobody gone when sent to, no failing call but on a connection that is then
    closed), in the last of which [running] is cleared; it returns 0, after a run of the
    abstract worker with these rounds.  By then
    destroy_worker has closed every connection that was left, the listening socket and
    the epoll descriptor; no connection of the worker and no worker is left in the
    world, it is out of the list of workers and of their number, the lock is free, and
    the pastes and all that has been sent are those of the final state.  The timers that
    are taken out of the tree, by the rounds and by destroy_worker at the end, are at nodes
    with at most one child ([can_play]); otherwise destroy_worker, too, can leave a freed
    timer in the tree. *)
Theorem thread_serves_and_ends fuel f gs routes w sock y ep nb cap log s t ws1 ws2 r :
  Z.of_nat cap < 2 ^ 64 -> (2 * cap < fuel)%nat ->
  (forall i, gs i <> None) -> add_routes gs = Val routes -> file_ok f ->
  log <> [] -> worker_lock r = MutexFree ->
  can_play f nb cap log s t -> Forall (fun i => short fuel (snd i)) (all_events log) ->
  offers (supply_rounds log) (outside r) ->
  wtriple (session w sock y ep nb cap s t r ∗ ring workers_head (ws1 ++ w :: ws2))%I r
    (worker_proc fuel routes (call_route fuel f) w (rounds_of w log))
    (fun ret r' => ring workers_head (ws1 ++ ws2) ∗
       ⌜ret = 0 /\ exists s', rounds f nb cap log s s' /\ ended w ep nb y s' r r'⌝)%I.
Proof.
  intros Hcap Hfuel Hgs Hadd Hfile. destruct (add_routes_ok gs Hgs) as (routes' & E & Hok).
  rewrite Hadd in E. injection E as <-. by apply worker_proc_ok.
Qed.

(** *** The client of SessionThm.v, and then the end *)
Definition ex_log : list (timespec * list (Z * input)) :=
  [(ex_time 200, ex_asking); (ex_time 202, ex_draining)].
Definition ex_listed : heap :=
  list_to_map (ex_cells ++ [((8, Next), 192); ((192, Prev), 8); ((192, Next), 8); ((8, Prev), 192)]).
Definition ex_supply : os :=
  let p := supply_rounds ex_log in
  MkOs (p_recvs p) (p_sends p) [] [] [] (p_clock p) (p_accepts p) [] [] [] [] [] [].

Lemma ex_listed_holds : (session 192 3 ex_y 9 4 2 ex_state ex_timers (ex_rest ex_supply) ∗ ring workers_head ([] ++ 192 :: []))%I ex_listed.
Proof.
  apply holds_of_cells; [by_compute|]. rewrite RbtreeThm.Cells.owns_app, ex_owns. iIntros "[$ H]".
  unfold ring, owns. cbn. iDestruct "H" as "($ & $ & $ & $ & _)".
Qed.

Lemma ex_playable : playable CaskThm.ex_file 4 2 ex_log ex_state.
Proof.
  pose proof ex_lawful as (Had & _ & _ & _). econstructor; [exact Had|].
  intros s' Hr. inversion Hr as [|i ins s1 s2 s3 H1 H2]; subst. inversion H2; subst.
  apply ex_asking_only in H1 as ->. destruct ex_draining_step as [s3 H3].
  econstructor; [|constructor]. eapply admits_cons; [exact H3|]. intros s2 _. constructor.
Qed.

Lemma thread_serves_and_ends_witness : exists h' r',
  worker_proc 9 CaskThm.ex_table (call_route 9 CaskThm.ex_file) 192 (rounds_of 192 ex_log)
    (World ex_listed (ex_rest ex_supply)) = Val (0, World h' r') /\
  SysClose 3 ∈ trace r' /\ workers r' !! 192 = None.
Proof.
  pose proof (thread_serves_and_ends 9 CaskThm.ex_file CaskThm.ex_zeros CaskThm.ex_table 192 3 ex_y 9 4 2 ex_log ex_state
    ex_timers [] [] (ex_rest ex_supply) ltac:(lia) ltac:(lia) ltac:(done) ltac:(by vm_compute) ltac:(by split)
    ltac:(done) eq_refl (playable_can_play CaskThm.ex_file 4 2 ltac:(lia) _ _ _ ex_tidy ex_playable)
    ltac:(repeat constructor; by_compute) ltac:(split; [by repeat constructor|done..])) as H0.
  destruct (wtriple_run _ _ _ _ ex_listed H0 ex_listed_holds)
    as (ret & h' & r' & H & h1 & h2 & _ & _ & _ & (-> & s' & Hr & [_ He _ _ Hc _ _ _])).
  exists h', r'. split; [exact H|]. split; [|exact He]. by apply Forall_cons in Hc as [Hc _].
Defined.
End SessionStop.
